(* ===== verification/_CoqProject ===== *)
-Q . S2P
Prelude.v
WalConstants.v
Sbbf.v
Codec.v
WalTypes.v
WalCodec.v
DiskFormat.v
HashChain.v
Datablock.v
WireFrame.v
SegmentSummary.v
Lru.v
NegativeLookup.v
Lease.v
Election.v
MemCache.v
LogSegment.v
LogSync.v
ReadFilter.v
ReverseScan.v
WritePath.v
FsyncCommit.v
Coordinator.v
AggregateLoad.v
Versions.v
Deletes.v
Durability.v
ReadObjects.v
ReplicationQueues.v
Follower.v
Catchup.v
Replicate.v
RecentWrites.v
ReadPath.v
