(* ===== verification/Prelude.v ===== *)
(** * Celeriant: a verification development

    Celeriant is an event store.  Clients append batches of events to
    aggregates; a shard orders them in a write-ahead log of fixed-size
    segments, answers from caches over that log, and replicates it.  One node
    at a time leads, by a lease in an object store.  This development models
    the log and what surrounds it, from the bytes of a block to the answer a
    client gets, and proves the parts against each other.

    ** Conventions

    Bytes are lists of [Z], machine integers are [Z] with their width written
    out ([fits], [wrapping_add], [saturating_add]).  A Rust [Result] is
    [result], a panic is [None] of an [option] or [Panicked] of an [outcome];
    a computation over shared state is an [effect].  Functions the source
    takes from other crates (bincode, CRC-32C, BLAKE3, XXH3, the compressor,
    schema compilers, the object store, the LRU cache, DMA files) are
    parameters: type classes with the laws that are used, each with an
    instance that the witnesses run on.  Loops over input are structural or
    have fuel; the fuel is the length of what is consumed, and where it is
    given as a number a theorem shows that it does not run out ([scan_total],
    [negative_lookup_eviction]).

    ** Data at rest

    - [WalConstants], [WalTypes], [WalCodec]: [celeriant_wal/src], the sizes
      and alignments, the metablocks and datablocks, keys and headers, and
      their fixed binary layout.
    - [Sbbf], [SegmentSummary]: split-block Bloom filters, client sets, the
      schema accumulator and the summary of a sealed segment.  No filter
      forgets a key; trimming a summary fits the limit with the fewest sets
      dropped.
    - [Codec], [DiskFormat]: [celeriant_wire/src/disk], checksummed blocks and
      the readers that take one field out of a block.  Blocks round-trip,
      corruption is detected, and each reader agrees with decoding the block.
    - [Datablock]: inline and external bodies with compression; what is
      serialised is read back.
    - [WireFrame]: frames on a connection, their limits and round trips.
    - [HashChain]: the hash of an entry and the check of a batch.  Two logs
      with the same tip are the same log, or blake3 takes two inputs that were
      hashed for them to one value.

    ** The log of a shard

    - [LogSegment]: cursors, metadata, the dual header
      ([celeriant_rotating_log/src/log_segment_file]).
    - [LogSync]: [sync] of [celeriant_shard/src/shard_wal_sync.rs].
      [segment_holds] says what a segment means: the log of its entries, their
      positions, chain, backlinks and datablocks.  A completed [sync] appends
      its batch to that log; one that is cut off at any byte leaves the log as
      it was.
    - [ReverseScan]: [reverse_metablock_scanner.rs] with the record reader of
      [celeriant_disk].  A scan visits the entries of the log, newest first,
      and following the backlinks of an aggregate visits exactly its entries;
      a scan of arbitrary bytes ends without a panic.
    - [ReadObjects]: [read_objects_absolute.rs] of [celeriant_disk].  Objects at
      ascending positions are read exactly, whatever the chunk size.
    - [ReadFilter]: the filters of a read.  The filter on metablocks hides no
      event the filter on events would keep.

    ** Caches and requests

    - [MemCache]: the write side of [celeriant_memcache/src/shard_mem_cache.rs].
    - [Lru], [NegativeLookup]: the cache that answers that a client has never
      written to an aggregate.  It is never wrong about that, whatever commits
      happen while an entry is built.
    - [WritePath]: the handlers [write], [trim_start] and [delete] of
      [celeriant_shard/src/shard_wal.rs], cut at their awaits.
    - [FsyncCommit]: the two phases of an fsync cycle around [sync].
    - [Coordinator]: [celeriant_shard/src/amortisation], as a step relation
      over tasks.  An [Ok] is only given for work that a capture took and a
      sync ended, in every interleaving.
    - [AggregateLoad]: what looking an aggregate up in the log leaves in the
      caches: exact for that aggregate, not for the others it meets.
    - [Versions], [Deletes]: requests, lookups, evictions and fsyncs as a
      system.  Without deletes the versions and event sequences of an
      aggregate are consecutive and a version check compares with the newest;
      the second file shows the two ways in which a delete breaks this.
    - [Durability]: these together.  When a handler answers [Ok], the blocks
      it queued are entries of the log.

    ** Replication

    - [ReplicationQueues]: the queues of batches that are durable and not yet
      visible ([shard_mem_cache.rs], [pending_commit_data.rs]), the cursors of
      the open segments ([log_segments_cache.rs]) and [commit_pcd].  A follower
      makes visible exactly what the leader confirms, in order.
    - [Follower]: [handle_replication_batch] of [shard_wal.rs], cut at its
      fsync, over [apply_external_batch] of [shard_wal_s3_catchup.rs].  A batch
      is accepted exactly when the follower's log agrees with the leader's, and
      then extends the agreement; a request that is refused changes nothing
      but the observed leader; one that is sent again before its fsync ends is
      applied twice.
    - [Catchup]: [fetch_catchup_entries.rs] and [collect_from_disk.rs].  The
      entries a follower lacks are read from the log with their bodies, in
      order, or it is found to be too far behind.
    - [Replicate]: the leader's cycle, [shard_wal_replicate.rs] and
      [replicate_follower_catchup.rs], over a network and an executor given by
      type classes; while it awaits, other tasks do anything to what they
      share.  A cycle ends within its retries ([SPIN_FUEL]: each sleeps 50 ms
      at least and the loop gives up after 30 s); the captured batches are
      committed once and in order after they were delivered, or they are back
      in the queue.  Catch-up brings a follower that keeps its contract to the
      leader's log.

    ** Reading

    - [RecentWrites]: the cache of recent writes ([aggregate_recent_write.rs]
      and [shard_mem_cache.rs]).  What it answers for an aggregate is the end
      of what was committed, whatever was evicted, trimmed or deleted.
    - [ReadPath]: the handler [read] of [shard_wal.rs] over that cache, the
      scan of the log and the bodies of [Catchup], and the iterator of
      [celeriant_client_tokio] that follows its cursor.  A response is an
      exact page, and the iterator returns every batch once and in order; with
      two exceptions, which are shown: a page that is cut in front of cached
      batches, and an aggregate that was deleted and written again.  The
      iterator is a function with fuel; its theorem gives fuel that is enough,
      and more does no harm.

    ** Leadership

    - [Lease], [Election]: the lease and membership objects, node status, and
      the election over a store with compare-and-swap
      ([celeriant_distributed/src]).  No two nodes hold the same epoch, and no
      two act as leader at the same time when clocks agree within the bounds
      stated.

    ** Not modelled

    Catch-up from the object store and the connections between nodes are not
    modelled: a cycle takes what a send answers, the write path takes the
    result of a replication round, and a rollback may cut the log back to
    anything the segments hold.  Compaction, listing, the
    server, the connections of the clients, TLS, tools and benchmarks are not
    modelled; they are I/O, wiring of the parts above, or programs beside the
    server.  Metrics, tracing and timing have no effect in the model: where the
    code may wait, the model may do anything else first; only a read sees one
    state of the caches and of the segments.
    The LRU order of the caches is not modelled except in [NegativeLookup]. *)

From Stdlib Require Export ZArith Lia.
From stdpp Require Export base numbers list list_numbers gmap strings sorting.

#[export] Set Default Goal Selector "!".

Declare Scope rust_scope.
Delimit Scope rust_scope with rust.
Open Scope Z_scope.

#[global] Arguments Nat.div : simpl never.
#[global] Arguments Nat.modulo : simpl never.
#[global] Arguments Nat.sub : simpl nomatch.
#[global] Arguments Z.div : simpl never.
#[global] Arguments Z.modulo : simpl never.
#[global] Arguments Z.pow : simpl never.
#[global] Arguments Z.of_nat : simpl never.
#[global] Arguments Z.to_nat : simpl never.

(** ** Results

    Rust's [Result<A, E>].  A panic (an out-of-range slice, an [unwrap] of
    [None]) is modelled by [option], [None] being the panic. *)

Inductive result (E A : Type) : Type :=
  | Ok (a : A)
  | Err (e : E).
Arguments Ok {E A} a.
Arguments Err {E A} e.

#[global] Instance result_ret {E} : MRet (result E) := fun A a => Ok a.
#[global] Instance result_bind {E} : MBind (result E) :=
  fun A B f r => match r with Ok a => f a | Err e => Err e end.
#[global] Instance result_fmap {E} : FMap (result E) :=
  fun A B f r => match r with Ok a => Ok (f a) | Err e => Err e end.

Definition is_ok {E A} (r : result E A) : bool :=
  match r with Ok _ => true | Err _ => false end.

Definition map_err {E F A} (f : E -> F) (r : result E A) : result F A :=
  match r with Ok a => Ok a | Err e => Err (f e) end.

(** [Option::ok_or]. *)
Definition ok_or {E A} (o : option A) (e : E) : result E A :=
  match o with Some a => Ok a | None => Err e end.

Lemma bind_Ok {E A B} (r : result E A) (f : A -> result E B) b :
  (r ≫= f) = Ok b <-> exists a, r = Ok a /\ f a = Ok b.
Proof. destruct r; naive_solver. Qed.

Lemma bind_Err {E A B} (r : result E A) (f : A -> result E B) e :
  (r ≫= f) = Err e <-> r = Err e \/ exists a, r = Ok a /\ f a = Err e.
Proof. destruct r; naive_solver. Qed.

(** Code that may also panic. *)
Inductive outcome (E A : Type) : Type :=
  | Done (a : A)
  | Failed (e : E)
  | Panicked.
Arguments Done {E A} a.
Arguments Failed {E A} e.
Arguments Panicked {E A}.

#[global] Instance outcome_ret {E} : MRet (outcome E) := fun A a => Done a.
#[global] Instance outcome_bind {E} : MBind (outcome E) :=
  fun A B f r => match r with Done a => f a | Failed e => Failed e | Panicked => Panicked end.

(** [expr?] on a result, and an operation that panics. *)
Definition from_result {E F A} (f : F -> E) (r : result F A) : outcome E A :=
  match r with Ok a => Done a | Err e => Failed (f e) end.
Definition or_panic {E A} (o : option A) : outcome E A :=
  match o with Some a => Done a | None => Panicked end.

Lemma Done_inj {E A} (a a' : A) : Done (E := E) a = Done a' -> a = a'.
Proof. by intros [=]. Qed.

(** ** Machine integers

    An unsigned [w]-bit integer is a [Z] in [0 <= x < 2^w]; the release
    profile of the crate leaves overflow checks off, so the plain operators
    wrap. *)

Definition fits (w x : Z) : Prop := 0 <= x < 2 ^ w.
Notation u8 := (fits 8).
Notation u32 := (fits 32).
Notation u64 := (fits 64).
Notation u128 := (fits 128).

Definition U64_MAX : Z := 2 ^ 64 - 1.
Definition U32_MAX : Z := 2 ^ 32 - 1.

Definition wrap (w x : Z) : Z := x mod 2 ^ w.
Definition wrapping_add (w a b : Z) : Z := wrap w (a + b).
Definition wrapping_sub (w a b : Z) : Z := wrap w (a - b).
Definition wrapping_mul (w a b : Z) : Z := wrap w (a * b).
Definition saturating_add (w a b : Z) : Z := Z.min (a + b) (2 ^ w - 1).
Definition saturating_sub (a b : Z) : Z := Z.max 0 (a - b).
Definition saturating_mul (w a b : Z) : Z := Z.min (a * b) (2 ^ w - 1).
Definition checked_add (w a b : Z) : option Z :=
  if a + b <? 2 ^ w then Some (a + b) else None.
Definition checked_sub (a b : Z) : option Z :=
  if b <=? a then Some (a - b) else None.
Definition bit_not (w a : Z) : Z := 2 ^ w - 1 - a.
Definition is_power_of_two (x : Z) : bool := (0 <? x) && (x =? 2 ^ Z.log2 x).

#[global] Instance fits_dec w x : Decision (fits w x).
Proof. unfold fits. apply _. Defined.

Create HintDb cel.

Lemma pow2_pos w : 0 <= w -> 0 < 2 ^ w.
Proof. intros. apply Z.pow_pos_nonneg; lia. Qed.
#[export] Hint Resolve pow2_pos : cel.

Lemma wrap_fits w x : 0 <= w -> fits w (wrap w x).
Proof. intros. unfold fits, wrap. apply Z.mod_pos_bound; auto with cel. Qed.

Lemma wrap_small w x : fits w x -> wrap w x = x.
Proof. intros. apply Z.mod_small. done. Qed.

Lemma saturating_add_fits w a b : 0 <= a -> 0 <= b -> 0 <= w -> fits w (saturating_add w a b).
Proof.
  intros. unfold fits, saturating_add. pose proof (pow2_pos w). lia.
Qed.

Lemma saturating_sub_fits w a b : fits w a -> 0 <= b -> fits w (saturating_sub a b).
Proof. unfold fits, saturating_sub. lia. Qed.

Lemma checked_add_Some w a b c :
  checked_add w a b = Some c <-> c = a + b /\ a + b < 2 ^ w.
Proof. unfold checked_add. destruct (Z.ltb_spec (a + b) (2 ^ w)); naive_solver lia. Qed.

Lemma checked_add_None w a b : checked_add w a b = None <-> 2 ^ w <= a + b.
Proof. unfold checked_add. destruct (Z.ltb_spec (a + b) (2 ^ w)); naive_solver lia. Qed.

Lemma is_power_of_two_spec x :
  is_power_of_two x = true <-> exists k, 0 <= k /\ x = 2 ^ k.
Proof.
  unfold is_power_of_two. rewrite andb_true_iff, Z.ltb_lt, Z.eqb_eq. split.
  - intros [? ->]. eexists. split; [apply Z.log2_nonneg|done].
  - intros (k & ? & ->). rewrite Z.log2_pow2 by done. auto with cel.
Qed.

#[export] Hint Resolve wrap_fits saturating_add_fits saturating_sub_fits : cel.

(** Clearing the low [k] bits of a [w]-bit integer. *)
Lemma bit_not_ones w k : 0 <= k <= w ->
  bit_not w (2 ^ k - 1) = Z.shiftl (Z.ones (w - k)) k.
Proof.
  intros. unfold bit_not. rewrite Z.shiftl_mul_pow2 by lia.
  rewrite Z.ones_equiv. unfold Z.pred.
  replace (2 ^ w) with (2 ^ (w - k) * 2 ^ k); [lia|].
  rewrite <-Z.pow_add_r by lia. f_equal. lia.
Qed.

Lemma land_clear_low w k x : 0 <= k <= w -> fits w x ->
  Z.land x (bit_not w (2 ^ k - 1)) = x / 2 ^ k * 2 ^ k.
Proof.
  intros ? Hx. rewrite bit_not_ones by done.
  rewrite <-Z.shiftr_div_pow2, <-Z.shiftl_mul_pow2 by lia.
  assert (Hs : Z.shiftr x k = Z.land (Z.shiftr x k) (Z.ones (w - k))).
  { rewrite Z.land_ones by lia. symmetry. apply Z.mod_small.
    rewrite Z.shiftr_div_pow2 by lia. destruct Hx. split.
    - apply Z.div_pos; auto with cel. apply pow2_pos. lia.
    - apply Z.div_lt_upper_bound; [apply pow2_pos; lia|].
      rewrite <-Z.pow_add_r by lia. replace (k + (w - k)) with w by lia. done. }
  rewrite Hs. apply Z.bits_inj'. intros n ?.
  rewrite Z.land_spec, !Z.shiftl_spec by done.
  destruct (decide (n < k)).
  - rewrite !(Z.testbit_neg_r _ (n - k)) by lia. by rewrite andb_false_r.
  - rewrite Z.land_spec, Z.shiftr_spec by lia. by replace (n - k + k) with n by lia.
Qed.

(** ** Little-endian byte strings *)

Notation bytes := (list Z).

Definition byte_ok (b : Z) : Prop := 0 <= b < 256.
Definition bytes_ok (bs : bytes) : Prop := Forall byte_ok bs.

Fixpoint le_bytes (n : nat) (x : Z) : bytes :=
  match n with
  | O => []
  | S n => x mod 256 :: le_bytes n (x / 256)
  end.

Fixpoint le_value (bs : bytes) : Z :=
  match bs with
  | [] => 0
  | b :: bs => b + 256 * le_value bs
  end.

Lemma length_le_bytes n x : length (le_bytes n x) = n.
Proof. revert x. induction n; intros; simpl; auto. Qed.

Lemma le_bytes_ok n x : bytes_ok (le_bytes n x).
Proof.
  revert x. induction n; intros; constructor; [|apply IHn].
  apply Z.mod_pos_bound. lia.
Qed.

Lemma le_value_bytes n x : le_value (le_bytes n x) = x mod 256 ^ Z.of_nat n.
Proof.
  revert x. induction n; intros; cbn [le_bytes le_value].
  - by rewrite Z.mod_1_r.
  - rewrite IHn, Nat2Z.inj_succ, Z.pow_succ_r by lia.
    rewrite Z.rem_mul_r by (try apply Z.pow_nonzero; lia). done.
Qed.

Lemma le_value_range bs : bytes_ok bs -> 0 <= le_value bs < 256 ^ Z.of_nat (length bs).
Proof.
  induction 1 as [|b bs Hb _ IH]; cbn [le_value length]; [done|].
  rewrite Nat2Z.inj_succ, Z.pow_succ_r by lia. unfold byte_ok in Hb. lia.
Qed.

Lemma le_bytes_value bs : bytes_ok bs -> le_bytes (length bs) (le_value bs) = bs.
Proof.
  induction 1 as [|b bs Hb _ IH]; cbn [le_value length le_bytes]; [done|].
  unfold byte_ok in Hb. rewrite (Z.mul_comm 256), Z.mod_add, Z.div_add by lia.
  rewrite (Z.mod_small b), (Z.div_small b) by done. by rewrite Z.add_0_l, IH.
Qed.

Lemma le_roundtrip n w x : w = 8 * Z.of_nat n -> fits w x -> le_value (le_bytes n x) = x.
Proof.
  intros -> [? Hx]. rewrite le_value_bytes. apply Z.mod_small.
  change 256 with (2 ^ 8). rewrite <-Z.pow_mul_r by lia. done.
Qed.

Lemma le_value_inj a b :
  bytes_ok a -> bytes_ok b -> length a = length b -> le_value a = le_value b -> a = b.
Proof.
  intros Ha Hb El Ev. by rewrite <-(le_bytes_value a), <-(le_bytes_value b), El, Ev by done.
Qed.

#[export] Hint Rewrite length_le_bytes : cel.
#[export] Hint Resolve le_bytes_ok : cel.

(** ** Slices

    [slice b off n] is [b[off..off+n]]; [get_slice] is the same with Rust's
    range panic made explicit, and [write_at] is [copy_from_slice] into
    [b[off..off+n]]. *)

Definition slice {A} (b : list A) (off n : nat) : list A := take n (drop off b).

Definition get_slice {A} (b : list A) (off n : nat) : option (list A) :=
  if decide (off + n <= length b)%nat then Some (slice b off n) else None.

Definition write_at {A} (b : list A) (off : nat) (src : list A) : list A :=
  take off b ++ src ++ drop (off + length src) b.

Definition zeros (n : nat) : bytes := replicate n 0.

#[global] Arguments slice : simpl never.
#[global] Arguments get_slice : simpl never.
#[global] Arguments write_at : simpl never.
#[global] Arguments zeros : simpl never.

Lemma length_slice {A} (b : list A) off n :
  length (slice b off n) = Nat.min n (length b - off).
Proof. unfold slice. by rewrite length_take, length_drop. Qed.

Lemma slice_full {A} (b : list A) : slice b 0 (length b) = b.
Proof. unfold slice. by rewrite drop_0, firstn_all. Qed.

Lemma slice_app_l {A} (a b : list A) off n :
  (off + n <= length a)%nat -> slice (a ++ b) off n = slice a off n.
Proof.
  intros. unfold slice. rewrite drop_app_le by lia.
  rewrite take_app_le; [done|]. rewrite length_drop. lia.
Qed.

Lemma slice_app_r {A} (a b : list A) off n :
  (length a <= off)%nat -> slice (a ++ b) off n = slice b (off - length a) n.
Proof. intros. unfold slice. by rewrite drop_app_ge. Qed.

Lemma slice_app_exact {A} (a m b : list A) off n :
  off = length a -> n = length m -> slice (a ++ m ++ b) off n = m.
Proof.
  intros -> ->. rewrite slice_app_r by lia. rewrite Nat.sub_diag.
  unfold slice. rewrite drop_0. by rewrite take_app_length.
Qed.

Lemma slice_app_here {A} (m b : list A) n : n = length m -> slice (m ++ b) 0 n = m.
Proof. intros ->. unfold slice. by rewrite drop_0, take_app_length. Qed.

Lemma drop_slice {A} (b : list A) off n : drop off b = slice b off n ++ drop (off + n) b.
Proof. unfold slice. rewrite <-(take_drop n (drop off b)) at 1. by rewrite drop_drop. Qed.

Lemma take_split {A} (b : list A) off n : (off <= n)%nat -> take n b = take off b ++ slice b off (n - off).
Proof. intros. unfold slice. rewrite take_take_drop. f_equal. lia. Qed.

Lemma slice_slice {A} (b : list A) off n off' n' :
  (off' + n' <= n)%nat -> slice (slice b off n) off' n' = slice b (off + off') n'.
Proof.
  intros. unfold slice. rewrite skipn_firstn_comm, take_take, drop_drop. f_equal. lia.
Qed.

Lemma slice_ext {A} (a b : list A) off n :
  (forall i, (off <= i < off + n)%nat -> a !! i = b !! i) -> slice a off n = slice b off n.
Proof.
  intros Hi. apply list_eq. intros i. unfold slice. destruct (decide (i < n)%nat) as [Hlt|Hge].
  - rewrite !lookup_take_lt, !lookup_drop by done. apply Hi. lia.
  - by rewrite !lookup_take_ge by lia.
Qed.

Lemma slice_concat {A} (bs : list (list A)) k i b :
  Forall (fun b => length b = k) bs -> bs !! i = Some b -> slice (concat bs) (i * k) k = b.
Proof.
  intros Hk. revert i. induction Hk as [|x bs Hx _ IH]; intros i Hi; [done|].
  destruct i as [|i]; cbn [concat].
  - injection Hi as ->. by apply slice_app_here.
  - rewrite slice_app_r by lia. rewrite <- (IH _ Hi). f_equal. lia.
Qed.

Lemma get_slice_Some {A} (b : list A) off n s :
  get_slice b off n = Some s <-> (off + n <= length b)%nat /\ s = slice b off n.
Proof. unfold get_slice. case_decide; naive_solver. Qed.

Lemma length_write_at {A} (b : list A) off src :
  (off + length src <= length b)%nat -> length (write_at b off src) = length b.
Proof.
  intros. unfold write_at. rewrite !length_app, length_take, length_drop. lia.
Qed.

Lemma write_at_0 {A} (b src : list A) : write_at b 0 src = src ++ drop (length src) b.
Proof. unfold write_at. by rewrite take_0. Qed.

Lemma write_at_mid {A} (a m c src : list A) off :
  off = length a -> length src = length m -> write_at (a ++ m ++ c) off src = a ++ src ++ c.
Proof.
  intros -> E. unfold write_at. rewrite take_app_length, E.
  by rewrite (app_assoc a m), drop_app_length' by (by rewrite length_app).
Qed.

Lemma slice_write_at_same {A} (b : list A) off src n :
  (off + length src <= length b)%nat -> n = length src ->
  slice (write_at b off src) off n = src.
Proof.
  intros. unfold write_at. apply slice_app_exact; [|done].
  rewrite length_take. lia.
Qed.

#[export] Hint Rewrite @length_slice : cel.

(** ** Sums *)

Definition sum_Z (l : list Z) : Z := foldr Z.add 0 l.

Lemma sum_Z_app a b : sum_Z (a ++ b) = sum_Z a + sum_Z b.
Proof. unfold sum_Z. induction a; simpl; lia. Qed.

Lemma sum_Z_cons x l : sum_Z (x :: l) = x + sum_Z l.
Proof. done. Qed.

Lemma sum_Z_nonneg l : Forall (Z.le 0) l -> 0 <= sum_Z l.
Proof. unfold sum_Z. induction 1; simpl; lia. Qed.

Lemma sum_Z_permute l k : l ≡ₚ k -> sum_Z l = sum_Z k.
Proof. unfold sum_Z. induction 1; simpl; lia. Qed.

Lemma sum_Z_insert b j x y : b !! j = Some y -> sum_Z (<[j := x]> b) = sum_Z b - y + x.
Proof.
  revert j. induction b as [|z b IH]; intros [|j] Hj; try done.
  - injection Hj as ->. change (sum_Z (x :: b) = sum_Z (y :: b) - y + x).
    rewrite !sum_Z_cons. lia.
  - change (sum_Z (z :: <[j := x]> b) = sum_Z (z :: b) - y + x).
    rewrite !sum_Z_cons, (IH j Hj). lia.
Qed.

(** The largest elements come first in a decreasing list: no other choice
    of as many elements has a larger sum. *)
Lemma sum_take_shift x s k :
  StronglySorted (fun a b => b <= a) (x :: s) -> Forall (Z.le 0) (x :: s) ->
  sum_Z (take k s) <= sum_Z (take k (x :: s)).
Proof.
  revert x k. induction s as [|y s IH]; intros x k Hs Hp.
  - rewrite take_nil. apply sum_Z_nonneg. by apply Forall_take.
  - destruct k as [|k]; [done|]. cbn [take]. rewrite (sum_Z_cons x), (sum_Z_cons y).
    inversion_clear Hs as [|? ? Hs' Hx]. inversion_clear Hp as [|? ? ? Hp'].
    inversion_clear Hx. specialize (IH y k Hs' Hp'). lia.
Qed.

Lemma sum_take_top s d :
  StronglySorted (fun a b => b <= a) s -> Forall (Z.le 0) s -> d ⊆+ s ->
  sum_Z d <= sum_Z (take (length d) s).
Proof.
  revert d. induction s as [|x s IH]; intros d Hs Hp Hd.
  - apply submseteq_nil_r in Hd as ->. done.
  - pose proof Hs as Hs0. pose proof Hp as Hp0.
    inversion_clear Hs as [|? ? Hs' Hx]. inversion_clear Hp as [|? ? ? Hp'].
    apply submseteq_cons_r in Hd as [Hd|(d' & Hd' & Hd)].
    + etrans; [by apply IH|]. by apply sum_take_shift.
    + rewrite (sum_Z_permute _ _ Hd'), (Permutation_length Hd'). cbn [length take].
      rewrite !sum_Z_cons. specialize (IH d' Hs' Hp' Hd). lia.
Qed.

#[export] Hint Rewrite sum_Z_app sum_Z_cons : cel.

(** ** Folds that may panic *)

Fixpoint foldM {A B} (f : B -> A -> option B) (l : list A) (b : B) : option B :=
  match l with [] => Some b | a :: l => b ← f b a; foldM f l b end.

Lemma foldM_app {A B} (f : B -> A -> option B) l k b :
  foldM f (l ++ k) b = (foldM f l b ≫= foldM f k).
Proof.
  revert b. induction l as [|a l IH]; intros b; [done|]. cbn.
  destruct (f b a); cbn; [apply IH|done].
Qed.

(** An invariant that every step establishes is reached, and nothing panics. *)
Lemma foldM_total {A B} (f : B -> A -> option B) (I : list A -> B -> Prop) l b :
  I [] b ->
  (forall done_ a c, a ∈ l -> I done_ c -> exists c', f c a = Some c' /\ I (done_ ++ [a]) c') ->
  exists c, foldM f l b = Some c /\ I l c.
Proof.
  intros H0 Hs.
  enough (forall k d c, (forall a, a ∈ k -> a ∈ l) -> I d c ->
            exists c', foldM f k c = Some c' /\ I (d ++ k) c') as H by (by apply (H l [] b)).
  induction k as [|a k IH]; intros d c Hin Hd; cbn.
  - exists c. by rewrite app_nil_r.
  - destruct (Hs d a c) as (c' & -> & Hc'); [by apply Hin, list_elem_of_here|done|].
    destruct (IH (d ++ [a]) c') as (e & ? & He); [by intros; apply Hin, list_elem_of_further|done|].
    exists e. cbn. split; [done|]. by rewrite <-app_assoc in He.
Qed.

Lemma StronglySorted_lookup_lt {A} (R : relation A) l i j x y :
  StronglySorted R l -> (i < j)%nat -> l !! i = Some x -> l !! j = Some y -> R x y.
Proof.
  intros Hs. revert i j. induction Hs as [|a l _ IH Ha]; intros [|i] [|j] ?; cbn; try done; try lia.
  - intros [= ->] Hy. rewrite Forall_forall in Ha. by eapply Ha, list_elem_of_lookup_2.
  - intros. eapply (IH i j); [lia|done|done].
Qed.

(** ** [slice::binary_search_by]

    The loop of the standard library: [size] halves until one candidate is
    left; [f] compares an element with the key. *)

Fixpoint binary_search_loop {A} (f : A -> comparison) (l : list A)
    (fuel size base : nat) : nat :=
  match fuel with
  | O => base
  | S fuel =>
      if decide (size <= 1)%nat then base
      else
        let half := (size / 2)%nat in
        let mid := (base + half)%nat in
        let base' := match f <$> l !! mid with Some Gt => base | _ => mid end in
        binary_search_loop f l fuel (size - half) base'
  end.

(** [Some i] is [Ok(i)], [None] is [Err(_)]. *)
Definition binary_search_by {A} (f : A -> comparison) (l : list A) : option nat :=
  let base := binary_search_loop f l (length l) (length l) 0 in
  match f <$> l !! base with Some Eq => Some base | _ => None end.

Section binary_search.
Context {A : Type} (f : A -> comparison) (l : list A).
  (** The slice is ordered with respect to the key: [Lt* Eq* Gt*]. *)
Context (Hlt : forall i j x y, (i < j)%nat -> l !! i = Some x -> l !! j = Some y -> f y = Lt -> f x = Lt).
Context (Hgt : forall i j x y, (i < j)%nat -> l !! i = Some x -> l !! j = Some y -> f x = Gt -> f y = Gt).

  (** The candidates: some equal element, if any, stays in the window. *)
Definition window (size base : nat) : Prop :=
    (base + size <= length l)%nat /\ (1 <= size)%nat /\
    ((exists i x, l !! i = Some x /\ f x = Eq) ->
     exists i x, (base <= i < base + size)%nat /\ l !! i = Some x /\ f x = Eq).

Lemma binary_search_loop_window fuel size base :
    (size <= fuel)%nat -> window size base ->
    window 1 (binary_search_loop f l fuel size base).
  Proof.
    revert size base. induction fuel as [|fuel IH]; intros size base Hf Hw.
    - destruct Hw. lia.
    - cbn [binary_search_loop]. case_decide as Hs.
      + by replace size with 1%nat in Hw by (destruct Hw as (_ & ? & _); lia).
      + set (half := (size / 2)%nat).
        assert (Hh : (1 <= half < size)%nat).
        { split; [by apply Nat.div_le_lower_bound; lia|by apply Nat.div_lt; lia]. }
        assert (Hh2 : (2 * half <= size)%nat) by (apply Nat.Div0.mul_div_le).
        destruct Hw as (H1 & H2 & H3).
        destruct (lookup_lt_is_Some_2 l (base + half)) as [m Hm]; [lia|].
        rewrite Hm. cbn [fmap option_fmap option_map].
        apply IH; [lia|]. split_and!; [destruct (f m); lia|lia|].
        intros He. destruct (H3 He) as (i & x & Hi & Hx & Hfx).
        destruct (f m) eqn:Em.
        * exists (base + half)%nat, m. split_and!; [lia|lia|done|done].
        * exists i, x. split_and!; [|lia|done|done].
          destruct (decide (i < base + half)%nat); [|lia].
          specialize (Hlt _ _ _ _ l0 Hx Hm Em). congruence.
        * exists i, x. split_and!; [lia| |done|done].
          destruct (decide (base + half < i)%nat) as [Hi'|].
          -- specialize (Hgt _ _ _ _ Hi' Hm Hx Em). congruence.
          -- assert (i <> base + half)%nat by congruence. lia.
  Qed.

Lemma binary_search_by_is_Some :
    is_Some (binary_search_by f l) <-> exists x, x ∈ l /\ f x = Eq.
  Proof.
    unfold binary_search_by. split.
    - intros [i H]. destruct (l !! _) as [x|] eqn:E; cbn in H; [|done].
      exists x. split; [by eapply list_elem_of_lookup_2|]. by destruct (f x).
    - intros (x & Hx & Hf). apply list_elem_of_lookup in Hx as [i Hi].
      destruct (binary_search_loop_window (length l) (length l) 0) as (H1 & _ & H3); [lia| |].
      { pose proof (lookup_lt_Some _ _ _ Hi). split_and!; [lia|lia|].
        intros (j & y & Hy & Hfy). exists j, y. pose proof (lookup_lt_Some _ _ _ Hy).
        split_and!; [lia|lia|done|done]. }
      destruct H3 as (j & y & Hj & Hy & Hfy); [eauto|].
      replace (binary_search_loop _ _ _ _ _) with j by lia.
      rewrite Hy. cbn. rewrite Hfy. by eexists.
  Qed.
End binary_search.

(** ** [slice::sort_by_key]: stable sorting

    [before x y]: [x] may stay in front of [y].  An element is put in front of
    the first later one it may precede, which keeps ties in order. *)

Section stable_sort.
Context {A : Type} (before : A -> A -> bool).

Fixpoint sort_insert (x : A) (l : list A) : list A :=
  match l with
  | [] => [x]
  | y :: l => if before x y then x :: y :: l else y :: sort_insert x l
  end.

Definition stable_sort (l : list A) : list A := foldr sort_insert [] l.

Lemma sort_insert_perm x l : sort_insert x l ≡ₚ x :: l.
Proof.
  induction l as [|y l IH]; cbn; [done|]. destruct (before x y); [done|].
  rewrite IH. apply perm_swap.
Qed.

Lemma stable_sort_perm l : stable_sort l ≡ₚ l.
Proof. induction l as [|x l IH]; cbn; [done|]. by rewrite sort_insert_perm, IH. Qed.

Context (Htotal : forall x y, before x y = false -> before y x = true).
Context (Htrans : forall x y z, before x y = true -> before y z = true -> before x z = true).

Lemma sort_insert_sorted x l :
  StronglySorted (fun a b => before a b = true) l ->
  StronglySorted (fun a b => before a b = true) (sort_insert x l).
Proof.
  induction 1 as [|y l Hl IH Hy]; cbn; [by repeat constructor|].
  destruct (before x y) eqn:E.
  - constructor; [by constructor|]. constructor; [done|].
    eapply Forall_impl; [done|]. intros z Hz. by eapply Htrans.
  - constructor; [done|]. rewrite Forall_forall. intros z Hz.
    rewrite sort_insert_perm in Hz. apply list_elem_of_In in Hz. destruct Hz as [<-|Hz]; [by apply Htotal|].
    rewrite Forall_forall in Hy. by apply Hy, list_elem_of_In.
Qed.

Lemma stable_sort_sorted l : StronglySorted (fun a b => before a b = true) (stable_sort l).
Proof. induction l; cbn; [constructor|]. by apply sort_insert_sorted. Qed.
End stable_sort.

(** ** Runs of a step relation *)

Section runs.
Context {S : Type} (step : S -> S -> Prop).

Inductive steps : S -> S -> Prop :=
    | steps_refl s : steps s s
    | steps_snoc s t u : steps s t -> step t u -> steps s u.

Lemma steps_invariant (P : S -> Prop) s t :
    (forall a b, P a -> step a b -> P b) -> P s -> steps s t -> P t.
  Proof. intros Hp Hs. induction 1; eauto. Qed.

Lemma steps_cons s t u : step s t -> steps t u -> steps s u.
  Proof. intros Hst. induction 1; eauto using steps. Qed.

Lemma steps_trans s t u : steps s t -> steps t u -> steps s u.
  Proof. intros H. induction 1; eauto using steps. Qed.
End runs.

(** ** Tactics *)

(** Case analysis on the conditions of the [if]s of the goal and of the
    hypotheses, reflecting [Z] comparisons. *)
Ltac case_bool :=
  repeat match goal with
  | |- context [if ?a <? ?b then _ else _] => destruct (Z.ltb_spec a b)
  | |- context [if ?a <=? ?b then _ else _] => destruct (Z.leb_spec a b)
  | |- context [if ?a =? ?b then _ else _] => destruct (Z.eqb_spec a b)
  | H : context [if ?a <? ?b then _ else _] |- _ => destruct (Z.ltb_spec a b)
  | H : context [if ?a <=? ?b then _ else _] |- _ => destruct (Z.leb_spec a b)
  | H : context [if ?a =? ?b then _ else _] |- _ => destruct (Z.eqb_spec a b)
  end.

(** Turns boolean hypotheses into propositions. *)
Ltac reflect :=
  repeat match goal with
  | H : (_ && _) = true |- _ => apply andb_true_iff in H; destruct H
  | H : (_ || _) = false |- _ => apply orb_false_iff in H; destruct H
  | H : negb _ = true |- _ => apply negb_true_iff in H
  | H : negb _ = false |- _ => apply negb_false_iff in H
  | H : (_ <? _) = true |- _ => apply Z.ltb_lt in H
  | H : (_ <? _) = false |- _ => apply Z.ltb_ge in H
  | H : (_ <=? _) = true |- _ => apply Z.leb_le in H
  | H : (_ <=? _) = false |- _ => apply Z.leb_gt in H
  | H : (_ =? _) = true |- _ => apply Z.eqb_eq in H
  | H : (_ =? _) = false |- _ => apply Z.eqb_neq in H
  | H : bool_decide _ = true |- _ => apply bool_decide_eq_true in H
  | H : bool_decide _ = false |- _ => apply bool_decide_eq_false in H
  end.
