(* ===== verification/WalConstants.v ===== *)
(** * Constants, alignment and the segment header

    [celeriant_wal/src/constants.rs]: sizes, wire versions and the alignment
    functions every DMA write goes through.
    [celeriant_wal/src/shard_log_header.rs]: the header of a log segment, whose
    write cursor delimits the free space between the metablocks (growing up
    from the start of the file) and the datablocks (growing down from its end).
    [celeriant_wal/src/buffer_read.rs]: fixed-offset little-endian reads. *)

From S2P Require Import Prelude.

(** ** constants.rs *)

Definition BLOOM_BYTES : nat := 32.
Definition FIXED_BLOCK_SIZE_BYTES : nat := 1024.
Definition HEADER_BLOCK_SIZE_BYTES : nat := 4096.
Definition MINIBATCH_SIZE_BYTES : nat := 718.
Definition WIRE_VERSION_WAL_METABLOCK : Z := 1.
Definition WIRE_VERSION_WAL_DATABLOCK : Z := 1.
Definition WIRE_VERSION_WAL_SHARD_LOG_HEADER : Z := 2.
Definition WIRE_VERSION_S3_FALLBACK_BATCH : Z := 1.
Definition WIRE_VERSION_SEGMENT_SUMMARY_BLOCK : Z := 3.
Definition WIRE_SIZE_ENUM_DISCRIMINANT : nat := 4.
Definition FIRST_AGGREGATE_VERSION : Z := 1.
Definition AGGREGATE_BLOOM_BYTES : Z := 256 * 1024.
Definition CLIENT_BLOOM_BYTES : Z := 128 * 1024.
Definition GENESIS_HASH : bytes := zeros 32.
Definition STRUCT_TO_MEMORY_REAL_SIZE : Z := 3.
Definition MIN_WRITE_ALIGNMENT : Z := 4096.

(** The release build: the debug assertions are off and [+] wraps. *)
Definition align_up (pos alignment : Z) : Z :=
  Z.land (wrapping_add 64 pos (wrapping_sub 64 alignment 1))
         (bit_not 64 (wrapping_sub 64 alignment 1)).

Definition checked_align_up (pos alignment : Z) : option Z :=
  if negb (is_power_of_two alignment) then None
  else match checked_add 64 pos (wrapping_sub 64 alignment 1) with
       | Some sum => Some (Z.land sum (bit_not 64 (wrapping_sub 64 alignment 1)))
       | None => None
       end.

Definition align_down (pos alignment : Z) : Z :=
  Z.land pos (bit_not 64 (wrapping_sub 64 alignment 1)).

Definition write_padding (content_size : Z) : Z :=
  wrapping_sub 64 (align_up content_size MIN_WRITE_ALIGNMENT) content_size.

(** ** buffer_read.rs *)

Definition read_u64_le (buf : bytes) (offset : nat) : option Z :=
  le_value <$> get_slice buf offset 8.

Definition read_u128_le (buf : bytes) (offset : nat) : option Z :=
  le_value <$> get_slice buf offset 16.

Record InvalidOptionDiscriminant := {
  iod_offset : nat;
  iod_byte : Z;
}.

(** The outer [option] is the slice-index panic. *)
Definition read_option_u128_le (buf : bytes) (offset : nat)
    : option (result InvalidOptionDiscriminant (option Z)) :=
  tag ← buf !! offset;
  if tag =? 0 then Some (Ok None)
  else if tag =? 1 then
    v ← get_slice buf (offset + 1) 16;
    Some (Ok (Some (le_value v)))
  else Some (Err {| iod_offset := offset; iod_byte := tag |}).

(** ** shard_log_header.rs *)

Record HeaderCursor := {
  metablocks_position : Z;
  datablocks_position : Z;
  hc_wal_seq : Z;
  tip_hash : bytes;
}.

Module HeaderCursorLayout.
Definition OFFSET_METABLOCKS_POSITION : nat := 0.
Definition OFFSET_DATABLOCKS_POSITION : nat := OFFSET_METABLOCKS_POSITION + 8.
Definition OFFSET_WAL_SEQ : nat := OFFSET_DATABLOCKS_POSITION + 8.
Definition OFFSET_TIP_HASH : nat := OFFSET_WAL_SEQ + 8.
Definition WIRE_SIZE_TOTAL : nat := OFFSET_TIP_HASH + 32.
End HeaderCursorLayout.

Definition HeaderCursor_genesis : HeaderCursor :=
  {| metablocks_position := 0; datablocks_position := 0;
     hc_wal_seq := 0; tip_hash := GENESIS_HASH |}.

Record ShardLogHeader := {
  write : HeaderCursor;
  last_received_replication_wal_seq : Z;
  last_self_acked_wal_seq : Z;
  read : HeaderCursor;
}.

Module ShardLogHeaderLayout.
Definition OFFSET_WRITE_CURSOR : nat := 0.
Definition OFFSET_LAST_RECEIVED_REPLICATION_WAL_SEQ : nat :=
    OFFSET_WRITE_CURSOR + HeaderCursorLayout.WIRE_SIZE_TOTAL.
Definition OFFSET_LAST_SELF_ACKED_WAL_SEQ : nat :=
    OFFSET_LAST_RECEIVED_REPLICATION_WAL_SEQ + 8.
Definition OFFSET_READ_CURSOR : nat := OFFSET_LAST_SELF_ACKED_WAL_SEQ + 8.
Definition WIRE_SIZE_TOTAL : nat := OFFSET_READ_CURSOR + HeaderCursorLayout.WIRE_SIZE_TOTAL.
End ShardLogHeaderLayout.

Definition ShardLogHeader_new (file_len : Z) : ShardLogHeader :=
  let cursor := {| metablocks_position := Z.of_nat HEADER_BLOCK_SIZE_BYTES;
                   datablocks_position := saturating_sub file_len (Z.of_nat HEADER_BLOCK_SIZE_BYTES);
                   hc_wal_seq := 0; tip_hash := GENESIS_HASH |} in
  {| write := cursor;
     last_received_replication_wal_seq := 0;
     last_self_acked_wal_seq := 0;
     read := cursor |}.

Definition available_space (h : ShardLogHeader) : Z :=
  saturating_sub (datablocks_position (write h)) (metablocks_position (write h)).

Definition has_space_for (h : ShardLogHeader) (metablock_size datablock_size : Z) : bool :=
  saturating_add 64 metablock_size datablock_size <=? available_space h.

Definition append_event_batches (h : ShardLogHeader) (metablock_size datablock_size : Z)
    : ShardLogHeader :=
  {| write :=
       {| metablocks_position := saturating_add 64 (metablocks_position (write h)) metablock_size;
          datablocks_position := saturating_sub (datablocks_position (write h)) datablock_size;
          hc_wal_seq := hc_wal_seq (write h);
          tip_hash := tip_hash (write h) |};
     last_received_replication_wal_seq := last_received_replication_wal_seq h;
     last_self_acked_wal_seq := last_self_acked_wal_seq h;
     read := read h |}.

(** ** Alignment *)

Section alignment.
Context (k : Z) (Hk : 0 <= k < 64).

Lemma align_mask : wrapping_sub 64 (2 ^ k) 1 = 2 ^ k - 1.
  Proof.
    unfold wrapping_sub. apply wrap_small. split; [pose proof (pow2_pos k); lia|].
    pose proof (Z.pow_lt_mono_r 2 k 64). lia.
  Qed.

Lemma align_down_pow2 pos : u64 pos -> align_down pos (2 ^ k) = pos / 2 ^ k * 2 ^ k.
  Proof. intros. unfold align_down. rewrite align_mask. apply land_clear_low; [lia|done]. Qed.

  (** The smallest multiple of [2^k] not below [pos]. *)
Lemma round_up_bounds pos :
    let r := (pos + (2 ^ k - 1)) / 2 ^ k * 2 ^ k in
    pos <= r < pos + 2 ^ k /\ (2 ^ k | r).
  Proof.
    intros r. pose proof (pow2_pos k). split; [|by eexists].
    pose proof (Z.div_mod (pos + (2 ^ k - 1)) (2 ^ k)).
    pose proof (Z.mod_pos_bound (pos + (2 ^ k - 1)) (2 ^ k)).
    unfold r. nia.
  Qed.

Lemma round_up_least pos r :
    (2 ^ k | r) -> pos <= r -> (pos + (2 ^ k - 1)) / 2 ^ k * 2 ^ k <= r.
  Proof.
    intros [q ->] ?. pose proof (pow2_pos k). apply Z.mul_le_mono_nonneg_r; [lia|].
    enough ((pos + (2 ^ k - 1)) / 2 ^ k < q + 1) by lia.
    apply Z.div_lt_upper_bound; nia.
  Qed.

Lemma align_up_pow2 pos : 0 <= pos -> pos + (2 ^ k - 1) < 2 ^ 64 ->
    align_up pos (2 ^ k) = (pos + (2 ^ k - 1)) / 2 ^ k * 2 ^ k.
  Proof.
    intros. pose proof (pow2_pos k). unfold align_up. rewrite align_mask.
    unfold wrapping_add. rewrite wrap_small by (split; lia).
    apply land_clear_low; [lia|split; lia].
  Qed.

Lemma checked_align_up_pow2 pos : 0 <= pos ->
    checked_align_up pos (2 ^ k) =
      if pos + (2 ^ k - 1) <? 2 ^ 64
      then Some ((pos + (2 ^ k - 1)) / 2 ^ k * 2 ^ k) else None.
  Proof.
    intros. pose proof (pow2_pos k). unfold checked_align_up, checked_add.
    replace (is_power_of_two (2 ^ k)) with true.
    2: { symmetry. apply is_power_of_two_spec. exists k. lia. }
    cbn [negb]. rewrite align_mask.
    destruct (Z.ltb_spec (pos + (2 ^ k - 1)) (2 ^ 64)); [|done].
    f_equal. apply land_clear_low; [lia|split; lia].
  Qed.
End alignment.

(** When the rounding does not overflow, [align_up] is its checked version. *)
Lemma align_up_checked pos a r :
  u64 pos -> u64 a -> checked_align_up pos a = Some r -> align_up pos a = r.
Proof.
  intros Hp Ha. unfold checked_align_up, align_up.
  destruct (negb _); [done|]. destruct (checked_add _ _ _) eqn:E; [|done].
  intros [= <-]. apply checked_add_Some in E as [-> ?].
  unfold wrapping_add. rewrite (wrap_small 64 (pos + _)); [done|].
  pose proof (wrap_fits 64 (a - 1)). unfold fits, wrapping_sub in *. lia.
Qed.

(** A power of two that is a [u64] is [2^k] with [k < 64]. *)
Lemma pow2_u64 a : u64 a -> is_power_of_two a = true -> exists k, 0 <= k < 64 /\ a = 2 ^ k.
Proof.
  intros [_ Ha] (k & ? & ->)%is_power_of_two_spec. exists k. split; [|done].
  split; [done|]. destruct (decide (k < 64)); [done|].
  pose proof (Z.pow_le_mono_r 2 64 k). lia.
Qed.

(** The rounded position is representable exactly when the sum is. *)
Lemma round_up_fits k pos : 0 <= k < 64 -> 0 <= pos ->
  (pos + (2 ^ k - 1)) / 2 ^ k * 2 ^ k < 2 ^ 64 -> pos + (2 ^ k - 1) < 2 ^ 64.
Proof.
  intros Hk ? Hr. pose proof (pow2_pos k).
  pose proof (Z.div_mod (pos + (2 ^ k - 1)) (2 ^ k)).
  pose proof (Z.mod_pos_bound (pos + (2 ^ k - 1)) (2 ^ k)).
  assert (Hd : 2 ^ 64 = 2 ^ (64 - k) * 2 ^ k) by (rewrite <-Z.pow_add_r by lia; f_equal; lia).
  set (q := (pos + (2 ^ k - 1)) / 2 ^ k) in *.
  assert (q < 2 ^ (64 - k)) by nia. nia.
Qed.

(** [checked_align_up] returns the least multiple of the alignment that
    is not below the position, and returns [None] exactly when the alignment
    is not a power of two or no such multiple fits in a [u64]; when it
    returns, the unchecked [align_up] of the hot path returns the same. *)
Theorem checked_align_up_least (pos alignment : Z) :
  u64 pos -> u64 alignment ->
  match checked_align_up pos alignment with
  | Some r => is_power_of_two alignment = true /\ u64 r /\
              (alignment | r) /\ pos <= r /\
              (forall r', (alignment | r') -> pos <= r' -> r <= r') /\
              align_up pos alignment = r
  | None => is_power_of_two alignment = false \/
            (forall r', (alignment | r') -> pos <= r' -> 2 ^ 64 <= r')
  end.
Proof.
  intros Hp Ha. destruct (is_power_of_two alignment) eqn:E.
  - destruct (pow2_u64 _ Ha E) as (k & Hk & ->).
    pose proof (align_up_checked pos (2 ^ k)) as Hag.
    rewrite checked_align_up_pow2 in * by (destruct Hp; lia).
    destruct (round_up_bounds k Hk pos) as [Hb Hd].
    destruct (Z.ltb_spec (pos + (2 ^ k - 1)) (2 ^ 64)).
    + pose proof (Z.mul_div_le (pos + (2 ^ k - 1)) (2 ^ k)). pose proof (pow2_pos k).
      assert (u64 ((pos + (2 ^ k - 1)) / 2 ^ k * 2 ^ k)) by (destruct Hp; split; lia).
      do 4 (split; [tauto || lia|]). split; [intros; by apply round_up_least|by apply Hag].
    + right. intros r' Hr ?. pose proof (round_up_least k Hk pos r' Hr).
      destruct (decide (r' < 2 ^ 64)); [|lia].
      pose proof (round_up_fits k pos Hk). destruct Hp. lia.
  - unfold checked_align_up. rewrite E. by left.
Qed.

Lemma checked_align_up_least_witness :
  checked_align_up 4097 4096 = Some 8192 /\ align_up 4097 4096 = 8192 /\
  checked_align_up (2 ^ 64 - 1) 4096 = None.
Proof.
  pose proof (checked_align_up_least 4097 4096 ltac:(split; lia) ltac:(split; lia)) as H.
  split_and!; [reflexivity| |reflexivity].
  apply H.
Defined.

(** The padding completes any content to a whole number of DMA blocks. *)
Lemma write_padding_spec n : 0 <= n -> n + 4095 < 2 ^ 64 ->
  0 <= write_padding n < 4096 /\ (4096 | n + write_padding n).
Proof.
  intros. unfold write_padding, MIN_WRITE_ALIGNMENT, wrapping_sub.
  change 4096 with (2 ^ 12). rewrite align_up_pow2 by lia.
  destruct (round_up_bounds 12 ltac:(lia) n) as [Hb Hd].
  rewrite wrap_small by (split; lia). split; [lia|].
  by replace (n + _) with ((n + (2 ^ 12 - 1)) / 2 ^ 12 * 2 ^ 12) by lia.
Qed.

(** ** The write cursor *)

(** The write cursor of a segment of [file_len] bytes: the metablock area and
    the datablock area start after the two header slots and do not overlap. *)
Definition header_wf (file_len : Z) (h : ShardLogHeader) : Prop :=
  Z.of_nat HEADER_BLOCK_SIZE_BYTES <= metablocks_position (write h) /\
  metablocks_position (write h) <= datablocks_position (write h) /\
  datablocks_position (write h) <= file_len - Z.of_nat HEADER_BLOCK_SIZE_BYTES.

Lemma ShardLogHeader_new_wf file_len :
  2 * Z.of_nat HEADER_BLOCK_SIZE_BYTES <= file_len -> header_wf file_len (ShardLogHeader_new file_len).
Proof.
  intros. unfold header_wf, ShardLogHeader_new.
  cbn [write metablocks_position datablocks_position]. unfold saturating_sub. lia.
Qed.

Lemma has_space_for_spec h m d : u64 (datablocks_position (write h)) ->
  0 < metablocks_position (write h) <= datablocks_position (write h) -> 0 <= m -> 0 <= d ->
  has_space_for h m d = true <->
  m + d <= datablocks_position (write h) - metablocks_position (write h).
Proof.
  unfold has_space_for, available_space, saturating_add, saturating_sub, fits.
  intros. rewrite Z.leb_le. lia.
Qed.

(** An append guarded by [has_space_for] keeps the two areas of the
    segment apart and inside the file, takes exactly the appended bytes from
    the free space, and leaves the read cursor and the two durable markers as
    they are; without room the guard refuses. *)
Theorem append_event_batches_wf (file_len : Z) (h : ShardLogHeader) (m d : Z) :
  u64 file_len -> header_wf file_len h -> u64 m -> u64 d ->
  let h' := append_event_batches h m d in
  (has_space_for h m d = true ->
     header_wf file_len h' /\
     metablocks_position (write h') = metablocks_position (write h) + m /\
     datablocks_position (write h') = datablocks_position (write h) - d /\
     available_space h' = available_space h - (m + d) /\
     read h' = read h /\
     last_self_acked_wal_seq h' = last_self_acked_wal_seq h) /\
  (has_space_for h m d = false ->
     datablocks_position (write h) - d < metablocks_position (write h) + m).
Proof.
  intros Hf (H1 & H2 & H3) Hm Hd h'. unfold fits in *.
  assert (0 < Z.of_nat HEADER_BLOCK_SIZE_BYTES) by done.
  pose proof (has_space_for_spec h m d) as Hs. unfold fits in Hs.
  split; intros E; [apply Hs in E; try lia|].
  - unfold h', header_wf, available_space, append_event_batches, saturating_add, saturating_sub; cbn.
    split_and!; (done || lia).
  - rewrite E in Hs. lia.
Qed.

Lemma append_event_batches_wf_witness :
  has_space_for (ShardLogHeader_new 65536) 1024 4096 = true /\
  metablocks_position (write (append_event_batches (ShardLogHeader_new 65536) 1024 4096)) = 5120.
Proof.
  split; [reflexivity|].
  destruct (append_event_batches_wf 65536 (ShardLogHeader_new 65536) 1024 4096) as [H _];
    [split; lia|apply ShardLogHeader_new_wf; by vm_compute|split; lia|split; lia|].
  apply H. reflexivity.
Defined.
