(* ===== verification/Sbbf.v ===== *)
(** * Split-block bloom filters

    [celeriant_wal/src/sbbf.rs]: the persisted filter, over the words of a
    [[u64]] slice, and its users in [celeriant_wal/src/segment_summary/]:
    [client_set.rs] and [schema_hash_accumulator.rs].  An out-of-range index
    panics in the source; the operations therefore return an [option] and the
    lemmas show that a well-formed filter never panics. *)

From S2P Require Import Prelude.

(** ** sbbf.rs *)

Definition SALT : list Z :=
  [0x47b6137b; 0x44974d91; 0x8824ad5b; 0xa2b7289d; 0x705495c7; 0x2df1424c; 0x9efc4947; 0x5c6bfb31].

Definition U64_PER_BLOCK : nat := 4.

Definition block_index (hash : Z) (num_blocks : nat) : nat :=
  Z.to_nat (Z.shiftr (wrapping_mul 64 (Z.shiftr hash 32) (Z.of_nat num_blocks)) 32).

Definition lane_mask (lo : Z) (lane : nat) : Z :=
  let bit := Z.shiftl 1 (Z.shiftr (wrapping_mul 32 lo (SALT !!! lane)) 27) in
  wrap 64 (Z.shiftl bit (32 * Z.land (Z.of_nat lane) 1)).

Definition insert_lane (base : nat) (lo : Z) (words : list Z) (lane : nat) : option (list Z) :=
  w ← words !! (base + lane / 2)%nat;
  Some (<[(base + lane / 2)%nat := Z.lor w (lane_mask lo lane)]> words).

Definition insert (words : list Z) (hash : Z) : option (list Z) :=
  let base := (block_index hash (length words / U64_PER_BLOCK) * U64_PER_BLOCK)%nat in
  let lo := wrap 32 hash in
  foldM (insert_lane base lo) (seq 0 8) words.

(** [Iterator::all] stops at the first lane that fails. *)
Fixpoint all_lanes (base : nat) (lo : Z) (words : list Z) (lanes : list nat) : option bool :=
  match lanes with
  | [] => Some true
  | lane :: lanes =>
      w ← words !! (base + lane / 2)%nat;
      if Z.land w (lane_mask lo lane) =? 0 then Some false
      else all_lanes base lo words lanes
  end.

Definition contains (words : list Z) (hash : Z) : option bool :=
  let base := (block_index hash (length words / U64_PER_BLOCK) * U64_PER_BLOCK)%nat in
  let lo := wrap 32 hash in
  all_lanes base lo words (seq 0 8).

#[global] Arguments insert : simpl never.
#[global] Arguments contains : simpl never.

(** ** client_set.rs *)

Definition EXACT_CLIENT_SET_MAX : nat := 32.
Definition CLIENT_SET_BLOOM_BITS_PER_KEY : Z := 10.
Definition SBBF_BLOCK_BYTES : Z := 32.
Definition CLIENT_SET_BLOOM_MAX_BYTES : Z := 8 * 1024.

Definition div_ceil (a b : Z) : Z := (a + b - 1) / b.
Definition next_multiple_of (a b : Z) : Z := (a + b - 1) / b * b.

Definition insert_all (words : list Z) (hashes : list Z) : option (list Z) :=
  foldM insert hashes words.

Definition zero_words (n : Z) : list Z := replicate (Z.to_nat n) 0.

Definition sized_bloom_from_hashes (count : Z) (hashes : list Z) (max_bytes : Z)
    : option (list Z) :=
  let bytes :=
    Z.min (next_multiple_of
             (Z.max (div_ceil (count * CLIENT_SET_BLOOM_BITS_PER_KEY) 8) SBBF_BLOCK_BYTES)
             SBBF_BLOCK_BYTES) max_bytes in
  insert_all (zero_words (bytes / 8)) hashes.

Inductive ClientSet :=
  | Unknown
  | Exact (v : list Z)
  | Bloom (v : list Z).

Definition from_client_hashes (hashes : gset Z) : option ClientSet :=
  if decide (hashes = ∅) then Some Unknown
  else if decide (size hashes <= EXACT_CLIENT_SET_MAX)%nat then
    Some (Exact (merge_sort Z.le (elements hashes)))
  else
    Bloom <$> sized_bloom_from_hashes (Z.of_nat (size hashes)) (elements hashes)
                CLIENT_SET_BLOOM_MAX_BYTES.

Definition may_contain_hash (cs : ClientSet) (hash : Z) : option bool :=
  match cs with
  | Unknown => Some true
  | Exact sorted => Some (bool_decide (is_Some (binary_search_by (fun x => x ?= hash) sorted)))
  | Bloom words =>
      if decide (words = []) then Some true
      else if decide (length words mod 4 <> 0)%nat then Some true
      else contains words hash
  end.

Definition cardinality (cs : ClientSet) : option nat :=
  match cs with
  | Unknown | Bloom _ => None
  | Exact sorted => Some (length sorted)
  end.

Definition ClientSet_wire_size (cs : ClientSet) : Z :=
  4 + match cs with
      | Unknown => 0
      | Exact v | Bloom v => 8 + 8 * Z.of_nat (length v)
      end.

(** ** schema_hash_accumulator.rs *)

Definition SCHEMA_BLOOM_MAX_BYTES : Z := 8 * 1024.
Definition SCHEMA_ACCUMULATOR_MAX_HASHES : nat := 8 * 1024.

Record SchemaHashAccumulator := {
  hashes : gset Z;
  overflow_bloom : option (list Z);
}.

Definition accumulator_default : SchemaHashAccumulator :=
  {| hashes := ∅; overflow_bloom := None |}.

Definition accumulator_insert (a : SchemaHashAccumulator) (hash : Z)
    : option SchemaHashAccumulator :=
  match overflow_bloom a with
  | Some words =>
      words' ← insert words hash;
      Some {| hashes := hashes a; overflow_bloom := Some words' |}
  | None =>
      let hs := {[hash]} ∪ hashes a in
      if decide (SCHEMA_ACCUMULATOR_MAX_HASHES < size hs)%nat then
        words ← insert_all (zero_words (SCHEMA_BLOOM_MAX_BYTES / 8)) (elements hs);
        Some {| hashes := ∅; overflow_bloom := Some words |}
      else Some {| hashes := hs; overflow_bloom := None |}
  end.

Definition accumulator_may_contain (a : SchemaHashAccumulator) (hash : Z) : option bool :=
  match overflow_bloom a with
  | Some words => contains words hash
  | None => Some (bool_decide (hash ∈ hashes a))
  end.

(** [iter_mut().zip]: the words beyond the shorter filter are kept. *)
Fixpoint or_words (mine words : list Z) : list Z :=
  match mine, words with
  | m :: mine, w :: words => Z.lor m w :: or_words mine words
  | mine, _ => mine
  end.

Definition accumulator_merge (a other : SchemaHashAccumulator) : option SchemaHashAccumulator :=
  match overflow_bloom other with
  | Some words =>
      match overflow_bloom a with
      | Some mine => Some {| hashes := hashes a; overflow_bloom := Some (or_words mine words) |}
      | None =>
          words' ← insert_all words (elements (hashes a));
          Some {| hashes := ∅; overflow_bloom := Some words' |}
      end
  | None => foldM accumulator_insert (elements (hashes other)) a
  end.

Definition to_schema_bloom (a : SchemaHashAccumulator) (complete : bool)
    : option (option (list Z)) :=
  if negb complete then Some None
  else match overflow_bloom a with
       | Some words => Some (Some words)
       | None => Some <$> sized_bloom_from_hashes (Z.of_nat (size (hashes a)))
                            (elements (hashes a)) SCHEMA_BLOOM_MAX_BYTES
       end.

(** ** The filter *)

(** A filter as the code allocates them: whole blocks, at least one, and
    few enough for the block choice of a [u64] product. *)
Definition bloom_ok (words : list Z) : Prop :=
  exists nb, length words = (nb * 4)%nat /\ (0 < nb)%nat /\ Z.of_nat nb <= 2 ^ 32.

Lemma bloom_ok_length w w' : length w' = length w -> bloom_ok w -> bloom_ok w'.
Proof. intros E (nb & ? & ?). exists nb. split; [congruence|done]. Qed.

Lemma zero_words_ok nb : 0 < nb <= 2 ^ 32 -> bloom_ok (zero_words (nb * 4)).
Proof.
  intros. exists (Z.to_nat nb). unfold zero_words. rewrite length_replicate. lia.
Qed.

Lemma block_index_lt hash nb : u64 hash -> (0 < nb)%nat -> Z.of_nat nb <= 2 ^ 32 ->
  (block_index hash nb < nb)%nat.
Proof.
  intros [H0 H1] Hn Hb. unfold block_index, wrapping_mul.
  assert (Hh : 0 <= Z.shiftr hash 32 < 2 ^ 32).
  { rewrite Z.shiftr_div_pow2 by done. split; [by apply Z.div_pos|].
    by apply Z.div_lt_upper_bound. }
  rewrite wrap_small by (unfold fits; nia).
  rewrite (Z.shiftr_div_pow2 (_ * _)) by done.
  assert (0 <= Z.shiftr hash 32 * Z.of_nat nb / 2 ^ 32) by (apply Z.div_pos; nia).
  assert (Z.shiftr hash 32 * Z.of_nat nb / 2 ^ 32 < Z.of_nat nb).
  { apply Z.div_lt_upper_bound; nia. }
  lia.
Qed.

(** The word a lane of a hash lives in is inside a well-formed filter. *)
Lemma lane_lookup words hash lane : bloom_ok words -> u64 hash -> (lane < 8)%nat ->
  (block_index hash (length words / U64_PER_BLOCK) * U64_PER_BLOCK + lane / 2 < length words)%nat.
Proof.
  intros (nb & -> & Hn & Hb) Hh Hl. unfold U64_PER_BLOCK. rewrite Nat.div_mul by done.
  pose proof (block_index_lt hash nb Hh Hn Hb).
  assert (lane / 2 < 4)%nat by (apply Nat.Div0.div_lt_upper_bound; lia). lia.
Qed.

(** A lane mask is a single bit. *)
Lemma lane_mask_bit lo lane : u32 lo -> exists s, 0 <= s < 64 /\ lane_mask lo lane = 2 ^ s.
Proof.
  intros Hlo. unfold lane_mask.
  set (p := wrapping_mul 32 lo (SALT !!! lane)).
  assert (Hp : 0 <= p < 2 ^ 32) by (apply wrap_fits; lia).
  assert (Hs : 0 <= Z.shiftr p 27 < 32).
  { rewrite Z.shiftr_div_pow2 by done. split; [apply Z.div_pos; lia|].
    apply Z.div_lt_upper_bound; lia. }
  assert (Hl : 0 <= Z.land (Z.of_nat lane) 1 < 2).
  { pose proof (Z.land_ones (Z.of_nat lane) 1 ltac:(lia)) as E. change (Z.ones 1) with 1 in E.
    rewrite E. by apply Z.mod_pos_bound. }
  exists (Z.shiftr p 27 + 32 * Z.land (Z.of_nat lane) 1). split; [lia|].
  rewrite !Z.shiftl_mul_pow2 by lia. rewrite Z.mul_1_l, <-Z.pow_add_r by lia.
  apply wrap_small. split; [apply Z.pow_nonneg; lia|apply Z.pow_lt_mono_r; lia].
Qed.

(** [bits_le a b]: every bit of [a] is set in [b]. *)
Definition bits_le (a b : Z) : Prop := forall n, Z.testbit a n = true -> Z.testbit b n = true.

#[global] Instance bits_le_preorder : PreOrder bits_le.
Proof. split; [by intros ??|intros a b c H1 H2 n Hn; auto]. Qed.

Lemma bits_le_lor_l a b : bits_le a (Z.lor a b).
Proof. intros n H. by rewrite Z.lor_spec, H. Qed.

Lemma bits_le_lor_r a b : bits_le b (Z.lor a b).
Proof. intros n H. by rewrite Z.lor_spec, H, orb_true_r. Qed.

Lemma land_bit_nonzero a s : 0 <= s -> Z.land a (2 ^ s) = 0 <-> Z.testbit a s = false.
Proof.
  intros Hs. rewrite <-Z.bits_inj_iff. split.
  - intros H. specialize (H s). rewrite Z.land_spec, Z.pow2_bits_true, andb_true_r, Z.bits_0 in H by done.
    done.
  - intros H n. rewrite Z.land_spec, Z.bits_0. destruct (decide (n = s)) as [->|].
    + by rewrite H.
    + rewrite Z.pow2_bits_false by done. apply andb_false_r.
Qed.

(** One filter covers another: the same shape, and every bit of it. *)
Definition covers : list Z -> list Z -> Prop := Forall2 bits_le.

#[global] Instance covers_preorder : PreOrder covers.
Proof.
  split; [intros w; unfold covers; induction w; constructor; done|].
  intros a b c H1 H2. revert c H2. unfold covers in *.
  induction H1; inversion_clear 1; constructor; [by etrans|auto].
Qed.

(** The lanes of a hash that are set. *)
Definition lane_set (words : list Z) (base : nat) (lo : Z) (lane : nat) : Prop :=
  exists w, words !! (base + lane / 2)%nat = Some w /\ Z.land w (lane_mask lo lane) <> 0.

Lemma all_lanes_true words base lo lanes :
  all_lanes base lo words lanes = Some true <-> Forall (lane_set words base lo) lanes.
Proof.
  induction lanes as [|lane lanes IH]; cbn; [split; [constructor|done]|].
  rewrite Forall_cons, <-IH. unfold lane_set at 1.
  destruct (words !! _) as [w|]; cbn; [|naive_solver].
  destruct (Z.eqb_spec (Z.land w (lane_mask lo lane)) 0); naive_solver.
Qed.

Lemma lane_set_covers w w' base lo lane : u32 lo ->
  covers w w' -> lane_set w base lo lane -> lane_set w' base lo lane.
Proof.
  intros Hlo Hc (x & Hx & Hm). destruct (Forall2_lookup_l _ _ _ _ _ Hc Hx) as (y & Hy & Hxy).
  exists y. split; [done|]. destruct (lane_mask_bit lo lane Hlo) as (s & Hs & E).
  rewrite E in *. rewrite land_bit_nonzero in * by lia.
  specialize (Hxy s). destruct (Z.testbit x s), (Z.testbit y s); naive_solver.
Qed.

Lemma lo_u32 hash : u32 (wrap 32 hash).
Proof. by apply wrap_fits. Qed.

Lemma contains_covers w w' hash :
  covers w w' -> contains w hash = Some true -> contains w' hash = Some true.
Proof.
  intros Hc. unfold contains. rewrite !all_lanes_true, (Forall2_length _ _ _ Hc).
  intros H. eapply Forall_impl; [done|]. intros.
  eapply lane_set_covers; eauto using lo_u32.
Qed.

(** A well-formed filter always answers. *)
Lemma all_lanes_total words base lo lanes :
  Forall (fun lane => base + lane / 2 < length words)%nat lanes ->
  is_Some (all_lanes base lo words lanes).
Proof.
  induction 1 as [|lane lanes Hl _ IH]; cbn; [by eexists|].
  destruct (lookup_lt_is_Some_2 _ _ Hl) as [w ->]. cbn. case_bool; [by eexists|done].
Qed.

Lemma contains_total words hash : bloom_ok words -> u64 hash -> is_Some (contains words hash).
Proof.
  intros. apply all_lanes_total, Forall_forall. intros lane [_ Hl]%elem_of_seq.
  by apply lane_lookup.
Qed.

Lemma insert_lane_covers base lo words lane w' :
  insert_lane base lo words lane = Some w' ->
  covers words w' /\ (u32 lo -> lane_set w' base lo lane).
Proof.
  unfold insert_lane. intros H. destruct (words !! _) as [w|] eqn:E; cbn in H; [|done].
  injection H as <-. split.
  - apply Forall2_same_length_lookup_2; [by rewrite length_insert|].
    intros i x y Hx Hy. destruct (decide (i = base + lane / 2)%nat) as [->|].
    + rewrite list_lookup_insert_eq in Hy by (by eapply lookup_lt_Some).
      simplify_eq. apply bits_le_lor_l.
    + rewrite list_lookup_insert_ne in Hy by done. by simplify_eq.
  - intros Hlo. exists (Z.lor w (lane_mask lo lane)). split.
    { apply list_lookup_insert_eq. by eapply lookup_lt_Some. }
    destruct (lane_mask_bit lo lane Hlo) as (s & Hs & ->).
    rewrite land_bit_nonzero by lia.
    rewrite Z.lor_spec, Z.pow2_bits_true by lia. by rewrite orb_true_r.
Qed.

Lemma covers_length w w' : covers w w' -> length w' = length w.
Proof. intros H. symmetry. by eapply Forall2_length. Qed.

(** The filter after an insertion: same shape, contains the hash, and still
    contains what it contained. *)
Lemma insert_spec words hash : bloom_ok words -> u64 hash ->
  exists words', insert words hash = Some words' /\
    covers words words' /\ contains words' hash = Some true.
Proof.
  intros Hok Hh. unfold insert, contains.
  set (base := (block_index hash (length words / U64_PER_BLOCK) * U64_PER_BLOCK)%nat).
  destruct (foldM_total (insert_lane base (wrap 32 hash))
    (fun done_ w => covers words w /\ Forall (lane_set w base (wrap 32 hash)) done_)
    (seq 0 8) words) as (w' & Hw & Hc & Hs).
  - split; [done|constructor].
  - intros d lane c [_ Hl]%elem_of_seq [Hc Hd].
    destruct (lookup_lt_is_Some_2 c (base + lane / 2)) as [x Hx].
    { rewrite (covers_length _ _ Hc). by apply lane_lookup. }
    assert (exists c', insert_lane base (wrap 32 hash) c lane = Some c') as [c' Hc'].
    { unfold insert_lane. rewrite Hx. cbn. by eexists. }
    exists c'. destruct (insert_lane_covers _ _ _ _ _ Hc') as [H1 H2].
    split; [done|]. split; [by etrans|]. apply Forall_app. split.
    + eapply Forall_impl; [done|]. intros. by eapply lane_set_covers; eauto using lo_u32.
    + constructor; [by apply H2, lo_u32|constructor].
  - exists w'. split_and!; [done|done|]. apply all_lanes_true.
    by rewrite (covers_length _ _ Hc).
Qed.

(** Inserting a hash into a filter of whole blocks never panics, keeps
    its shape, makes the hash a member and keeps every earlier member: the
    filter has no false negatives. *)
Theorem sbbf_no_false_negatives (words : list Z) (hash : Z) :
  bloom_ok words -> u64 hash ->
  exists words', insert words hash = Some words' /\ bloom_ok words' /\
    contains words' hash = Some true /\
    (forall h, contains words h = Some true -> contains words' h = Some true).
Proof.
  intros Hok Hh. destruct (insert_spec words hash Hok Hh) as (w' & H1 & H2 & H3).
  exists w'. split_and!; [done| |done|].
  - eapply bloom_ok_length; [by apply covers_length|done].
  - intros. by eapply contains_covers.
Qed.

Lemma sbbf_no_false_negatives_witness :
  contains (zero_words 4) 77 = Some false /\
  exists w, insert (zero_words 4) 77 = Some w /\ contains w 77 = Some true.
Proof.
  split; [reflexivity|].
  destruct (sbbf_no_false_negatives (zero_words 4) 77) as (w & ? & _ & ? & _).
  - exists 1%nat. split_and!; [done|lia|lia].
  - split; lia.
  - exists w. auto.
Defined.

(** ** Filters built from a set of hashes *)

Definition all_u64 (hs : list Z) : Prop := Forall (fun h => u64 h) hs.

Lemma insert_all_spec words hs : bloom_ok words -> all_u64 hs ->
  exists words', insert_all words hs = Some words' /\ bloom_ok words' /\
    covers words words' /\ Forall (fun h => contains words' h = Some true) hs.
Proof.
  intros Hok Hh. destruct (foldM_total insert
    (fun d w => bloom_ok w /\ covers words w /\ Forall (fun h => contains w h = Some true) d)
    hs words) as (w & ? & ? & ? & ?).
  - split_and!; [done|done|constructor].
  - intros d h c Hin (H1 & H2 & H3). unfold all_u64 in Hh. rewrite Forall_forall in Hh.
    destruct (insert_spec c h H1 (Hh h Hin)) as (c' & E & H4 & H5).
    exists c'. split_and!; [done| | |].
    + eapply bloom_ok_length; [by apply covers_length|done].
    + by etrans.
    + apply Forall_app. split; [|by constructor].
      eapply Forall_impl; [done|]. intros. by eapply contains_covers.
  - exists w. auto.
Qed.

(** The size chosen by [sized_bloom_from_hashes] is a whole number of blocks. *)
Lemma sized_words_ok count max_bytes :
  0 <= count -> 32 <= max_bytes <= 2 ^ 32 -> (32 | max_bytes) ->
  bloom_ok (zero_words
    (Z.min (next_multiple_of
      (Z.max (div_ceil (count * CLIENT_SET_BLOOM_BITS_PER_KEY) 8) SBBF_BLOCK_BYTES)
      SBBF_BLOCK_BYTES) max_bytes / 8)).
Proof.
  intros Hc Hm [q Hq]. unfold next_multiple_of, SBBF_BLOCK_BYTES.
  set (m := Z.max _ 32). set (k := (m + 32 - 1) / 32).
  assert (1 <= k) by (apply Z.div_le_lower_bound; lia).
  assert (exists j, Z.min (k * 32) max_bytes = j * 32 /\ 1 <= j <= 2 ^ 27) as (j & -> & Hj).
  { exists (Z.min k q). lia. }
  replace (j * 32) with (j * 4 * 8) by lia. rewrite Z.div_mul by lia.
  apply zero_words_ok. lia.
Qed.

Lemma sized_bloom_spec count hs max_bytes :
  0 <= count -> 32 <= max_bytes <= 2 ^ 32 -> (32 | max_bytes) -> all_u64 hs ->
  exists words, sized_bloom_from_hashes count hs max_bytes = Some words /\ bloom_ok words /\
    Forall (fun h => contains words h = Some true) hs.
Proof.
  intros Hc Hm Hd Hh. unfold sized_bloom_from_hashes.
  destruct (insert_all_spec _ hs (sized_words_ok count max_bytes Hc Hm Hd) Hh)
    as (w & ? & ? & _ & ?). eauto.
Qed.

(** *** The order of the hashes does not matter

    The code inserts the members of a [HashSet] in the iteration order of a
    randomly seeded table; the persisted words do not depend on it. *)

Lemma insert_lane_length base lo words lane w' :
  insert_lane base lo words lane = Some w' -> length w' = length words.
Proof. intros [? _]%insert_lane_covers. by apply covers_length. Qed.

Lemma insert_lane_comm b1 l1 n1 b2 l2 n2 words :
  (insert_lane b1 l1 words n1 ≫= fun w => insert_lane b2 l2 w n2) =
  (insert_lane b2 l2 words n2 ≫= fun w => insert_lane b1 l1 w n1).
Proof.
  unfold insert_lane. set (i := (b1 + n1 / 2)%nat). set (j := (b2 + n2 / 2)%nat).
  destruct (decide (i = j)) as [<-|Hij].
  - destruct (words !! i) as [w|] eqn:E; cbn; [|done].
    rewrite !list_lookup_insert_eq by (by eapply lookup_lt_Some). cbn.
    rewrite !list_insert_insert_eq. do 2 f_equal.
    rewrite <-!Z.lor_assoc. f_equal. apply Z.lor_comm.
  - destruct (words !! i) as [w|] eqn:E, (words !! j) as [v|] eqn:F; cbn;
      rewrite ?list_lookup_insert_ne, ?E, ?F by done; cbn; try done.
    f_equal. by apply list_insert_insert_ne.
Qed.

Lemma lane_lanes_comm b1 l1 n1 b2 l2 ns words :
  (insert_lane b1 l1 words n1 ≫= foldM (insert_lane b2 l2) ns) =
  (foldM (insert_lane b2 l2) ns words ≫= fun w => insert_lane b1 l1 w n1).
Proof.
  revert words. induction ns as [|n ns IH]; intros words; cbn.
  - by destruct (insert_lane b1 l1 words n1).
  - pose proof (insert_lane_comm b1 l1 n1 b2 l2 n words) as Hc.
    destruct (insert_lane b1 l1 words n1) as [w1|] eqn:E1,
             (insert_lane b2 l2 words n) as [w2|] eqn:E2; cbn in *; try done.
    + rewrite Hc. apply IH.
    + by rewrite Hc.
    + rewrite <-IH, <-Hc. done.
Qed.

Lemma lanes_comm b1 l1 ns1 b2 l2 ns2 words :
  (foldM (insert_lane b1 l1) ns1 words ≫= foldM (insert_lane b2 l2) ns2) =
  (foldM (insert_lane b2 l2) ns2 words ≫= foldM (insert_lane b1 l1) ns1).
Proof.
  revert words. induction ns1 as [|n ns1 IH]; intros words; cbn.
  - by destruct (foldM (insert_lane b2 l2) ns2 words).
  - pose proof (lane_lanes_comm b1 l1 n b2 l2 ns2 words) as Hc.
    destruct (insert_lane b1 l1 words n) as [w|]; cbn in *.
    + rewrite IH, Hc. by destruct (foldM (insert_lane b2 l2) ns2 words).
    + destruct (foldM (insert_lane b2 l2) ns2 words); cbn in *; [|done]. by rewrite <-Hc.
Qed.

Lemma lanes_length base lo l words w' :
  foldM (insert_lane base lo) l words = Some w' -> length w' = length words.
Proof.
  revert words. induction l as [|n l IH]; intros words; cbn; [congruence|].
  destruct (insert_lane _ _ _ _) eqn:E; cbn; [|done].
  intros ->%IH. by eapply insert_lane_length.
Qed.

Lemma insert_length words h w' : insert words h = Some w' -> length w' = length words.
Proof. apply lanes_length. Qed.

Lemma insert_comm words h1 h2 :
  (insert words h1 ≫= fun w => insert w h2) = (insert words h2 ≫= fun w => insert w h1).
Proof.
  set (b h := (block_index h (length words / U64_PER_BLOCK) * U64_PER_BLOCK)%nat).
  assert (Hi : forall g w h, (insert words g = Some w) ->
            insert w h = foldM (insert_lane (b h) (wrap 32 h)) (seq 0 8) w).
  { intros g w h E%insert_length. unfold insert, b. by rewrite E. }
  pose proof (lanes_comm (b h1) (wrap 32 h1) (seq 0 8) (b h2) (wrap 32 h2) (seq 0 8) words) as Hc.
  change (foldM (insert_lane (b h1) (wrap 32 h1)) (seq 0 8) words) with (insert words h1) in Hc.
  change (foldM (insert_lane (b h2) (wrap 32 h2)) (seq 0 8) words) with (insert words h2) in Hc.
  destruct (insert words h1) eqn:E1, (insert words h2) eqn:E2; cbn [mbind option_bind] in *;
    rewrite ?(Hi _ _ _ E1), ?(Hi _ _ _ E2); done.
Qed.

Lemma insert_all_perm words hs hs' : hs ≡ₚ hs' -> insert_all words hs = insert_all words hs'.
Proof.
  intros Hp. revert words. unfold insert_all.
  induction Hp as [|h hs hs' _ IH|h1 h2 hs|hs1 hs2 hs3 _ IH1 _ IH2]; intros words; cbn.
  - done.
  - destruct (insert words h); cbn; [apply IH|done].
  - pose proof (insert_comm words h1 h2) as Hc.
    destruct (insert words h1) eqn:E1, (insert words h2) eqn:E2; cbn in *; try done;
      first [by rewrite Hc | by rewrite <-Hc].
  - by rewrite IH1.
Qed.

(** The words of a sized filter are a function of the set of hashes: any
    iteration order of the set gives the same words, every member answers
    maybe-present, and the build never panics. *)
Theorem sized_bloom_from_set (S : gset Z) (order : list Z) (max_bytes : Z) :
  order ≡ₚ elements S -> set_Forall (fun h => u64 h) S ->
  32 <= max_bytes <= 2 ^ 32 -> (32 | max_bytes) ->
  exists words,
    sized_bloom_from_hashes (Z.of_nat (size S)) order max_bytes = Some words /\
    sized_bloom_from_hashes (Z.of_nat (size S)) (elements S) max_bytes = Some words /\
    bloom_ok words /\ (forall h, h ∈ S -> contains words h = Some true).
Proof.
  intros Hp HS Hm Hd.
  destruct (sized_bloom_spec (Z.of_nat (size S)) (elements S) max_bytes)
    as (w & E & Hok & Hc); [lia|done|done| |].
  { unfold all_u64. by rewrite <-set_Forall_elements. }
  exists w. split_and!; [|done|done|].
  - rewrite <-E. unfold sized_bloom_from_hashes. by apply insert_all_perm.
  - intros h Hh. rewrite Forall_forall in Hc. by apply Hc, elem_of_elements.
Qed.

Lemma sized_bloom_from_set_witness :
  exists w, sized_bloom_from_hashes 2 [9; 5] 64 = Some w /\ contains w 5 = Some true /\
            contains w 6 = Some false.
Proof.
  destruct (sized_bloom_from_set {[5; 9]} [9; 5] 64) as (w & E & _ & _ & Hc).
  - vm_compute elements. reflexivity.
  - intros h Hh. set_unfold. destruct Hh as [-> | ->]; split; lia.
  - lia.
  - by exists 2.
  - exists w. split; [exact E|]. split; [apply Hc; set_solver|].
    vm_compute in E. injection E as <-. reflexivity.
Defined.

(** ** Client sets *)

Definition u64_set (S : gset Z) : Prop := set_Forall (fun h => u64 h) S.

Lemma merge_sort_search (S : gset Z) h :
  is_Some (binary_search_by (fun x => x ?= h) (merge_sort Z.le (elements S))) <-> h ∈ S.
Proof.
  set (l := merge_sort Z.le (elements S)).
  assert (Hs : StronglySorted Z.le l) by (apply StronglySorted_merge_sort; apply _).
  assert (Hle : forall i j x y, (i < j)%nat -> l !! i = Some x -> l !! j = Some y -> x <= y).
  { intros i j x y. by apply StronglySorted_lookup_lt. }
  rewrite binary_search_by_is_Some.
  - setoid_rewrite Z.compare_eq_iff. unfold l. setoid_rewrite merge_sort_Permutation.
    setoid_rewrite elem_of_elements. naive_solver.
  - intros i j x y ? Hx Hy. pose proof (Hle i j x y). rewrite !Z.compare_lt_iff. intros. naive_solver lia.
  - intros i j x y ? Hx Hy. pose proof (Hle i j x y). rewrite !Z.compare_gt_iff. intros. naive_solver lia.
Qed.

Lemma from_client_hashes_large (S : gset Z) : u64_set S -> (EXACT_CLIENT_SET_MAX < size S)%nat ->
  exists words, from_client_hashes S = Some (Bloom words) /\ bloom_ok words /\
    forall h, h ∈ S -> contains words h = Some true.
Proof.
  intros HS Hl. unfold from_client_hashes. rewrite decide_False.
  2: { intros ->. rewrite size_empty in Hl. lia. }
  rewrite decide_False by lia.
  destruct (sized_bloom_spec (Z.of_nat (size S)) (elements S) CLIENT_SET_BLOOM_MAX_BYTES)
    as (w & -> & ? & Hc); [lia|done|by exists 256| |].
  { unfold all_u64. by rewrite <-set_Forall_elements. }
  exists w. split_and!; [done|done|]. intros h Hh. rewrite Forall_forall in Hc.
  by apply Hc, elem_of_elements.
Qed.

Lemma bloom_ok_guard words : bloom_ok words -> words <> [] /\ (length words mod 4 = 0)%nat.
Proof.
  intros (nb & E & ? & _). split; [intros ->; cbn in E; lia|].
  rewrite E. apply Nat.Div0.mod_mul.
Qed.

Lemma may_contain_bloom words h :
  bloom_ok words -> may_contain_hash (Bloom words) h = contains words h.
Proof.
  intros [Hn Hm]%bloom_ok_guard. unfold may_contain_hash.
  destruct (decide (words = [])); [done|]. destruct (decide _); done.
Qed.

(** The client set written for a segment never answers "absent" for a
    client of the aggregate; with at most 32 clients it answers exactly; and a
    segment that saw no client at all answers maybe for everyone. *)
Theorem client_set_sound (S : gset Z) :
  u64_set S ->
  exists cs, from_client_hashes S = Some cs /\
    (forall h, h ∈ S -> may_contain_hash cs h = Some true) /\
    (forall h, u64 h -> is_Some (may_contain_hash cs h)) /\
    (S = ∅ -> cs = Unknown) /\
    (S <> ∅ -> (size S <= 32)%nat ->
       cardinality cs = Some (size S) /\
       forall h, may_contain_hash cs h = Some (bool_decide (h ∈ S))).
Proof.
  intros HS. destruct (decide (EXACT_CLIENT_SET_MAX < size S)%nat) as [Hl|Hl].
  - destruct (from_client_hashes_large S HS Hl) as (w & E & Hok & Hc).
    exists (Bloom w). split; [done|]. setoid_rewrite (may_contain_bloom w _ Hok).
    split_and!; [done| | |].
    + intros. by apply contains_total.
    + intros ->. rewrite size_empty in Hl. lia.
    + unfold EXACT_CLIENT_SET_MAX in Hl. lia.
  - unfold from_client_hashes. case_decide as He.
    + subst. exists Unknown. split_and!; done.
    + rewrite decide_True by lia. eexists. split; [done|]. cbn.
      assert (Heq : forall h, bool_decide (is_Some (binary_search_by (fun x => x ?= h)
                (merge_sort Z.le (elements S)))) = bool_decide (h ∈ S)).
      { intros. apply bool_decide_ext, merge_sort_search. }
      split_and!; [| |done|].
      * intros. rewrite Heq. by rewrite bool_decide_true.
      * by eexists.
      * intros _ _. split; [|intros; by rewrite Heq].
        by rewrite merge_sort_Permutation.
Qed.

Lemma client_set_sound_witness :
  exists cs, from_client_hashes {[5; 9]} = Some cs /\ may_contain_hash cs 9 = Some true /\
             may_contain_hash cs 6 = Some false.
Proof.
  destruct (client_set_sound {[5; 9]}) as (cs & E & H & _ & _ & He).
  - intros h Hh. set_unfold. destruct Hh as [-> | ->]; split; lia.
  - exists cs. split; [done|]. split; [apply H; set_solver|].
    destruct He as [_ He]; [set_solver|vm_compute; lia|]. rewrite He. reflexivity.
Defined.

(** ** The schema accumulator *)

(** Every hash an accumulator was given, directly or through a merge. *)
Inductive accumulated : SchemaHashAccumulator -> gset Z -> Prop :=
  | acc_default : accumulated accumulator_default ∅
  | acc_insert a S h a' :
      accumulated a S -> u64 h -> accumulator_insert a h = Some a' -> accumulated a' ({[h]} ∪ S)
  | acc_merge a S b T a' :
      accumulated a S -> accumulated b T -> accumulator_merge a b = Some a' ->
      accumulated a' (S ∪ T).

(** What an accumulator says of the hashes it was given. *)
Definition acc_holds (a : SchemaHashAccumulator) (S : gset Z) : Prop :=
  u64_set S /\
  match overflow_bloom a with
  | None => hashes a = S /\ (size S <= SCHEMA_ACCUMULATOR_MAX_HASHES)%nat
  | Some words => hashes a = ∅ /\ length words = Z.to_nat (SCHEMA_BLOOM_MAX_BYTES / 8) /\
                  forall h, h ∈ S -> contains words h = Some true
  end.

Lemma schema_words_ok words :
  length words = Z.to_nat (SCHEMA_BLOOM_MAX_BYTES / 8) -> bloom_ok words.
Proof. intros H. exists 256%nat. split; [by rewrite H|lia]. Qed.

Lemma u64_set_elements S : u64_set S -> all_u64 (elements S).
Proof. unfold all_u64. by rewrite <-set_Forall_elements. Qed.

Lemma u64_set_union S T : u64_set S -> u64_set T -> u64_set (S ∪ T).
Proof. intros. by apply set_Forall_union. Qed.

Lemma u64_set_singleton h : u64 h -> u64_set {[h]}.
Proof. intros. by apply set_Forall_singleton. Qed.

#[export] Hint Resolve u64_set_elements u64_set_union u64_set_singleton schema_words_ok : cel.

Lemma acc_holds_insert a S h : acc_holds a S -> u64 h ->
  exists a', accumulator_insert a h = Some a' /\ acc_holds a' ({[h]} ∪ S).
Proof.
  intros (HS & Ha) Hh. unfold accumulator_insert, acc_holds.
  assert (HS' : u64_set ({[h]} ∪ S)) by auto with cel.
  destruct (overflow_bloom a) as [words|].
  - destruct Ha as (He & Hl & Hc).
    destruct (insert_spec words h) as (w' & -> & Hcov & Hin); [auto with cel|done|].
    eexists. split; [done|]. split; [done|]. cbn. split_and!; [done| |].
    + rewrite <-Hl. by apply covers_length.
    + intros x [->%elem_of_singleton|Hx]%elem_of_union; [done|].
      eapply contains_covers; eauto.
  - destruct Ha as [-> Hsz]. case_decide.
    + destruct (insert_all_spec (zero_words (SCHEMA_BLOOM_MAX_BYTES / 8)) (elements ({[h]} ∪ S)))
        as (w & -> & _ & Hcov & Hc); [apply schema_words_ok, length_replicate|auto with cel|].
      eexists. split; [done|]. split; [done|]. cbn. split_and!; [done| |].
      * rewrite (covers_length _ _ Hcov). apply length_replicate.
      * intros x Hx. rewrite Forall_forall in Hc. by apply Hc, elem_of_elements.
    + eexists. split; [done|]. split; [done|]. cbn [hashes overflow_bloom]. split; [done|lia].
Qed.

Lemma or_words_covers a b : length a = length b -> covers a (or_words a b) /\ covers b (or_words a b).
Proof.
  revert b. induction a as [|x a IH]; intros [|y b] [=]; cbn; [repeat constructor|].
  destruct (IH b) as [H1 H2]; [done|].
  split; constructor; auto using bits_le_lor_l, bits_le_lor_r.
Qed.

Lemma acc_holds_inserts a S T : acc_holds a S -> u64_set T ->
  exists a', foldM accumulator_insert (elements T) a = Some a' /\ acc_holds a' (S ∪ T).
Proof.
  intros Ha HT. destruct (foldM_total accumulator_insert
    (fun d c => acc_holds c (S ∪ list_to_set d)) (elements T) a) as (c & ? & Hc).
  - cbn. by rewrite union_empty_r_L.
  - intros d h c Hin Hc. destruct (acc_holds_insert c _ h Hc) as (c' & ? & Hc').
    { apply HT. by apply elem_of_elements. }
    exists c'. split; [done|].
    replace (S ∪ list_to_set (d ++ [h])) with ({[h]} ∪ (S ∪ list_to_set d)) by set_solver.
    done.
  - exists c. split; [done|]. by rewrite list_to_set_elements_L in Hc.
Qed.

Lemma acc_holds_merge a S b T : acc_holds a S -> acc_holds b T ->
  exists a', accumulator_merge a b = Some a' /\ acc_holds a' (S ∪ T).
Proof.
  intros Ha (HT & Hb). unfold accumulator_merge.
  destruct (overflow_bloom b) as [words|].
  2: { destruct Hb as [-> _]. by apply acc_holds_inserts. }
  destruct Hb as (_ & Hl & Hc), Ha as (HS & Ha). unfold acc_holds.
  assert (u64_set (S ∪ T)) by auto with cel.
  destruct (overflow_bloom a) as [mine|].
  - destruct Ha as (He & Hl' & Hc').
    destruct (or_words_covers mine words) as [H1 H2]; [congruence|].
    eexists. split; [done|]. split; [done|]. cbn. split_and!; [done| |].
    + rewrite <-Hl'. by apply covers_length.
    + intros h [Hh|Hh]%elem_of_union.
      * eapply contains_covers; [exact H1|]. by apply Hc'.
      * eapply contains_covers; [exact H2|]. by apply Hc.
  - destruct Ha as [-> _].
    destruct (insert_all_spec words (elements S)) as (w & -> & _ & Hcov & Hin); [auto with cel..|].
    eexists. split; [done|]. split; [done|]. cbn. split_and!; [done| |].
    + rewrite <-Hl. by apply covers_length.
    + rewrite Forall_forall in Hin. intros h [?|?]%elem_of_union.
      * by apply Hin, elem_of_elements.
      * eapply contains_covers; eauto.
Qed.

Lemma accumulated_holds a S : accumulated a S -> acc_holds a S.
Proof.
  induction 1 as [|a S h a' _ IH Hh E|a S b T a' _ IHa _ IHb E].
  - split; [apply set_Forall_empty|]. split; [done|]. rewrite size_empty. apply Nat.le_0_l.
  - destruct (acc_holds_insert a S h IH Hh) as (? & ? & ?). by simplify_eq.
  - destruct (acc_holds_merge a S b T IHa IHb) as (? & ? & ?). by simplify_eq.
Qed.

(** Whatever sequence of insertions and merges built the accumulator,
    and whether or not it overflowed into a bloom on the way, it answers
    maybe-present for every schema hash it was given, and so does the bloom
    sealed into the segment summary; another insertion never panics. *)
Theorem schema_accumulator_superset (a : SchemaHashAccumulator) (S : gset Z) :
  accumulated a S ->
  (forall h, h ∈ S -> accumulator_may_contain a h = Some true) /\
  (exists words, to_schema_bloom a true = Some (Some words) /\ bloom_ok words /\
     forall h, h ∈ S -> contains words h = Some true) /\
  to_schema_bloom a false = Some None /\
  (forall h, u64 h -> is_Some (accumulator_insert a h)).
Proof.
  intros Ha%accumulated_holds. split_and!; [| |done|].
  - intros h Hh. destruct Ha as (_ & Ha). unfold accumulator_may_contain.
    destruct (overflow_bloom a).
    + by apply Ha.
    + destruct Ha as [-> _]. by rewrite bool_decide_true.
  - destruct Ha as (HS & Ha). unfold to_schema_bloom; cbn [negb].
    destruct (overflow_bloom a) as [words|].
    + exists words. destruct Ha as (? & ? & ?). auto with cel.
    + destruct Ha as [-> _].
      destruct (sized_bloom_spec (Z.of_nat (size S)) (elements S) SCHEMA_BLOOM_MAX_BYTES)
        as (w & -> & ? & Hc); [lia|done|by exists 256|auto with cel|].
      exists w. split_and!; [done|done|]. intros h Hh. rewrite Forall_forall in Hc.
      by apply Hc, elem_of_elements.
  - intros h Hh. destruct (acc_holds_insert a S h Ha Hh) as (? & ? & _). by eexists.
Qed.

Lemma schema_accumulator_superset_witness :
  exists a, accumulated a ({[7]} ∪ ∅) /\ accumulator_may_contain a 7 = Some true /\
            accumulator_may_contain a 8 = Some false.
Proof.
  exists {| hashes := {[7]} ∪ ∅; overflow_bloom := None |}.
  assert (H : accumulated {| hashes := {[7]} ∪ ∅; overflow_bloom := None |} ({[7]} ∪ ∅)).
  { eapply acc_insert; [apply acc_default|split; lia|reflexivity]. }
  split; [done|]. split; [|reflexivity].
  apply (schema_accumulator_superset _ _ H). set_solver.
Defined.
