(* ===== verification/Codec.v ===== *)
(** * The bincode wire format

    The crate encodes every persisted structure with [bincode] in the
    configuration of [celeriant_wire/src/codec/bincode.rs]: fixed-width
    little-endian integers.  The library itself is a parameter: the class
    [Bincode] has its integer encoder and decoder and states its documented
    behaviour.  What [derive(Encode, Decode)] generates for a structure (the
    fields in order, no tag), for an enumeration (a [u32] discriminant, then
    the fields), for an [Option] (one tag byte), for a fixed-size array (the
    elements) and for a [Vec] (a [u64] length, then the elements) is written
    with the combinators of this file. *)

From S2P Require Import Prelude.

Class Bincode := {
  enc_uint : nat -> Z -> bytes;
  dec_uint : nat -> bytes -> option (Z * bytes);
  enc_uint_le n x : enc_uint n x = le_bytes n x;
  dec_uint_enc n x rest :
    0 <= x < 256 ^ Z.of_nat n -> dec_uint n (enc_uint n x ++ rest) = Some (x, rest);
  dec_uint_short n b : (length b < n)%nat -> dec_uint n b = None;
  (** [encode_into_slice], given the encoding of the message: the number of
      bytes written and the slice, or an error when the slice is too small. *)
  encode_into_slice : bytes -> bytes -> option (nat * bytes);
  encode_into_slice_fits e buf :
    (length e <= length buf)%nat -> encode_into_slice e buf = Some (length e, write_at buf 0 e);
  encode_into_slice_small e buf :
    (length buf < length e)%nat -> encode_into_slice e buf = None;
}.

(** The format of the documentation, as a concrete library. *)
Definition bincode_le : Bincode.
Proof.
  refine {|
    enc_uint := le_bytes;
    dec_uint n b := v ← get_slice b 0 n; Some (le_value v, drop n b);
    encode_into_slice e buf :=
      if decide (length e <= length buf)%nat then Some (length e, write_at buf 0 e) else None |}.
  - done.
  - intros n x rest Hx. unfold get_slice. rewrite decide_True.
    2: { rewrite length_app, length_le_bytes. lia. }
    cbn. unfold slice. rewrite drop_0, take_app_length', drop_app_length' by (by rewrite length_le_bytes).
    rewrite le_value_bytes, Z.mod_small by done. done.
  - intros n b Hb. unfold get_slice. rewrite decide_False by (cbn; lia). done.
  - intros. by rewrite decide_True.
  - intros. by rewrite decide_False by lia.
Defined.

Section codec.
Context `{Bincode}.

Definition encoder (A : Type) : Type := A -> bytes.
Definition decoder (A : Type) : Type := bytes -> option (A * bytes).

Definition enc_bool : encoder bool := fun b => enc_uint 1 (if b then 1 else 0).
Definition dec_bool : decoder bool := fun s =>
    '(t, s) ← dec_uint 1 s;
    if t =? 0 then Some (false, s) else if t =? 1 then Some (true, s) else None.

Definition enc_option {A} (e : encoder A) : encoder (option A) := fun o =>
    match o with None => enc_uint 1 0 | Some a => enc_uint 1 1 ++ e a end.
Definition dec_option {A} (d : decoder A) : decoder (option A) := fun s =>
    '(t, s) ← dec_uint 1 s;
    if t =? 0 then Some (None, s)
    else if t =? 1 then '(a, s) ← d s; Some (Some a, s)
    else None.

Fixpoint enc_array {A} (e : encoder A) (l : list A) : bytes :=
    match l with [] => [] | a :: l => e a ++ enc_array e l end.
Fixpoint dec_array {A} (d : decoder A) (n : nat) (s : bytes) : option (list A * bytes) :=
    match n with
    | O => Some ([], s)
    | S n => '(a, s) ← d s; '(l, s) ← dec_array d n s; Some (a :: l, s)
    end.

Definition enc_vec {A} (e : encoder A) : encoder (list A) := fun l =>
    enc_uint 8 (Z.of_nat (length l)) ++ enc_array e l.
Definition dec_vec {A} (d : decoder A) : decoder (list A) := fun s =>
    '(n, s) ← dec_uint 8 s; dec_array d (Z.to_nat n) s.

  (** A decoder undoes an encoder on the values satisfying [P], whatever
      follows them. *)
Definition codec_ok {A} (P : A -> Prop) (e : encoder A) (d : decoder A) : Prop :=
    forall a rest, P a -> d (e a ++ rest) = Some (a, rest).

Lemma uint_ok n : codec_ok (fun x => 0 <= x < 256 ^ Z.of_nat n) (enc_uint n) (dec_uint n).
  Proof. intros x rest. apply dec_uint_enc. Qed.

Lemma bool_ok : codec_ok (fun _ => True) enc_bool dec_bool.
  Proof.
    intros b rest _. unfold enc_bool, dec_bool.
    rewrite dec_uint_enc by (destruct b; done). by destruct b.
  Qed.

Lemma option_ok {A} (P : A -> Prop) e d :
    codec_ok P e d -> codec_ok (fun o => forall a, o = Some a -> P a) (enc_option e) (dec_option d).
  Proof.
    intros Hc [a|] rest Ha; unfold enc_option, dec_option.
    - rewrite <-app_assoc, dec_uint_enc by done. cbn. rewrite Hc by auto. done.
    - by rewrite dec_uint_enc.
  Qed.

Lemma array_ok {A} (P : A -> Prop) e d n :
    codec_ok P e d ->
    codec_ok (fun l => length l = n /\ Forall P l) (enc_array e) (dec_array d n).
  Proof.
    intros Hc. induction n as [|n IH]; intros [|a l] rest [Hl Hp]; try done.
    cbn. inversion_clear Hp. rewrite <-app_assoc, Hc by done. cbn.
    rewrite IH by (split; [by injection Hl|done]). done.
  Qed.

Lemma vec_ok {A} (P : A -> Prop) e d :
    codec_ok P e d ->
    codec_ok (fun l => Forall P l /\ Z.of_nat (length l) < 2 ^ 64) (enc_vec e) (dec_vec d).
  Proof.
    intros Hc l rest [Hp Hl]. unfold enc_vec, dec_vec.
    rewrite <-app_assoc, dec_uint_enc by (split; [lia|done]). cbn. rewrite Nat2Z.id.
    apply (array_ok P e d (length l) Hc). done.
  Qed.

  (** A [[u8; N]] is its bytes. *)
Lemma enc_array_u8 bs : bytes_ok bs -> enc_array (enc_uint 1) bs = bs.
  Proof.
    induction 1 as [|b bs Hb _ IH]; [done|]. cbn. rewrite enc_uint_le, IH. cbn.
    unfold byte_ok in Hb. by rewrite Z.mod_small.
  Qed.

Lemma length_enc_uint n x : length (enc_uint n x) = n.
  Proof. by rewrite enc_uint_le, length_le_bytes. Qed.

Lemma length_enc_array {A} (e : encoder A) k l :
    (forall a, length (e a) = k) -> length (enc_array e l) = (k * length l)%nat.
  Proof. intros He. induction l; cbn; [lia|]. rewrite length_app, He, IHl. lia. Qed.
End codec.

#[export] Hint Rewrite @length_enc_uint : cel.

(** Fields at fixed offsets: skipping what precedes, reading what is there. *)
Lemma get_slice_skip {A} (a b : list A) off n :
  (length a <= off)%nat -> get_slice (a ++ b) off n = get_slice b (off - length a) n.
Proof.
  intros. unfold get_slice. rewrite length_app, slice_app_r by done.
  destruct (decide (off + n <= length a + length b)%nat);
    destruct (decide (off - length a + n <= length b)%nat); (done || lia).
Qed.

Lemma get_slice_here {A} (a b : list A) n :
  n = length a -> get_slice (a ++ b) 0 n = Some a.
Proof.
  intros ->. unfold get_slice. rewrite decide_True by (rewrite length_app; lia).
  unfold slice. by rewrite drop_0, take_app_length.
Qed.

Lemma lookup_skip {A} (a b : list A) off :
  (length a <= off)%nat -> (a ++ b) !! off = b !! (off - length a)%nat.
Proof. intros. by rewrite lookup_app_r. Qed.
