(* ===== verification/WalTypes.v ===== *)
(** * Keys, metablocks and datablocks

    [celeriant_wal/src/]: [aggregate_key.rs], [aggregate_client_key.rs],
    [aggregate_type_key.rs], [schema_key.rs], [metablocks/], [datablocks/],
    [compression_type.rs] and [schema_type.rs], with the encoders and decoders
    their [Encode]/[Decode] implementations stand for.

    The keys carry a private hash that only [new] sets and that every
    constructor recomputes; it is a function of the other fields and is
    modelled as one ([bloom_hash]), over the parameter [xxh3_64]. *)

From S2P Require Import Prelude WalConstants Codec.

(** The xxh3 hash function of the [xxhash-rust] crate. *)
Class Xxh3 := {
  xxh3_64 : bytes -> Z;
  xxh3_64_u64 b : u64 (xxh3_64 b);
}.

(** The law of the interface is satisfiable: a hash that keeps the low 64 bits. *)
Definition xxh_low : Xxh3.
Proof. refine {| xxh3_64 b := wrap 64 (le_value b) |}. intros b. by apply wrap_fits. Defined.

(** ** Keys *)

Record AggregateKey := {
  org_id : Z;
  aggregate_type_id : Z;
  aggregate_id : Z;
}.

#[global] Instance AggregateKey_eq_dec : EqDecision AggregateKey.
Proof. solve_decision. Defined.
#[global] Program Instance AggregateKey_countable : Countable AggregateKey :=
  inj_countable' (fun k => (org_id k, aggregate_type_id k, aggregate_id k))
                 (fun '(o, t, a) => {| org_id := o; aggregate_type_id := t; aggregate_id := a |}) _.
Next Obligation. by intros []. Qed.

Record AggregateTypeKey := {
  atk_org_id : Z;
  atk_aggregate_type_id : Z;
}.

#[global] Instance AggregateTypeKey_eq_dec : EqDecision AggregateTypeKey.
Proof. solve_decision. Defined.
#[global] Program Instance AggregateTypeKey_countable : Countable AggregateTypeKey :=
  inj_countable' (fun k => (atk_org_id k, atk_aggregate_type_id k))
                 (fun '(o, t) => {| atk_org_id := o; atk_aggregate_type_id := t |}) _.
Next Obligation. by intros []. Qed.

Record AggregateClientKey := {
  ack_aggregate_key : AggregateKey;
  ack_client_id : Z;
}.

#[global] Instance AggregateClientKey_eq_dec : EqDecision AggregateClientKey.
Proof. solve_decision. Defined.
#[global] Program Instance AggregateClientKey_countable : Countable AggregateClientKey :=
  inj_countable' (fun k => (ack_aggregate_key k, ack_client_id k))
                 (fun '(a, c) => {| ack_aggregate_key := a; ack_client_id := c |}) _.
Next Obligation. by intros []. Qed.

Record SchemaKey := {
  sk_org_id : Z;
  sk_aggregate_type_id : Z;
  sk_event_type_major : Z;
  sk_event_type_minor : Z;
}.

#[global] Instance SchemaKey_eq_dec : EqDecision SchemaKey.
Proof. solve_decision. Defined.
#[global] Program Instance SchemaKey_countable : Countable SchemaKey :=
  inj_countable' (fun k => (sk_org_id k, sk_aggregate_type_id k, sk_event_type_major k, sk_event_type_minor k))
                 (fun '(o, t, a, i) => {| sk_org_id := o; sk_aggregate_type_id := t;
                                          sk_event_type_major := a; sk_event_type_minor := i |}) _.
Next Obligation. by intros []. Qed.

Section key_hashes.
Context `{Xxh3}.

  (** [AggregateKey::compute_hash] / [bloom_hash]: xxh3 of the 48-byte buffer. *)
Definition AggregateKey_bloom_hash (k : AggregateKey) : Z :=
    let buf := zeros 48 in
    let buf := write_at buf 0 (le_bytes 16 (org_id k)) in
    let buf := write_at buf 16 (le_bytes 16 (aggregate_type_id k)) in
    let buf := write_at buf 32 (le_bytes 16 (aggregate_id k)) in
    xxh3_64 buf.

Definition SchemaKey_bloom_hash (k : SchemaKey) : Z :=
    let buf := zeros 48 in
    let buf := write_at buf 0 (le_bytes 16 (sk_org_id k)) in
    let buf := write_at buf 16 (le_bytes 16 (sk_aggregate_type_id k)) in
    let buf := write_at buf 32 (le_bytes 8 (sk_event_type_major k)) in
    let buf := write_at buf 40 (le_bytes 8 (sk_event_type_minor k)) in
    xxh3_64 buf.

Definition client_id_bloom_hash (client_id : Z) : Z := xxh3_64 (le_bytes 16 client_id).

Lemma client_id_bloom_hash_u64 c : u64 (client_id_bloom_hash c).
  Proof. apply xxh3_64_u64. Qed.
End key_hashes.

Module KeyLayout.
Definition AGG_OFFSET_ORG_ID : nat := 0.
Definition AGG_OFFSET_AGGREGATE_TYPE_ID : nat := AGG_OFFSET_ORG_ID + 16.
Definition AGG_OFFSET_AGGREGATE_ID : nat := AGG_OFFSET_AGGREGATE_TYPE_ID + 16.
Definition AGG_WIRE_SIZE_TOTAL : nat := AGG_OFFSET_AGGREGATE_ID + 16.
Definition TYPE_WIRE_SIZE_TOTAL : nat := 16 + 16.
Definition SCHEMA_OFFSET_ORG_ID : nat := 0.
Definition SCHEMA_OFFSET_AGGREGATE_TYPE_ID : nat := SCHEMA_OFFSET_ORG_ID + 16.
Definition SCHEMA_OFFSET_EVENT_TYPE_MAJOR : nat := SCHEMA_OFFSET_AGGREGATE_TYPE_ID + 16.
Definition SCHEMA_OFFSET_EVENT_TYPE_MINOR : nat := SCHEMA_OFFSET_EVENT_TYPE_MAJOR + 8.
Definition SCHEMA_WIRE_SIZE_TOTAL : nat := SCHEMA_OFFSET_EVENT_TYPE_MINOR + 8.
End KeyLayout.

(** ** Metablocks *)

Inductive EventTypesKind :=
  | EventTypesBloom (words : list Z)
  | EventTypesDirect (types : list Z).

Record MetablockEventBatch := {
  eb_aggregate_key : AggregateKey;
  eb_aggregate_version : Z;
  trimmed_below_version : Z;
  min_client_seq : Z;
  max_client_seq : Z;
  min_event_timestamp : Z;
  max_event_timestamp : Z;
  min_event_seq : Z;
  max_event_seq : Z;
  eb_client_id : Z;
  eb_user_id : option Z;
  event_types_data : EventTypesKind;
}.

Record MetablockSchemaRegistration := {
  msr_schema_key : SchemaKey;
  msr_client_id : Z;
  msr_user_id : option Z;
}.

Record MetablockSoftDelete := {
  sd_aggregate_key : AggregateKey;
  allow_recreate : bool;
  allow_sequence_continuation : bool;
  sd_aggregate_version : Z;
  sd_event_seq : Z;
  sd_client_id : Z;
  sd_user_id : option Z;
}.

Record MetablockSoftTrim := {
  st_aggregate_key : AggregateKey;
  keep_from_aggregate_version : Z;
  st_aggregate_version : Z;
  st_event_seq : Z;
  st_client_id : Z;
  st_user_id : option Z;
}.

Inductive MetablockKind :=
  | EventBatchMetadata (eb : MetablockEventBatch)
  | SchemaRegistration (sr : MetablockSchemaRegistration)
  | SoftDelete (sd : MetablockSoftDelete)
  | SoftTrim (st : MetablockSoftTrim).

Inductive DatablockStorageKind :=
  | StorageNone
  | StorageInline (minibatch : bytes)
  | StorageBlock (crc32c : Z).

Record Metablock := {
  wal_seq : Z;
  server_timestamp : Z;
  lease_epoch : Z;
  node_id : Z;
  uncompressed_size : Z;
  compressed_size : Z;
  datablock_version : Z;
  datablock_compression_type : Z;
  previous_tip_hash : bytes;
  datablock_position : Z;
  previous_aggregate_metablock_pos : Z;
  wal_metablock_type : MetablockKind;
  datablock : DatablockStorageKind;
}.

Module MetablockLayout.
Definition OFFSET_WAL_SEQ : nat := 0.
Definition OFFSET_SERVER_TIMESTAMP : nat := OFFSET_WAL_SEQ + 8.
Definition OFFSET_LEASE_INDEX : nat := OFFSET_SERVER_TIMESTAMP + 8.
Definition OFFSET_NODE_ID : nat := OFFSET_LEASE_INDEX + 8.
Definition OFFSET_UNCOMPRESSED_SIZE : nat := OFFSET_NODE_ID + 16.
Definition OFFSET_COMPRESSED_SIZE : nat := OFFSET_UNCOMPRESSED_SIZE + 8.
Definition OFFSET_DATABLOCK_VERSION : nat := OFFSET_COMPRESSED_SIZE + 8.
Definition OFFSET_DATABLOCK_COMPRESSION_TYPE : nat := OFFSET_DATABLOCK_VERSION + 4.
Definition OFFSET_PREVIOUS_TIP_HASH : nat := OFFSET_DATABLOCK_COMPRESSION_TYPE + 1.
Definition OFFSET_DATABLOCK_POSITION : nat := OFFSET_PREVIOUS_TIP_HASH + 32.
Definition OFFSET_PREVIOUS_AGGREGATE_METABLOCK_POS : nat := OFFSET_DATABLOCK_POSITION + 8.
Definition OFFSET_WAL_METABLOCK_TYPE : nat := OFFSET_PREVIOUS_AGGREGATE_METABLOCK_POS + 8.

  (** [MetablockEventBatch]. *)
Definition EB_OFFSET_AGGREGATE_KEY : nat := 0.
Definition EB_OFFSET_AGGREGATE_VERSION : nat := EB_OFFSET_AGGREGATE_KEY + KeyLayout.AGG_WIRE_SIZE_TOTAL.
Definition EB_OFFSET_MIN_AGGREGATE_VERSION : nat := EB_OFFSET_AGGREGATE_VERSION + 8.
Definition EB_OFFSET_MIN_CLIENT_EVENT_SEQ : nat := EB_OFFSET_MIN_AGGREGATE_VERSION + 8.
Definition EB_OFFSET_MAX_CLIENT_EVENT_SEQ : nat := EB_OFFSET_MIN_CLIENT_EVENT_SEQ + 8.
Definition EB_OFFSET_MIN_EVENT_TIMESTAMP : nat := EB_OFFSET_MAX_CLIENT_EVENT_SEQ + 8.
Definition EB_OFFSET_MAX_EVENT_TIMESTAMP : nat := EB_OFFSET_MIN_EVENT_TIMESTAMP + 8.
Definition EB_OFFSET_MIN_EVENT_SEQ : nat := EB_OFFSET_MAX_EVENT_TIMESTAMP + 8.
Definition EB_OFFSET_MAX_EVENT_SEQ : nat := EB_OFFSET_MIN_EVENT_SEQ + 8.
Definition EB_OFFSET_CLIENT_ID : nat := EB_OFFSET_MAX_EVENT_SEQ + 8.
Definition EB_OFFSET_USER_ID : nat := EB_OFFSET_CLIENT_ID + 16.
Definition EB_OFFSET_EVENT_TYPES_DATA : nat := EB_OFFSET_USER_ID + (1 + 16).

  (** [MetablockSoftDelete]. *)
Definition SD_OFFSET_AGGREGATE_KEY : nat := 0.
Definition SD_OFFSET_ALLOW_RECREATE : nat := SD_OFFSET_AGGREGATE_KEY + KeyLayout.AGG_WIRE_SIZE_TOTAL.
Definition SD_OFFSET_ALLOW_SEQUENCE_CONTINUATION : nat := SD_OFFSET_ALLOW_RECREATE + 1.
Definition SD_OFFSET_AGGREGATE_VERSION : nat := SD_OFFSET_ALLOW_SEQUENCE_CONTINUATION + 1.
Definition SD_OFFSET_EVENT_SEQ : nat := SD_OFFSET_AGGREGATE_VERSION + 8.
Definition SD_OFFSET_CLIENT_ID : nat := SD_OFFSET_EVENT_SEQ + 8.

  (** [MetablockSoftTrim]. *)
Definition ST_OFFSET_AGGREGATE_KEY : nat := 0.
Definition ST_OFFSET_KEEP_FROM_AGGREGATE_VERSION : nat :=
    ST_OFFSET_AGGREGATE_KEY + KeyLayout.AGG_WIRE_SIZE_TOTAL.
Definition ST_OFFSET_AGGREGATE_VERSION : nat := ST_OFFSET_KEEP_FROM_AGGREGATE_VERSION + 8.
Definition ST_OFFSET_EVENT_SEQ : nat := ST_OFFSET_AGGREGATE_VERSION + 8.
Definition ST_OFFSET_CLIENT_ID : nat := ST_OFFSET_EVENT_SEQ + 8.

  (** [MetablockSchemaRegistration]. *)
Definition SR_OFFSET_SCHEMA_KEY : nat := 0.
Definition SR_OFFSET_CLIENT_ID : nat := SR_OFFSET_SCHEMA_KEY + KeyLayout.SCHEMA_WIRE_SIZE_TOTAL.
Definition SR_OFFSET_USER_ID : nat := SR_OFFSET_CLIENT_ID + 16.

Definition WORST_CASE_METABLOCK_WIRE_SIZE : nat :=
    8 + OFFSET_WAL_METABLOCK_TYPE + WIRE_SIZE_ENUM_DISCRIMINANT +
    EB_OFFSET_EVENT_TYPES_DATA + WIRE_SIZE_ENUM_DISCRIMINANT + 32 +
    WIRE_SIZE_ENUM_DISCRIMINANT + MINIBATCH_SIZE_BYTES.
End MetablockLayout.

(** ** Datablocks *)

Record DatablockAggregateEvent := {
  client_seq : Z;
  event_seq : Z;
  event_id : option Z;
  event_timestamp : Z;
  event_type_major : Z;
  event_type_minor : Z;
  event_value : bytes;
  iv : option bytes;
}.

Record DatablockAggregateEventBatch := {
  aggregate_version : Z;
  events : list DatablockAggregateEvent;
}.

Inductive SchemaType := Json | Avro | Protobuf.

(** The schema text as the bytes of the Rust [String]. *)
Record DatablockSchemaRegistration := {
  schema_type : SchemaType;
  schema : bytes;
}.

Inductive DatablockKind :=
  | EventBatchItem (b : DatablockAggregateEventBatch)
  | DatablockSchema (s : DatablockSchemaRegistration).

Inductive CompressionType := CompressionNone | ZstdDict.

Definition is_zstd_dict (c : CompressionType) : bool :=
  match c with ZstdDict => true | _ => false end.
Definition CompressionType_to_byte (c : CompressionType) : Z :=
  match c with CompressionNone => 0 | ZstdDict => 1 end.
Definition CompressionType_from_byte (type_id : Z) : result Z CompressionType :=
  if type_id =? 0 then Ok CompressionNone
  else if type_id =? 1 then Ok ZstdDict
  else Err type_id.

Definition SchemaType_to_u8 (s : SchemaType) : Z :=
  match s with Json => 0 | Avro => 1 | Protobuf => 2 end.
Definition SchemaType_try_from (value : Z) : result Z SchemaType :=
  if value =? 0 then Ok Json
  else if value =? 1 then Ok Avro
  else if value =? 2 then Ok Protobuf
  else Err value.

(** [MetablockEventBatch::from_batch_item]: the six bounds in one pass, an
    untouched minimum standing for an empty batch. *)
Definition batch_bounds_step (acc : (Z * Z) * (Z * Z) * (Z * Z)) (e : DatablockAggregateEvent)
    : (Z * Z) * (Z * Z) * (Z * Z) :=
  let '((min_idx, max_idx), (min_time, max_time), (min_edx, max_edx)) := acc in
  ((Z.min min_idx (client_seq e), Z.max max_idx (client_seq e)),
   (Z.min min_time (event_timestamp e), Z.max max_time (event_timestamp e)),
   (Z.min min_edx (event_seq e), Z.max max_edx (event_seq e))).

Definition from_batch_item (client_id : Z) (user_id : option Z) (key : AggregateKey)
    (trimmed_below : Z) (item : DatablockAggregateEventBatch) (types : EventTypesKind)
    : MetablockEventBatch :=
  let '((min_c, max_c), (min_t, max_t), (min_e, max_e)) :=
    foldl batch_bounds_step ((U64_MAX, 0), (U64_MAX, 0), (U64_MAX, 0)) (events item) in
  {| eb_aggregate_key := key;
     event_types_data := types;
     eb_aggregate_version := aggregate_version item;
     trimmed_below_version := trimmed_below;
     eb_client_id := client_id;
     eb_user_id := user_id;
     min_client_seq := if min_c =? U64_MAX then 0 else min_c;
     max_client_seq := max_c;
     min_event_timestamp := if min_t =? U64_MAX then 0 else min_t;
     max_event_timestamp := max_t;
     min_event_seq := if min_e =? U64_MAX then 0 else min_e;
     max_event_seq := max_e |}.
