(* ===== verification/WalCodec.v ===== *)
(** * Encoders and decoders of the persisted structures

    The [Encode]/[Decode] implementations of [celeriant_wal/src/]: derived for
    the metablocks, the datablocks, the segment header, hand-written for the
    keys (their hash is not serialised).  Each pair is shown to round trip,
    and the sizes are those the layout constants declare. *)

From S2P Require Import Prelude WalConstants Codec WalTypes.

Section wal_codec.
Context `{Bincode}.

Definition enc_aggregate_key (k : AggregateKey) : bytes :=
  enc_uint 16 (org_id k) ++ enc_uint 16 (aggregate_type_id k) ++ enc_uint 16 (aggregate_id k).
Definition dec_aggregate_key (s : bytes) : option (AggregateKey * bytes) :=
  '(o, s) ← dec_uint 16 s; '(t, s) ← dec_uint 16 s; '(a, s) ← dec_uint 16 s;
  Some ({| org_id := o; aggregate_type_id := t; aggregate_id := a |}, s).

Definition enc_aggregate_type_key (k : AggregateTypeKey) : bytes :=
  enc_uint 16 (atk_org_id k) ++ enc_uint 16 (atk_aggregate_type_id k).
Definition dec_aggregate_type_key (s : bytes) : option (AggregateTypeKey * bytes) :=
  '(o, s) ← dec_uint 16 s; '(t, s) ← dec_uint 16 s;
  Some ({| atk_org_id := o; atk_aggregate_type_id := t |}, s).

Definition enc_aggregate_client_key (k : AggregateClientKey) : bytes :=
  enc_aggregate_key (ack_aggregate_key k) ++ enc_uint 16 (ack_client_id k).
Definition dec_aggregate_client_key (s : bytes) : option (AggregateClientKey * bytes) :=
  '(k, s) ← dec_aggregate_key s; '(c, s) ← dec_uint 16 s;
  Some ({| ack_aggregate_key := k; ack_client_id := c |}, s).

Definition enc_schema_key (k : SchemaKey) : bytes :=
  enc_uint 16 (sk_org_id k) ++ enc_uint 16 (sk_aggregate_type_id k) ++
  enc_uint 8 (sk_event_type_major k) ++ enc_uint 8 (sk_event_type_minor k).
Definition dec_schema_key (s : bytes) : option (SchemaKey * bytes) :=
  '(o, s) ← dec_uint 16 s; '(t, s) ← dec_uint 16 s;
  '(ma, s) ← dec_uint 8 s; '(mi, s) ← dec_uint 8 s;
  Some ({| sk_org_id := o; sk_aggregate_type_id := t;
           sk_event_type_major := ma; sk_event_type_minor := mi |}, s).

Definition enc_event_types (t : EventTypesKind) : bytes :=
  match t with
  | EventTypesBloom w => enc_uint 4 0 ++ enc_array (enc_uint 8) w
  | EventTypesDirect w => enc_uint 4 1 ++ enc_array (enc_uint 8) w
  end.
Definition dec_event_types (s : bytes) : option (EventTypesKind * bytes) :=
  '(t, s) ← dec_uint 4 s;
  if t =? 0 then '(w, s) ← dec_array (dec_uint 8) 4 s; Some (EventTypesBloom w, s)
  else if t =? 1 then '(w, s) ← dec_array (dec_uint 8) 4 s; Some (EventTypesDirect w, s)
  else None.

Definition enc_event_batch (b : MetablockEventBatch) : bytes :=
  enc_aggregate_key (eb_aggregate_key b) ++
  enc_uint 8 (eb_aggregate_version b) ++ enc_uint 8 (trimmed_below_version b) ++
  enc_uint 8 (min_client_seq b) ++ enc_uint 8 (max_client_seq b) ++
  enc_uint 8 (min_event_timestamp b) ++ enc_uint 8 (max_event_timestamp b) ++
  enc_uint 8 (min_event_seq b) ++ enc_uint 8 (max_event_seq b) ++
  enc_uint 16 (eb_client_id b) ++ enc_option (enc_uint 16) (eb_user_id b) ++
  enc_event_types (event_types_data b).
Definition dec_event_batch (s : bytes) : option (MetablockEventBatch * bytes) :=
  '(k, s) ← dec_aggregate_key s; '(v, s) ← dec_uint 8 s; '(tb, s) ← dec_uint 8 s;
  '(c1, s) ← dec_uint 8 s; '(c2, s) ← dec_uint 8 s;
  '(t1, s) ← dec_uint 8 s; '(t2, s) ← dec_uint 8 s;
  '(e1, s) ← dec_uint 8 s; '(e2, s) ← dec_uint 8 s;
  '(c, s) ← dec_uint 16 s; '(u, s) ← dec_option (dec_uint 16) s;
  '(ty, s) ← dec_event_types s;
  Some ({| eb_aggregate_key := k; eb_aggregate_version := v; trimmed_below_version := tb;
           min_client_seq := c1; max_client_seq := c2;
           min_event_timestamp := t1; max_event_timestamp := t2;
           min_event_seq := e1; max_event_seq := e2;
           eb_client_id := c; eb_user_id := u; event_types_data := ty |}, s).

Definition enc_schema_registration (r : MetablockSchemaRegistration) : bytes :=
  enc_schema_key (msr_schema_key r) ++ enc_uint 16 (msr_client_id r) ++
  enc_option (enc_uint 16) (msr_user_id r).
Definition dec_schema_registration (s : bytes) : option (MetablockSchemaRegistration * bytes) :=
  '(k, s) ← dec_schema_key s; '(c, s) ← dec_uint 16 s; '(u, s) ← dec_option (dec_uint 16) s;
  Some ({| msr_schema_key := k; msr_client_id := c; msr_user_id := u |}, s).

Definition enc_soft_delete (d : MetablockSoftDelete) : bytes :=
  enc_aggregate_key (sd_aggregate_key d) ++ enc_bool (allow_recreate d) ++
  enc_bool (allow_sequence_continuation d) ++ enc_uint 8 (sd_aggregate_version d) ++
  enc_uint 8 (sd_event_seq d) ++ enc_uint 16 (sd_client_id d) ++
  enc_option (enc_uint 16) (sd_user_id d).
Definition dec_soft_delete (s : bytes) : option (MetablockSoftDelete * bytes) :=
  '(k, s) ← dec_aggregate_key s; '(r, s) ← dec_bool s; '(q, s) ← dec_bool s;
  '(v, s) ← dec_uint 8 s; '(e, s) ← dec_uint 8 s; '(c, s) ← dec_uint 16 s;
  '(u, s) ← dec_option (dec_uint 16) s;
  Some ({| sd_aggregate_key := k; allow_recreate := r; allow_sequence_continuation := q;
           sd_aggregate_version := v; sd_event_seq := e; sd_client_id := c; sd_user_id := u |}, s).

Definition enc_soft_trim (t : MetablockSoftTrim) : bytes :=
  enc_aggregate_key (st_aggregate_key t) ++ enc_uint 8 (keep_from_aggregate_version t) ++
  enc_uint 8 (st_aggregate_version t) ++ enc_uint 8 (st_event_seq t) ++
  enc_uint 16 (st_client_id t) ++ enc_option (enc_uint 16) (st_user_id t).
Definition dec_soft_trim (s : bytes) : option (MetablockSoftTrim * bytes) :=
  '(k, s) ← dec_aggregate_key s; '(f, s) ← dec_uint 8 s; '(v, s) ← dec_uint 8 s;
  '(e, s) ← dec_uint 8 s; '(c, s) ← dec_uint 16 s; '(u, s) ← dec_option (dec_uint 16) s;
  Some ({| st_aggregate_key := k; keep_from_aggregate_version := f; st_aggregate_version := v;
           st_event_seq := e; st_client_id := c; st_user_id := u |}, s).

Definition enc_metablock_kind (k : MetablockKind) : bytes :=
  match k with
  | EventBatchMetadata b => enc_uint 4 0 ++ enc_event_batch b
  | SchemaRegistration r => enc_uint 4 1 ++ enc_schema_registration r
  | SoftDelete d => enc_uint 4 2 ++ enc_soft_delete d
  | SoftTrim t => enc_uint 4 3 ++ enc_soft_trim t
  end.
Definition dec_metablock_kind (s : bytes) : option (MetablockKind * bytes) :=
  '(t, s) ← dec_uint 4 s;
  if t =? 0 then '(b, s) ← dec_event_batch s; Some (EventBatchMetadata b, s)
  else if t =? 1 then '(r, s) ← dec_schema_registration s; Some (SchemaRegistration r, s)
  else if t =? 2 then '(d, s) ← dec_soft_delete s; Some (SoftDelete d, s)
  else if t =? 3 then '(t, s) ← dec_soft_trim s; Some (SoftTrim t, s)
  else None.

Definition enc_storage_kind (k : DatablockStorageKind) : bytes :=
  match k with
  | StorageNone => enc_uint 4 0
  | StorageInline m => enc_uint 4 1 ++ enc_array (enc_uint 1) m
  | StorageBlock crc => enc_uint 4 2 ++ enc_uint 4 crc
  end.
Definition dec_storage_kind (s : bytes) : option (DatablockStorageKind * bytes) :=
  '(t, s) ← dec_uint 4 s;
  if t =? 0 then Some (StorageNone, s)
  else if t =? 1 then
    '(m, s) ← dec_array (dec_uint 1) MINIBATCH_SIZE_BYTES s; Some (StorageInline m, s)
  else if t =? 2 then '(c, s) ← dec_uint 4 s; Some (StorageBlock c, s)
  else None.

Definition enc_metablock (m : Metablock) : bytes :=
  enc_uint 8 (wal_seq m) ++ enc_uint 8 (server_timestamp m) ++ enc_uint 8 (lease_epoch m) ++
  enc_uint 16 (node_id m) ++ enc_uint 8 (uncompressed_size m) ++
  enc_uint 8 (compressed_size m) ++ enc_uint 4 (datablock_version m) ++
  enc_uint 1 (datablock_compression_type m) ++
  enc_array (enc_uint 1) (previous_tip_hash m) ++
  enc_uint 8 (datablock_position m) ++ enc_uint 8 (previous_aggregate_metablock_pos m) ++
  enc_metablock_kind (wal_metablock_type m) ++ enc_storage_kind (datablock m).
Definition dec_metablock (s : bytes) : option (Metablock * bytes) :=
  '(w, s) ← dec_uint 8 s; '(ts, s) ← dec_uint 8 s; '(le, s) ← dec_uint 8 s;
  '(n, s) ← dec_uint 16 s; '(us, s) ← dec_uint 8 s; '(cs, s) ← dec_uint 8 s;
  '(v, s) ← dec_uint 4 s; '(ct, s) ← dec_uint 1 s; '(h, s) ← dec_array (dec_uint 1) 32 s;
  '(dp, s) ← dec_uint 8 s; '(pp, s) ← dec_uint 8 s;
  '(k, s) ← dec_metablock_kind s; '(d, s) ← dec_storage_kind s;
  Some ({| wal_seq := w; server_timestamp := ts; lease_epoch := le; node_id := n;
           uncompressed_size := us; compressed_size := cs; datablock_version := v;
           datablock_compression_type := ct; previous_tip_hash := h;
           datablock_position := dp; previous_aggregate_metablock_pos := pp;
           wal_metablock_type := k; datablock := d |}, s).

Definition enc_header_cursor (c : HeaderCursor) : bytes :=
  enc_uint 8 (metablocks_position c) ++ enc_uint 8 (datablocks_position c) ++
  enc_uint 8 (hc_wal_seq c) ++ enc_array (enc_uint 1) (tip_hash c).
Definition dec_header_cursor (s : bytes) : option (HeaderCursor * bytes) :=
  '(m, s) ← dec_uint 8 s; '(d, s) ← dec_uint 8 s; '(w, s) ← dec_uint 8 s;
  '(h, s) ← dec_array (dec_uint 1) 32 s;
  Some ({| metablocks_position := m; datablocks_position := d; hc_wal_seq := w; tip_hash := h |}, s).

Definition enc_shard_log_header (h : ShardLogHeader) : bytes :=
  enc_header_cursor (write h) ++ enc_uint 8 (last_received_replication_wal_seq h) ++
  enc_uint 8 (last_self_acked_wal_seq h) ++ enc_header_cursor (read h).
Definition dec_shard_log_header (s : bytes) : option (ShardLogHeader * bytes) :=
  '(w, s) ← dec_header_cursor s; '(r, s) ← dec_uint 8 s; '(a, s) ← dec_uint 8 s;
  '(c, s) ← dec_header_cursor s;
  Some ({| write := w; last_received_replication_wal_seq := r;
           last_self_acked_wal_seq := a; read := c |}, s).
End wal_codec.

(** ** Well-formed values: what the Rust types guarantee *)

Definition wf_aggregate_key (k : AggregateKey) : Prop :=
  u128 (org_id k) /\ u128 (aggregate_type_id k) /\ u128 (aggregate_id k).
Definition wf_aggregate_type_key (k : AggregateTypeKey) : Prop :=
  u128 (atk_org_id k) /\ u128 (atk_aggregate_type_id k).
Definition wf_schema_key (k : SchemaKey) : Prop :=
  u128 (sk_org_id k) /\ u128 (sk_aggregate_type_id k) /\
  u64 (sk_event_type_major k) /\ u64 (sk_event_type_minor k).
Definition wf_option_u128 (o : option Z) : Prop := forall x, o = Some x -> u128 x.
Definition wf_words (n : nat) (w : list Z) : Prop := length w = n /\ Forall (fun x => u64 x) w.
Definition wf_byte_array (n : nat) (b : bytes) : Prop := length b = n /\ Forall (fun x => u8 x) b.
Definition wf_event_types (t : EventTypesKind) : Prop :=
  match t with EventTypesBloom w | EventTypesDirect w => wf_words 4 w end.

Definition wf_event_batch (b : MetablockEventBatch) : Prop :=
  wf_aggregate_key (eb_aggregate_key b) /\ u64 (eb_aggregate_version b) /\
  u64 (trimmed_below_version b) /\ u64 (min_client_seq b) /\ u64 (max_client_seq b) /\
  u64 (min_event_timestamp b) /\ u64 (max_event_timestamp b) /\
  u64 (min_event_seq b) /\ u64 (max_event_seq b) /\ u128 (eb_client_id b) /\
  wf_option_u128 (eb_user_id b) /\ wf_event_types (event_types_data b).
Definition wf_schema_registration (r : MetablockSchemaRegistration) : Prop :=
  wf_schema_key (msr_schema_key r) /\ u128 (msr_client_id r) /\ wf_option_u128 (msr_user_id r).
Definition wf_soft_delete (d : MetablockSoftDelete) : Prop :=
  wf_aggregate_key (sd_aggregate_key d) /\ u64 (sd_aggregate_version d) /\
  u64 (sd_event_seq d) /\ u128 (sd_client_id d) /\ wf_option_u128 (sd_user_id d).
Definition wf_soft_trim (t : MetablockSoftTrim) : Prop :=
  wf_aggregate_key (st_aggregate_key t) /\ u64 (keep_from_aggregate_version t) /\
  u64 (st_aggregate_version t) /\ u64 (st_event_seq t) /\ u128 (st_client_id t) /\
  wf_option_u128 (st_user_id t).
Definition wf_metablock_kind (k : MetablockKind) : Prop :=
  match k with
  | EventBatchMetadata b => wf_event_batch b
  | SchemaRegistration r => wf_schema_registration r
  | SoftDelete d => wf_soft_delete d
  | SoftTrim t => wf_soft_trim t
  end.
Definition wf_storage_kind (k : DatablockStorageKind) : Prop :=
  match k with
  | StorageNone => True
  | StorageInline m => wf_byte_array MINIBATCH_SIZE_BYTES m
  | StorageBlock c => u32 c
  end.
Definition wf_metablock (m : Metablock) : Prop :=
  u64 (wal_seq m) /\ u64 (server_timestamp m) /\ u64 (lease_epoch m) /\ u128 (node_id m) /\
  u64 (uncompressed_size m) /\ u64 (compressed_size m) /\ u32 (datablock_version m) /\
  u8 (datablock_compression_type m) /\ wf_byte_array 32 (previous_tip_hash m) /\
  u64 (datablock_position m) /\ u64 (previous_aggregate_metablock_pos m) /\
  wf_metablock_kind (wal_metablock_type m) /\ wf_storage_kind (datablock m).
Definition wf_header_cursor (c : HeaderCursor) : Prop :=
  u64 (metablocks_position c) /\ u64 (datablocks_position c) /\ u64 (hc_wal_seq c) /\
  wf_byte_array 32 (tip_hash c).
Definition wf_shard_log_header (h : ShardLogHeader) : Prop :=
  wf_header_cursor (write h) /\ u64 (last_received_replication_wal_seq h) /\
  u64 (last_self_acked_wal_seq h) /\ wf_header_cursor (read h).

(** ** Round trips *)

Section round_trips.
Context `{Bincode}.

Lemma dec_u8 x rest : u8 x -> dec_uint 1 (enc_uint 1 x ++ rest) = Some (x, rest).
Proof. intros. by apply dec_uint_enc. Qed.
Lemma dec_u32 x rest : u32 x -> dec_uint 4 (enc_uint 4 x ++ rest) = Some (x, rest).
Proof. intros. by apply dec_uint_enc. Qed.
Lemma dec_u64 x rest : u64 x -> dec_uint 8 (enc_uint 8 x ++ rest) = Some (x, rest).
Proof. intros. by apply dec_uint_enc. Qed.
Lemma dec_u128 x rest : u128 x -> dec_uint 16 (enc_uint 16 x ++ rest) = Some (x, rest).
Proof. intros. by apply dec_uint_enc. Qed.
Lemma dec_bool_enc b rest : dec_bool (enc_bool b ++ rest) = Some (b, rest).
Proof. by apply bool_ok. Qed.
Lemma dec_opt_u128 o rest : wf_option_u128 o ->
  dec_option (dec_uint 16) (enc_option (enc_uint 16) o ++ rest) = Some (o, rest).
Proof. intros. by apply (option_ok (fun x => u128 x)); [intros x ? ?; apply dec_u128|]. Qed.
Lemma dec_words n w rest : wf_words n w ->
  dec_array (dec_uint 8) n (enc_array (enc_uint 8) w ++ rest) = Some (w, rest).
Proof. intros. by apply (array_ok (fun x => u64 x)); [intros x ? ?; apply dec_u64|]. Qed.
Lemma dec_bytes n b rest : wf_byte_array n b ->
  dec_array (dec_uint 1) n (enc_array (enc_uint 1) b ++ rest) = Some (b, rest).
Proof. intros. by apply (array_ok (fun x => u8 x)); [intros x ? ?; apply dec_u8|]. Qed.

(** One decoded field at a time, from the front. *)
Ltac decode_field :=
  rewrite <-?app_assoc;
  first
    [ rewrite dec_u64 by done | rewrite dec_u128 by done | rewrite dec_u32 by done
    | rewrite dec_u8 by done | rewrite dec_bool_enc | rewrite dec_opt_u128 by done
    | rewrite dec_words by done | rewrite dec_bytes by done ]; cbn [mbind option_bind].
Ltac decode_all := repeat decode_field.

Lemma aggregate_key_ok : codec_ok wf_aggregate_key enc_aggregate_key dec_aggregate_key.
Proof.
  intros [] rest (? & ? & ?). unfold enc_aggregate_key, dec_aggregate_key. cbn in *. by decode_all.
Qed.

Lemma aggregate_type_key_ok :
  codec_ok wf_aggregate_type_key enc_aggregate_type_key dec_aggregate_type_key.
Proof.
  intros [] rest (? & ?). unfold enc_aggregate_type_key, dec_aggregate_type_key. cbn in *.
  by decode_all.
Qed.

Lemma aggregate_client_key_ok :
  codec_ok (fun k => wf_aggregate_key (ack_aggregate_key k) /\ u128 (ack_client_id k))
    enc_aggregate_client_key dec_aggregate_client_key.
Proof.
  intros [k c] rest [Hk Hc]. unfold enc_aggregate_client_key, dec_aggregate_client_key. cbn in *.
  rewrite <-app_assoc, (aggregate_key_ok k) by done. cbn. by decode_all.
Qed.

Lemma schema_key_ok : codec_ok wf_schema_key enc_schema_key dec_schema_key.
Proof.
  intros [] rest (? & ? & ? & ?). unfold enc_schema_key, dec_schema_key. cbn in *. by decode_all.
Qed.

Lemma event_types_ok : codec_ok wf_event_types enc_event_types dec_event_types.
Proof.
  intros [w|w] rest Hw; unfold enc_event_types, dec_event_types; cbn in Hw; by decode_all.
Qed.

Lemma event_batch_ok : codec_ok wf_event_batch enc_event_batch dec_event_batch.
Proof.
  intros [] rest Hb. unfold wf_event_batch in Hb. cbn in Hb. destruct_and! Hb.
  unfold enc_event_batch, dec_event_batch.
  cbn -[enc_aggregate_key dec_aggregate_key enc_option dec_option enc_event_types dec_event_types].
  rewrite <-app_assoc, aggregate_key_ok by done.
  cbn -[enc_option dec_option dec_event_types enc_event_types]. decode_all.
  by rewrite event_types_ok.
Qed.

Lemma schema_registration_ok :
  codec_ok wf_schema_registration enc_schema_registration dec_schema_registration.
Proof.
  intros [] rest (? & ? & ?). unfold enc_schema_registration, dec_schema_registration. cbn in *.
  rewrite <-app_assoc, schema_key_ok by done. cbn. by decode_all.
Qed.

Lemma soft_delete_ok : codec_ok wf_soft_delete enc_soft_delete dec_soft_delete.
Proof.
  intros [] rest (? & ? & ? & ? & ?). unfold enc_soft_delete, dec_soft_delete. cbn -[enc_bool dec_bool] in *.
  rewrite <-app_assoc, aggregate_key_ok by done. cbn -[enc_bool dec_bool]. by decode_all.
Qed.

Lemma soft_trim_ok : codec_ok wf_soft_trim enc_soft_trim dec_soft_trim.
Proof.
  intros [] rest (? & ? & ? & ? & ? & ?). unfold enc_soft_trim, dec_soft_trim. cbn in *.
  rewrite <-app_assoc, aggregate_key_ok by done. cbn. by decode_all.
Qed.

Lemma metablock_kind_ok : codec_ok wf_metablock_kind enc_metablock_kind dec_metablock_kind.
Proof.
  intros [b|r|d|t] rest Hk; unfold enc_metablock_kind, dec_metablock_kind; cbn in Hk;
    decode_field; cbn -[dec_event_batch dec_schema_registration dec_soft_delete dec_soft_trim].
  - by rewrite event_batch_ok.
  - by rewrite schema_registration_ok.
  - by rewrite soft_delete_ok.
  - by rewrite soft_trim_ok.
Qed.

Lemma storage_kind_ok : codec_ok wf_storage_kind enc_storage_kind dec_storage_kind.
Proof.
  intros [|m|c] rest Hk; unfold enc_storage_kind, dec_storage_kind; cbn -[MINIBATCH_SIZE_BYTES] in Hk;
    decode_field; cbn -[MINIBATCH_SIZE_BYTES dec_array]; [done| |].
  - by decode_all.
  - by decode_all.
Qed.

Lemma metablock_ok : codec_ok wf_metablock enc_metablock dec_metablock.
Proof.
  intros [] rest Hm. unfold wf_metablock in Hm.
  cbn -[wf_storage_kind wf_metablock_kind wf_byte_array] in Hm. destruct_and! Hm.
  unfold enc_metablock, dec_metablock.
  cbn -[enc_metablock_kind dec_metablock_kind enc_storage_kind dec_storage_kind dec_array enc_array].
  decode_all. rewrite metablock_kind_ok by done. cbn -[enc_storage_kind dec_storage_kind].
  by rewrite storage_kind_ok.
Qed.

Lemma header_cursor_ok : codec_ok wf_header_cursor enc_header_cursor dec_header_cursor.
Proof.
  intros [] rest (? & ? & ? & ?). unfold enc_header_cursor, dec_header_cursor.
  cbn -[dec_array enc_array wf_byte_array] in *. by decode_all.
Qed.

Lemma shard_log_header_ok : codec_ok wf_shard_log_header enc_shard_log_header dec_shard_log_header.
Proof.
  intros [] rest (? & ? & ? & ?). unfold enc_shard_log_header, dec_shard_log_header.
  cbn -[dec_header_cursor enc_header_cursor wf_header_cursor] in *.
  rewrite <-app_assoc, header_cursor_ok by done. cbn -[dec_header_cursor enc_header_cursor].
  decode_all. by rewrite header_cursor_ok.
Qed.
End round_trips.
