(* ===== verification/DiskFormat.v ===== *)
(** * Versioned blocks and the zero-copy readers

    [celeriant_wire/src/disk/versioned_block.rs]: a block on disk is a CRC, a
    version, the encoded message and zero padding.
    [celeriant_wire/src/disk/metablock_bytes.rs]: the scans read single fields
    of a metablock at fixed offsets without decoding it.
    The [crc32c] crate is a parameter. *)

From S2P Require Import Prelude WalConstants Codec WalTypes WalCodec.

Class Crc32c := {
  crc32c : bytes -> Z;
  crc32c_u32 b : u32 (crc32c b);
}.

Definition VERSION_SIZE : nat := 4.
Definition CRC_SIZE : nat := 4.
Definition HEADER_SIZE : nat := VERSION_SIZE + CRC_SIZE.

(** The errors of [disk_format_error.rs]; the text of a decode error is not
    modelled. *)
Inductive DiskFormatError :=
  | DatablockExpected
  | ExternalDataMissing
  | ChecksumMismatch (expected actual : Z)
  | UnsupportedVersion (version : Z)
  | UnknownCompression (type_id : Z)
  | CodecDeserialization
  | CodecCompression
  | HeaderSizeMismatch (expected actual : nat).

Inductive EncodeError := EncodeUnexpectedEnd.

Section versioned_block.
Context `{Bincode, Crc32c}.

(** [serialize_versioned_message], given the encoding of the message.  The
    outer [option] is the panic of a buffer shorter than the header. *)
Definition serialize_versioned_message (encoded : bytes) (version : Z) (buffer : bytes)
    : option (result EncodeError bytes) :=
  if decide (length buffer < HEADER_SIZE)%nat then None
  else
    let buffer := write_at buffer CRC_SIZE (le_bytes 4 version) in
    match encode_into_slice encoded (drop HEADER_SIZE buffer) with
    | None => Some (Err EncodeUnexpectedEnd)
    | Some (len, tail) =>
        let buffer := take HEADER_SIZE buffer ++ tail in
        let buffer := take (HEADER_SIZE + len) buffer ++ zeros (length buffer - (HEADER_SIZE + len)) in
        let crc := crc32c (drop CRC_SIZE buffer) in
        Some (Ok (write_at buffer 0 (le_bytes 4 crc)))
    end.

Definition serialize_versioned_message_heap (encoded : bytes) (version : Z) : bytes :=
  let buffer := zeros (HEADER_SIZE + length encoded) in
  let buffer := write_at buffer CRC_SIZE (le_bytes 4 version) in
  let buffer := write_at buffer HEADER_SIZE encoded in
  let crc := crc32c (drop CRC_SIZE buffer) in
  write_at buffer 0 (le_bytes 4 crc).

Definition validate_header (data : bytes) : result DiskFormatError Z :=
  if decide (length data < HEADER_SIZE)%nat
  then Err (HeaderSizeMismatch HEADER_SIZE (length data))
  else
    let stored_crc := le_value (slice data 0 4) in
    let actual_crc := crc32c (drop CRC_SIZE data) in
    if negb (stored_crc =? actual_crc) then Err (ChecksumMismatch stored_crc actual_crc)
    else Ok (le_value (slice data CRC_SIZE 4)).

(** [codec::bincode::fixed_deserialise]. *)
Definition fixed_deserialise {A} (d : decoder A) (buffer : bytes) : result DiskFormatError A :=
  match d buffer with Some (a, _) => Ok a | None => Err CodecDeserialization end.

Definition deserialise_metablock (data : bytes) : result DiskFormatError Metablock :=
  version ← validate_header data;
  if negb (version =? WIRE_VERSION_WAL_METABLOCK) then Err (UnsupportedVersion version)
  else fixed_deserialise dec_metablock (drop HEADER_SIZE data).

Definition deserialise_shard_log_header (data : bytes) : result DiskFormatError ShardLogHeader :=
  if negb (Nat.eqb (length data) HEADER_BLOCK_SIZE_BYTES)
  then Err (HeaderSizeMismatch HEADER_BLOCK_SIZE_BYTES (length data))
  else
    version ← validate_header data;
    if negb (version =? WIRE_VERSION_WAL_SHARD_LOG_HEADER) then Err (UnsupportedVersion version)
    else fixed_deserialise dec_shard_log_header (drop HEADER_SIZE data).
End versioned_block.

(** ** metablock_bytes.rs *)

Definition DISCRIMINANT_EVENT_BATCH_METADATA : Z := 0.
Definition DISCRIMINANT_SCHEMA_REGISTRATION : Z := 1.
Definition DISCRIMINANT_SOFT_DELETE : Z := 2.
Definition DISCRIMINANT_SOFT_TRIM : Z := 3.
Definition METABLOCK_TYPE_PAYLOAD_OFFSET : nat :=
  HEADER_SIZE + MetablockLayout.OFFSET_WAL_METABLOCK_TYPE + WIRE_SIZE_ENUM_DISCRIMINANT.

Definition read_metablock_kind_discriminant (b : bytes) : option Z :=
  b !! (HEADER_SIZE + MetablockLayout.OFFSET_WAL_METABLOCK_TYPE)%nat.
Definition read_wal_seq (b : bytes) : option Z :=
  read_u64_le b (HEADER_SIZE + MetablockLayout.OFFSET_WAL_SEQ).
Definition read_server_timestamp (b : bytes) : option Z :=
  read_u64_le b (HEADER_SIZE + MetablockLayout.OFFSET_SERVER_TIMESTAMP).
Definition read_node_id (b : bytes) : option Z :=
  read_u128_le b (HEADER_SIZE + MetablockLayout.OFFSET_NODE_ID).
Definition read_compressed_size (b : bytes) : option Z :=
  read_u64_le b (HEADER_SIZE + MetablockLayout.OFFSET_COMPRESSED_SIZE).
Definition read_uncompressed_size (b : bytes) : option Z :=
  read_u64_le b (HEADER_SIZE + MetablockLayout.OFFSET_UNCOMPRESSED_SIZE).
Definition read_previous_aggregate_metablock_pos (b : bytes) : option Z :=
  read_u64_le b (HEADER_SIZE + MetablockLayout.OFFSET_PREVIOUS_AGGREGATE_METABLOCK_POS).

Definition is_metablock_kind_soft_delete (b : bytes) : option bool :=
  d ← read_metablock_kind_discriminant b; Some (d =? DISCRIMINANT_SOFT_DELETE).
Definition is_metablock_kind_soft_trim (b : bytes) : option bool :=
  d ← read_metablock_kind_discriminant b; Some (d =? DISCRIMINANT_SOFT_TRIM).
Definition is_metablock_kind_event_batch_metadata (b : bytes) : option bool :=
  d ← read_metablock_kind_discriminant b; Some (d =? DISCRIMINANT_EVENT_BATCH_METADATA).
Definition is_metablock_kind_schema_registration (b : bytes) : option bool :=
  d ← read_metablock_kind_discriminant b; Some (d =? DISCRIMINANT_SCHEMA_REGISTRATION).

Definition payload (off : nat) : nat := METABLOCK_TYPE_PAYLOAD_OFFSET + off.

Definition read_soft_trim_org_id (b : bytes) : option Z :=
  read_u128_le b (payload (MetablockLayout.ST_OFFSET_AGGREGATE_KEY + KeyLayout.AGG_OFFSET_ORG_ID)).
Definition read_soft_trim_aggregate_type_id (b : bytes) : option Z :=
  read_u128_le b (payload (MetablockLayout.ST_OFFSET_AGGREGATE_KEY + KeyLayout.AGG_OFFSET_AGGREGATE_TYPE_ID)).
Definition read_soft_trim_aggregate_id (b : bytes) : option Z :=
  read_u128_le b (payload (MetablockLayout.ST_OFFSET_AGGREGATE_KEY + KeyLayout.AGG_OFFSET_AGGREGATE_ID)).
Definition read_soft_trim_keep_from_aggregate_version (b : bytes) : option Z :=
  read_u64_le b (payload MetablockLayout.ST_OFFSET_KEEP_FROM_AGGREGATE_VERSION).
Definition read_soft_trim_client_id (b : bytes) : option Z :=
  read_u128_le b (payload MetablockLayout.ST_OFFSET_CLIENT_ID).

Definition read_soft_delete_org_id (b : bytes) : option Z :=
  read_u128_le b (payload (MetablockLayout.SD_OFFSET_AGGREGATE_KEY + KeyLayout.AGG_OFFSET_ORG_ID)).
Definition read_soft_delete_aggregate_type_id (b : bytes) : option Z :=
  read_u128_le b (payload (MetablockLayout.SD_OFFSET_AGGREGATE_KEY + KeyLayout.AGG_OFFSET_AGGREGATE_TYPE_ID)).
Definition read_soft_delete_aggregate_id (b : bytes) : option Z :=
  read_u128_le b (payload (MetablockLayout.SD_OFFSET_AGGREGATE_KEY + KeyLayout.AGG_OFFSET_AGGREGATE_ID)).
Definition read_soft_delete_client_id (b : bytes) : option Z :=
  read_u128_le b (payload MetablockLayout.SD_OFFSET_CLIENT_ID).

Definition read_event_batch_org_id (b : bytes) : option Z :=
  read_u128_le b (payload (MetablockLayout.EB_OFFSET_AGGREGATE_KEY + KeyLayout.AGG_OFFSET_ORG_ID)).
Definition read_event_batch_aggregate_type_id (b : bytes) : option Z :=
  read_u128_le b (payload (MetablockLayout.EB_OFFSET_AGGREGATE_KEY + KeyLayout.AGG_OFFSET_AGGREGATE_TYPE_ID)).
Definition read_event_batch_aggregate_id (b : bytes) : option Z :=
  read_u128_le b (payload (MetablockLayout.EB_OFFSET_AGGREGATE_KEY + KeyLayout.AGG_OFFSET_AGGREGATE_ID)).
Definition read_event_batch_min_event_timestamp (b : bytes) : option Z :=
  read_u64_le b (payload MetablockLayout.EB_OFFSET_MIN_EVENT_TIMESTAMP).
Definition read_event_batch_max_event_timestamp (b : bytes) : option Z :=
  read_u64_le b (payload MetablockLayout.EB_OFFSET_MAX_EVENT_TIMESTAMP).
Definition read_event_batch_min_event_seq (b : bytes) : option Z :=
  read_u64_le b (payload MetablockLayout.EB_OFFSET_MIN_EVENT_SEQ).
Definition read_event_batch_max_event_seq (b : bytes) : option Z :=
  read_u64_le b (payload MetablockLayout.EB_OFFSET_MAX_EVENT_SEQ).
Definition read_event_batch_min_aggregate_version (b : bytes) : option Z :=
  read_u64_le b (payload MetablockLayout.EB_OFFSET_MIN_AGGREGATE_VERSION).
Definition read_event_batch_aggregate_version (b : bytes) : option Z :=
  read_u64_le b (payload MetablockLayout.EB_OFFSET_AGGREGATE_VERSION).
Definition read_event_batch_client_id (b : bytes) : option Z :=
  read_u128_le b (payload MetablockLayout.EB_OFFSET_CLIENT_ID).
Definition read_event_batch_max_client_seq (b : bytes) : option Z :=
  read_u64_le b (payload MetablockLayout.EB_OFFSET_MAX_CLIENT_EVENT_SEQ).

Definition read_event_batch_aggregate_key (b : bytes) : option AggregateKey :=
  o ← read_event_batch_org_id b; t ← read_event_batch_aggregate_type_id b;
  a ← read_event_batch_aggregate_id b;
  Some {| org_id := o; aggregate_type_id := t; aggregate_id := a |}.
Definition read_soft_delete_aggregate_key (b : bytes) : option AggregateKey :=
  o ← read_soft_delete_org_id b; t ← read_soft_delete_aggregate_type_id b;
  a ← read_soft_delete_aggregate_id b;
  Some {| org_id := o; aggregate_type_id := t; aggregate_id := a |}.
Definition read_soft_trim_aggregate_key (b : bytes) : option AggregateKey :=
  o ← read_soft_trim_org_id b; t ← read_soft_trim_aggregate_type_id b;
  a ← read_soft_trim_aggregate_id b;
  Some {| org_id := o; aggregate_type_id := t; aggregate_id := a |}.

Definition matches_key (target : AggregateKey) (o t a : Z) : bool :=
  (o =? org_id target) && (t =? aggregate_type_id target) && (a =? aggregate_id target).

Definition is_matches_aggregate_key (b : bytes) (target : AggregateKey) : option bool :=
  d ← read_metablock_kind_discriminant b;
  if negb (d =? DISCRIMINANT_EVENT_BATCH_METADATA) then Some false
  else
    o ← read_event_batch_org_id b; t ← read_event_batch_aggregate_type_id b;
    a ← read_event_batch_aggregate_id b; Some (matches_key target o t a).
Definition is_soft_delete_for_aggregate (b : bytes) (target : AggregateKey) : option bool :=
  d ← read_metablock_kind_discriminant b;
  if negb (d =? DISCRIMINANT_SOFT_DELETE) then Some false
  else
    o ← read_soft_delete_org_id b; t ← read_soft_delete_aggregate_type_id b;
    a ← read_soft_delete_aggregate_id b; Some (matches_key target o t a).
Definition is_soft_trim_for_aggregate (b : bytes) (target : AggregateKey) : option bool :=
  d ← read_metablock_kind_discriminant b;
  if negb (d =? DISCRIMINANT_SOFT_TRIM) then Some false
  else
    o ← read_soft_trim_org_id b; t ← read_soft_trim_aggregate_type_id b;
    a ← read_soft_trim_aggregate_id b; Some (matches_key target o t a).

Definition read_chain_aggregate_key (b : bytes) : option (option AggregateKey) :=
  d ← read_metablock_kind_discriminant b;
  if d =? DISCRIMINANT_EVENT_BATCH_METADATA then Some <$> read_event_batch_aggregate_key b
  else if d =? DISCRIMINANT_SOFT_DELETE then Some <$> read_soft_delete_aggregate_key b
  else if d =? DISCRIMINANT_SOFT_TRIM then Some <$> read_soft_trim_aggregate_key b
  else Some None.

Definition read_schema_registration_org_id (b : bytes) : option Z :=
  read_u128_le b (payload KeyLayout.SCHEMA_OFFSET_ORG_ID).
Definition read_schema_registration_aggregate_type_id (b : bytes) : option Z :=
  read_u128_le b (payload KeyLayout.SCHEMA_OFFSET_AGGREGATE_TYPE_ID).
Definition read_schema_registration_event_type_major (b : bytes) : option Z :=
  read_u64_le b (payload KeyLayout.SCHEMA_OFFSET_EVENT_TYPE_MAJOR).
Definition read_schema_registration_event_type_minor (b : bytes) : option Z :=
  read_u64_le b (payload KeyLayout.SCHEMA_OFFSET_EVENT_TYPE_MINOR).
Definition read_schema_registration_key (b : bytes) : option SchemaKey :=
  o ← read_schema_registration_org_id b; t ← read_schema_registration_aggregate_type_id b;
  ma ← read_schema_registration_event_type_major b;
  mi ← read_schema_registration_event_type_minor b;
  Some {| sk_org_id := o; sk_aggregate_type_id := t;
          sk_event_type_major := ma; sk_event_type_minor := mi |}.
Definition is_schema_registration_for_key (b : bytes) (target : SchemaKey) : option bool :=
  d ← read_metablock_kind_discriminant b;
  if negb (d =? DISCRIMINANT_SCHEMA_REGISTRATION) then Some false
  else
    o ← read_schema_registration_org_id b; t ← read_schema_registration_aggregate_type_id b;
    ma ← read_schema_registration_event_type_major b;
    mi ← read_schema_registration_event_type_minor b;
    Some ((o =? sk_org_id target) && (t =? sk_aggregate_type_id target) &&
          (ma =? sk_event_type_major target) && (mi =? sk_event_type_minor target)).

(** ** Blocks *)

Section block_lemmas.
Context `{Bincode, Crc32c}.

(** The bytes of a block: checksum, version, message, padding. *)
Definition block_body (encoded : bytes) (version : Z) (pad : nat) : bytes :=
  le_bytes 4 version ++ encoded ++ zeros pad.
Definition block_bytes (encoded : bytes) (version : Z) (pad : nat) : bytes :=
  le_bytes 4 (crc32c (block_body encoded version pad)) ++ block_body encoded version pad.

Lemma serialize_shape encoded version buffer :
  (HEADER_SIZE + length encoded <= length buffer)%nat ->
  serialize_versioned_message encoded version buffer =
    Some (Ok (block_bytes encoded version (length buffer - (HEADER_SIZE + length encoded)))).
Proof.
  intros Hl. unfold serialize_versioned_message, HEADER_SIZE, VERSION_SIZE, CRC_SIZE in *.
  rewrite decide_False by lia.
  assert (Hb : exists b1 b2 b3, buffer = b1 ++ b2 ++ b3 /\ length b1 = 4%nat /\ length b2 = 4%nat).
  { exists (take 4 buffer), (take 4 (drop 4 buffer)), (drop 8 buffer).
    split_and!; [|rewrite length_take; lia|rewrite length_take, length_drop; lia].
    rewrite <-(take_drop 4 buffer) at 1. f_equal.
    rewrite <-(take_drop 4 (drop 4 buffer)) at 1. by rewrite drop_drop. }
  destruct Hb as (b1 & b2 & b3 & -> & H1 & H2). rewrite !length_app in Hl.
  assert (Hw : write_at (b1 ++ b2 ++ b3) 4 (le_bytes 4 version) = b1 ++ le_bytes 4 version ++ b3).
  { apply write_at_mid; [done|by rewrite length_le_bytes]. }
  rewrite Hw, app_assoc, (drop_app_length' (b1 ++ le_bytes 4 version)),
    (take_app_length' (b1 ++ le_bytes 4 version)) by (rewrite length_app, length_le_bytes; lia).
  rewrite encode_into_slice_fits by lia. cbv zeta.
  set (k := (length (b1 ++ b2 ++ b3) - (4 + 4 + length encoded))%nat).
  assert (Hp : take (4 + 4 + length encoded) ((b1 ++ le_bytes 4 version) ++ write_at b3 0 encoded) ++
      zeros (length ((b1 ++ le_bytes 4 version) ++ write_at b3 0 encoded) - (4 + 4 + length encoded)) =
      b1 ++ block_body encoded version k).
  { rewrite write_at_0, (app_assoc (b1 ++ _)).
    rewrite take_app_length' by (rewrite !length_app, length_le_bytes; lia).
    unfold block_body. rewrite <-!app_assoc. do 4 f_equal. unfold k.
    rewrite !length_app, length_drop, length_le_bytes. lia. }
  rewrite Hp, write_at_0, !length_le_bytes, !(drop_app_length' b1) by lia. done.
Qed.

Lemma serialize_too_small encoded version buffer :
  (HEADER_SIZE <= length buffer)%nat -> (length buffer < HEADER_SIZE + length encoded)%nat ->
  serialize_versioned_message encoded version buffer = Some (Err EncodeUnexpectedEnd).
Proof.
  intros. unfold serialize_versioned_message. rewrite decide_False by lia.
  rewrite encode_into_slice_small; [done|].
  rewrite length_drop, length_write_at; [lia|].
  rewrite length_le_bytes. unfold HEADER_SIZE, VERSION_SIZE, CRC_SIZE in *. lia.
Qed.

Lemma serialize_heap_shape encoded version :
  serialize_versioned_message_heap encoded version = block_bytes encoded version 0.
Proof.
  unfold serialize_versioned_message_heap, HEADER_SIZE, VERSION_SIZE, CRC_SIZE, zeros.
  rewrite !replicate_add, <-app_assoc.
  rewrite (write_at_mid (replicate 4 0) (replicate 4 0)) by (rewrite ?length_le_bytes; done).
  rewrite app_assoc, <-(app_nil_r (replicate (length encoded) 0)).
  rewrite (write_at_mid (replicate 4 0 ++ le_bytes 4 version)) by
    (rewrite ?length_app, ?length_replicate, ?length_le_bytes; done).
  rewrite <-app_assoc, write_at_0, length_le_bytes, !(drop_app_length' (replicate 4 0)) by done.
  done.
Qed.

Lemma length_block_bytes encoded version pad :
  length (block_bytes encoded version pad) = (HEADER_SIZE + length encoded + pad)%nat.
Proof.
  unfold block_bytes, block_body, zeros.
  rewrite !length_app, !length_le_bytes, length_replicate. unfold HEADER_SIZE, VERSION_SIZE, CRC_SIZE. lia.
Qed.

Lemma validate_block encoded version pad :
  u32 version -> validate_header (block_bytes encoded version pad) = Ok version.
Proof.
  intros Hv. unfold validate_header. rewrite decide_False by (rewrite length_block_bytes; lia).
  unfold block_bytes, CRC_SIZE. cbv zeta.
  rewrite slice_app_here, drop_app_length' by (rewrite ?length_le_bytes; done).
  rewrite (le_roundtrip 4 32) by (try done; apply crc32c_u32). rewrite Z.eqb_refl. cbn [negb].
  rewrite slice_app_r by (rewrite length_le_bytes; lia). rewrite length_le_bytes. cbn [Nat.sub].
  unfold block_body. rewrite slice_app_here by (rewrite ?length_le_bytes; done).
  by rewrite (le_roundtrip 4 32).
Qed.

Lemma drop_block encoded version pad :
  drop HEADER_SIZE (block_bytes encoded version pad) = encoded ++ zeros pad.
Proof.
  unfold block_bytes, block_body. rewrite app_assoc.
  by rewrite drop_app_length' by (rewrite length_app, !length_le_bytes; done).
Qed.

(** ** The encoding of a metablock fits its block *)

Lemma length_enc_aggregate_key k : length (enc_aggregate_key k) = 48%nat.
Proof. unfold enc_aggregate_key. rewrite !length_app, !length_enc_uint. done. Qed.

Lemma length_enc_option_u128 o : (length (enc_option (enc_uint 16) o) <= 17)%nat.
Proof. destruct o; cbn; rewrite ?length_app, ?length_enc_uint; lia. Qed.

Lemma length_enc_bool b : length (enc_bool b) = 1%nat.
Proof. apply length_enc_uint. Qed.

Lemma length_enc_schema_key k : length (enc_schema_key k) = 48%nat.
Proof. unfold enc_schema_key. rewrite !length_app, !length_enc_uint. done. Qed.

Lemma length_enc_event_types t : wf_event_types t -> length (enc_event_types t) = 36%nat.
Proof.
  destruct t as [w|w]; intros [Hl _]; cbn;
    rewrite length_app, length_enc_uint, (length_enc_array _ 8), Hl by apply length_enc_uint; done.
Qed.

Lemma length_enc_metablock_kind k : wf_metablock_kind k ->
  (length (enc_metablock_kind k) <=
   WIRE_SIZE_ENUM_DISCRIMINANT + MetablockLayout.EB_OFFSET_EVENT_TYPES_DATA + 36)%nat.
Proof.
  change (WIRE_SIZE_ENUM_DISCRIMINANT + _ + 36)%nat with 185%nat.
  destruct k as [b|r|d|t]; intros Hk; cbn [enc_metablock_kind].
  - pose proof (length_enc_option_u128 (eb_user_id b)).
    unfold enc_event_batch. rewrite !length_app, !length_enc_uint, length_enc_aggregate_key.
    rewrite length_enc_event_types by apply Hk. lia.
  - pose proof (length_enc_option_u128 (msr_user_id r)).
    unfold enc_schema_registration. rewrite !length_app, !length_enc_uint, length_enc_schema_key. lia.
  - pose proof (length_enc_option_u128 (sd_user_id d)). unfold enc_soft_delete.
    rewrite !length_app, !length_enc_uint, length_enc_aggregate_key, !length_enc_bool. lia.
  - pose proof (length_enc_option_u128 (st_user_id t)). unfold enc_soft_trim.
    rewrite !length_app, !length_enc_uint, length_enc_aggregate_key. lia.
Qed.

Lemma length_enc_storage_kind k : wf_storage_kind k ->
  (length (enc_storage_kind k) <= WIRE_SIZE_ENUM_DISCRIMINANT + MINIBATCH_SIZE_BYTES)%nat.
Proof.
  change (WIRE_SIZE_ENUM_DISCRIMINANT + MINIBATCH_SIZE_BYTES)%nat with 722%nat.
  destruct k as [|m|c]; intros Hk; cbn [enc_storage_kind];
    rewrite ?length_app, ?length_enc_uint; [lia| |lia].
  rewrite (length_enc_array _ 1) by apply length_enc_uint.
  destruct Hk as [-> _]. unfold MINIBATCH_SIZE_BYTES. lia.
Qed.

Lemma metablock_fits m : wf_metablock m ->
  (HEADER_SIZE + length (enc_metablock m) <= MetablockLayout.WORST_CASE_METABLOCK_WIRE_SIZE)%nat.
Proof.
  intros (_ & _ & _ & _ & _ & _ & _ & _ & [Hh _] & _ & _ & Hk' & Hs').
  change MetablockLayout.WORST_CASE_METABLOCK_WIRE_SIZE with 1024%nat.
  pose proof (length_enc_metablock_kind _ Hk') as Hk. pose proof (length_enc_storage_kind _ Hs') as Hs.
  change (WIRE_SIZE_ENUM_DISCRIMINANT + MetablockLayout.EB_OFFSET_EVENT_TYPES_DATA + 36)%nat with 185%nat in Hk.
  change (WIRE_SIZE_ENUM_DISCRIMINANT + MINIBATCH_SIZE_BYTES)%nat with 722%nat in Hs.
  change HEADER_SIZE with 8%nat.
  unfold enc_metablock. rewrite !length_app, !length_enc_uint, (length_enc_array _ 1) by apply length_enc_uint.
  rewrite Hh. lia.
Qed.
End block_lemmas.

(** ** Reading a field of an encoded block *)

Section field_reads.
Context `{Bincode}.

Lemma read_u64_skip a b off : (length a <= off)%nat ->
  read_u64_le (a ++ b) off = read_u64_le b (off - length a).
Proof. intros. unfold read_u64_le. by rewrite get_slice_skip. Qed.
Lemma read_u128_skip a b off : (length a <= off)%nat ->
  read_u128_le (a ++ b) off = read_u128_le b (off - length a).
Proof. intros. unfold read_u128_le. by rewrite get_slice_skip. Qed.
Lemma read_u64_here x b : u64 x -> read_u64_le (enc_uint 8 x ++ b) 0 = Some x.
Proof.
  intros. unfold read_u64_le. rewrite get_slice_here by (by rewrite length_enc_uint).
  cbn. by rewrite enc_uint_le, (le_roundtrip 8 64).
Qed.
Lemma read_u128_here x b : u128 x -> read_u128_le (enc_uint 16 x ++ b) 0 = Some x.
Proof.
  intros. unfold read_u128_le. rewrite get_slice_here by (by rewrite length_enc_uint).
  cbn. by rewrite enc_uint_le, (le_roundtrip 16 128).
Qed.
End field_reads.

(** Walks over the fields in front of an offset, then reads. *)
Ltac read_step :=
  first
    [ rewrite read_u64_here by done
    | rewrite read_u128_here by done
    | rewrite read_u64_skip by (autorewrite with cel; lia)
    | rewrite read_u128_skip by (autorewrite with cel; lia) ];
  autorewrite with cel; cbn [Nat.sub].
Ltac read_field := rewrite <-?app_assoc; repeat read_step; try done.

Section block_reads.
Context `{Bincode, Crc32c} (m : Metablock) (Hwf : wf_metablock m).

(** The serialised metablock. *)
Definition metablock_block : bytes :=
  block_bytes (enc_metablock m) WIRE_VERSION_WAL_METABLOCK
    (FIXED_BLOCK_SIZE_BYTES - (HEADER_SIZE + length (enc_metablock m))).

Definition metablock_fields : bytes :=
  enc_uint 8 (wal_seq m) ++ enc_uint 8 (server_timestamp m) ++ enc_uint 8 (lease_epoch m) ++
  enc_uint 16 (node_id m) ++ enc_uint 8 (uncompressed_size m) ++
  enc_uint 8 (compressed_size m) ++ enc_uint 4 (datablock_version m) ++
  enc_uint 1 (datablock_compression_type m) ++ enc_array (enc_uint 1) (previous_tip_hash m) ++
  enc_uint 8 (datablock_position m) ++ enc_uint 8 (previous_aggregate_metablock_pos m).

Lemma length_metablock_fields : length metablock_fields = MetablockLayout.OFFSET_WAL_METABLOCK_TYPE.
Proof.
  destruct Hwf as (_ & _ & _ & _ & _ & _ & _ & _ & [Hh _] & _).
  unfold metablock_fields. rewrite !length_app, !length_enc_uint, (length_enc_array _ 1), Hh by
    apply length_enc_uint. done.
Qed.

(** The block is its eight header bytes, the common fields, the payload of
    the metablock's kind and the rest. *)
Lemma metablock_block_split : exists hd tl,
  length hd = HEADER_SIZE /\
  metablock_block = hd ++ metablock_fields ++ enc_metablock_kind (wal_metablock_type m) ++ tl.
Proof.
  unfold metablock_block, block_bytes. set (c := le_bytes 4 (crc32c _)).
  assert (Hc : length c = 4%nat) by apply length_le_bytes. clearbody c.
  unfold block_body. set (z := zeros _). clearbody z.
  exists (c ++ le_bytes 4 WIRE_VERSION_WAL_METABLOCK), (enc_storage_kind (datablock m) ++ z).
  split; [by rewrite length_app, length_le_bytes, Hc|].
  unfold metablock_fields, enc_metablock. by rewrite <-!app_assoc.
Qed.

Lemma read_common :
  read_wal_seq metablock_block = Some (wal_seq m) /\
  read_server_timestamp metablock_block = Some (server_timestamp m) /\
  read_node_id metablock_block = Some (node_id m) /\
  read_uncompressed_size metablock_block = Some (uncompressed_size m) /\
  read_compressed_size metablock_block = Some (compressed_size m) /\
  read_previous_aggregate_metablock_pos metablock_block = Some (previous_aggregate_metablock_pos m).
Proof.
  destruct metablock_block_split as (hd & tl & Hh & ->).
  destruct Hwf as (? & ? & ? & ? & ? & ? & ? & ? & [Ht ?] & ? & ? & _).
  assert (Hta : length (enc_array (enc_uint 1) (previous_tip_hash m)) = 32%nat).
  { by rewrite (length_enc_array _ 1), Ht by apply length_enc_uint. }
  unfold read_wal_seq, read_server_timestamp, read_node_id, read_uncompressed_size,
    read_compressed_size, read_previous_aggregate_metablock_pos, metablock_fields.
  split_and!;
    (first [rewrite read_u64_skip by (rewrite Hh; apply Nat.le_add_r)
           |rewrite read_u128_skip by (rewrite Hh; apply Nat.le_add_r)]);
    rewrite Hh, Nat.add_comm, Nat.add_sub;
    match goal with |- context [read_u64_le _ ?o] => let v := eval vm_compute in o in change o with v
                  | |- context [read_u128_le _ ?o] => let v := eval vm_compute in o in change o with v end;
    read_field.
  rewrite Hta. read_field.
Qed.

(** The discriminant a kind is encoded with, and its payload. *)
Definition kind_tag (k : MetablockKind) : Z :=
  match k with
  | EventBatchMetadata _ => 0 | SchemaRegistration _ => 1 | SoftDelete _ => 2 | SoftTrim _ => 3
  end.
Definition kind_payload (k : MetablockKind) : bytes :=
  match k with
  | EventBatchMetadata b => enc_event_batch b
  | SchemaRegistration r => enc_schema_registration r
  | SoftDelete d => enc_soft_delete d
  | SoftTrim t => enc_soft_trim t
  end.

Lemma read_discriminant :
  read_metablock_kind_discriminant metablock_block = Some (kind_tag (wal_metablock_type m)).
Proof.
  destruct metablock_block_split as (hd & tl & Hh & ->).
  unfold read_metablock_kind_discriminant.
  rewrite lookup_skip by (rewrite Hh; apply Nat.le_add_r). rewrite Hh, Nat.add_comm, Nat.add_sub.
  rewrite lookup_skip, length_metablock_fields, Nat.sub_diag by (by rewrite length_metablock_fields).
  destruct (wal_metablock_type m); cbn; by rewrite enc_uint_le.
Qed.

(** The payload of the block, and what follows it. *)
Lemma payload_split : exists tl,
  (forall off, read_u64_le metablock_block (payload off) =
               read_u64_le (kind_payload (wal_metablock_type m) ++ tl) off) /\
  (forall off, read_u128_le metablock_block (payload off) =
               read_u128_le (kind_payload (wal_metablock_type m) ++ tl) off).
Proof.
  destruct metablock_block_split as (hd & tl & Hh & ->). exists tl.
  assert (He : forall r, hd ++ metablock_fields ++ enc_metablock_kind (wal_metablock_type m) ++ r =
    (hd ++ metablock_fields ++ enc_uint 4 (kind_tag (wal_metablock_type m))) ++
      kind_payload (wal_metablock_type m) ++ r).
  { intros r. rewrite <-!app_assoc. do 2 f_equal.
    by destruct (wal_metablock_type m); cbn; rewrite <-app_assoc. }
  rewrite He. set (p := hd ++ _ ++ _).
  assert (Hp : length p = METABLOCK_TYPE_PAYLOAD_OFFSET).
  { unfold p. by rewrite !length_app, length_metablock_fields, length_enc_uint, Hh. }
  split; intros off; [rewrite read_u64_skip|rewrite read_u128_skip];
    unfold payload; rewrite ?Hp; try apply Nat.le_add_r;
    by rewrite Nat.add_comm, Nat.add_sub.
Qed.
End block_reads.

(** Rewrites a payload read into a read of the payload's own fields. *)
Ltac read_payload H64 H128 :=
  first [rewrite H64 | rewrite H128];
  match goal with |- context [read_u64_le _ ?o] => let v := eval vm_compute in o in change o with v
                | |- context [read_u128_le _ ?o] => let v := eval vm_compute in o in change o with v end;
  read_field.

Section kind_reads.
Context `{Bincode, Crc32c} (m : Metablock) (Hwf : wf_metablock m).

Lemma read_event_batch b : wal_metablock_type m = EventBatchMetadata b ->
  read_event_batch_aggregate_key (metablock_block m) = Some (eb_aggregate_key b) /\
  read_event_batch_aggregate_version (metablock_block m) = Some (eb_aggregate_version b) /\
  read_event_batch_min_aggregate_version (metablock_block m) = Some (trimmed_below_version b) /\
  read_event_batch_max_client_seq (metablock_block m) = Some (max_client_seq b) /\
  read_event_batch_min_event_timestamp (metablock_block m) = Some (min_event_timestamp b) /\
  read_event_batch_max_event_timestamp (metablock_block m) = Some (max_event_timestamp b) /\
  read_event_batch_min_event_seq (metablock_block m) = Some (min_event_seq b) /\
  read_event_batch_max_event_seq (metablock_block m) = Some (max_event_seq b) /\
  read_event_batch_client_id (metablock_block m) = Some (eb_client_id b).
Proof.
  intros Hk. destruct (payload_split m Hwf) as (tl & H64 & H128). rewrite Hk in *.
  destruct Hwf as (_ & _ & _ & _ & _ & _ & _ & _ & _ & _ & _ & Hb & _). rewrite Hk in Hb.
  destruct Hb as ((? & ? & ?) & ? & ? & ? & ? & ? & ? & ? & ? & ? & _).
  cbn [kind_payload] in *. unfold enc_event_batch, enc_aggregate_key in *.
  assert (Ho : read_event_batch_org_id (metablock_block m) = Some (org_id (eb_aggregate_key b)))
    by (unfold read_event_batch_org_id; read_payload H64 H128).
  assert (Ht : read_event_batch_aggregate_type_id (metablock_block m) = Some (aggregate_type_id (eb_aggregate_key b)))
    by (unfold read_event_batch_aggregate_type_id; read_payload H64 H128).
  assert (Ha : read_event_batch_aggregate_id (metablock_block m) = Some (aggregate_id (eb_aggregate_key b)))
    by (unfold read_event_batch_aggregate_id; read_payload H64 H128).
  split.
  { unfold read_event_batch_aggregate_key. rewrite Ho, Ht, Ha. by destruct (eb_aggregate_key b). }
  unfold read_event_batch_aggregate_version, read_event_batch_min_aggregate_version,
    read_event_batch_max_client_seq, read_event_batch_min_event_timestamp,
    read_event_batch_max_event_timestamp, read_event_batch_min_event_seq,
    read_event_batch_max_event_seq, read_event_batch_client_id.
  split_and!; read_payload H64 H128.
Qed.

Lemma read_soft_delete d : wal_metablock_type m = SoftDelete d ->
  read_soft_delete_aggregate_key (metablock_block m) = Some (sd_aggregate_key d) /\
  read_soft_delete_client_id (metablock_block m) = Some (sd_client_id d).
Proof.
  intros Hk. destruct (payload_split m Hwf) as (tl & H64 & H128). rewrite Hk in *.
  destruct Hwf as (_ & _ & _ & _ & _ & _ & _ & _ & _ & _ & _ & Hb & _). rewrite Hk in Hb.
  destruct Hb as ((? & ? & ?) & ? & ? & ? & _).
  cbn [kind_payload] in *. unfold enc_soft_delete, enc_aggregate_key, enc_bool in *.
  assert (Ho : read_soft_delete_org_id (metablock_block m) = Some (org_id (sd_aggregate_key d)))
    by (unfold read_soft_delete_org_id; read_payload H64 H128).
  assert (Ht : read_soft_delete_aggregate_type_id (metablock_block m) = Some (aggregate_type_id (sd_aggregate_key d)))
    by (unfold read_soft_delete_aggregate_type_id; read_payload H64 H128).
  assert (Ha : read_soft_delete_aggregate_id (metablock_block m) = Some (aggregate_id (sd_aggregate_key d)))
    by (unfold read_soft_delete_aggregate_id; read_payload H64 H128).
  split; [unfold read_soft_delete_aggregate_key; rewrite Ho, Ht, Ha; by destruct (sd_aggregate_key d)|].
  unfold read_soft_delete_client_id. read_payload H64 H128.
Qed.

Lemma read_soft_trim t : wal_metablock_type m = SoftTrim t ->
  read_soft_trim_aggregate_key (metablock_block m) = Some (st_aggregate_key t) /\
  read_soft_trim_keep_from_aggregate_version (metablock_block m) = Some (keep_from_aggregate_version t) /\
  read_soft_trim_client_id (metablock_block m) = Some (st_client_id t).
Proof.
  intros Hk. destruct (payload_split m Hwf) as (tl & H64 & H128). rewrite Hk in *.
  destruct Hwf as (_ & _ & _ & _ & _ & _ & _ & _ & _ & _ & _ & Hb & _). rewrite Hk in Hb.
  destruct Hb as ((? & ? & ?) & ? & ? & ? & ? & _).
  cbn [kind_payload] in *. unfold enc_soft_trim, enc_aggregate_key in *.
  assert (Ho : read_soft_trim_org_id (metablock_block m) = Some (org_id (st_aggregate_key t)))
    by (unfold read_soft_trim_org_id; read_payload H64 H128).
  assert (Ht : read_soft_trim_aggregate_type_id (metablock_block m) = Some (aggregate_type_id (st_aggregate_key t)))
    by (unfold read_soft_trim_aggregate_type_id; read_payload H64 H128).
  assert (Ha : read_soft_trim_aggregate_id (metablock_block m) = Some (aggregate_id (st_aggregate_key t)))
    by (unfold read_soft_trim_aggregate_id; read_payload H64 H128).
  split; [unfold read_soft_trim_aggregate_key; rewrite Ho, Ht, Ha; by destruct (st_aggregate_key t)|].
  unfold read_soft_trim_keep_from_aggregate_version, read_soft_trim_client_id.
  split; read_payload H64 H128.
Qed.

Lemma read_schema_registration r : wal_metablock_type m = SchemaRegistration r ->
  read_schema_registration_key (metablock_block m) = Some (msr_schema_key r).
Proof.
  intros Hk. destruct (payload_split m Hwf) as (tl & H64 & H128). rewrite Hk in *.
  destruct Hwf as (_ & _ & _ & _ & _ & _ & _ & _ & _ & _ & _ & Hb & _). rewrite Hk in Hb.
  destruct Hb as ((? & ? & ? & ?) & ? & _).
  cbn [kind_payload] in *. unfold enc_schema_registration, enc_schema_key in *.
  unfold read_schema_registration_key.
  assert (Ho : read_schema_registration_org_id (metablock_block m) = Some (sk_org_id (msr_schema_key r)))
    by (unfold read_schema_registration_org_id; read_payload H64 H128).
  assert (Ht : read_schema_registration_aggregate_type_id (metablock_block m) = Some (sk_aggregate_type_id (msr_schema_key r)))
    by (unfold read_schema_registration_aggregate_type_id; read_payload H64 H128).
  assert (Ha : read_schema_registration_event_type_major (metablock_block m) = Some (sk_event_type_major (msr_schema_key r)))
    by (unfold read_schema_registration_event_type_major; read_payload H64 H128).
  assert (Hi : read_schema_registration_event_type_minor (metablock_block m) = Some (sk_event_type_minor (msr_schema_key r)))
    by (unfold read_schema_registration_event_type_minor; read_payload H64 H128).
  rewrite Ho, Ht, Ha, Hi. by destruct (msr_schema_key r).
Qed.
End kind_reads.

(** ** Encodings are byte strings *)

Section encoded_bytes.
Context `{Bincode}.

Lemma enc_uint_bytes n x : bytes_ok (enc_uint n x).
Proof. rewrite enc_uint_le. apply le_bytes_ok. Qed.
Lemma enc_array_bytes n l : bytes_ok (enc_array (enc_uint n) l).
Proof. induction l; cbn; [constructor|]. apply Forall_app. split; [apply enc_uint_bytes|done]. Qed.
Lemma enc_option_bytes n o : bytes_ok (enc_option (enc_uint n) o).
Proof. destruct o; cbn; [apply Forall_app; split|]; apply enc_uint_bytes. Qed.

Ltac bytes_tac :=
  repeat (apply Forall_app; split);
  first [apply enc_uint_bytes | apply enc_array_bytes | apply enc_option_bytes | done].

Lemma enc_metablock_kind_bytes k : bytes_ok (enc_metablock_kind k).
Proof.
  unfold bytes_ok. destruct k as [b| | |]; cbn [enc_metablock_kind].
  1: unfold enc_event_batch, enc_event_types; destruct (event_types_data b).
  all: unfold enc_schema_registration, enc_soft_delete, enc_soft_trim, enc_aggregate_key,
    enc_schema_key, enc_bool; bytes_tac.
Qed.

Lemma enc_metablock_bytes m : bytes_ok (enc_metablock m).
Proof.
  unfold enc_metablock, bytes_ok. pose proof (enc_metablock_kind_bytes (wal_metablock_type m)).
  destruct (datablock m); cbn [enc_storage_kind]; bytes_tac.
Qed.

Lemma zeros_bytes n : bytes_ok (zeros n).
Proof. apply Forall_replicate. split; lia. Qed.
End encoded_bytes.

(** ** Properties *)

(** [shard_wal_sync.rs], [chain_aggregate_key]: the aggregate whose backlink
    chain a decoded metablock belongs to. *)
Definition chain_aggregate_key (m : Metablock) : option AggregateKey :=
  match wal_metablock_type m with
  | EventBatchMetadata b => Some (eb_aggregate_key b)
  | SoftDelete d => Some (sd_aggregate_key d)
  | SoftTrim t => Some (st_aggregate_key t)
  | SchemaRegistration _ => None
  end.

Section properties.
Context `{Bincode, Crc32c}.

Lemma serialize_metablock m buffer :
  wf_metablock m -> length buffer = FIXED_BLOCK_SIZE_BYTES ->
  serialize_versioned_message (enc_metablock m) WIRE_VERSION_WAL_METABLOCK buffer =
    Some (Ok (metablock_block m)).
Proof.
  intros Hm Hl. rewrite serialize_shape by (rewrite Hl; by apply metablock_fits).
  unfold metablock_block. by rewrite Hl.
Qed.

Lemma length_metablock_block m : wf_metablock m -> length (metablock_block m) = FIXED_BLOCK_SIZE_BYTES.
Proof.
  intros Hm%metablock_fits. unfold metablock_block. rewrite length_block_bytes.
  change MetablockLayout.WORST_CASE_METABLOCK_WIRE_SIZE with FIXED_BLOCK_SIZE_BYTES in Hm. lia.
Qed.

Lemma deserialise_metablock_block m :
  wf_metablock m -> deserialise_metablock (metablock_block m) = Ok m.
Proof.
  intros Hm. unfold deserialise_metablock, metablock_block.
  rewrite validate_block by done. cbn [mbind result_bind].
  replace (negb _) with false by done.
  unfold fixed_deserialise. rewrite drop_block, (metablock_ok m) by done. done.
Qed.

Lemma matches_key_spec target k :
  matches_key target (org_id k) (aggregate_type_id k) (aggregate_id k) = bool_decide (k = target).
Proof.
  unfold matches_key. destruct target as [o t a], k as [o' t' a']. cbn.
  destruct (Z.eqb_spec o' o), (Z.eqb_spec t' t), (Z.eqb_spec a' a); subst; cbn;
    case_bool_decide; naive_solver.
Qed.

Lemma chain_key_read m : wf_metablock m ->
  read_chain_aggregate_key (metablock_block m) = Some (chain_aggregate_key m).
Proof.
  intros Hm. unfold read_chain_aggregate_key, chain_aggregate_key. rewrite read_discriminant by done.
  cbn [mbind option_bind]. destruct (wal_metablock_type m) as [b|r|d|t] eqn:E; cbn [kind_tag].
  - destruct (read_event_batch m Hm b E) as [-> _]. done.
  - done.
  - destruct (read_soft_delete m Hm d E) as [-> _]. done.
  - destruct (read_soft_trim m Hm t E) as [-> _]. done.
Qed.

(** The three fields behind a key reader. *)
Lemma key_fields (ro rt ra : option Z) k :
  (o ← ro; t ← rt; a ← ra; Some {| org_id := o; aggregate_type_id := t; aggregate_id := a |}) = Some k ->
  forall target, (o ← ro; t ← rt; a ← ra; Some (matches_key target o t a)) = Some (bool_decide (k = target)).
Proof.
  destruct ro, rt, ra; cbn; try done. intros [= <-] target. f_equal.
  apply (matches_key_spec target {| org_id := _; aggregate_type_id := _; aggregate_id := _ |}).
Qed.

Lemma key_predicates m : wf_metablock m -> forall k,
  is_matches_aggregate_key (metablock_block m) k =
    Some (match wal_metablock_type m with
          | EventBatchMetadata b => bool_decide (eb_aggregate_key b = k) | _ => false end) /\
  is_soft_delete_for_aggregate (metablock_block m) k =
    Some (match wal_metablock_type m with
          | SoftDelete d => bool_decide (sd_aggregate_key d = k) | _ => false end) /\
  is_soft_trim_for_aggregate (metablock_block m) k =
    Some (match wal_metablock_type m with
          | SoftTrim t => bool_decide (st_aggregate_key t = k) | _ => false end).
Proof.
  intros Hm k. unfold is_matches_aggregate_key, is_soft_delete_for_aggregate,
    is_soft_trim_for_aggregate. rewrite read_discriminant by done. cbn [mbind option_bind].
  destruct (wal_metablock_type m) as [b|r|d|t] eqn:E; cbn [kind_tag]; split_and!; try done.
  - destruct (read_event_batch m Hm b E) as [Hk _]. exact (key_fields _ _ _ _ Hk k).
  - destruct (read_soft_delete m Hm d E) as [Hk _]. exact (key_fields _ _ _ _ Hk k).
  - destruct (read_soft_trim m Hm t E) as [Hk _]. exact (key_fields _ _ _ _ Hk k).
Qed.

(** C33: every metablock fits the fixed block whatever its kind, user and
    datablock storage, and decoding the block gives the metablock back: the
    padded, checksummed and versioned block is a faithful representation. *)
Theorem metablock_block_roundtrip (m : Metablock) (buffer : bytes) :
  wf_metablock m -> length buffer = FIXED_BLOCK_SIZE_BYTES ->
  exists block,
    serialize_versioned_message (enc_metablock m) WIRE_VERSION_WAL_METABLOCK buffer =
      Some (Ok block) /\
    length block = FIXED_BLOCK_SIZE_BYTES /\
    deserialise_metablock block = Ok m.
Proof.
  intros Hm Hl. exists (metablock_block m).
  auto using serialize_metablock, length_metablock_block, deserialise_metablock_block.
Qed.


Lemma metablock_block_body_bytes m : exists c body,
  metablock_block m = le_bytes 4 c ++ body /\ c = crc32c body /\ bytes_ok body.
Proof.
  unfold metablock_block, block_bytes. eexists _, _. split; [done|]. split; [done|].
  unfold block_body, bytes_ok. apply Forall_app. split; [apply le_bytes_ok|].
  apply Forall_app. split; [apply enc_metablock_bytes|apply zeros_bytes].
Qed.

(** A metablock block in which any single byte was changed, in the
    checksum, the version, the message or the padding, is refused with a
    checksum mismatch: given that the CRC detects a change of one byte. *)
Theorem metablock_corruption_detected (m : Metablock) (i : nat) (v : Z) :
  (forall b j x, bytes_ok b -> byte_ok x -> (j < length b)%nat -> b !! j <> Some x ->
     crc32c (<[j := x]> b) <> crc32c b) ->
  wf_metablock m -> byte_ok v -> (i < FIXED_BLOCK_SIZE_BYTES)%nat ->
  metablock_block m !! i <> Some v ->
  exists stored actual,
    deserialise_metablock (<[i := v]> (metablock_block m)) = Err (ChecksumMismatch stored actual).
Proof.
  intros Hdet Hm Hv Hi Hne. pose proof (length_metablock_block m Hm) as Hl.
  destruct (metablock_block_body_bytes m) as (c & body & E & Hc & Hb). rewrite E in *.
  assert (Hlb : (4 <= length body)%nat).
  { rewrite length_app, length_le_bytes in Hl. unfold FIXED_BLOCK_SIZE_BYTES in Hl. lia. }
  unfold deserialise_metablock, validate_header.
  rewrite decide_False by (rewrite length_insert, Hl; vm_compute; lia). unfold CRC_SIZE.
  set (stored := le_value _). set (actual := crc32c _).
  enough (stored <> actual) as Hneq.
  { exists stored, actual. by rewrite (proj2 (Z.eqb_neq _ _) Hneq). }
  subst stored actual. destruct (decide (i < 4)%nat) as [Hi4|Hi4].
  - rewrite insert_app_l, slice_app_here, drop_app_length' by
      (rewrite ?length_insert, length_le_bytes; done).
    intros Heq. apply Hne. rewrite lookup_app_l by (by rewrite length_le_bytes).
    assert (Hx : <[i:=v]> (le_bytes 4 c) = le_bytes 4 c).
    { apply le_value_inj; [|apply le_bytes_ok|by rewrite length_insert|].
      - apply Forall_insert; [apply le_bytes_ok|done].
      - rewrite Heq, (le_roundtrip 4 32), Hc; [done|done|]. rewrite Hc. apply crc32c_u32. }
    rewrite <-Hx. apply list_lookup_insert_eq. by rewrite length_le_bytes.
  - assert (Hi' : exists j, i = (length (le_bytes 4 c) + j)%nat).
    { exists (i - 4)%nat. rewrite length_le_bytes. lia. }
    destruct Hi' as [j ->]. rewrite insert_app_r.
    rewrite slice_app_here, drop_app_length' by (by rewrite length_le_bytes).
    rewrite (le_roundtrip 4 32), Hc by (try done; rewrite Hc; apply crc32c_u32).
    apply not_eq_sym, Hdet; [done|done| |].
    + rewrite length_app in Hl. unfold FIXED_BLOCK_SIZE_BYTES in *. lia.
    + intros Hj. apply Hne. rewrite lookup_app_r by lia. by rewrite Nat.add_sub' in *.
Qed.
End properties.

(** ** A concrete block

    A checksum that detects a changed byte, and an event batch, to evaluate
    the statements on. *)

Definition crc_sum : Crc32c.
Proof.
  refine {| crc32c b := wrap 32 (sum_Z b) |}. intros b. by apply wrap_fits.
Defined.

Lemma crc_sum_detects b j x :
  bytes_ok b -> byte_ok x -> (j < length b)%nat -> b !! j <> Some x ->
  @crc32c crc_sum (<[j := x]> b) <> @crc32c crc_sum b.
Proof.
  intros Hb Hx Hj Hne. destruct (lookup_lt_is_Some_2 _ _ Hj) as [y Hy].
  assert (byte_ok y) by (eapply Forall_lookup_1; eauto).
  assert (y <> x) by congruence.
  cbn. rewrite (sum_Z_insert b j x y) by done. unfold wrap, byte_ok in *.
  intros E. set (s := sum_Z b) in *.
  pose proof (Z.div_mod (s - y + x) (2 ^ 32)). pose proof (Z.div_mod s (2 ^ 32)). lia.
Qed.

Definition sample_event_batch : MetablockEventBatch :=
  {| eb_aggregate_key := {| org_id := 1; aggregate_type_id := 2; aggregate_id := 3 |};
     eb_aggregate_version := 7; trimmed_below_version := 0;
     min_client_seq := 4; max_client_seq := 5; min_event_timestamp := 10; max_event_timestamp := 20;
     min_event_seq := 8; max_event_seq := 9; eb_client_id := 42; eb_user_id := None;
     event_types_data := EventTypesDirect [1; U64_MAX; U64_MAX; U64_MAX] |}.

Definition sample_metablock : Metablock :=
  {| wal_seq := 11; server_timestamp := 100; lease_epoch := 1; node_id := 9;
     uncompressed_size := 50; compressed_size := 50; datablock_version := 1;
     datablock_compression_type := 0; previous_tip_hash := GENESIS_HASH;
     datablock_position := 61440; previous_aggregate_metablock_pos := 4096;
     wal_metablock_type := EventBatchMetadata sample_event_batch; datablock := StorageBlock 77 |}.

Lemma sample_metablock_wf : wf_metablock sample_metablock.
Proof.
  unfold wf_metablock, wf_byte_array. cbn -[Z.pow].
  unfold wf_event_batch, wf_aggregate_key, wf_option_u128, wf_event_types; cbn -[Z.pow].
  unfold wf_words, fits, U64_MAX.
  split_and!; try done; try lia; repeat (apply Forall_cons; split; [lia|]); by apply Forall_nil.
Qed.

Lemma metablock_block_roundtrip_witness : exists block,
  @serialize_versioned_message bincode_le crc_sum (@enc_metablock bincode_le sample_metablock)
    1 (zeros 1024) = Some (Ok block) /\ length block = 1024%nat /\
  @deserialise_metablock bincode_le crc_sum block = Ok sample_metablock.
Proof.
  exact (@metablock_block_roundtrip bincode_le crc_sum sample_metablock (zeros 1024)
           sample_metablock_wf eq_refl).
Defined.


Lemma metablock_corruption_detected_witness : exists stored actual,
  @deserialise_metablock bincode_le crc_sum
    (<[100%nat := 5]> (@metablock_block bincode_le crc_sum sample_metablock)) =
  Err (ChecksumMismatch stored actual).
Proof.
  apply (@metablock_corruption_detected bincode_le crc_sum sample_metablock 100 5
    crc_sum_detects sample_metablock_wf); [split; lia|vm_compute; lia|by vm_compute].
Defined.
