(* ===== verification/HashChain.v ===== *)
(** * The hash chain of the log

    [celeriant_shard/src/shard_wal_sync.rs], [compute_entry_hash], and
    [celeriant_shard/src/intra_batch_chain.rs]: every metablock is hashed
    with the tip before it; the two fields that differ between the nodes of a
    cluster (the position of the datablock and the backlink) are left out.
    blake3 is a parameter; its incremental interface hashes the concatenation
    of the updates. *)

From S2P Require Import Prelude WalConstants Codec WalTypes WalCodec DiskFormat.

Class Blake3 := {
  blake3 : bytes -> bytes;
  blake3_32 b : wf_byte_array 32 (blake3 b);
}.

(** What [compute_entry_hash] feeds to the hasher; [None] is the panic of a
    content too short to slice. *)
Definition SKIP_START : nat := HEADER_SIZE + MetablockLayout.OFFSET_DATABLOCK_POSITION.
Definition SKIP_END : nat := SKIP_START + 8 + 8.

Definition entry_preimage (previous_hash content : bytes) : option bytes :=
  if decide (length content < SKIP_END)%nat then None
  else Some (previous_hash ++ slice content CRC_SIZE (SKIP_START - CRC_SIZE) ++ drop SKIP_END content).

Definition compute_entry_hash `{Blake3} (previous_hash content : bytes) : option bytes :=
  blake3 <$> entry_preimage previous_hash content.

(** ** intra_batch_chain.rs *)

Record IntraBatchChainBreak := {
  at_index : nat;
  expected : bytes;
  producer_wal_seq : Z;
  actual : bytes;
  consumer_wal_seq : Z;
}.

Inductive ValidateChainError :=
  | ChainBreak (b : IntraBatchChainBreak)
  | SerialiseMetablock.

(** [items.windows(2).enumerate()], from index [i] on. *)
Fixpoint validate_windows `{Bincode, Crc32c, Blake3} (i : nat) (items : list Metablock)
    : option (result ValidateChainError unit) :=
  match items with
  | w0 :: ((w1 :: _) as rest) =>
      buf ← serialize_versioned_message (enc_metablock w0) WIRE_VERSION_WAL_METABLOCK
              (zeros FIXED_BLOCK_SIZE_BYTES);
      match buf with
      | Err _ => Some (Err SerialiseMetablock)
      | Ok buf =>
          exp ← compute_entry_hash (previous_tip_hash w0) buf;
          if decide (previous_tip_hash w1 = exp) then validate_windows (S i) rest
          else Some (Err (ChainBreak
                 {| at_index := i + 1; expected := exp; producer_wal_seq := wal_seq w0;
                    actual := previous_tip_hash w1; consumer_wal_seq := wal_seq w1 |}))
      end
  | _ => Some (Ok tt)
  end.

Definition validate_intra_batch_chain `{Bincode, Crc32c, Blake3} (items : list Metablock)
    : option (result ValidateChainError unit) := validate_windows 0 items.

(** The tip after a metablock is appended, as [sync] advances it: serialise
    into the buffer, then hash with the tip. *)
Definition advance_tip `{Bincode, Crc32c, Blake3} (tip : bytes) (m : Metablock) : option bytes :=
  r ← serialize_versioned_message (enc_metablock m) WIRE_VERSION_WAL_METABLOCK
        (zeros FIXED_BLOCK_SIZE_BYTES);
  match r with Ok buf => compute_entry_hash tip buf | Err _ => None end.

(** ** What the hash covers *)

(** A metablock with its node-local fields cleared. *)
Definition erase_local (m : Metablock) : Metablock :=
  {| wal_seq := wal_seq m; server_timestamp := server_timestamp m; lease_epoch := lease_epoch m;
     node_id := node_id m; uncompressed_size := uncompressed_size m;
     compressed_size := compressed_size m; datablock_version := datablock_version m;
     datablock_compression_type := datablock_compression_type m;
     previous_tip_hash := previous_tip_hash m;
     datablock_position := 0; previous_aggregate_metablock_pos := 0;
     wal_metablock_type := wal_metablock_type m; datablock := datablock m |}.

Section preimages.
Context `{Bincode, Crc32c, Blake3}.

(** The hashed fields before the hole, and the bytes after it. *)
Definition hashed_front (m : Metablock) : bytes :=
  enc_uint 8 (wal_seq m) ++ enc_uint 8 (server_timestamp m) ++ enc_uint 8 (lease_epoch m) ++
  enc_uint 16 (node_id m) ++ enc_uint 8 (uncompressed_size m) ++
  enc_uint 8 (compressed_size m) ++ enc_uint 4 (datablock_version m) ++
  enc_uint 1 (datablock_compression_type m) ++ enc_array (enc_uint 1) (previous_tip_hash m).
Definition hashed_back (m : Metablock) : bytes :=
  enc_metablock_kind (wal_metablock_type m) ++ enc_storage_kind (datablock m).

Lemma enc_metablock_split m : enc_metablock m =
  hashed_front m ++ (enc_uint 8 (datablock_position m) ++ enc_uint 8 (previous_aggregate_metablock_pos m)) ++
  hashed_back m.
Proof. unfold enc_metablock, hashed_front, hashed_back. by rewrite <-!app_assoc. Qed.

Lemma length_hashed_front m : wf_metablock m ->
  length (hashed_front m) = MetablockLayout.OFFSET_DATABLOCK_POSITION.
Proof.
  intros (_ & _ & _ & _ & _ & _ & _ & _ & [Hh _] & _). unfold hashed_front.
  by rewrite !length_app, !length_enc_uint, (length_enc_array _ 1), Hh by apply length_enc_uint.
Qed.

(** The padding of a block depends on the metablock's size only. *)
Definition pad_of (m : Metablock) : bytes :=
  zeros (FIXED_BLOCK_SIZE_BYTES - (HEADER_SIZE + length (enc_metablock m))).

Lemma entry_preimage_block p m : wf_metablock m ->
  entry_preimage p (metablock_block m) =
    Some (p ++ (le_bytes 4 WIRE_VERSION_WAL_METABLOCK ++ hashed_front m) ++ hashed_back m ++ pad_of m).
Proof.
  intros Hm. pose proof (length_hashed_front m Hm) as Hf.
  unfold entry_preimage. rewrite decide_False by (rewrite length_metablock_block by done; vm_compute; lia).
  f_equal. f_equal. unfold metablock_block, block_bytes, block_body. fold (pad_of m).
  rewrite enc_metablock_split at 2 4.
  set (c := le_bytes 4 (crc32c _)). assert (Hc : length c = 4%nat) by apply length_le_bytes.
  clearbody c. set (v := le_bytes 4 WIRE_VERSION_WAL_METABLOCK).
  set (hole := enc_uint 8 _ ++ enc_uint 8 _).
  assert (Hh : length hole = 16%nat) by (unfold hole; by rewrite length_app, !length_enc_uint).
  clearbody hole.
  replace (c ++ v ++ (hashed_front m ++ hole ++ hashed_back m) ++ pad_of m)
    with (c ++ (v ++ hashed_front m) ++ hole ++ hashed_back m ++ pad_of m) by (by rewrite <-!app_assoc).
  f_equal.
  - apply slice_app_exact; [by rewrite Hc|]. by rewrite length_app, Hf.
  - rewrite (app_assoc c), (app_assoc (c ++ _)).
    rewrite drop_app_length'; [done|]. by rewrite !length_app, Hc, Hf, Hh.
Qed.

Lemma erase_local_wf m : wf_metablock m -> wf_metablock (erase_local m).
Proof.
  intros (? & ? & ? & ? & ? & ? & ? & ? & ? & ? & ? & ? & ?).
  unfold wf_metablock. cbn -[wf_metablock_kind wf_storage_kind]. split_and!; try done; lia.
Qed.

(** The preimage determines the tip and the metablock up to its local fields. *)
Lemma entry_preimage_inj p p' m m' :
  length p = 32%nat -> length p' = 32%nat -> wf_metablock m -> wf_metablock m' ->
  entry_preimage p (metablock_block m) = entry_preimage p' (metablock_block m') ->
  p = p' /\ erase_local m = erase_local m'.
Proof.
  intros Hp Hp' Hm Hm'. rewrite !entry_preimage_block by done. intros E%(inj Some).
  apply app_inj_1 in E as [-> E]; [|congruence]. split; [done|].
  apply app_inj_1 in E as [E1 E2].
  2: { by rewrite !length_app, !length_le_bytes, !length_hashed_front by done. }
  apply app_inv_head in E1.
  assert (Hd : forall x, enc_metablock (erase_local x) ++ pad_of x =
            hashed_front x ++ (enc_uint 8 0 ++ enc_uint 8 0) ++ hashed_back x ++ pad_of x).
  { intros x. rewrite enc_metablock_split. by rewrite <-!app_assoc. }
  pose proof (metablock_ok (erase_local m) (pad_of m) (erase_local_wf m Hm)) as D1.
  pose proof (metablock_ok (erase_local m') (pad_of m') (erase_local_wf m' Hm')) as D2.
  rewrite Hd, E1, E2, <-Hd, D2 in D1. congruence.
Qed.

Lemma advance_tip_Some tip m : wf_metablock m ->
  exists pre, entry_preimage tip (metablock_block m) = Some pre /\ advance_tip tip m = Some (blake3 pre).
Proof.
  intros Hm. exists (tip ++ (le_bytes 4 WIRE_VERSION_WAL_METABLOCK ++ hashed_front m) ++ hashed_back m ++ pad_of m).
  split; [by apply entry_preimage_block|]. unfold advance_tip.
  rewrite serialize_metablock by (try done; apply length_replicate).
  cbn [mbind option_bind]. unfold compute_entry_hash. by rewrite entry_preimage_block.
Qed.

Lemma advance_tip_length tip m t : wf_metablock m -> advance_tip tip m = Some t -> length t = 32%nat.
Proof.
  intros Hm E. destruct (advance_tip_Some tip m Hm) as (pre & _ & E'). simplify_eq.
  apply blake3_32.
Qed.

Lemma erased_same_tip (tip : bytes) (m m' : Metablock) :
  wf_metablock m -> wf_metablock m' -> erase_local m = erase_local m' ->
  exists t, advance_tip tip m = Some t /\ advance_tip tip m' = Some t.
Proof.
  intros Hm Hm' E. destruct (advance_tip_Some tip m Hm) as (pre & P & ->).
  destruct (advance_tip_Some tip m' Hm') as (pre' & P' & ->).
  enough (pre = pre') as -> by eauto.
  rewrite entry_preimage_block in P, P' by done.
  apply (inj Some) in P as <-. apply (inj Some) in P' as <-.
  assert (Hfr : hashed_front m = hashed_front m') by (by destruct m, m'; simplify_eq).
  assert (Hbk : hashed_back m = hashed_back m') by (by destruct m, m'; simplify_eq).
  assert (pad_of m = pad_of m') as Hpad.
  { unfold pad_of. by rewrite !enc_metablock_split, !length_app, !length_enc_uint, Hfr, Hbk. }
  by rewrite Hfr, Hbk, Hpad.
Qed.

(** What is hashed for the entries of a log that starts from a tip, and two
    logs whose entries at one index are hashed from different bytes to the
    same tip. *)
Fixpoint hashed_inputs (tip : bytes) (ms : list Metablock) : list bytes :=
  match ms with
  | [] => []
  | m :: ms =>
      match entry_preimage tip (metablock_block m) with
      | Some pre => pre :: hashed_inputs (blake3 pre) ms
      | None => []
      end
  end.

Definition collision (p : bytes) (ms : list Metablock) (p' : bytes) (ms' : list Metablock) : Prop :=
  exists i x y, hashed_inputs p ms !! i = Some x /\ hashed_inputs p' ms' !! i = Some y /\ x <> y /\ blake3 x = blake3 y.

Lemma same_tip_same_chain (ms ms' : list Metablock) (p p' t : bytes) :
  length p = 32%nat -> length p' = 32%nat -> length ms = length ms' ->
  Forall wf_metablock ms -> Forall wf_metablock ms' ->
  foldM advance_tip ms p = Some t -> foldM advance_tip ms' p' = Some t ->
  (p = p' /\ erase_local <$> ms = erase_local <$> ms') \/ collision p ms p' ms'.
Proof.
  intros Hp Hp' Hl Hms. revert ms' p p' Hp Hp' Hl.
  induction Hms as [|m ms Hm _ IH]; intros [|m' ms'] p p' Hp Hp' [=] Hms' Ht Ht'.
  - left. cbn in Ht, Ht'. split; [congruence|done].
  - inversion_clear Hms' as [|? ? Hm' Hms].
    destruct (advance_tip_Some p m Hm) as (pre & P & E).
    destruct (advance_tip_Some p' m' Hm') as (pre' & P' & E').
    cbn in Ht, Ht'. rewrite E in Ht. rewrite E' in Ht'. cbn in Ht, Ht'.
    unfold collision. cbn [hashed_inputs]. rewrite P, P'.
    destruct (IH ms' (blake3 pre) (blake3 pre')) as [[Eb El]|(i & Hcol)]; try done; [apply blake3_32..| |by right; exists (S i)].
    destruct (decide (pre = pre')) as [->|Hne]; [|right; exists 0%nat, pre, pre'; done].
    destruct (entry_preimage_inj p p' m m') as [-> Ee]; [done..|by rewrite P, P'|].
    left. split; [done|]. cbn. by rewrite Ee, El.
Qed.

(** The tip does not depend on where a node stored the datablock or on
    its backlinks: nodes that append the same entries agree on the tip. *)
Theorem entry_hash_node_independent (tip : bytes) (m m' : Metablock) :
  wf_metablock m -> wf_metablock m' -> erase_local m = erase_local m' ->
  exists t, advance_tip tip m = Some t /\ advance_tip tip m' = Some t.
Proof. apply erased_same_tip. Qed.

(** C15: tamper evidence.  If two logs of the same length have the same tip,
    they start from the same tip and agree on every field of every entry
    (positions local to the node apart), or blake3 takes two different inputs
    that were hashed for entries at one index of the two logs to one value. *)
Theorem chain_tip_tamper_evident (ms ms' : list Metablock) (p p' t : bytes) :
  length p = 32%nat -> length p' = 32%nat -> length ms = length ms' ->
  Forall wf_metablock ms -> Forall wf_metablock ms' ->
  foldM advance_tip ms p = Some t -> foldM advance_tip ms' p' = Some t ->
  (p = p' /\ erase_local <$> ms = erase_local <$> ms') \/ collision p ms p' ms'.
Proof. apply same_tip_same_chain. Qed.

(** Entry [j + 1] carries the tip entry [j] produces. *)
Definition linked (items : list Metablock) (j : nat) : Prop :=
  forall a b, items !! j = Some a -> items !! S j = Some b ->
    advance_tip (previous_tip_hash a) a = Some (previous_tip_hash b).

Lemma validate_windows_step i w0 w1 rest : wf_metablock w0 ->
  exists exp, advance_tip (previous_tip_hash w0) w0 = Some exp /\
  validate_windows i (w0 :: w1 :: rest) =
    if decide (previous_tip_hash w1 = exp) then validate_windows (S i) (w1 :: rest)
    else Some (Err (ChainBreak
           {| at_index := i + 1; expected := exp; producer_wal_seq := wal_seq w0;
              actual := previous_tip_hash w1; consumer_wal_seq := wal_seq w1 |})).
Proof.
  intros Hw. destruct (advance_tip_Some (previous_tip_hash w0) w0 Hw) as (pre & P & E).
  exists (blake3 pre). split; [done|]. unfold advance_tip in E.
  cbn [validate_windows]. destruct (serialize_versioned_message _ _ _) as [[buf|]|];
    cbn [mbind option_bind] in *; try done. rewrite E. done.
Qed.

Lemma linked_cons w items j : linked (w :: items) (S j) <-> linked items j.
Proof. done. Qed.

Lemma validate_windows_spec items i : Forall wf_metablock items ->
  (validate_windows i items = Some (Ok tt) /\ forall j, linked items j) \/
  (exists b j, validate_windows i items = Some (Err (ChainBreak b)) /\
     at_index b = (i + j + 1)%nat /\ ~ linked items j /\ forall k, (k < j)%nat -> linked items k).
Proof.
  intros Hwf. revert i. induction Hwf as [|w0 items Hw0 Hwf IH]; intros i.
  { left. split; [done|]. by intros [|j] a b. }
  destruct items as [|w1 rest].
  { left. split; [done|]. intros j a b _ Hb%lookup_lt_Some. cbn in Hb. lia. }
  destruct (validate_windows_step i w0 w1 rest Hw0) as (exp & E & ->).
  case_decide as Hd.
  - destruct (IH (S i)) as [[-> Hl]|(b & j & -> & Hb & Hn & Hk)].
    + left. split; [done|]. intros [|j]; [|by apply linked_cons, Hl].
      intros a c [= <-] [= <-]. congruence.
    + right. exists b, (S j). split_and!; [done|lia|by rewrite linked_cons|].
      intros [|k] ?; [intros a c [= <-] [= <-]; congruence|]. apply linked_cons, Hk. lia.
  - right. eexists _, 0%nat. split_and!; [done|cbn; lia| |lia].
    intros Hl. specialize (Hl w0 w1 eq_refl eq_refl). congruence.
Qed.

(** A replicated batch passes validation exactly when every entry
    carries the tip its predecessor produces; otherwise the error names the
    first entry that does not.  Validation never panics nor fails to
    serialise. *)
Theorem intra_batch_chain_exact (items : list Metablock) :
  Forall wf_metablock items ->
  (validate_intra_batch_chain items = Some (Ok tt) <-> forall j, linked items j) /\
  (validate_intra_batch_chain items = Some (Ok tt) \/
   exists b j, validate_intra_batch_chain items = Some (Err (ChainBreak b)) /\
     at_index b = (j + 1)%nat /\ ~ linked items j /\ forall k, (k < j)%nat -> linked items k).
Proof.
  intros Hwf. unfold validate_intra_batch_chain.
  destruct (validate_windows_spec items 0 Hwf) as [[-> Hl]|(b & j & E & Hb & Hn & Hk)].
  - split; [done|by left].
  - rewrite E. split; [|right; eauto 10]. split; [done|]. intros Hl. by destruct (Hn (Hl j)).
Qed.
End preimages.

(** ** Concrete chains *)

(** A 32-byte hash function, to evaluate the statements on. *)
Definition blake_pad : Blake3.
Proof.
  refine {| blake3 b := le_bytes 32 (le_value b) |}.
  intros b. split; [apply length_le_bytes|].
  eapply Forall_impl; [apply le_bytes_ok|]. intros x Hx. exact Hx.
Defined.

Definition sample_moved : Metablock :=
  {| wal_seq := 11; server_timestamp := 100; lease_epoch := 1; node_id := 9;
     uncompressed_size := 50; compressed_size := 50; datablock_version := 1;
     datablock_compression_type := 0; previous_tip_hash := GENESIS_HASH;
     datablock_position := 999; previous_aggregate_metablock_pos := 0;
     wal_metablock_type := EventBatchMetadata sample_event_batch; datablock := StorageBlock 77 |}.

Lemma sample_moved_wf : wf_metablock sample_moved.
Proof.
  destruct sample_metablock_wf as (? & ? & ? & ? & ? & ? & ? & ? & ? & _ & _ & ? & ?).
  unfold wf_metablock. split_and!; try done; cbn; lia.
Qed.

Lemma entry_hash_node_independent_witness : exists t,
  @advance_tip bincode_le crc_sum blake_pad GENESIS_HASH sample_metablock = Some t /\
  @advance_tip bincode_le crc_sum blake_pad GENESIS_HASH sample_moved = Some t.
Proof.
  apply (@entry_hash_node_independent bincode_le crc_sum blake_pad GENESIS_HASH _ _
           sample_metablock_wf sample_moved_wf). reflexivity.
Defined.

Lemma chain_tip_tamper_evident_witness :
  (GENESIS_HASH = GENESIS_HASH /\
   erase_local <$> [sample_metablock] = erase_local <$> [sample_moved]) \/
  @collision bincode_le crc_sum blake_pad GENESIS_HASH [sample_metablock] GENESIS_HASH [sample_moved].
Proof.
  apply (@chain_tip_tamper_evident bincode_le crc_sum blake_pad
           [sample_metablock] [sample_moved] GENESIS_HASH GENESIS_HASH
           (default [] (@advance_tip bincode_le crc_sum blake_pad GENESIS_HASH sample_moved)));
    [reflexivity..| | | |].
  - constructor; [apply sample_metablock_wf|constructor].
  - constructor; [apply sample_moved_wf|constructor].
  - vm_compute. reflexivity.
  - vm_compute. reflexivity.
Defined.

Lemma intra_batch_chain_exact_witness :
  @validate_intra_batch_chain bincode_le crc_sum blake_pad [sample_metablock] = Some (Ok tt).
Proof.
  apply (@intra_batch_chain_exact bincode_le crc_sum blake_pad [sample_metablock]).
  - constructor; [apply sample_metablock_wf|constructor].
  - intros j a b _ Hb%lookup_lt_Some. cbn in Hb. lia.
Defined.
