(* ===== verification/Datablock.v ===== *)
(** * Datablocks: encoding, compression and storage

    [celeriant_wire/src/disk/serialised_datablock.rs]: how a batch of events
    or a schema becomes the inline bytes of a metablock or a separate block,
    compressed or not, and how it is read back.  The dictionary codec of
    [celeriant_wire/src/codec/compression.rs] wraps the [zstd] library, a
    parameter whose documented behaviour is that decompression undoes
    compression. *)

From S2P Require Import Prelude WalConstants Codec WalTypes WalCodec DiskFormat.

Class DictCodec := {
  compress : bytes -> option bytes;
  decompress : bytes -> nat -> option bytes;
  decompress_compress b c : compress b = Some c -> decompress c (length b) = Some b;
}.

(** ** Encoding *)

(** [core::str::from_utf8]: the well-formed byte sequences of Unicode. *)
Definition in_range (lo hi b : Z) : bool := (lo <=? b) && (b <=? hi).
Definition is_cont (b : Z) : bool := in_range 0x80 0xBF b.

Fixpoint utf8_valid (s : bytes) : bool :=
  match s with
  | [] => true
  | b0 :: s1 =>
      if in_range 0 0x7F b0 then utf8_valid s1
      else match s1 with
      | [] => false
      | b1 :: s2 =>
          if in_range 0xC2 0xDF b0 then is_cont b1 && utf8_valid s2
          else match s2 with
          | [] => false
          | b2 :: s3 =>
              if (b0 =? 0xE0) then in_range 0xA0 0xBF b1 && is_cont b2 && utf8_valid s3
              else if (b0 =? 0xED) then in_range 0x80 0x9F b1 && is_cont b2 && utf8_valid s3
              else if in_range 0xE1 0xEF b0 then is_cont b1 && is_cont b2 && utf8_valid s3
              else match s3 with
              | [] => false
              | b3 :: s4 =>
                  if b0 =? 0xF0 then in_range 0x90 0xBF b1 && is_cont b2 && is_cont b3 && utf8_valid s4
                  else if b0 =? 0xF4 then in_range 0x80 0x8F b1 && is_cont b2 && is_cont b3 && utf8_valid s4
                  else if in_range 0xF1 0xF3 b0 then is_cont b1 && is_cont b2 && is_cont b3 && utf8_valid s4
                  else false
              end
          end
      end
  end.

Section encoders.
Context `{Bincode}.

Definition enc_event (e : DatablockAggregateEvent) : bytes :=
  enc_uint 8 (client_seq e) ++ enc_uint 8 (event_seq e) ++ enc_option (enc_uint 16) (event_id e) ++
  enc_uint 8 (event_timestamp e) ++ enc_uint 8 (event_type_major e) ++
  enc_uint 8 (event_type_minor e) ++ enc_vec (enc_uint 1) (event_value e) ++
  enc_option (enc_array (enc_uint 1)) (iv e).
Definition dec_event (s : bytes) : option (DatablockAggregateEvent * bytes) :=
  '(cs, s) ← dec_uint 8 s; '(es, s) ← dec_uint 8 s; '(id, s) ← dec_option (dec_uint 16) s;
  '(ts, s) ← dec_uint 8 s; '(ma, s) ← dec_uint 8 s; '(mi, s) ← dec_uint 8 s;
  '(v, s) ← dec_vec (dec_uint 1) s; '(i, s) ← dec_option (dec_array (dec_uint 1) 12) s;
  Some ({| client_seq := cs; event_seq := es; event_id := id; event_timestamp := ts;
           event_type_major := ma; event_type_minor := mi; event_value := v; iv := i |}, s).

Definition enc_batch (b : DatablockAggregateEventBatch) : bytes :=
  enc_uint 8 (aggregate_version b) ++ enc_vec enc_event (events b).
Definition dec_batch (s : bytes) : option (DatablockAggregateEventBatch * bytes) :=
  '(v, s) ← dec_uint 8 s; '(es, s) ← dec_vec dec_event s;
  Some ({| aggregate_version := v; events := es |}, s).

Definition enc_schema_datablock (d : DatablockSchemaRegistration) : bytes :=
  enc_uint 4 (SchemaType_to_u8 (schema_type d)) ++ enc_vec (enc_uint 1) (schema d).
Definition dec_schema_datablock (s : bytes) : option (DatablockSchemaRegistration * bytes) :=
  '(t, s) ← dec_uint 4 s;
  match SchemaType_try_from t with
  | Err _ => None
  | Ok ty =>
      '(text, s) ← dec_vec (dec_uint 1) s;
      if utf8_valid text then Some ({| schema_type := ty; schema := text |}, s) else None
  end.

Definition enc_datablock (d : DatablockKind) : bytes :=
  match d with
  | EventBatchItem b => enc_uint 4 0 ++ enc_batch b
  | DatablockSchema r => enc_uint 4 1 ++ enc_schema_datablock r
  end.
Definition dec_datablock (s : bytes) : option (DatablockKind * bytes) :=
  '(t, s) ← dec_uint 4 s;
  if t =? 0 then '(b, s) ← dec_batch s; Some (EventBatchItem b, s)
  else if t =? 1 then '(r, s) ← dec_schema_datablock s; Some (DatablockSchema r, s)
  else None.
End encoders.

(** ** serialised_datablock.rs *)

Record SerialisedDatablock := {
  sdb_uncompressed_size : Z;
  sdb_compressed_size : Z;
  sdb_datablock_version : Z;
  sdb_compression_type : Z;
  storage_kind : DatablockStorageKind;
  external_data : option bytes;
}.

Definition DEFAULT_AUTO_STACK_SCRATCH_BYTES : nat := 4096.

Inductive CompressionPolicy :=
  | Auto (compression_allowed : bool)
  | Fixed (ct : CompressionType).

Inductive CodecError := CodecErrorCompression.

Section serialise.
Context `{Bincode, Crc32c, DictCodec}.

Definition inline_block (uncompressed compressed type_id : Z) (minibatch : bytes)
    : SerialisedDatablock :=
  {| sdb_uncompressed_size := uncompressed; sdb_compressed_size := compressed;
     sdb_datablock_version := WIRE_VERSION_WAL_DATABLOCK; sdb_compression_type := type_id;
     storage_kind := StorageInline minibatch; external_data := None |}.

Definition external_block (uncompressed compressed type_id : Z) (body : bytes)
    : SerialisedDatablock :=
  {| sdb_uncompressed_size := uncompressed; sdb_compressed_size := compressed;
     sdb_datablock_version := WIRE_VERSION_WAL_DATABLOCK; sdb_compression_type := type_id;
     storage_kind := StorageBlock (crc32c body); external_data := Some body |}.

(** [minibatch[..n].copy_from_slice(body)] into a zeroed minibatch. *)
Definition minibatch_of (body : bytes) : bytes := write_at (zeros MINIBATCH_SIZE_BYTES) 0 body.

Definition byte_len (b : bytes) : Z := Z.of_nat (length b).

(** [STACK_SCRATCH] is the const generic of the source. *)
Definition serialise_auto (STACK_SCRATCH : nat) (d : DatablockKind) (compression_allowed : bool)
    : result CodecError SerialisedDatablock :=
  match encode_into_slice (enc_datablock d) (zeros STACK_SCRATCH) with
  | Some (n, stack_buf) =>
      let body := take n stack_buf in
      if decide (n <= MINIBATCH_SIZE_BYTES)%nat then
        Ok (inline_block (Z.of_nat n) (Z.of_nat n) (CompressionType_to_byte CompressionNone) (minibatch_of body))
      else if negb compression_allowed then
        Ok (external_block (Z.of_nat n) (Z.of_nat n) (CompressionType_to_byte CompressionNone) body)
      else
        compressed ← ok_or (compress body) CodecErrorCompression;
        if decide (length compressed <= MINIBATCH_SIZE_BYTES)%nat then
          Ok (inline_block (Z.of_nat n) (byte_len compressed) (CompressionType_to_byte ZstdDict) (minibatch_of compressed))
        else Ok (external_block (Z.of_nat n) (byte_len compressed) (CompressionType_to_byte ZstdDict) compressed)
  | None =>
      let uncompressed := enc_datablock d in
      if negb compression_allowed then
        Ok (external_block (byte_len uncompressed) (byte_len uncompressed) (CompressionType_to_byte CompressionNone) uncompressed)
      else
        compressed ← ok_or (compress uncompressed) CodecErrorCompression;
        if decide (length compressed <= MINIBATCH_SIZE_BYTES)%nat then
          Ok (inline_block (byte_len uncompressed) (byte_len compressed) (CompressionType_to_byte ZstdDict) (minibatch_of compressed))
        else Ok (external_block (byte_len uncompressed) (byte_len compressed) (CompressionType_to_byte ZstdDict) compressed)
  end.

Definition serialise_fixed (d : DatablockKind) (compression_type : CompressionType)
    : result CodecError SerialisedDatablock :=
  let uncompressed := enc_datablock d in
  body ← match compression_type with
         | CompressionNone => Ok uncompressed
         | ZstdDict => ok_or (compress uncompressed) CodecErrorCompression
         end;
  if decide (length body <= MINIBATCH_SIZE_BYTES)%nat then
    Ok (inline_block (byte_len uncompressed) (byte_len body) (CompressionType_to_byte compression_type) (minibatch_of body))
  else Ok (external_block (byte_len uncompressed) (byte_len body) (CompressionType_to_byte compression_type) body).

Definition new_with_stack_scratch (STACK_SCRATCH : nat) (d : DatablockKind) (policy : CompressionPolicy)
    : result CodecError SerialisedDatablock :=
  match policy with
  | Auto compression_allowed => serialise_auto STACK_SCRATCH d compression_allowed
  | Fixed compression_type => serialise_fixed d compression_type
  end.

Definition SerialisedDatablock_new (d : DatablockKind) (policy : CompressionPolicy)
    : result CodecError SerialisedDatablock :=
  new_with_stack_scratch DEFAULT_AUTO_STACK_SCRATCH_BYTES d policy.

(** The two decodings that end both branches of [deserialise_datablock]. *)
Definition decode_body (uncompressed_size : Z) (ct : CompressionType) (data : bytes)
    : result DiskFormatError DatablockKind :=
  match ct with
  | CompressionNone => fixed_deserialise dec_datablock data
  | ZstdDict =>
      decompressed ← ok_or (decompress data (Z.to_nat uncompressed_size)) CodecCompression;
      fixed_deserialise dec_datablock decompressed
  end.

(** The outer [option] is the slice panic of the inline branch. *)
Definition deserialise_datablock (uncompressed_size compressed_size datablock_version compression_type_id : Z)
    (kind : DatablockStorageKind) (external : option bytes)
    : option (result DiskFormatError DatablockKind) :=
  match kind with
  | StorageNone => Some (Err DatablockExpected)
  | StorageInline minibatch =>
      if negb (datablock_version =? 0) && negb (datablock_version =? WIRE_VERSION_WAL_DATABLOCK)
      then Some (Err (UnsupportedVersion datablock_version))
      else match map_err UnknownCompression (CompressionType_from_byte compression_type_id) with
      | Err e => Some (Err e)
      | Ok ct =>
          data ← get_slice minibatch 0 (Z.to_nat compressed_size);
          Some (decode_body uncompressed_size ct data)
      end
  | StorageBlock crc =>
      Some (
        data ← ok_or external ExternalDataMissing;
        let actual_crc := crc32c data in
        if negb (actual_crc =? crc) then Err (ChecksumMismatch crc actual_crc)
        else if negb (datablock_version =? WIRE_VERSION_WAL_DATABLOCK)
        then Err (UnsupportedVersion datablock_version)
        else
          ct ← map_err UnknownCompression (CompressionType_from_byte compression_type_id);
          decode_body uncompressed_size ct data)
  end.
End serialise.

(** ** Round trips *)

Definition wf_event (e : DatablockAggregateEvent) : Prop :=
  u64 (client_seq e) /\ u64 (event_seq e) /\ wf_option_u128 (event_id e) /\
  u64 (event_timestamp e) /\ u64 (event_type_major e) /\ u64 (event_type_minor e) /\
  (Forall (fun x => u8 x) (event_value e) /\ Z.of_nat (length (event_value e)) < 2 ^ 64) /\
  (forall i, iv e = Some i -> wf_byte_array 12 i).

Definition wf_datablock (d : DatablockKind) : Prop :=
  match d with
  | EventBatchItem b =>
      u64 (aggregate_version b) /\ Forall wf_event (events b) /\ Z.of_nat (length (events b)) < 2 ^ 64
  | DatablockSchema r =>
      Forall (fun x => u8 x) (schema r) /\ Z.of_nat (length (schema r)) < 2 ^ 64 /\
      utf8_valid (schema r) = true
  end.

Section datablock_codec.
Context `{Bincode}.

Lemma dec_byte_vec v rest : Forall (fun x => u8 x) v -> Z.of_nat (length v) < 2 ^ 64 ->
  dec_vec (dec_uint 1) (enc_vec (enc_uint 1) v ++ rest) = Some (v, rest).
Proof. intros. by apply (vec_ok (fun x => u8 x)); [intros x ? ?; apply dec_u8|]. Qed.

Lemma event_ok : codec_ok wf_event enc_event dec_event.
Proof.
  intros e rest (? & ? & ? & ? & ? & ? & [? ?] & Hiv). unfold enc_event, dec_event.
  rewrite <-!app_assoc.
  rewrite dec_u64 by done; cbn [mbind option_bind]. rewrite dec_u64 by done; cbn [mbind option_bind].
  rewrite dec_opt_u128 by done; cbn [mbind option_bind].
  do 3 (rewrite dec_u64 by done; cbn [mbind option_bind]).
  rewrite dec_byte_vec by done; cbn [mbind option_bind].
  rewrite (option_ok (wf_byte_array 12)); [by destruct e| |done].
  intros b r Hb. by apply dec_bytes.
Qed.

Lemma batch_ok : codec_ok
  (fun b => u64 (aggregate_version b) /\ Forall wf_event (events b) /\
            Z.of_nat (length (events b)) < 2 ^ 64) enc_batch dec_batch.
Proof.
  intros [v es] rest (Hv & He & Hl). unfold enc_batch, dec_batch. rewrite <-app_assoc.
  rewrite dec_u64 by done. cbn [mbind option_bind aggregate_version events] in *.
  rewrite (vec_ok wf_event); [done|apply event_ok|done].
Qed.

Lemma schema_datablock_ok : codec_ok
  (fun r => Forall (fun x => u8 x) (schema r) /\ Z.of_nat (length (schema r)) < 2 ^ 64 /\
            utf8_valid (schema r) = true) enc_schema_datablock dec_schema_datablock.
Proof.
  intros [ty text] rest (Hb & Hl & Hu). unfold enc_schema_datablock, dec_schema_datablock.
  cbn [schema_type schema] in *. rewrite <-app_assoc.
  rewrite dec_u32 by (by destruct ty). cbn [mbind option_bind].
  replace (SchemaType_try_from (SchemaType_to_u8 ty)) with (@Ok Z _ ty) by (by destruct ty).
  rewrite dec_byte_vec by done. cbn [mbind option_bind]. by rewrite Hu.
Qed.

Lemma datablock_ok : codec_ok wf_datablock enc_datablock dec_datablock.
Proof.
  intros [b|r] rest Hd; unfold enc_datablock, dec_datablock; rewrite <-app_assoc;
    rewrite dec_u32 by done; cbn [mbind option_bind].
  - replace (0 =? 0) with true by done. by rewrite batch_ok.
  - replace (1 =? 0) with false by done. replace (1 =? 1) with true by done.
    by rewrite schema_datablock_ok.
Qed.

Lemma fixed_deserialise_datablock d : wf_datablock d ->
  fixed_deserialise dec_datablock (enc_datablock d) = Ok d.
Proof.
  intros Hd. unfold fixed_deserialise. pose proof (datablock_ok d [] Hd) as E.
  rewrite app_nil_r in E. by rewrite E.
Qed.
End datablock_codec.

Section datablock_storage.
Context `{Bincode, Crc32c, DictCodec}.

(** A body and its type byte decode to [d]. *)
Definition body_of (d : DatablockKind) (ct : CompressionType) (body : bytes) : Prop :=
  match ct with CompressionNone => body = enc_datablock d | ZstdDict => compress (enc_datablock d) = Some body end.

Lemma decode_body_of d ct body : wf_datablock d -> body_of d ct body ->
  decode_body (byte_len (enc_datablock d)) ct body = Ok d.
Proof.
  intros Hd Hb. destruct ct; cbn in *.
  - subst. by apply fixed_deserialise_datablock.
  - unfold byte_len. rewrite Nat2Z.id, (decompress_compress _ _ Hb). cbn.
    by apply fixed_deserialise_datablock.
Qed.

(** Storing a body inline or as a block: the common end of every path. *)
Definition store (d : DatablockKind) (ct : CompressionType) (body : bytes) : SerialisedDatablock :=
  if decide (length body <= MINIBATCH_SIZE_BYTES)%nat
  then inline_block (byte_len (enc_datablock d)) (byte_len body) (CompressionType_to_byte ct) (minibatch_of body)
  else external_block (byte_len (enc_datablock d)) (byte_len body) (CompressionType_to_byte ct) body.

Lemma store_roundtrip d ct body : wf_datablock d -> body_of d ct body ->
  let s := store d ct body in
  deserialise_datablock (sdb_uncompressed_size s) (sdb_compressed_size s) (sdb_datablock_version s)
    (sdb_compression_type s) (storage_kind s) (external_data s) = Some (Ok d).
Proof.
  intros Hd Hb. unfold store. case_decide as Hl; cbn -[WIRE_VERSION_WAL_DATABLOCK].
  - replace (CompressionType_from_byte _) with (@Ok Z _ ct) by (by destruct ct). cbn.
    unfold minibatch_of. rewrite write_at_0, get_slice_here by (unfold byte_len; by rewrite Nat2Z.id).
    cbn. by rewrite decode_body_of.
  - rewrite Z.eqb_refl. cbn.
    replace (CompressionType_from_byte _) with (@Ok Z _ ct) by (by destruct ct). cbn.
    by rewrite decode_body_of.
Qed.

Lemma take_scratch d n : (length (enc_datablock d) <= n)%nat ->
  take (length (enc_datablock d)) (write_at (zeros n) 0 (enc_datablock d)) = enc_datablock d.
Proof. intros. by rewrite write_at_0, take_app_length. Qed.

(** What the compressed paths have in common. *)
Definition compressed_store (d : DatablockKind) : result CodecError SerialisedDatablock :=
  match compress (enc_datablock d) with
  | Some body => Ok (store d ZstdDict body)
  | None => Err CodecErrorCompression
  end.

Lemma serialise_auto_eq n d allowed : (MINIBATCH_SIZE_BYTES <= n)%nat ->
  serialise_auto n d allowed =
    if decide (length (enc_datablock d) <= MINIBATCH_SIZE_BYTES)%nat then Ok (store d CompressionNone (enc_datablock d))
    else if allowed then compressed_store d else Ok (store d CompressionNone (enc_datablock d)).
Proof.
  intros Hn. unfold serialise_auto, compressed_store, store.
  destruct (decide (length (enc_datablock d) <= n)%nat) as [Hl|Hl].
  - rewrite encode_into_slice_fits by (unfold zeros; by rewrite length_replicate).
    rewrite take_scratch by done. case_decide; [done|].
    destruct allowed; cbn; [|done]. destruct (compress _); cbn; [|done]. by case_decide.
  - rewrite encode_into_slice_small by (unfold zeros; rewrite length_replicate; lia).
    destruct (decide (length (enc_datablock d) <= MINIBATCH_SIZE_BYTES)%nat); [lia|].
    destruct allowed; cbn; [|done].
    destruct (compress _); cbn; [|done]. by case_decide.
Qed.

Lemma serialise_fixed_eq d ct : serialise_fixed d ct =
  match ct with
  | CompressionNone => Ok (store d CompressionNone (enc_datablock d))
  | ZstdDict => compressed_store d
  end.
Proof.
  unfold serialise_fixed, compressed_store, store. destruct ct; cbn; [by case_decide|].
  destruct (compress _); cbn; [by case_decide|done].
Qed.

Lemma serialised_is_stored n d policy s :
  (MINIBATCH_SIZE_BYTES <= n)%nat -> new_with_stack_scratch n d policy = Ok s ->
  exists ct body, body_of d ct body /\ s = store d ct body.
Proof.
  intros Hn. unfold new_with_stack_scratch, compressed_store.
  assert (Hc : compressed_store d = Ok s -> exists ct body, body_of d ct body /\ s = store d ct body).
  { unfold compressed_store. destruct (compress _) as [b|] eqn:E; [|done].
    intros [= <-]. by exists ZstdDict, b. }
  assert (Hnone : Ok (store d CompressionNone (enc_datablock d)) = @Ok CodecError _ s ->
            exists ct body, body_of d ct body /\ s = store d ct body).
  { intros [= <-]. by exists CompressionNone, (enc_datablock d). }
  destruct policy as [allowed|ct].
  - rewrite serialise_auto_eq by done. case_decide; [done|]. by destruct allowed.
  - rewrite serialise_fixed_eq. by destruct ct.
Qed.

(** Serialising again with the compression that was recorded gives the same
    block. *)
Lemma reserialise_fixed n d policy s :
  (MINIBATCH_SIZE_BYTES <= n)%nat -> new_with_stack_scratch n d policy = Ok s ->
  exists ct, CompressionType_from_byte (sdb_compression_type s) = Ok ct /\ serialise_fixed d ct = Ok s.
Proof.
  intros Hn. assert (Hc : compressed_store d = Ok s -> sdb_compression_type s = CompressionType_to_byte ZstdDict).
  { unfold compressed_store, store. destruct (compress _); [|done]. intros [= <-]. by case_decide. }
  assert (Hz : compressed_store d = Ok s -> exists ct, CompressionType_from_byte (sdb_compression_type s) = Ok ct /\ serialise_fixed d ct = Ok s).
  { intros E. exists ZstdDict. by rewrite (Hc E), serialise_fixed_eq. }
  assert (Hp : Ok (E:=CodecError) (store d CompressionNone (enc_datablock d)) = Ok s ->
    exists ct, CompressionType_from_byte (sdb_compression_type s) = Ok ct /\ serialise_fixed d ct = Ok s).
  { intros [= <-]. exists CompressionNone. rewrite serialise_fixed_eq. unfold store. by case_decide. }
  destruct policy as [allowed|ct]; cbn [new_with_stack_scratch].
  - rewrite serialise_auto_eq by done. case_decide; [done|]. by destruct allowed.
  - rewrite serialise_fixed_eq. by destruct ct.
Qed.

Lemma external_nonempty n d policy s b :
  (MINIBATCH_SIZE_BYTES <= n)%nat -> new_with_stack_scratch n d policy = Ok s -> external_data s = Some b -> b <> [].
Proof.
  intros Hn E. destruct (serialised_is_stored n d policy s Hn E) as (ct & body & _ & ->).
  unfold store. case_decide as Hl; cbn; [done|]. intros [= <-] ->. cbn in Hl. lia.
Qed.


(** The stack scratch buffer is an optimisation only: two scratch sizes
    of at least a minibatch give the same serialised datablock, on every
    policy and on failure. *)
Theorem scratch_size_irrelevant (scratch scratch' : nat) (d : DatablockKind) (policy : CompressionPolicy) :
  (MINIBATCH_SIZE_BYTES <= scratch)%nat -> (MINIBATCH_SIZE_BYTES <= scratch')%nat ->
  new_with_stack_scratch scratch d policy = new_with_stack_scratch scratch' d policy.
Proof.
  intros. destruct policy as [allowed|ct]; cbn; [|done]. by rewrite !serialise_auto_eq.
Qed.
End datablock_storage.

(** ** A concrete datablock *)

(** A codec that stores the bytes as they are. *)
Definition codec_id : DictCodec.
Proof.
  refine {| compress b := Some b; decompress c n := Some c |}. by intros b c [= ->].
Defined.

Definition sample_datablock : DatablockKind :=
  EventBatchItem {| aggregate_version := 3; events :=
    [{| client_seq := 1; event_seq := 5; event_id := Some 9; event_timestamp := 10;
        event_type_major := 2; event_type_minor := 0; event_value := [104; 105]; iv := None |}] |}.

Lemma sample_datablock_wf : wf_datablock sample_datablock.
Proof.
  unfold wf_datablock, sample_datablock, aggregate_version, events. split; [split; lia|]. split; [|done].
  constructor; [|constructor]. unfold wf_event; cbn -[Z.pow]. unfold wf_option_u128, fits.
  split_and!; try done; try lia.
  - intros x [= <-]. lia.
  - repeat (apply Forall_cons; split; [lia|]). by apply Forall_nil.
Qed.

Definition sample_serialised : SerialisedDatablock :=
  {| sdb_uncompressed_size := 88; sdb_compressed_size := 88; sdb_datablock_version := 1;
     sdb_compression_type := 0;
     storage_kind := StorageInline (@minibatch_of (@enc_datablock bincode_le sample_datablock));
     external_data := None |}.


Lemma scratch_size_irrelevant_witness :
  @new_with_stack_scratch bincode_le crc_sum codec_id 4096 sample_datablock (Auto true) =
  @new_with_stack_scratch bincode_le crc_sum codec_id 1000 sample_datablock (Auto true).
Proof.
  apply (@scratch_size_irrelevant bincode_le crc_sum codec_id); vm_compute; lia.
Defined.
