(* ===== verification/WireFrame.v ===== *)
(** * Network frames

    [celeriant_wire/src/network/wire_header.rs]: every request and response is
    a 17-byte header (version, message type, two lengths, compression byte)
    and a body.  A connection is the list of bytes still to be read; a writer
    is the bytes it appends.  Messages are serialised by bincode (protocol
    version 2) or MessagePack (version 3), a parameter: an encoder writes a
    sequence of chunks, and a decoder gives the message back from the bytes
    whatever follows them. *)

From S2P Require Import Prelude WalConstants WalTypes Codec DiskFormat Datablock.

Definition PROTOCOL_VERSION_V2 : Z := 2.
Definition PROTOCOL_VERSION_V3 : Z := 3.
Definition WIRE_HEADER_SIZE : nat := 17.
Definition WIRE_FIXED_BODY_SIZE : nat := 1024 - WIRE_HEADER_SIZE.

Record WireHeader := {
  version : Z;
  message_type : Z;
  compressed_length : Z;
  uncompressed_length : Z;
  compression_type : CompressionType;
}.

(** The errors of [wire_error.rs], without their texts. *)
Inductive WireError :=
  | NetworkError
  | MessageTooLarge (message_length max_size_bytes : Z)
  | UnsupportedProtocol (v : Z)
  | CodecFailure
  | MalformedFrame.

(** Messages of a type [T]: the chunks an encoder hands to its writer, for
    each protocol version. *)
Class Message (T : Type) := {
  ser_chunks : Z -> T -> option (list bytes);
  de_bytes : Z -> bytes -> option T;
  de_ser v m cs rest : ser_chunks v m = Some cs -> de_bytes v (concat cs ++ rest) = Some m;
}.

Definition is_supported (v : Z) : bool := (v =? PROTOCOL_VERSION_V2) || (v =? PROTOCOL_VERSION_V3).

Definition checked_u32_len (len : nat) : result WireError Z :=
  if Z.of_nat len <=? U32_MAX then Ok (Z.of_nat len)
  else Err (MessageTooLarge (Z.of_nat len) U32_MAX).

(** [read_exact]: the bytes and what is left of the stream. *)
Definition read_exact (s : bytes) (n : nat) : result WireError (bytes * bytes) :=
  if decide (n <= length s)%nat then Ok (take n s, drop n s) else Err NetworkError.

Definition le_field (header : bytes) (off : nat) : Z := le_value (slice header off 4).

Definition CompressionType_eqb (a b : CompressionType) : bool :=
  match a, b with
  | CompressionNone, CompressionNone | ZstdDict, ZstdDict => true
  | _, _ => false
  end.

Definition from_reader (s : bytes) (max_size_bytes : Z) : result WireError (WireHeader * bytes) :=
  '(header, s) ← read_exact s WIRE_HEADER_SIZE;
  let v := le_field header 0 in
  if negb (is_supported v) then Err (UnsupportedProtocol v)
  else
    let mt := le_field header 4 in
    let cl := le_field header 8 in
    let ul := le_field header 12 in
    ct ← map_err (fun _ => MalformedFrame) (CompressionType_from_byte (le_value (slice header 16 1)));
    if max_size_bytes <? cl then Err (MessageTooLarge cl max_size_bytes)
    else if max_size_bytes <? ul then Err (MessageTooLarge ul max_size_bytes)
    else if CompressionType_eqb ct CompressionNone && negb (cl =? ul) then Err MalformedFrame
    else Ok ({| version := v; message_type := mt; compressed_length := cl;
                uncompressed_length := ul; compression_type := ct |}, s).

Definition read_fixed_body_raw (h : WireHeader) (s : bytes) : result WireError (bytes * bytes) :=
  if negb (CompressionType_eqb (compression_type h) CompressionNone) then Err MalformedFrame
  else if Z.of_nat WIRE_FIXED_BODY_SIZE <? compressed_length h
  then Err (MessageTooLarge (compressed_length h) (Z.of_nat WIRE_FIXED_BODY_SIZE))
  else
    '(body, s) ← read_exact s (Z.to_nat (compressed_length h));
    Ok (write_at (zeros WIRE_FIXED_BODY_SIZE) 0 body, s).

Definition read_variable_body_raw (h : WireHeader) (s : bytes) : result WireError (bytes * bytes) :=
  read_exact s (Z.to_nat (compressed_length h)).

(** ** OverflowCountingSlice *)

Record OverflowCountingSlice := {
  ocs_buffer : bytes;
  written : nat;
}.

Definition ocs_push (o : OverflowCountingSlice) (bs : bytes) : OverflowCountingSlice :=
  let buffer :=
    if decide (written o < length (ocs_buffer o))%nat then
      let tk := Nat.min (length bs) (length (ocs_buffer o) - written o) in
      write_at (ocs_buffer o) (written o) (take tk bs)
    else ocs_buffer o in
  {| ocs_buffer := buffer; written := written o + length bs |}.

Section frames.
Context {T : Type} `{Message T, DictCodec}.

Definition deserialise_versioned (b : bytes) (v : Z) : result WireError T :=
  if is_supported v then ok_or (de_bytes v b) CodecFailure
  else Err (UnsupportedProtocol v).

Definition serialise_heap_versioned (m : T) (v : Z) : result WireError bytes :=
  if is_supported v then cs ← ok_or (ser_chunks v m) CodecFailure; Ok (concat cs)
  else Err (UnsupportedProtocol v).

Definition read_fixed_size (h : WireHeader) (s : bytes) : result WireError (T * bytes) :=
  '(buffer, s) ← read_fixed_body_raw h s;
  m ← deserialise_versioned buffer (version h);
  Ok (m, s).

Definition read_variable_size_uncompressed (h : WireHeader) (s : bytes) : result WireError (T * bytes) :=
  if negb (CompressionType_eqb (compression_type h) CompressionNone) then Err MalformedFrame
  else
    '(payload, s) ← read_variable_body_raw h s;
    m ← deserialise_versioned payload (version h);
    Ok (m, s).

Definition read_variable_size_with_codec (h : WireHeader) (s : bytes) : result WireError (T * bytes) :=
  '(payload, s) ← read_variable_body_raw h s;
  b ← match compression_type h with
      | CompressionNone => Ok payload
      | ZstdDict => ok_or (decompress payload (Z.to_nat (uncompressed_length h))) CodecFailure
      end;
  m ← deserialise_versioned b (version h);
  Ok (m, s).

(** The five header fields written over the start of a buffer. *)
Definition write_header (buffer : bytes) (v mt cl ul tid : Z) : bytes :=
  let buffer := write_at buffer 0 (le_bytes 4 v) in
  let buffer := write_at buffer 4 (le_bytes 4 mt) in
  let buffer := write_at buffer 8 (le_bytes 4 cl) in
  let buffer := write_at buffer 12 (le_bytes 4 ul) in
  write_at buffer 16 [tid].

(** The bytes [wire_header_write_fixed_size] sends. *)
Definition wire_header_write_fixed_size (m : T) (request_response_type protocol_version : Z)
    : result WireError bytes :=
  if negb (is_supported protocol_version) then Err (UnsupportedProtocol protocol_version)
  else
    cs ← ok_or (ser_chunks protocol_version m) CodecFailure;
    let body := foldl ocs_push {| ocs_buffer := zeros WIRE_FIXED_BODY_SIZE; written := 0 |} cs in
    let body_size := written body in
    if decide (WIRE_FIXED_BODY_SIZE < body_size)%nat
    then Err (MessageTooLarge (Z.of_nat body_size) (Z.of_nat WIRE_FIXED_BODY_SIZE))
    else
      let buffer := zeros WIRE_HEADER_SIZE ++ ocs_buffer body in
      let len := wrap 32 (Z.of_nat body_size) in
      Ok (take (WIRE_HEADER_SIZE + body_size)
            (write_header buffer protocol_version request_response_type len len 0)).

Definition write_variable_frame (request_response_type protocol_version : Z) (ct : CompressionType)
    (uncompressed_size : Z) (data : bytes) (max_size_bytes : Z) : result WireError bytes :=
  compressed_size ← checked_u32_len (length data);
  let tid := CompressionType_to_byte ct in
  if max_size_bytes <? compressed_size then Err (MessageTooLarge compressed_size max_size_bytes)
  else if max_size_bytes <? uncompressed_size then Err (MessageTooLarge uncompressed_size max_size_bytes)
  else if (compressed_size <=? Z.of_nat WIRE_FIXED_BODY_SIZE) && CompressionType_eqb ct CompressionNone then
    let buffer := zeros (WIRE_HEADER_SIZE + WIRE_FIXED_BODY_SIZE) in
    let buffer := write_header buffer protocol_version request_response_type compressed_size uncompressed_size tid in
    let buffer := write_at buffer WIRE_HEADER_SIZE data in
    Ok (take (WIRE_HEADER_SIZE + length data) buffer)
  else
    Ok (le_bytes 4 protocol_version ++ le_bytes 4 request_response_type ++
        le_bytes 4 compressed_size ++ le_bytes 4 uncompressed_size ++ [tid] ++ data).

Definition wire_header_write_variable_size_uncompressed (m : T)
    (request_response_type max_size_bytes protocol_version : Z) : result WireError bytes :=
  data ← serialise_heap_versioned m protocol_version;
  uncompressed_size ← checked_u32_len (length data);
  write_variable_frame request_response_type protocol_version CompressionNone uncompressed_size data max_size_bytes.

Definition wire_header_write_variable_size_with_codec (m : T) (request_response_type : Z)
    (ct : CompressionType) (max_size_bytes protocol_version : Z) : result WireError bytes :=
  uncompressed ← serialise_heap_versioned m protocol_version;
  uncompressed_size ← checked_u32_len (length uncompressed);
  data ← match ct with
         | CompressionNone => Ok uncompressed
         | ZstdDict => ok_or (compress uncompressed) CodecFailure
         end;
  write_variable_frame request_response_type protocol_version ct uncompressed_size data max_size_bytes.
End frames.

(** ** The fixed-size body buffer *)

Section overflow_slice.
Context (cap : nat).

(** The slice after [acc] was pushed: what fits, and the count of it all. *)
Definition ocs_after (acc : bytes) : OverflowCountingSlice :=
  {| ocs_buffer := take cap (acc ++ zeros cap); written := length acc |}.

Lemma take_pad acc : (length acc <= cap)%nat ->
  take cap (acc ++ zeros cap) = acc ++ zeros (cap - length acc).
Proof.
  intros. unfold zeros. rewrite take_app_ge by done. f_equal.
  rewrite take_replicate. f_equal. lia.
Qed.

Lemma length_ocs_after acc : length (ocs_buffer (ocs_after acc)) = cap.
Proof.
  unfold ocs_after, zeros. cbn [ocs_buffer]. rewrite length_take, length_app, length_replicate. lia.
Qed.

Lemma ocs_push_after acc bs : ocs_push (ocs_after acc) bs = ocs_after (acc ++ bs).
Proof.
  unfold ocs_push. rewrite length_ocs_after. unfold ocs_after at 1 3; cbn [written ocs_buffer].
  unfold ocs_after. f_equal; [|by rewrite length_app].
  destruct (decide (length acc < cap)%nat) as [Hl|Hl].
  2: { rewrite !take_app_le by (rewrite ?length_app; lia). done. }
  cbn [ocs_buffer written]. rewrite take_pad by lia.
  remember (Nat.min (length bs) (cap - length acc)) as tk eqn:Htk.
  replace (zeros (cap - length acc)) with (zeros tk ++ zeros (cap - length acc - tk)).
  2: { unfold zeros. rewrite <-replicate_add. f_equal. lia. }
  rewrite write_at_mid; [|done|unfold zeros; rewrite length_take, length_replicate; lia].
  rewrite <-app_assoc, take_app_ge by lia. f_equal.
  destruct (decide (length bs <= cap - length acc)%nat).
  - replace tk with (length bs) by lia. rewrite take_app_ge by lia.
    rewrite firstn_all. f_equal. unfold zeros. rewrite take_replicate. f_equal. lia.
  - replace tk with (cap - length acc)%nat by lia. rewrite Nat.sub_diag, app_nil_r.
    rewrite take_app_le by lia. done.
Qed.

Lemma ocs_pushes acc cs : foldl ocs_push (ocs_after acc) cs = ocs_after (acc ++ concat cs).
Proof.
  revert acc. induction cs as [|c cs IH]; intros acc; cbn; [by rewrite app_nil_r|].
  by rewrite ocs_push_after, IH, app_assoc.
Qed.

Lemma ocs_start : {| ocs_buffer := zeros cap; written := 0 |} = ocs_after [].
Proof. unfold ocs_after, zeros. cbn. by rewrite take_ge by (by rewrite length_replicate). Qed.
End overflow_slice.

(** ** Header bytes *)

Definition header_bytes (v mt cl ul tid : Z) : bytes :=
  le_bytes 4 v ++ le_bytes 4 mt ++ le_bytes 4 cl ++ le_bytes 4 ul ++ [tid].

Lemma length_header_bytes v mt cl ul tid : length (header_bytes v mt cl ul tid) = 17%nat.
Proof. unfold header_bytes. by rewrite !length_app, !length_le_bytes. Qed.

Lemma write_header_shape buffer v mt cl ul tid : (17 <= length buffer)%nat ->
  write_header buffer v mt cl ul tid = header_bytes v mt cl ul tid ++ drop 17 buffer.
Proof.
  intros Hl. unfold write_header, header_bytes.
  assert (Hb : buffer = take 4 buffer ++ slice buffer 4 4 ++ slice buffer 8 4 ++ slice buffer 12 4 ++
                slice buffer 16 1 ++ drop 17 buffer).
  { rewrite <-(take_drop 4 buffer) at 1. f_equal.
    do 3 (rewrite (drop_slice buffer _ 4); f_equal). apply drop_slice. }
  rewrite Hb at 1. clear Hb.
  assert (L0 : length (take 4 buffer) = 4%nat) by (rewrite length_take; lia).
  assert (L1 : length (slice buffer 4 4) = 4%nat) by (rewrite length_slice; lia).
  assert (L2 : length (slice buffer 8 4) = 4%nat) by (rewrite length_slice; lia).
  assert (L3 : length (slice buffer 12 4) = 4%nat) by (rewrite length_slice; lia).
  assert (L4 : length (slice buffer 16 1) = 1%nat) by (rewrite length_slice; lia).
  rewrite write_at_0, length_le_bytes, drop_app_length' by done.
  rewrite (write_at_mid (le_bytes 4 v)) by (by rewrite ?length_le_bytes).
  rewrite (app_assoc (le_bytes 4 v)), (write_at_mid (le_bytes 4 v ++ _))
    by (by rewrite ?length_app, ?length_le_bytes).
  rewrite (app_assoc (_ ++ le_bytes 4 mt)), (write_at_mid ((_ ++ le_bytes 4 mt) ++ _))
    by (by rewrite ?length_app, ?length_le_bytes).
  rewrite (app_assoc (_ ++ le_bytes 4 cl)), (write_at_mid ((_ ++ le_bytes 4 cl) ++ _))
    by (by rewrite ?length_app, ?length_le_bytes).
  by rewrite <-!app_assoc.
Qed.

Lemma le_field_here a x b off : length a = off -> u32 x -> le_field (a ++ le_bytes 4 x ++ b) off = x.
Proof.
  intros Hl Hx. unfold le_field. rewrite slice_app_exact by (by rewrite ?length_le_bytes).
  by rewrite (le_roundtrip 4 32).
Qed.

Lemma header_fields v mt cl ul tid : u32 v -> u32 mt -> u32 cl -> u32 ul -> u8 tid ->
  let h := header_bytes v mt cl ul tid in
  le_field h 0 = v /\ le_field h 4 = mt /\ le_field h 8 = cl /\ le_field h 12 = ul /\
  le_value (slice h 16 1) = tid.
Proof.
  intros. unfold h, header_bytes. split_and!.
  - by apply (le_field_here []).
  - apply (le_field_here (le_bytes 4 v)); by rewrite ?length_le_bytes.
  - rewrite (app_assoc (le_bytes 4 v)). apply le_field_here; [|done]. by rewrite length_app, !length_le_bytes.
  - rewrite (app_assoc (le_bytes 4 v)), (app_assoc (_ ++ le_bytes 4 mt)).
    apply le_field_here; [|done]. by rewrite !length_app, !length_le_bytes.
  - rewrite (app_assoc (le_bytes 4 v)), (app_assoc (_ ++ le_bytes 4 mt)), (app_assoc (_ ++ le_bytes 4 cl)).
    rewrite <-(app_nil_r [tid]), slice_app_exact by (by rewrite ?length_app, ?length_le_bytes).
    cbn. lia.
Qed.

Lemma from_reader_header v mt cl ul ct max s :
  is_supported v = true -> u32 mt -> u32 cl -> u32 ul -> cl <= max -> ul <= max ->
  (ct = CompressionNone -> cl = ul) ->
  from_reader (header_bytes v mt cl ul (CompressionType_to_byte ct) ++ s) max =
    Ok ({| version := v; message_type := mt; compressed_length := cl;
           uncompressed_length := ul; compression_type := ct |}, s).
Proof.
  intros Hv Hmt Hcl Hul Hmc Hmu Heq.
  assert (u32 v).
  { unfold is_supported, PROTOCOL_VERSION_V2, PROTOCOL_VERSION_V3 in Hv. unfold fits. lia. }
  unfold from_reader, read_exact, WIRE_HEADER_SIZE.
  rewrite decide_True by (rewrite length_app, length_header_bytes; lia).
  rewrite take_app_length', drop_app_length' by (by rewrite length_header_bytes).
  cbn [mbind result_bind].
  destruct (header_fields v mt cl ul (CompressionType_to_byte ct)) as (-> & -> & -> & -> & ->);
    [done..|by destruct ct|].
  rewrite Hv. cbn [negb].
  replace (CompressionType_from_byte _) with (@Ok Z _ ct) by (by destruct ct). cbn [map_err mbind result_bind].
  rewrite (proj2 (Z.ltb_ge max cl)), (proj2 (Z.ltb_ge max ul)) by done.
  destruct ct; cbn [CompressionType_eqb andb]; [|done].
  rewrite Heq, Z.eqb_refl by done. done.
Qed.

Section frame_lemmas.
Context {T : Type} `{Message T, DictCodec}.

Lemma checked_u32_len_Ok n x : checked_u32_len n = Ok x -> x = Z.of_nat n /\ u32 x.
Proof. unfold checked_u32_len, U32_MAX. case_bool; intros [= <-]. unfold fits. lia. Qed.

Lemma short_frame_bytes v mt cl ul tid data : (length data <= WIRE_FIXED_BODY_SIZE)%nat ->
  take (WIRE_HEADER_SIZE + length data)
    (write_at (write_header (zeros (WIRE_HEADER_SIZE + WIRE_FIXED_BODY_SIZE)) v mt cl ul tid)
       WIRE_HEADER_SIZE data) = header_bytes v mt cl ul tid ++ data.
Proof.
  intros Hl. unfold WIRE_HEADER_SIZE in *. unfold zeros. rewrite replicate_add.
  rewrite write_header_shape by (rewrite length_app, length_replicate; lia).
  rewrite drop_app_length' by (by rewrite length_replicate).
  replace WIRE_FIXED_BODY_SIZE with (length data + (WIRE_FIXED_BODY_SIZE - length data))%nat at 1 by lia.
  rewrite replicate_add, write_at_mid; [|by rewrite length_header_bytes|by rewrite length_replicate].
  rewrite app_assoc, take_app_length'; [done|]. by rewrite length_app, length_header_bytes.
Qed.

Lemma write_variable_frame_bytes mt v ct ul data max f :
  write_variable_frame mt v ct ul data max = Ok f ->
  f = header_bytes v mt (Z.of_nat (length data)) ul (CompressionType_to_byte ct) ++ data /\
  u32 (Z.of_nat (length data)) /\ Z.of_nat (length data) <= max /\ ul <= max.
Proof.
  unfold write_variable_frame. intros (cl & Hcl & E)%bind_Ok.
  apply checked_u32_len_Ok in Hcl as [-> Hu].
  destruct (Z.ltb_spec max (Z.of_nat (length data))); [done|].
  destruct (Z.ltb_spec max ul); [done|].
  split; [|auto]. destruct (_ && _) eqn:Es.
  - reflect. cbv zeta in E. rewrite short_frame_bytes in E by lia. congruence.
  - injection E as <-. unfold header_bytes. by rewrite <-!app_assoc.
Qed.

Lemma serialise_heap_Ok (m : T) v data : serialise_heap_versioned m v = Ok data ->
  is_supported v = true /\ forall rest, deserialise_versioned (data ++ rest) v = Ok m.
Proof.
  unfold serialise_heap_versioned, deserialise_versioned.
  destruct (is_supported v); [|done]. destruct (ser_chunks v m) as [cs|] eqn:E; [|done].
  intros [= <-]. split; [done|]. intros rest. by rewrite (de_ser v m cs rest E).
Qed.

Lemma read_exact_app a s n : n = length a -> read_exact (a ++ s) n = Ok (a, s).
Proof.
  intros ->. unfold read_exact. rewrite decide_True by (rewrite length_app; lia).
  by rewrite take_app_length, drop_app_length.
Qed.

(** A frame written with or without compression is read back: the
    header reader accepts it under the same size limit, and the body reader
    returns the message and leaves the rest of the stream untouched. *)
Theorem variable_frame_roundtrip (m : T) (mt : Z) (ct : CompressionType) (max v : Z) (f s : bytes) :
  u32 mt ->
  wire_header_write_variable_size_with_codec m mt ct max v = Ok f ->
  exists h body,
    from_reader (f ++ s) max = Ok (h, body ++ s) /\
    message_type h = mt /\ version h = v /\ compression_type h = ct /\
    read_variable_size_with_codec h (body ++ s) = Ok (m, s).
Proof.
  intros Hmt. unfold wire_header_write_variable_size_with_codec.
  intros (u & Hu & E)%bind_Ok. apply bind_Ok in E as (ul & Hul & E).
  apply bind_Ok in E as (data & Hd & E).
  destruct (serialise_heap_Ok m v u Hu) as [Hv Hde]. apply checked_u32_len_Ok in Hul as [-> Hul].
  apply write_variable_frame_bytes in E as (-> & Hcl & Hm1 & Hm2).
  rewrite <-app_assoc. rewrite from_reader_header; [|done..|].
  2: { intros ->. by injection Hd as <-. }
  eexists _, data. split; [done|]. do 3 (split; [done|]).
  unfold read_variable_size_with_codec, read_variable_body_raw. cbn [compressed_length].
  rewrite read_exact_app by (by rewrite Nat2Z.id).
  cbn [mbind result_bind compression_type uncompressed_length version].
  specialize (Hde []). rewrite app_nil_r in Hde. destruct ct.
  - injection Hd as ->. cbn [mbind result_bind]. by rewrite Hde.
  - destruct (compress u) as [c|] eqn:Ec; [|done]. injection Hd as ->.
    rewrite Nat2Z.id, (decompress_compress _ _ Ec). cbn [ok_or mbind result_bind]. by rewrite Hde.
Qed.

(** A fixed-size frame carries any message whose encoding fits 1007
    bytes, and is read back from its zero-padded buffer; a larger message is
    refused with its true encoded length, whatever the chunking of the
    encoder. *)
Theorem fixed_frame_roundtrip (m : T) (mt v max : Z) (cs : list bytes) (s : bytes) :
  u32 mt -> is_supported v = true -> ser_chunks v m = Some cs ->
  Z.of_nat WIRE_FIXED_BODY_SIZE <= max ->
  let n := Z.of_nat (length (concat cs)) in
  (n <= Z.of_nat WIRE_FIXED_BODY_SIZE ->
     exists f h, wire_header_write_fixed_size m mt v = Ok f /\
       from_reader (f ++ s) max = Ok (h, concat cs ++ s) /\ message_type h = mt /\
       read_fixed_size h (concat cs ++ s) = Ok (m, s)) /\
  (Z.of_nat WIRE_FIXED_BODY_SIZE < n ->
     wire_header_write_fixed_size m mt v =
       Err (MessageTooLarge n (Z.of_nat WIRE_FIXED_BODY_SIZE))).
Proof.
  intros Hmt Hv Hcs Hmax n. unfold wire_header_write_fixed_size. rewrite Hv, Hcs.
  cbn [negb ok_or mbind result_bind]. rewrite ocs_start, ocs_pushes, app_nil_l.
  cbn [written ocs_after]. split; intros Hn.
  - assert (Hn' : (length (concat cs) <= WIRE_FIXED_BODY_SIZE)%nat) by lia.
    rewrite decide_False by lia. set (tl := zeros _).
    assert (Hu : u32 n). { unfold fits, n. change (Z.of_nat WIRE_FIXED_BODY_SIZE) with 1007 in *. lia. }
    fold n. rewrite (wrap_small 32 n Hu). eexists _, _. split; [reflexivity|].
    rewrite write_header_shape by (rewrite length_app; unfold tl, WIRE_HEADER_SIZE, zeros; rewrite length_replicate; lia).
    unfold ocs_after; cbn [ocs_buffer]. rewrite take_pad by done.
    rewrite drop_app_length' by (unfold tl, WIRE_HEADER_SIZE, zeros; by rewrite length_replicate).
    rewrite app_assoc, take_app_length' by (by rewrite length_app, length_header_bytes).
    rewrite <-app_assoc. rewrite (from_reader_header v mt n n CompressionNone); [|done || lia..].
    do 2 (split; [done|]).
    unfold read_fixed_size, read_fixed_body_raw. cbn [compression_type CompressionType_eqb negb compressed_length].
    rewrite (proj2 (Z.ltb_ge _ n)) by done. unfold n. rewrite Nat2Z.id, read_exact_app by done.
    cbn [mbind result_bind version]. rewrite write_at_0. unfold deserialise_versioned. rewrite Hv.
    by rewrite (de_ser v m cs _ Hcs).
  - rewrite decide_True by lia. done.
Qed.
End frame_lemmas.

(** An accepted header bounds what the reader allocates: both lengths
    are within the limit, an uncompressed frame has equal lengths, the
    version is supported, and exactly the 17 header bytes are consumed. *)
Theorem from_reader_bounds (s : bytes) (max : Z) (h : WireHeader) (s' : bytes) :
  bytes_ok s -> from_reader s max = Ok (h, s') ->
  s' = drop WIRE_HEADER_SIZE s /\ is_supported (version h) = true /\
  0 <= compressed_length h <= max /\ 0 <= uncompressed_length h <= max /\
  u32 (compressed_length h) /\ u32 (uncompressed_length h) /\
  (compression_type h = CompressionNone -> compressed_length h = uncompressed_length h).
Proof.
  intros Hs. unfold from_reader, read_exact. case_decide as Hl; [|done].
  cbn [mbind result_bind]. destruct (is_supported _) eqn:Ev; [|done]. cbn [negb].
  destruct (CompressionType_from_byte _) as [ct|]; [|done]. cbn [map_err mbind result_bind].
  assert (Hf : forall off, u32 (le_field (take WIRE_HEADER_SIZE s) off)).
  { intros off. unfold le_field, fits. set (b := slice _ _ _).
    assert (Hb : bytes_ok b) by (by apply Forall_take, Forall_drop, Forall_take).
    assert (length b <= 4)%nat by (unfold b, slice; rewrite length_take; lia).
    pose proof (le_value_range b Hb). pose proof (Z.pow_le_mono_r 256 (Z.of_nat (length b)) 4). lia. }
  destruct (Z.ltb_spec max (le_field (take WIRE_HEADER_SIZE s) 8)); [done|].
  destruct (Z.ltb_spec max (le_field (take WIRE_HEADER_SIZE s) 12)); [done|].
  destruct (_ && _) eqn:Em; [done|]. intros E. simplify_eq E. intros <- <-.
  cbn [version compressed_length uncompressed_length compression_type].
  pose proof (Hf 8%nat) as H8. pose proof (Hf 12%nat) as H12. unfold fits in *.
  do 4 (split; [done || lia|]). do 2 (split; [done|]). intros ->. cbn in Em.
  apply negb_false_iff, Z.eqb_eq in Em. done.
Qed.

(** ** A concrete message *)

(** A message of two bytes, encoded in two chunks. *)
#[local] Instance message_pair : Message (Z * Z).
Proof.
  refine {|
    ser_chunks v m := if is_supported v && bool_decide (u8 (fst m) /\ u8 (snd m))
                      then Some [[fst m]; [snd m]] else None;
    de_bytes v b := match b with x :: y :: _ => Some (x, y) | _ => None end |}.
  intros v [x y] cs rest. destruct (_ && _); [|done]. by intros [= <-].
Defined.

Lemma variable_frame_roundtrip_witness : exists h body,
  from_reader ([2; 0; 0; 0; 7; 0; 0; 0; 2; 0; 0; 0; 2; 0; 0; 0; 0; 5; 6] ++ [99]) 1000 = Ok (h, body ++ [99]) /\
  message_type h = 7 /\ version h = 2 /\ compression_type h = CompressionNone /\
  @read_variable_size_with_codec _ message_pair codec_id h (body ++ [99]) = Ok ((5, 6), [99]).
Proof.
  apply (@variable_frame_roundtrip _ message_pair codec_id (5, 6) 7 CompressionNone 1000 2); [split; lia|].
  reflexivity.
Defined.

Lemma fixed_frame_roundtrip_witness : exists f h,
  @wire_header_write_fixed_size _ message_pair (5, 6) 7 3 = Ok f /\
  from_reader (f ++ []) 5000 = Ok (h, [5; 6] ++ []) /\ message_type h = 7 /\
  @read_fixed_size _ message_pair h ([5; 6] ++ []) = Ok ((5, 6), []).
Proof.
  apply (@fixed_frame_roundtrip _ message_pair (5, 6) 7 3 5000 [[5]; [6]] []);
    [split; lia|reflexivity|reflexivity|vm_compute; congruence|vm_compute; congruence].
Defined.

Lemma from_reader_bounds_witness : exists h,
  from_reader [2; 0; 0; 0; 7; 0; 0; 0; 2; 0; 0; 0; 2; 0; 0; 0; 0; 5; 6] 1000 = Ok (h, [5; 6]) /\
  0 <= compressed_length h <= 1000.
Proof.
  eexists. split; [reflexivity|].
  eapply (from_reader_bounds [2; 0; 0; 0; 7; 0; 0; 0; 2; 0; 0; 0; 2; 0; 0; 0; 0; 5; 6] 1000);
    [repeat (apply Forall_cons; split; [split; lia|]); by apply Forall_nil|reflexivity].
Defined.
