(* ===== verification/SegmentSummary.v ===== *)
(** * Segment summaries

    [celeriant_wal/src/segment_summary/segment_summary_payload.rs] and
    [segment_aggregate_entry.rs]: the sidecar written when a segment is sealed,
    its size accounting, and how it is cut down to the size cap. *)

From S2P Require Import Prelude Sbbf WalTypes Codec WalCodec.

Record SegmentAggregateEntry := {
  se_org_id : Z;
  se_aggregate_type_id : Z;
  se_aggregate_id : Z;
  is_deleted : bool;
  event_batch_count : Z;
  last_aggregate_version : Z;
  min_aggregate_version : Z;
  last_server_timestamp : Z;
  se_compressed_size : Z;
  se_uncompressed_size : Z;
  newest_metablock_pos : Z;
  client_set : ClientSet;
}.

Definition ENTRY_WIRE_SIZE_FIXED : Z := 105.

Definition entry_wire_size (e : SegmentAggregateEntry) : Z :=
  ENTRY_WIRE_SIZE_FIXED + ClientSet_wire_size (client_set e).

Definition entry_new (org type_id id : Z) : SegmentAggregateEntry :=
  {| se_org_id := org; se_aggregate_type_id := type_id; se_aggregate_id := id;
     is_deleted := false; event_batch_count := 0; last_aggregate_version := 0;
     min_aggregate_version := 0; last_server_timestamp := 0; se_compressed_size := 0;
     se_uncompressed_size := 0; newest_metablock_pos := 0; client_set := Unknown |}.

(** [entry.client_set = set]. *)
Definition with_client_set (e : SegmentAggregateEntry) (set : ClientSet) : SegmentAggregateEntry :=
  {| se_org_id := se_org_id e; se_aggregate_type_id := se_aggregate_type_id e;
     se_aggregate_id := se_aggregate_id e; is_deleted := is_deleted e;
     event_batch_count := event_batch_count e; last_aggregate_version := last_aggregate_version e;
     min_aggregate_version := min_aggregate_version e; last_server_timestamp := last_server_timestamp e;
     se_compressed_size := se_compressed_size e; se_uncompressed_size := se_uncompressed_size e;
     newest_metablock_pos := newest_metablock_pos e; client_set := set |}.

Definition SUMMARY_PAYLOAD_MAX_BYTES : Z := 4 * 1024 * 1024.

Definition bloom_wire_size (bloom : option (list Z)) : Z :=
  match bloom with Some words => 8 + 8 * Z.of_nat (length words) | None => 0 end.

Record SegmentSummaryPayload := {
  orgs : list Z;
  aggregate_types : list AggregateTypeKey;
  aggregates : list SegmentAggregateEntry;
  complete : bool;
  aggregate_bloom : option (list Z);
  client_bloom : option (list Z);
  schema_bloom : option (list Z);
}.

Definition WIRE_OVERHEAD : Z := 3 * 8 + 1 + 3.

Definition payload_is_empty (p : SegmentSummaryPayload) : bool :=
  bool_decide (aggregates p = []) &&
  negb (match schema_bloom p with Some w => existsb (fun b => negb (b =? 0)) w | None => false end).

Definition schema_may_contain_hash (p : SegmentSummaryPayload) (hash : Z) : option bool :=
  if negb (complete p) then Some true
  else match schema_bloom p with
       | Some words =>
           if bool_decide (words = []) || negb (Nat.eqb (length words mod 4) 0) then Some true
           else contains words hash
       | None => Some true
       end.

Definition payload_wire_size (p : SegmentSummaryPayload) : Z :=
  WIRE_OVERHEAD + Z.of_nat (length (orgs p)) * 16 +
  Z.of_nat (length (aggregate_types p)) * Z.of_nat KeyLayout.TYPE_WIRE_SIZE_TOTAL +
  sum_Z (entry_wire_size <$> aggregates p) +
  bloom_wire_size (aggregate_bloom p) + bloom_wire_size (client_bloom p) +
  bloom_wire_size (schema_bloom p).

(** [filter_map] over [enumerate]: the indices and sizes of the client sets
    that can be dropped. *)
Definition is_unknown (cs : ClientSet) : bool := match cs with Unknown => true | _ => false end.

Fixpoint droppable (i : nat) (l : list SegmentAggregateEntry) : list (nat * Z) :=
  match l with
  | [] => []
  | e :: l =>
      if is_unknown (client_set e) then droppable (S i) l
      else (i, ClientSet_wire_size (client_set e)) :: droppable (S i) l
  end.

(** The loop over the sorted indices; [None] is an index panic. *)
Fixpoint drop_sets (order : list (nat * Z)) (l : list SegmentAggregateEntry)
    (current_size : Z) (dropped : nat) : option (list SegmentAggregateEntry * nat) :=
  match order with
  | [] => Some (l, dropped)
  | (index, _) :: order =>
      entry ← l !! index;
      let saving := ClientSet_wire_size (client_set entry) - ClientSet_wire_size Unknown in
      let l := <[index := with_client_set entry Unknown]> l in
      let current_size := current_size - saving in
      if current_size <=? SUMMARY_PAYLOAD_MAX_BYTES then Some (l, S dropped)
      else drop_sets order l current_size (S dropped)
  end.

Definition with_aggregates (p : SegmentSummaryPayload) (l : list SegmentAggregateEntry)
    : SegmentSummaryPayload :=
  {| orgs := orgs p; aggregate_types := aggregate_types p; aggregates := l; complete := complete p;
     aggregate_bloom := aggregate_bloom p; client_bloom := client_bloom p; schema_bloom := schema_bloom p |}.

Definition trim_out_client_sets (p : SegmentSummaryPayload) : option (SegmentSummaryPayload * nat) :=
  if payload_is_empty p || (payload_wire_size p <=? SUMMARY_PAYLOAD_MAX_BYTES) then Some (p, 0%nat)
  else
    let order := stable_sort (fun a b => snd b <=? snd a) (droppable 0 (aggregates p)) in
    '(l, n) ← drop_sets order (aggregates p) (payload_wire_size p) 0;
    Some (with_aggregates p l, n).

(** ** Encoding *)

Section summary_codec.
Context `{Bincode}.

Definition enc_client_set (cs : ClientSet) : bytes :=
  match cs with
  | Unknown => enc_uint 4 0
  | Exact v => enc_uint 4 1 ++ enc_vec (enc_uint 8) v
  | Bloom v => enc_uint 4 2 ++ enc_vec (enc_uint 8) v
  end.

Definition enc_segment_entry (e : SegmentAggregateEntry) : bytes :=
  enc_uint 16 (se_org_id e) ++ enc_uint 16 (se_aggregate_type_id e) ++ enc_uint 16 (se_aggregate_id e) ++
  enc_bool (is_deleted e) ++ enc_uint 8 (event_batch_count e) ++ enc_uint 8 (last_aggregate_version e) ++
  enc_uint 8 (min_aggregate_version e) ++ enc_uint 8 (last_server_timestamp e) ++
  enc_uint 8 (se_compressed_size e) ++ enc_uint 8 (se_uncompressed_size e) ++
  enc_uint 8 (newest_metablock_pos e) ++ enc_client_set (client_set e).

Definition enc_summary_payload (p : SegmentSummaryPayload) : bytes :=
  enc_vec (enc_uint 16) (orgs p) ++ enc_vec enc_aggregate_type_key (aggregate_types p) ++
  enc_vec enc_segment_entry (aggregates p) ++ enc_bool (complete p) ++
  enc_option (enc_vec (enc_uint 8)) (aggregate_bloom p) ++
  enc_option (enc_vec (enc_uint 8)) (client_bloom p) ++
  enc_option (enc_vec (enc_uint 8)) (schema_bloom p).

(** ** The size estimate is exact *)

Lemma length_enc_words v : Z.of_nat (length (enc_vec (enc_uint 8) v)) = 8 + 8 * Z.of_nat (length v).
Proof.
  unfold enc_vec. rewrite length_app, length_enc_uint, (length_enc_array _ 8) by apply length_enc_uint. lia.
Qed.

Lemma length_enc_client_set cs : Z.of_nat (length (enc_client_set cs)) = ClientSet_wire_size cs.
Proof.
  unfold ClientSet_wire_size. destruct cs; cbn [enc_client_set];
    rewrite ?length_app, ?Nat2Z.inj_add, ?length_enc_words, length_enc_uint; lia.
Qed.

Lemma length_enc_segment_entry e : Z.of_nat (length (enc_segment_entry e)) = entry_wire_size e.
Proof.
  unfold enc_segment_entry, enc_bool, entry_wire_size, ENTRY_WIRE_SIZE_FIXED.
  rewrite !length_app, !Nat2Z.inj_add, !length_enc_uint, length_enc_client_set. lia.
Qed.

Lemma length_enc_bloom b :
  Z.of_nat (length (enc_option (enc_vec (enc_uint 8)) b)) = 1 + bloom_wire_size b.
Proof.
  unfold bloom_wire_size. destruct b; cbn [enc_option];
    rewrite ?length_app, ?Nat2Z.inj_add, ?length_enc_words, length_enc_uint; lia.
Qed.

Lemma length_enc_entries l :
  Z.of_nat (length (enc_array enc_segment_entry l)) = sum_Z (entry_wire_size <$> l).
Proof.
  induction l as [|e l IH]; [done|]. cbn [enc_array fmap list_fmap].
  rewrite length_app, Nat2Z.inj_add, IH, length_enc_segment_entry. done.
Qed.

Lemma length_enc_summary p : Z.of_nat (length (enc_summary_payload p)) = payload_wire_size p.
Proof.
  unfold enc_summary_payload, payload_wire_size, WIRE_OVERHEAD, enc_vec at 1 2 3, enc_bool.
  rewrite !length_app, !Nat2Z.inj_add, !length_enc_bloom, !length_enc_uint, length_enc_entries.
  rewrite (length_enc_array _ 16), (length_enc_array _ 32);
    [|intros; unfold enc_aggregate_type_key; by rewrite length_app, !length_enc_uint|apply length_enc_uint].
  change (Z.of_nat KeyLayout.TYPE_WIRE_SIZE_TOTAL) with 32. lia.
Qed.
End summary_codec.

(** ** Dropping client sets *)

Definition saving (e : SegmentAggregateEntry) : Z :=
  ClientSet_wire_size (client_set e) - ClientSet_wire_size Unknown.

(** The entries after the client sets at the indices [ix] were dropped. *)
Definition drop_at (ix : list nat) (l : list SegmentAggregateEntry) : list SegmentAggregateEntry :=
  imap (fun i e => if decide (i ∈ ix) then with_client_set e Unknown else e) l.

Lemma saving_nonneg e : 0 <= saving e.
Proof. unfold saving, ClientSet_wire_size. destruct (client_set e); lia. Qed.

Lemma drop_at_nil l : drop_at [] l = l.
Proof.
  unfold drop_at. apply list_eq. intros i. rewrite list_lookup_imap.
  destruct (l !! i); cbn; [|done]. rewrite decide_False by apply not_elem_of_nil. done.
Qed.

Lemma drop_at_lookup ix l i e : l !! i = Some e ->
  drop_at ix l !! i = Some (if decide (i ∈ ix) then with_client_set e Unknown else e).
Proof. intros H. unfold drop_at. by rewrite list_lookup_imap, H. Qed.

Lemma drop_at_cons i ix l e : l !! i = Some e -> i ∉ ix ->
  drop_at (i :: ix) l = <[i := with_client_set e Unknown]> (drop_at ix l).
Proof.
  intros He Hi. apply list_eq. intros j. unfold drop_at.
  destruct (decide (j = i)) as [->|Hj].
  - rewrite list_lookup_insert_eq by (rewrite length_imap; by eapply lookup_lt_Some).
    rewrite list_lookup_imap, He. cbn. by rewrite decide_True by apply list_elem_of_here.
  - rewrite list_lookup_insert_ne by done. rewrite !list_lookup_imap. destruct (l !! j); cbn; [|done].
    f_equal. destruct (decide (j ∈ ix)); [rewrite decide_True|rewrite decide_False]; rewrite ?elem_of_cons; naive_solver.
Qed.

Lemma drop_at_insert i ix l e : l !! i = Some e -> i ∉ ix ->
  drop_at ix (<[i := with_client_set e Unknown]> l) = drop_at (i :: ix) l.
Proof.
  intros He Hi. rewrite (drop_at_cons i ix l e) by done. apply list_eq. intros j.
  unfold drop_at. destruct (decide (j = i)) as [->|Hj].
  - rewrite list_lookup_imap, !list_lookup_insert_eq by
      (rewrite ?length_imap; by eapply lookup_lt_Some). cbn. by rewrite decide_False.
  - rewrite list_lookup_imap, !list_lookup_insert_ne by done. by rewrite list_lookup_imap.
Qed.

(** The size after dropping: each set saves its own size once. *)
Definition saving_at (l : list SegmentAggregateEntry) (i : nat) : Z :=
  match l !! i with Some e => saving e | None => 0 end.

Lemma drop_at_size ix l : NoDup ix -> (forall i, i ∈ ix -> (i < length l)%nat) ->
  sum_Z (entry_wire_size <$> drop_at ix l) =
  sum_Z (entry_wire_size <$> l) - sum_Z (saving_at l <$> ix).
Proof.
  induction 1 as [|i ix Hi _ IH]; intros Hin; [rewrite drop_at_nil; cbn; lia|].
  destruct (lookup_lt_is_Some_2 l i) as [e He]; [apply Hin, list_elem_of_here|].
  rewrite (drop_at_cons i ix l e), list_fmap_insert by done.
  rewrite (sum_Z_insert _ i _ (entry_wire_size e)).
  2: { rewrite list_lookup_fmap, (drop_at_lookup _ _ _ e) by done. by rewrite decide_False. }
  rewrite IH by (intros; by apply Hin, list_elem_of_further).
  rewrite fmap_cons, sum_Z_cons. unfold saving_at at 2. rewrite He.
  unfold saving, entry_wire_size. cbn [with_client_set client_set]. lia.
Qed.

(** What the loop over a list of distinct indices does. *)
Lemma drop_sets_spec order l cur d :
  NoDup (fst <$> order) ->
  (forall i, i ∈ fst <$> order -> (i < length l)%nat) ->
  exists k, (k <= length order)%nat /\
    drop_sets order l cur d = Some (drop_at (take k (fst <$> order)) l, (d + k)%nat) /\
    (forall j, (0 < j < k)%nat -> SUMMARY_PAYLOAD_MAX_BYTES < cur - sum_Z (saving_at l <$> take j (fst <$> order))) /\
    ((0 < k)%nat /\ cur - sum_Z (saving_at l <$> take k (fst <$> order)) <= SUMMARY_PAYLOAD_MAX_BYTES \/
     k = length order).
Proof.
  revert l cur d. induction order as [|[i sz] order IH]; intros l cur d Hnd Hin.
  { exists 0%nat. cbn. rewrite drop_at_nil, Nat.add_0_r. split_and!; [lia|done|lia|by right]. }
  rewrite fmap_cons in *. apply NoDup_cons in Hnd as [Hi Hnd]. cbn [fst] in *.
  destruct (lookup_lt_is_Some_2 l i) as [e He]; [apply Hin, list_elem_of_here|].
  cbn [drop_sets]. rewrite He. cbn [mbind option_bind]. fold (saving e).
  assert (Hsv : saving_at l i = saving e) by (unfold saving_at; by rewrite He).
  assert (Hone : drop_at [i] l = <[i := with_client_set e Unknown]> l).
  { rewrite (drop_at_cons i [] l e), drop_at_nil; [done|done|apply not_elem_of_nil]. }
  destruct (Z.leb_spec (cur - saving e) SUMMARY_PAYLOAD_MAX_BYTES) as [Hle|Hgt].
  - exists 1%nat. change (take 1 (i :: (fst <$> order))) with [i].
    rewrite Hone. cbn [length].
    split_and!; [lia|f_equal; f_equal; lia|lia|]. left. cbn. rewrite Hsv. lia.
  - set (l' := <[i := with_client_set e Unknown]> l).
    assert (Hsame : forall js : list nat, (forall j, j ∈ js -> j <> i) -> saving_at l' <$> js = saving_at l <$> js).
    { intros js Hjs. apply list_fmap_ext. intros ? j Hj%list_elem_of_lookup_2. unfold saving_at, l'.
      by rewrite list_lookup_insert_ne by (apply not_eq_sym, Hjs, Hj). }
    assert (Hne : forall k j, j ∈ take k (fst <$> order) -> j <> i).
    { intros k j Hj ->. apply Hi. apply list_elem_of_lookup in Hj as [n Hn].
      apply lookup_take_Some in Hn as [Hn _]. by eapply list_elem_of_lookup_2. }
    destruct (IH l' (cur - saving e) (S d)) as (k & Hk & E & Hj & Hend); [done| |].
    { intros j Hj. unfold l'. rewrite length_insert. by apply Hin, list_elem_of_further. }
    exists (S k). cbn [length]. change (take (S k) (i :: (fst <$> order))) with (i :: take k (fst <$> order)).
    rewrite E. split_and!; [lia| | |].
    + unfold l'. rewrite drop_at_insert; [do 2 f_equal; lia|done|]. intros Hx. by apply (Hne k i Hx).
    + intros [|[|j]] ?; [lia| |].
      { change (take 1 (i :: (fst <$> order))) with [i].
        rewrite fmap_cons, sum_Z_cons, Hsv. change (sum_Z (saving_at l <$> [])) with 0. lia. }
      change (take (S (S j)) (i :: (fst <$> order))) with (i :: take (S j) (fst <$> order)).
      rewrite fmap_cons, sum_Z_cons, Hsv. specialize (Hj (S j) ltac:(lia)).
      rewrite Hsame in Hj by apply Hne. lia.
    + rewrite fmap_cons, sum_Z_cons, Hsv. destruct Hend as [[_ Hend]| ->]; [|by right].
      left. rewrite Hsame in Hend by apply Hne. lia.
Qed.

Lemma elem_of_droppable k l i sz :
  (i, sz) ∈ droppable k l <->
  exists e, (k <= i)%nat /\ l !! (i - k)%nat = Some e /\ client_set e <> Unknown /\
    sz = ClientSet_wire_size (client_set e).
Proof.
  revert k. induction l as [|e l IH]; intros k; cbn [droppable].
  { split; [by intros ?%not_elem_of_nil|]. intros (e & _ & He & _). by rewrite lookup_nil in He. }
  assert (Htail : (i, sz) ∈ droppable (S k) l <->
    exists e0, (k < i)%nat /\ (e :: l) !! (i - k)%nat = Some e0 /\ client_set e0 <> Unknown /\
      sz = ClientSet_wire_size (client_set e0)).
  { rewrite IH. split; intros (e0 & Hk & He & Hu & Hz); exists e0; (split_and!; [lia| |done|done]).
    - by replace (i - k)%nat with (S (i - S k)) by lia.
    - by replace (i - k)%nat with (S (i - S k)) in He by lia. }
  assert (Hhere : forall e0, (k <= i)%nat -> (e :: l) !! (i - k)%nat = Some e0 -> (k < i)%nat \/ i = k /\ e0 = e).
  { intros e0 Hk He. destruct (decide (i = k)) as [->|]; [right|left; lia].
    rewrite Nat.sub_diag in He. by injection He as ->. }
  destruct (is_unknown (client_set e)) eqn:Eu; rewrite ?elem_of_cons, Htail.
  - split; [intros (e0 & ? & ?); exists e0; split; [lia|done]|]. intros (e0 & Hk & He & Hu & Hz).
    destruct (Hhere e0 Hk He) as [?|[-> ->]]; [by exists e0|]. by destruct (client_set e).
  - split.
    + intros [[= -> ->]|(e0 & ? & ?)]; [|exists e0; split; [lia|done]].
      exists e. rewrite Nat.sub_diag. split_and!; [lia|done|by destruct (client_set e)|done].
    + intros (e0 & Hk & He & Hu & Hz). destruct (Hhere e0 Hk He) as [?|[-> ->]]; [right; by exists e0|].
      left. by rewrite Hz.
Qed.

Lemma NoDup_droppable k l : NoDup (fst <$> droppable k l).
Proof.
  revert k. induction l as [|e l IH]; intros k; cbn [droppable]; [constructor|].
  destruct (is_unknown _); [done|]. rewrite fmap_cons. constructor; [|done].
  intros ([i sz] & Hk & Hin)%list_elem_of_fmap. cbn in Hk.
  apply elem_of_droppable in Hin as (? & ? & _). lia.
Qed.

Definition drop_order (p : SegmentSummaryPayload) : list (nat * Z) :=
  stable_sort (fun a b => snd b <=? snd a) (droppable 0 (aggregates p)).

Lemma elem_of_drop_order p i :
  i ∈ fst <$> drop_order p <-> exists e, aggregates p !! i = Some e /\ client_set e <> Unknown.
Proof.
  unfold drop_order. rewrite list_elem_of_fmap. split.
  - intros ([j sz] & -> & Hin). rewrite stable_sort_perm in Hin.
    apply elem_of_droppable in Hin as (e & _ & He & Hu & _). rewrite Nat.sub_0_r in He. by exists e.
  - intros (e & He & Hu). exists (i, ClientSet_wire_size (client_set e)). split; [done|].
    rewrite stable_sort_perm. apply elem_of_droppable. exists e. rewrite Nat.sub_0_r. by split_and!; [lia|..].
Qed.

Lemma NoDup_drop_order p : NoDup (fst <$> drop_order p).
Proof. unfold drop_order. rewrite stable_sort_perm. apply NoDup_droppable. Qed.

Lemma drop_order_lt p i : i ∈ fst <$> drop_order p -> (i < length (aggregates p))%nat.
Proof. intros (e & He & _)%elem_of_drop_order. by eapply lookup_lt_Some. Qed.

(** The largest sets come first. *)
Lemma drop_order_savings p :
  saving_at (aggregates p) <$> (fst <$> drop_order p) = (fun x => snd x - ClientSet_wire_size Unknown) <$> drop_order p.
Proof.
  rewrite <- list_fmap_compose. apply list_fmap_ext. intros ? [i sz] Hx%list_elem_of_lookup_2.
  unfold drop_order in Hx. rewrite stable_sort_perm in Hx.
  apply elem_of_droppable in Hx as (e & _ & He & _ & ->). rewrite Nat.sub_0_r in He.
  cbn. unfold saving_at. by rewrite He.
Qed.

Lemma drop_order_sorted p :
  StronglySorted (fun a b => b <= a) (saving_at (aggregates p) <$> (fst <$> drop_order p)).
Proof.
  rewrite drop_order_savings. unfold drop_order.
  assert (Hs : StronglySorted (fun a b => (snd b <=? snd a) = true)
    (stable_sort (fun a b => snd b <=? snd a) (droppable 0 (aggregates p)))).
  { apply stable_sort_sorted; [intros a b; rewrite !Z.leb_le; lia|].
    intros a b c. rewrite !Z.leb_le. lia. }
  induction Hs as [|x l _ IH Hx]; cbn; constructor; [done|].
  apply Forall_fmap. eapply Forall_impl; [exact Hx|]. intros y Hy%Z.leb_le. cbn. lia.
Qed.

Lemma savings_nonneg l ix : Forall (Z.le 0) (saving_at l <$> ix).
Proof.
  apply Forall_fmap, Forall_true. intros i. cbn. unfold saving_at.
  destruct (l !! i); [apply saving_nonneg|done].
Qed.

Lemma with_aggregates_size p ix : NoDup ix -> (forall i, i ∈ ix -> (i < length (aggregates p))%nat) ->
  payload_wire_size (with_aggregates p (drop_at ix (aggregates p))) =
  payload_wire_size p - sum_Z (saving_at (aggregates p) <$> ix).
Proof.
  intros Hnd Hin. unfold payload_wire_size. cbn [with_aggregates aggregates orgs aggregate_types
    aggregate_bloom client_bloom schema_bloom]. rewrite drop_at_size by done. lia.
Qed.

Lemma take_elem {A} (x : A) k l : x ∈ take k l -> x ∈ l.
Proof. intros Hx. rewrite <- (take_drop k l). apply elem_of_app. by left. Qed.

Lemma take_NoDup {A} k (l : list A) : NoDup l -> NoDup (take k l).
Proof. rewrite <- (take_drop k l) at 1. by intros [? _]%NoDup_app. Qed.

(** Any other set of client sets that makes the payload fit is at least as
    large as the one the loop stops at. *)
Lemma drop_order_optimal p k ix :
  (forall j, (j < k)%nat -> SUMMARY_PAYLOAD_MAX_BYTES <
     payload_wire_size p - sum_Z (saving_at (aggregates p) <$> take j (fst <$> drop_order p))) ->
  NoDup ix -> (forall i, i ∈ ix -> i ∈ fst <$> drop_order p) ->
  payload_wire_size (with_aggregates p (drop_at ix (aggregates p))) <= SUMMARY_PAYLOAD_MAX_BYTES ->
  (k <= length ix)%nat.
Proof.
  intros Hj Hnd Hin Hfit. destruct (decide (k <= length ix)%nat) as [|Hlt]; [done|exfalso].
  specialize (Hj (length ix) ltac:(lia)).
  rewrite with_aggregates_size in Hfit by (try done; intros i Hi; by apply drop_order_lt, Hin).
  pose proof (sum_take_top _ (saving_at (aggregates p) <$> ix) (drop_order_sorted p) (savings_nonneg _ _)) as Htop.
  rewrite length_fmap, <- fmap_take in Htop.
  assert (ix ⊆+ fst <$> drop_order p) as Hsub by by apply NoDup_submseteq.
  specialize (Htop ltac:(by apply fmap_submseteq)). lia.
Qed.

(** ** Theorems *)

(** C36: Bringing a sealed segment's summary under its size cap never fails.
    It changes nothing but client sets, and those it changes become [Unknown],
    which answers every lookup with maybe. The number it returns is how many it
    dropped. Afterwards the payload fits the cap, or it was empty, or no
    client set is left to drop. No other selection of client sets that makes
    the payload fit drops fewer of them. *)
Theorem trim_fits_with_fewest_drops p :
  exists ix p', trim_out_client_sets p = Some (p', length ix) /\
    NoDup ix /\ p' = with_aggregates p (drop_at ix (aggregates p)) /\
    (forall i, i ∈ ix -> exists e, aggregates p !! i = Some e /\ client_set e <> Unknown) /\
    (payload_wire_size p' <= SUMMARY_PAYLOAD_MAX_BYTES \/ payload_is_empty p = true \/
     Forall (fun e => client_set e = Unknown) (aggregates p')) /\
    (forall ix2, NoDup ix2 ->
       (forall i, i ∈ ix2 -> exists e, aggregates p !! i = Some e /\ client_set e <> Unknown) ->
       payload_wire_size (with_aggregates p (drop_at ix2 (aggregates p))) <= SUMMARY_PAYLOAD_MAX_BYTES ->
       (length ix <= length ix2)%nat).
Proof.
  unfold trim_out_client_sets. destruct (payload_is_empty p) eqn:Ee; cbn [orb].
  { exists [], p. rewrite drop_at_nil. split_and!; try done; [constructor|by destruct p|by intros ? ?%not_elem_of_nil|by right; left|intros; cbn; lia]. }
  destruct (Z.leb_spec (payload_wire_size p) SUMMARY_PAYLOAD_MAX_BYTES) as [Hle|Hgt].
  { exists [], p. rewrite drop_at_nil. split_and!; try done; [constructor|by destruct p|by intros ? ?%not_elem_of_nil|by left|intros; cbn; lia]. }
  fold (drop_order p).
  destruct (drop_sets_spec (drop_order p) (aggregates p) (payload_wire_size p) 0) as (k & Hk & E & Hj & Hend);
    [apply NoDup_drop_order|apply drop_order_lt|]. rewrite E. cbn [mbind option_bind].
  set (ix := take k (fst <$> drop_order p)) in *.
  assert (Hlen : length ix = k) by (unfold ix; rewrite length_take, length_fmap; lia).
  assert (Hnd : NoDup ix) by (apply take_NoDup, NoDup_drop_order).
  assert (Hin : forall i, i ∈ ix -> i ∈ fst <$> drop_order p) by (intros i; apply take_elem).
  exists ix, (with_aggregates p (drop_at ix (aggregates p))). split_and!; try done.
  - by rewrite Hlen.
  - intros i Hi. by apply elem_of_drop_order, Hin.
  - destruct Hend as [[_ Hfit]|Hall]; [left|right; right].
    + rewrite with_aggregates_size by (try done; intros i Hi; by apply drop_order_lt, Hin). done.
    + apply Forall_lookup. intros i e'. cbn [with_aggregates aggregates]. unfold drop_at.
      rewrite list_lookup_imap. intros (e & He & ->)%fmap_Some_1.
      destruct (decide (i ∈ ix)) as [|Hn]; [done|]. destruct (client_set e) eqn:Eu; [done| |];
        destruct Hn; unfold ix; rewrite take_ge by (rewrite length_fmap; lia);
        apply elem_of_drop_order; exists e; by rewrite Eu.
  - intros ix2 Hnd2 Hin2 Hfit. rewrite Hlen. apply (drop_order_optimal p); try done.
    + intros [|j] ?; [change (sum_Z _) with 0; lia|]. apply Hj. lia.
    + intros i Hi. by apply elem_of_drop_order, Hin2.
Qed.

(** The size a summary payload reports for itself, which decides what is
    trimmed and how large the sidecar buffer is, is the exact length of its
    encoding. *)
Theorem summary_wire_size_exact `{Bincode} p :
  Z.of_nat (length (enc_summary_payload p)) = payload_wire_size p.
Proof. apply length_enc_summary. Qed.
