(* ===== verification/Lru.v ===== *)
(** * Least-recently-used caches

    The interface of the [lru] crate that the shard's in-memory state is
    written against: what the crate documents of each operation, as an equation
    on [iter], the entries in most-recently-used order.  The laws hold of the
    list implementation [lru_list]. *)

From S2P Require Import Prelude.

(** ** Association lists *)

Section assoc.
Context {K V : Type} `{EqDecision K}.

Definition assoc_get (k : K) (l : list (K * V)) : option V :=
  snd <$> head (filter (fun p => fst p = k) l).

Definition assoc_set (k : K) (v : V) (l : list (K * V)) : list (K * V) :=
  (fun p => if decide (fst p = k) then (k, v) else p) <$> l.

Definition assoc_remove (k : K) (l : list (K * V)) : list (K * V) :=
  filter (fun p => fst p <> k) l.
End assoc.

(** ** The interface *)

Class Lru (K V : Type) `{EqDecision K} := {
  lru : Type;
  (** [LruCache::iter]: most recently used first. *)
  iter : lru -> list (K * V);
  unbounded : lru;
  len : lru -> nat;
  (** [peek] and [peek_mut] leave the order alone; [assign] is a write through
      the reference [peek_mut] returned. *)
  peek : K -> lru -> option V;
  assign : K -> V -> lru -> lru;
  (** [get] moves a hit to the front. *)
  get : K -> lru -> option V * lru;
  (** [put] of an unbounded cache: replaces the value of the key, and puts the
      entry to the front. *)
  put : K -> V -> lru -> lru;
  pop_lru : lru -> option (K * V * lru);

  iter_unbounded : iter unbounded = [];
  len_iter c : len c = length (iter c);
  peek_iter k c : peek k c = assoc_get k (iter c);
  assign_iter k v c : iter (assign k v c) = assoc_set k v (iter c);
  get_iter k c :
    fst (get k c) = assoc_get k (iter c) /\
    iter (snd (get k c)) =
      match assoc_get k (iter c) with
      | Some v => (k, v) :: assoc_remove k (iter c)
      | None => iter c
      end;
  put_iter k v c : iter (put k v c) = (k, v) :: assoc_remove k (iter c);
  pop_lru_iter c :
    match pop_lru c with
    | Some (k, v, c') => iter c = iter c' ++ [(k, v)]
    | None => iter c = []
    end;
}.

(** ** Lemmas *)

Section assoc_lemmas.
Context {K V : Type} `{EqDecision K}.
Implicit Types l : list (K * V).

Lemma assoc_get_cons k p l :
  assoc_get k (p :: l) = if decide (fst p = k) then Some (snd p) else assoc_get k l.
Proof. unfold assoc_get. rewrite filter_cons. by case_decide. Qed.

Lemma assoc_get_elem k v l : assoc_get k l = Some v -> (k, v) ∈ l.
Proof.
  induction l as [|[k' v'] l IH]; [done|]. rewrite assoc_get_cons. cbn.
  case_decide as E; [intros [= ->]; subst; apply list_elem_of_here|].
  intros. by apply list_elem_of_further, IH.
Qed.

Lemma assoc_get_Some k v l : NoDup (fst <$> l) -> assoc_get k l = Some v <-> (k, v) ∈ l.
Proof.
  intros Hnd. split; [apply assoc_get_elem|].
  induction l as [|[k' v'] l IH]; [by intros ?%not_elem_of_nil|].
  rewrite fmap_cons, NoDup_cons in Hnd. destruct Hnd as [Hn Hnd].
  rewrite assoc_get_cons, elem_of_cons. cbn. intros [[= -> ->]|Hin].
  - by rewrite decide_True.
  - rewrite decide_False; [by apply IH|]. intros ->. apply Hn, list_elem_of_fmap. by exists (k, v).
Qed.

Lemma assoc_get_perm k l l' : NoDup (fst <$> l) -> l ≡ₚ l' -> assoc_get k l = assoc_get k l'.
Proof.
  intros Hnd Hp. apply option_eq. intros v.
  rewrite !assoc_get_Some by (rewrite <- ?Hp; done). by rewrite Hp.
Qed.

Lemma assoc_set_keys k v l : fst <$> assoc_set k v l = fst <$> l.
Proof.
  unfold assoc_set. rewrite <- list_fmap_compose. apply list_fmap_ext. intros ? [k' v'] _. cbn.
  by case_decide.
Qed.

Lemma assoc_get_set k v l k' :
  assoc_get k' (assoc_set k v l) =
  if decide (k' = k) then (fun _ => v) <$> assoc_get k l else assoc_get k' l.
Proof.
  induction l as [|[k0 v0] l IH]; [by case_decide|]. unfold assoc_set in *. rewrite fmap_cons, !assoc_get_cons.
  rewrite IH. cbn. repeat case_decide; subst; cbn in *; congruence.
Qed.

Lemma assoc_remove_keys k l : NoDup (fst <$> l) ->
  NoDup (fst <$> assoc_remove k l) /\ k ∉ fst <$> assoc_remove k l.
Proof.
  intros Hnd. unfold assoc_remove. split.
  - eapply sublist_NoDup; [exact Hnd|apply fmap_sublist, sublist_filter].
  - intros ([k' v'] & -> & [Hk _]%list_elem_of_filter)%list_elem_of_fmap. done.
Qed.

Lemma assoc_remove_id k l : assoc_get k l = None -> assoc_remove k l = l.
Proof.
  induction l as [|p l IH]; [done|]. unfold assoc_remove in *. rewrite assoc_get_cons, filter_cons.
  intros Hg. repeat case_decide; try done. by rewrite IH.
Qed.

Lemma assoc_get_remove k l k' :
  assoc_get k' (assoc_remove k l) = if decide (k' = k) then None else assoc_get k' l.
Proof.
  unfold assoc_remove. induction l as [|p l IH]; [by case_decide|].
  rewrite filter_cons, assoc_get_cons. repeat case_decide; rewrite ?assoc_get_cons;
    repeat case_decide; subst; try done; try congruence.
Qed.

Lemma assoc_promote_perm k v l : NoDup (fst <$> l) -> assoc_get k l = Some v ->
  (k, v) :: assoc_remove k l ≡ₚ l.
Proof.
  induction l as [|[k' v'] l IH]; [done|]. rewrite fmap_cons, NoDup_cons, assoc_get_cons. cbn [fst snd].
  intros [Hn Hnd]. unfold assoc_remove in *. rewrite filter_cons. cbn [fst]. case_decide as E.
  - intros [= ->]. subst. rewrite decide_False by naive_solver. apply Permutation_skip.
    change (assoc_remove k l ≡ₚ l). rewrite assoc_remove_id; [done|].
    destruct (assoc_get k l) as [w|] eqn:Ew; [|done]. apply assoc_get_elem in Ew.
    destruct Hn. apply list_elem_of_fmap. by exists (k, w).
  - intros Hg. rewrite decide_True by done. rewrite perm_swap. by apply Permutation_skip, IH.
Qed.

(** Sums over the values, when one changes. *)
Lemma assoc_set_sum (f : V -> Z) k v old l : NoDup (fst <$> l) -> assoc_get k l = Some old ->
  sum_Z (f ∘ snd <$> assoc_set k v l) = sum_Z (f ∘ snd <$> l) + f v - f old.
Proof.
  induction l as [|[k' v'] l IH]; [done|]. rewrite fmap_cons, NoDup_cons, assoc_get_cons. cbn [fst snd].
  intros [Hn Hnd]. unfold assoc_set in *. rewrite !fmap_cons, !sum_Z_cons. cbn [compose fst snd].
  case_decide as E.
  - intros [= ->]. subst. cbn [snd]. enough ((fun p => if decide (p.1 = k) then (k, v) else p) <$> l = l) as -> by lia.
    rewrite <- (list_fmap_id l) at 2. apply list_fmap_ext. intros i [k1 v1] Hi. cbn. case_decide; [|done].
    subst. destruct Hn. apply list_elem_of_fmap. exists (k, v1). split; [done|by eapply list_elem_of_lookup_2].
  - intros Hg. cbn [snd]. rewrite (IH Hnd Hg). lia.
Qed.
End assoc_lemmas.

(** ** The list implementation *)

Section lru_list.
Context {K V : Type} `{EqDecision K}.

Definition list_get (k : K) (l : list (K * V)) : option V * list (K * V) :=
  match assoc_get k l with
  | Some v => (Some v, (k, v) :: assoc_remove k l)
  | None => (None, l)
  end.

Definition list_pop (l : list (K * V)) : option (K * V * list (K * V)) :=
  match reverse l with
  | [] => None
  | p :: r => Some (p, reverse r)
  end.

Definition lru_list : Lru K V.
Proof.
  refine {| lru := list (K * V); iter l := l; unbounded := []; len := length; peek := assoc_get;
            assign := assoc_set; get := list_get; put k v l := (k, v) :: assoc_remove k l;
            pop_lru := list_pop |}; try done.
  - intros k l. unfold list_get. by destruct (assoc_get k l).
  - intros l. unfold list_pop. destruct (reverse l) as [|[k v] r] eqn:E.
    + by rewrite <- (reverse_involutive l), E.
    + rewrite <- (reverse_involutive l), E. by rewrite reverse_cons.
Defined.
End lru_list.
