(* ===== verification/NegativeLookup.v ===== *)
(** * The negative-lookup client blooms

    [celeriant_memcache/src/negative_lookup.rs] and the negative-lookup
    operations of [celeriant_memcache/src/shard_mem_cache.rs]: for each
    aggregate, a filter of the clients that ever wrote to it, which lets a
    client's first write skip the scan of the aggregate's history.  A hash set
    iterates in no particular order; [elements] fixes one, and the filters built
    do not depend on it ([Sbbf.insert_all_perm]).  The byte and generation
    counters are unbounded: a [u64] of them is not reached.  [None] is a panic
    of the filter's indexing. *)

From S2P Require Import Prelude Sbbf WalTypes Lru.

(** ** One filter *)

Definition NEGATIVE_BLOOM_MAX_BYTES : Z := 8 * 1024.
Definition NEGATIVE_BLOOM_BITS_PER_KEY : Z := 10.
Definition SPILL_THRESHOLD : Z := NEGATIVE_BLOOM_MAX_BYTES * 8 / NEGATIVE_BLOOM_BITS_PER_KEY.
Definition AUX_MAX_TOTAL_BYTES : Z := 64 * 1024.
Definition ENTRY_BASE_BYTES : Z := 160.
Definition HASH_SET_BYTES_PER_ENTRY : Z := 16.

Inductive Members :=
  | Collecting (set : gset Z)
  | MBloom (words : list Z).

Record NegativeClientBloom := {
  members : Members;
  building : bool;
  builder_active : bool;
  build_generation : Z;
  aux : list (list Z);
}.

Definition new_building : NegativeClientBloom :=
  {| members := Collecting ∅; building := true; builder_active := false;
     build_generation := 0; aux := [] |}.

Definition is_complete (e : NegativeClientBloom) : bool := negb (building e).

Definition set_builder (e : NegativeClientBloom) (generation : Z) : NegativeClientBloom :=
  {| members := members e; building := building e; builder_active := true;
     build_generation := generation; aux := aux e |}.

Definition reset_aux (e : NegativeClientBloom) : NegativeClientBloom :=
  {| members := members e; building := building e; builder_active := builder_active e;
     build_generation := build_generation e; aux := [] |}.

Definition with_members (e : NegativeClientBloom) (m : Members) : NegativeClientBloom :=
  {| members := m; building := building e; builder_active := builder_active e;
     build_generation := build_generation e; aux := aux e |}.

Definition insert_hash (e : NegativeClientBloom) (hash : Z) : option NegativeClientBloom :=
  match members e with
  | Collecting set =>
      let set := {[hash]} ∪ set in
      if SPILL_THRESHOLD <? Z.of_nat (size set) then
        words ← insert_all (zero_words (NEGATIVE_BLOOM_MAX_BYTES / 8)) (elements set);
        Some (with_members e (MBloom words))
      else Some (with_members e (Collecting set))
  | MBloom words => words ← insert words hash; Some (with_members e (MBloom words))
  end.

Definition words_bytes (words : list Z) : Z := Z.of_nat (length words) * 8.

Definition try_union_bloom_words (e : NegativeClientBloom) (words : list Z) : NegativeClientBloom * bool :=
  if bool_decide (words = []) || negb (Nat.eqb (length words mod 4) 0) then (e, false)
  else
    let aux_bytes := sum_Z (words_bytes <$> aux e) in
    if AUX_MAX_TOTAL_BYTES <? aux_bytes + words_bytes words then (e, false)
    else ({| members := members e; building := building e; builder_active := builder_active e;
             build_generation := build_generation e; aux := aux e ++ [words] |}, true).

Definition finish_build (e : NegativeClientBloom) (complete : bool) : option NegativeClientBloom :=
  let e := {| members := members e; building := building e; builder_active := false;
              build_generation := build_generation e; aux := aux e |} in
  if negb complete then Some e
  else
    m ← match members e with
        | Collecting set =>
            let bits := Z.max (Z.of_nat (size set)) 1 * NEGATIVE_BLOOM_BITS_PER_KEY * 2 in
            let bytes := Z.min (next_multiple_of (div_ceil bits 8) SBBF_BLOCK_BYTES) NEGATIVE_BLOOM_MAX_BYTES in
            words ← insert_all (zero_words (bytes / 8)) (elements set);
            Some (MBloom words)
        | MBloom words => Some (MBloom words)
        end;
    Some {| members := m; building := false; builder_active := false;
            build_generation := build_generation e; aux := aux e |}.

(** [self.aux.iter().any(|w| sbbf::contains(w, hash))]. *)
Fixpoint any_contains (aux : list (list Z)) (hash : Z) : option bool :=
  match aux with
  | [] => Some false
  | w :: aux => b ← contains w hash; if (b : bool) then Some true else any_contains aux hash
  end.

Definition entry_may_contain_hash (e : NegativeClientBloom) (hash : Z) : option bool :=
  if building e then Some true
  else
    in_main ← match members e with
              | Collecting set => Some (bool_decide (hash ∈ set))
              | MBloom words => contains words hash
              end;
    if (in_main : bool) then Some true else any_contains (aux e) hash.

Definition byte_cost (e : NegativeClientBloom) : Z :=
  ENTRY_BASE_BYTES +
  match members e with
  | Collecting set => Z.of_nat (size set) * HASH_SET_BYTES_PER_ENTRY
  | MBloom words => words_bytes words
  end +
  sum_Z (words_bytes <$> aux e).

(** ** The cache of filters *)

Inductive NegativeLookupAnswer := NoEntry | Building | DefinitelyAbsent | MaybePresent.

Section cache.
Context {L : Lru AggregateKey NegativeClientBloom}.

(** The negative-lookup fields of [ShardMemCache]. *)
Record NegativeCache := {
  negative_lookup : lru;
  negative_lookup_bytes : Z;
  negative_lookup_cache_bytes : Z;
  negative_lookup_build_generation : Z;
}.

Definition negative_cache_new (cache_bytes : Z) : NegativeCache :=
  {| negative_lookup := unbounded; negative_lookup_bytes := 0;
     negative_lookup_cache_bytes := cache_bytes; negative_lookup_build_generation := 0 |}.

Definition with_lookup (c : NegativeCache) (l : lru) (bytes : Z) : NegativeCache :=
  {| negative_lookup := l; negative_lookup_bytes := bytes;
     negative_lookup_cache_bytes := negative_lookup_cache_bytes c;
     negative_lookup_build_generation := negative_lookup_build_generation c |}.

Fixpoint evict_loop (fuel rotations : nat) (target_bytes : Z) (c : NegativeCache) : NegativeCache :=
  match fuel with
  | O => c
  | S fuel =>
      if negative_lookup_bytes c <=? target_bytes then c
      else match pop_lru (negative_lookup c) with
           | None => c
           | Some (key, entry, l) =>
               if builder_active entry then
                 let c := with_lookup c (put key entry l) (negative_lookup_bytes c) in
                 match rotations with
                 | O => c
                 | S rotations => evict_loop fuel rotations target_bytes c
                 end
               else evict_loop fuel rotations target_bytes
                      (with_lookup c l (negative_lookup_bytes c - byte_cost entry))
           end
  end.

(** Each round removes an entry or uses up a rotation. *)
Definition negative_lookup_evict_until (c : NegativeCache) (target_bytes : Z) : NegativeCache :=
  let n := len (negative_lookup c) in
  evict_loop (S (n + n)) n target_bytes c.

Definition negative_lookup_evict_to_budget (c : NegativeCache) : NegativeCache :=
  negative_lookup_evict_until c (negative_lookup_cache_bytes c).

(** A mutation through [peek_mut], with the byte counter kept in step. *)
Definition replace_entry (c : NegativeCache) (key : AggregateKey) (old new : NegativeClientBloom) : NegativeCache :=
  with_lookup c (assign key new (negative_lookup c))
    (negative_lookup_bytes c + byte_cost new - byte_cost old).

Definition negative_lookup_insert (c : NegativeCache) (key : AggregateKey) (client_hash : Z)
    : option NegativeCache :=
  match peek key (negative_lookup c) with
  | None => Some c
  | Some entry =>
      new ← insert_hash entry client_hash;
      Some (negative_lookup_evict_to_budget (replace_entry c key entry new))
  end.

Definition metablock_client (m : Metablock) : option (AggregateKey * Z) :=
  match wal_metablock_type m with
  | EventBatchMetadata eb => Some (eb_aggregate_key eb, eb_client_id eb)
  | SoftDelete sd => Some (sd_aggregate_key sd, sd_client_id sd)
  | SoftTrim st => Some (st_aggregate_key st, st_client_id st)
  | SchemaRegistration _ => None
  end.

Definition negative_lookup_note_commit `{Xxh3} (c : NegativeCache) (m : Metablock) : option NegativeCache :=
  match metablock_client m with
  | None => Some c
  | Some (key, client_id) =>
      match peek key (negative_lookup c) with
      | None => Some c
      | Some _ => negative_lookup_insert c key (client_id_bloom_hash client_id)
      end
  end.

Definition negative_lookup_check (c : NegativeCache) (key : AggregateKey) (client_hash : Z)
    : option (NegativeCache * NegativeLookupAnswer) :=
  let '(found, l) := get key (negative_lookup c) in
  let c := with_lookup c l (negative_lookup_bytes c) in
  match found with
  | None => Some (c, NoEntry)
  | Some entry =>
      if negb (is_complete entry) then Some (c, Building)
      else
        b ← entry_may_contain_hash entry client_hash;
        Some (c, if (b : bool) then MaybePresent else DefinitelyAbsent)
  end.

Definition bump_generation (c : NegativeCache) : NegativeCache :=
  {| negative_lookup := negative_lookup c; negative_lookup_bytes := negative_lookup_bytes c;
     negative_lookup_cache_bytes := negative_lookup_cache_bytes c;
     negative_lookup_build_generation := negative_lookup_build_generation c + 1 |}.

Definition negative_lookup_try_begin_build (c : NegativeCache) (key : AggregateKey)
    : NegativeCache * option Z :=
  match peek key (negative_lookup c) with
  | Some entry =>
      if is_complete entry || builder_active entry then (c, None)
      else
        let c := bump_generation c in
        let entry := set_builder entry (negative_lookup_build_generation c) in
        (replace_entry c key entry (reset_aux entry), Some (negative_lookup_build_generation c))
  | None =>
      let c := bump_generation c in
      let entry := set_builder new_building (negative_lookup_build_generation c) in
      let cost := byte_cost entry in
      let c := negative_lookup_evict_until c (saturating_sub (negative_lookup_cache_bytes c) cost) in
      if negative_lookup_cache_bytes c <? negative_lookup_bytes c + cost then (c, None)
      else (with_lookup c (put key entry (negative_lookup c)) (negative_lookup_bytes c + cost),
            Some (negative_lookup_build_generation c))
  end.

Definition negative_lookup_union_exact (c : NegativeCache) (key : AggregateKey) (hashes : list Z)
    : option NegativeCache :=
  match peek key (negative_lookup c) with
  | None => Some c
  | Some entry =>
      new ← foldM insert_hash hashes entry;
      Some (negative_lookup_evict_to_budget (replace_entry c key entry new))
  end.

Definition negative_lookup_union_bloom (c : NegativeCache) (key : AggregateKey) (words : list Z)
    : NegativeCache * bool :=
  match peek key (negative_lookup c) with
  | None => (c, false)
  | Some entry =>
      let '(new, ok) := try_union_bloom_words entry words in
      (negative_lookup_evict_to_budget (replace_entry c key entry new), ok)
  end.

Definition negative_lookup_finish_build (c : NegativeCache) (key : AggregateKey) (generation : Z)
    (complete : bool) : option (NegativeCache * bool) :=
  match peek key (negative_lookup c) with
  | None => Some (c, false)
  | Some entry =>
      if negb (build_generation entry =? generation) then Some (c, false)
      else
        new ← finish_build entry complete;
        Some (negative_lookup_evict_to_budget (replace_entry c key entry new), is_complete new)
  end.

Definition negative_lookup_seed (c : NegativeCache) (key : AggregateKey) (hashes : gset Z)
    (complete : bool) : option (NegativeCache * bool) :=
  match peek key (negative_lookup c) with
  | Some entry =>
      new ← foldM insert_hash (elements hashes) entry;
      Some (negative_lookup_evict_to_budget (replace_entry c key entry new), false)
  | None =>
      entry ← foldM insert_hash (elements hashes) new_building;
      entry ← (if complete then finish_build entry true else Some entry);
      if negative_lookup_cache_bytes c <? negative_lookup_bytes c + byte_cost entry then Some (c, false)
      else Some (with_lookup c (put key entry (negative_lookup c))
                   (negative_lookup_bytes c + byte_cost entry), complete)
  end.
End cache.

(** ** Lemmas: one filter *)

Definition members_ok (m : Members) : Prop :=
  match m with Collecting set => u64_set set | MBloom words => bloom_ok words end.

Definition entry_ok (e : NegativeClientBloom) : Prop := members_ok (members e) /\ Forall bloom_ok (aux e).

Definition member_of (m : Members) (h : Z) : Prop :=
  match m with Collecting set => h ∈ set | MBloom words => contains words h = Some true end.

(** A hash is in the filter: one of its parts answers yes. *)
Definition holds (e : NegativeClientBloom) (h : Z) : Prop :=
  member_of (members e) h \/ Exists (fun w => contains w h = Some true) (aux e).

(** The two entries are at the same point of the build protocol. *)
Definition same_build (e e' : NegativeClientBloom) : Prop :=
  building e' = building e /\ builder_active e' = builder_active e /\ build_generation e' = build_generation e.

Lemma max_words_ok : bloom_ok (zero_words (NEGATIVE_BLOOM_MAX_BYTES / 8)).
Proof. by apply (zero_words_ok 256). Qed.

Lemma insert_hash_spec e h : entry_ok e -> u64 h ->
  exists e', insert_hash e h = Some e' /\ entry_ok e' /\ same_build e e' /\ holds e' h /\
    forall x, holds e x -> holds e' x.
Proof.
  intros [Hm Ha] Hh. unfold insert_hash, holds, same_build, entry_ok, members_ok in *.
  destruct (members e) as [set|words] eqn:Em.
  - assert (Hu : u64_set ({[h]} ∪ set)) by auto with cel.
    destruct (Z.ltb_spec SPILL_THRESHOLD (Z.of_nat (size ({[h]} ∪ set)))).
    + destruct (insert_all_spec _ (elements ({[h]} ∪ set)) max_words_ok) as (w & -> & Hw & _ & Hin);
        [auto with cel|]. rewrite Forall_forall in Hin.
      eexists. split; [done|]. cbn. split_and!; try done.
      * left. apply Hin, elem_of_elements. set_solver.
      * intros x [Hx|Hx]; [|by right]. left. apply Hin, elem_of_elements. set_solver.
    + eexists. split; [done|]. cbn. split_and!; try done; [set_solver|]. intros x [Hx|Hx]; [|by right]. set_solver.
  - destruct (insert_spec words h Hm Hh) as (w & E & Hc & Hin). rewrite E. cbn.
    eexists. split; [done|]. cbn. split_and!; try done.
    + by eapply bloom_ok_length; [apply covers_length|].
    + by left.
    + intros x [Hx|Hx]; [|by right]. left. by eapply contains_covers.
Qed.

#[global] Instance same_build_preorder : PreOrder same_build.
Proof. split; [done|]. intros a b c (? & ? & ?) (? & ? & ?). split_and!; congruence. Qed.

Lemma insert_hashes_spec e hs : entry_ok e -> all_u64 hs ->
  exists e', foldM insert_hash hs e = Some e' /\ entry_ok e' /\ same_build e e' /\
    (forall h, h ∈ hs -> holds e' h) /\ forall x, holds e x -> holds e' x.
Proof.
  intros He Hu. unfold all_u64 in Hu. rewrite Forall_forall in Hu.
  apply (foldM_total insert_hash (fun hs e' => entry_ok e' /\ same_build e e' /\
    (forall h, h ∈ hs -> holds e' h) /\ forall x, holds e x -> holds e' x)).
  { split_and!; try done. by intros ? ?%not_elem_of_nil. }
  intros d a c Ha (Hc & Hs & Hd & Hx).
  destruct (insert_hash_spec c a Hc) as (c' & -> & ? & ? & ? & Hmono); [by apply Hu|].
  exists c'. split_and!; try done; [by etrans| |eauto].
  intros h [?| ->%list_elem_of_singleton]%elem_of_app; eauto.
Qed.

Lemma finish_words_ok n : 0 <= n -> bloom_ok (zero_words
  (Z.min (next_multiple_of (div_ceil (Z.max n 1 * NEGATIVE_BLOOM_BITS_PER_KEY * 2) 8) SBBF_BLOCK_BYTES)
     NEGATIVE_BLOOM_MAX_BYTES / 8)).
Proof.
  intros. unfold next_multiple_of, div_ceil, NEGATIVE_BLOOM_BITS_PER_KEY, SBBF_BLOCK_BYTES, NEGATIVE_BLOOM_MAX_BYTES.
  set (q := ((Z.max n 1 * 10 * 2 + 8 - 1) / 8 + 32 - 1) / 32).
  assert (Hq : 1 <= q).
  { apply Z.div_le_lower_bound; [lia|]. enough (1 <= (Z.max n 1 * 10 * 2 + 8 - 1) / 8) by lia.
    apply Z.div_le_lower_bound; lia. }
  replace (Z.min (q * 32) (8 * 1024) / 8) with (Z.min q 256 * 4).
  { apply zero_words_ok. lia. }
  replace (Z.min (q * 32) (8 * 1024)) with (Z.min q 256 * 4 * 8) by lia. by rewrite Z.div_mul.
Qed.

Lemma finish_build_spec e complete : entry_ok e ->
  exists e', finish_build e complete = Some e' /\ entry_ok e' /\
    builder_active e' = false /\ build_generation e' = build_generation e /\
    building e' = (if complete then false else building e) /\ forall x, holds e x -> holds e' x.
Proof.
  intros [Hm Ha]. unfold finish_build. destruct complete; cbn [negb]; [|eexists; split_and!; done].
  unfold entry_ok, holds. cbn [members]. destruct (members e) as [set|words].
  - destruct (insert_all_spec _ (elements set) (finish_words_ok (Z.of_nat (size set)) ltac:(lia)))
      as (w & -> & Hw & _ & Hin); [auto with cel|]. rewrite Forall_forall in Hin.
    eexists. split; [done|]. cbn. split_and!; try done. intros x [Hx|Hx]; [left|by right].
    by apply Hin, elem_of_elements.
  - cbn. eexists. split_and!; done.
Qed.

Lemma any_contains_holds l h : Forall bloom_ok l -> u64 h ->
  exists b, any_contains l h = Some b /\ (Exists (fun w => contains w h = Some true) l -> b = true).
Proof.
  intros Hl Hh. induction Hl as [|w l Hw _ (b & IH & Hb)]; cbn.
  - exists false. split; [done|]. by intros ?%Exists_nil.
  - destruct (contains_total w h Hw Hh) as [b0 E]. rewrite E. cbn. destruct b0; [by exists true|].
    exists b. split; [done|]. rewrite Exists_cons. intros [E'|?]; [congruence|auto].
Qed.

Lemma entry_may_contain_spec e h : entry_ok e -> u64 h ->
  exists b, entry_may_contain_hash e h = Some b /\ (building e = false -> holds e h -> b = true).
Proof.
  intros [Hm Ha] Hh. unfold entry_may_contain_hash, holds. destruct (building e); [by exists true|].
  destruct (any_contains_holds _ _ Ha Hh) as (b & -> & Hb). destruct (members e) as [set|words].
  - cbn. case_bool_decide; [by exists true|]. exists b. split; [done|]. intros _ [?|?]; [done|auto].
  - destruct (contains_total words h Hm Hh) as [b0 E]. cbn. rewrite E. cbn.
    destruct b0; [by exists true|]. exists b. split; [done|]. intros _ [?|?]; [congruence|auto].
Qed.

Lemma union_words_spec e words e' ok : entry_ok e -> try_union_bloom_words e words = (e', ok) ->
  entry_ok e' /\ same_build e e' /\ (forall x, holds e x -> holds e' x) /\
  (ok = true -> forall x, contains words x = Some true -> holds e' x).
Proof.
  intros [Hm Ha]. unfold try_union_bloom_words.
  destruct (bool_decide (words = []) || negb (Nat.eqb (length words mod 4) 0)) eqn:Eg; [by intros [= <- <-]|].
  apply orb_false_iff in Eg as [Hnil Hmod%negb_false_iff%Nat.eqb_eq]. apply bool_decide_eq_false in Hnil.
  destruct (Z.ltb_spec AUX_MAX_TOTAL_BYTES (sum_Z (words_bytes <$> aux e) + words_bytes words)) as [|Hle]; [by intros [= <- <-]|].
  intros [= <- <-]. unfold entry_ok, holds. cbn. rewrite Forall_app, Forall_singleton. split_and!; try done.
  - assert (0 <= sum_Z (words_bytes <$> aux e)).
    { apply sum_Z_nonneg, Forall_fmap, Forall_true. intros w. unfold words_bytes. cbn. lia. }
    unfold words_bytes at 2, AUX_MAX_TOTAL_BYTES in Hle. exists (length words / 4)%nat.
    pose proof (Nat.div_mod_eq (length words) 4). destruct words; [done|]. cbn [length] in *. lia.
  - intros x. rewrite Exists_app. tauto.
  - intros _ x Hx. right. apply Exists_app. right. by constructor.
Qed.

(** ** Lemmas: eviction *)

Section eviction.
Context {L : Lru AggregateKey NegativeClientBloom}.

Definition pinned (p : AggregateKey * NegativeClientBloom) : Prop := builder_active (snd p) = true.

#[global] Instance pinned_dec p : Decision (pinned p).
Proof. unfold pinned. apply _. Defined.

Definition evictable (l : list (AggregateKey * NegativeClientBloom)) : list (AggregateKey * NegativeClientBloom) :=
  filter (fun p => ~ pinned p) l.
Definition pinned_entries (l : list (AggregateKey * NegativeClientBloom)) : list (AggregateKey * NegativeClientBloom) :=
  filter pinned l.

Definition cost_of (l : list (AggregateKey * NegativeClientBloom)) : Z := sum_Z (byte_cost ∘ snd <$> l).

Definition entries (c : NegativeCache) : list (AggregateKey * NegativeClientBloom) := iter (negative_lookup c).

(** What eviction to a target does: the evicted entries are the least recently
    used ones that are not pinned, no more of them than needed, and only pinned
    entries are left when the target is not reached. *)
Definition evicts (target : Z) (c c' : NegativeCache) : Prop :=
  negative_lookup_cache_bytes c' = negative_lookup_cache_bytes c /\
  negative_lookup_build_generation c' = negative_lookup_build_generation c /\
  pinned_entries (entries c') ≡ₚ pinned_entries (entries c) /\
  (negative_lookup_bytes c' <= target \/ evictable (entries c') = []) /\
  exists evicted, evictable (entries c) = evictable (entries c') ++ evicted /\
    negative_lookup_bytes c' = negative_lookup_bytes c - cost_of evicted /\
    (forall p r, evicted = p :: r -> target < negative_lookup_bytes c' + byte_cost (snd p)).

Lemma evicts_done target c :
  negative_lookup_bytes c <= target \/ evictable (entries c) = [] -> evicts target c c.
Proof.
  intros Hd. split_and!; try done. exists []. rewrite app_nil_r. split_and!; [done|cbn; lia|done].
Qed.

Lemma evict_pinned target c c1 c' P l k e :
  entries c = P ++ l ++ [(k, e)] -> pinned (k, e) -> entries c1 = ((k, e) :: P) ++ l ->
  negative_lookup_bytes c1 = negative_lookup_bytes c ->
  negative_lookup_cache_bytes c1 = negative_lookup_cache_bytes c ->
  negative_lookup_build_generation c1 = negative_lookup_build_generation c ->
  evicts target c1 c' -> evicts target c c'.
Proof.
  intros Ec Hp Ec1 Eb Ecb Eg (H1 & H2 & H3 & H4 & ev & Hev & Hb & Hlast).
  assert (Hsame : evictable (entries c) = evictable (entries c1)).
  { rewrite Ec, Ec1. unfold evictable. cbn [app]. rewrite filter_cons, decide_False by tauto.
    rewrite !filter_app, filter_cons, decide_False by tauto. by rewrite filter_nil, app_nil_r. }
  split_and!; [congruence|congruence| |done|].
  - rewrite H3, Ec, Ec1. unfold pinned_entries. cbn [app]. rewrite app_assoc, filter_cons, decide_True by done.
    rewrite (filter_app _ (P ++ l)), filter_cons, decide_True by done. rewrite filter_nil. apply Permutation_cons_append.
  - exists ev. split_and!; [congruence|congruence|done].
Qed.

Lemma evict_unpinned target c c1 c' l k e :
  entries c = l ++ [(k, e)] -> ~ pinned (k, e) -> entries c1 = l ->
  target < negative_lookup_bytes c ->
  negative_lookup_bytes c1 = negative_lookup_bytes c - byte_cost e ->
  negative_lookup_cache_bytes c1 = negative_lookup_cache_bytes c ->
  negative_lookup_build_generation c1 = negative_lookup_build_generation c ->
  evicts target c1 c' -> evicts target c c'.
Proof.
  intros Ec Hp Ec1 Ht Eb Ecb Eg (H1 & H2 & H3 & H4 & ev & Hev & Hb & Hlast).
  split_and!; [congruence|congruence| |done|].
  - rewrite H3, Ec, Ec1. unfold pinned_entries. rewrite filter_app, (filter_cons _ (k, e)), decide_False by done.
    by rewrite filter_nil, app_nil_r.
  - exists (ev ++ [(k, e)]). unfold cost_of in *. rewrite fmap_app, sum_Z_app. change (sum_Z (_ <$> [(k, e)])) with (byte_cost e + 0).
    split_and!.
    + rewrite Ec. unfold evictable in *. rewrite filter_app, (filter_cons _ (k, e)), decide_True by done.
      by rewrite filter_nil, <- Ec1, Hev, app_assoc.
    + lia.
    + intros p r. destruct ev as [|q ev]; cbn; [|intros [= -> _]; by eapply Hlast].
      intros [= <- _]. cbn in Hb. cbn. lia.
Qed.

Lemma evictable_pinned l : Forall pinned l -> evictable l = [].
Proof.
  intros Hl. unfold evictable. induction Hl as [|p l Hp _ IH]; [done|].
  rewrite filter_cons, decide_False by tauto. done.
Qed.

Lemma last_split {A} (P l m : list A) x : P ++ l = m ++ [x] ->
  l = [] /\ P = m ++ [x] \/ exists l', l = l' ++ [x] /\ m = P ++ l'.
Proof.
  destruct l as [|y l _] using rev_ind; [rewrite app_nil_r; by left|]. rewrite app_assoc.
  intros [<- ->]%app_inj_tail. right. by exists l.
Qed.

(** Rotating the least recently used entry to the front. *)
Lemma rotate_iter l1 k (e : NegativeClientBloom) : NoDup (fst <$> (iter l1 ++ [(k, e)])) ->
  iter (put k e l1) = (k, e) :: iter l1 /\ NoDup (fst <$> iter (put k e l1)).
Proof.
  intros Hnd. assert (Hput : iter (put k e l1) = (k, e) :: iter l1).
  { rewrite put_iter, assoc_remove_id; [done|].
    rewrite fmap_app in Hnd. apply NoDup_app in Hnd as (_ & Hd & _).
    destruct (assoc_get k (iter l1)) as [v|] eqn:E; [|done]. apply assoc_get_elem in E.
    destruct (Hd k); [apply list_elem_of_fmap; by exists (k, v)|by apply list_elem_of_singleton]. }
  rewrite Hput. split; [done|]. by rewrite (Permutation_cons_append (iter l1) (k, e)).
Qed.

Lemma evict_loop_spec fuel rotations target c P l :
  NoDup (fst <$> entries c) ->
  entries c = P ++ l -> Forall pinned P -> (length l <= rotations)%nat -> (length l + rotations < fuel)%nat ->
  evicts target c (evict_loop fuel rotations target c).
Proof.
  revert rotations c P l. induction fuel as [|fuel IH]; intros rotations c P l Hnd Ec HP Hr Hf; [lia|].
  cbn [evict_loop]. destruct (Z.leb_spec (negative_lookup_bytes c) target) as [Hle|Hgt].
  { apply evicts_done. by left. }
  pose proof (pop_lru_iter (negative_lookup c)) as Hpop. fold (entries c) in Hpop.
  destruct (pop_lru (negative_lookup c)) as [[[k e] l1]|].
  2: { apply evicts_done. right. by rewrite Hpop. }
  pose proof Ec as Hsplit. rewrite Hpop in Hsplit. symmetry in Hsplit.
  apply last_split in Hsplit as [[-> HPe]|(l' & -> & El1)]; rewrite ?length_app in *; cbn [length] in *.
  - rewrite HPe in HP. pose proof HP as [HP1 Hpk]%Forall_app. inversion_clear Hpk as [|? ? Hp _].
    change (builder_active e = true) in Hp. rewrite Hp. rewrite Hpop in Hnd.
    destruct (rotate_iter l1 k e Hnd) as [Hput Hnd2].
    eapply (evict_pinned target c (with_lookup c (put k e l1) (negative_lookup_bytes c)) _ (iter l1) [] k e); try done.
    { unfold entries. cbn. by rewrite Hput, app_nil_r. }
    assert (Hall : Forall pinned (iter (put k e l1))) by (rewrite Hput; by constructor).
    destruct rotations as [|rotations]; [apply evicts_done; right; by apply evictable_pinned|].
    apply (IH rotations _ (iter (put k e l1)) []); [done|by rewrite app_nil_r|done|cbn; lia|cbn; lia].
  - destruct (builder_active e) eqn:Ee.
    + destruct rotations as [|rotations]; [lia|]. rewrite Hpop in Hnd.
      destruct (rotate_iter l1 k e Hnd) as [Hput Hnd2].
      assert (Ec1 : iter (put k e l1) = ((k, e) :: P) ++ l') by (by rewrite Hput, El1).
      eapply (evict_pinned target c (with_lookup c (put k e l1) (negative_lookup_bytes c)) _ P l' k e); try done.
      apply (IH rotations _ ((k, e) :: P) l'); [done|done|by constructor|lia|lia].
    + eapply (evict_unpinned target c (with_lookup c l1 (negative_lookup_bytes c - byte_cost e)) _ (iter l1) k e); try done.
      { unfold pinned. cbn. by rewrite Ee. }
      apply (IH rotations _ P l'); [|done|done|lia|lia].
      rewrite Hpop, fmap_app in Hnd. by apply NoDup_app in Hnd as [? _].
Qed.

Lemma evict_until_spec c target : NoDup (fst <$> entries c) ->
  evicts target c (negative_lookup_evict_until c target).
Proof.
  intros Hnd. unfold negative_lookup_evict_until. rewrite len_iter. fold (entries c).
  apply (evict_loop_spec _ _ _ c [] (entries c)); [done|done|constructor|lia|lia].
Qed.
End eviction.

(** ** The build protocol *)

Section protocol.
Context {L : Lru AggregateKey NegativeClientBloom} `{Xxh3}.

(** The cache, the clients that wrote to each aggregate, and the builders at
    work: by generation token, the aggregate and the clients of its history that
    the builder has yet to add. *)
Record world := {
  w_cache : NegativeCache;
  w_clients : AggregateKey -> gset Z;
  w_builds : gmap Z (AggregateKey * gset Z);
}.

Definition add_client (clients : AggregateKey -> gset Z) (m : Metablock) : AggregateKey -> gset Z :=
  match metablock_client m with
  | Some (key, client_id) =>
      fun k => if decide (k = key) then {[client_id_bloom_hash client_id]} ∪ clients k else clients k
  | None => clients
  end.

(** The clients of a builder's list that the words of a sidecar cover. *)
Definition uncovered (words : list Z) (todo : gset Z) : gset Z :=
  filter (fun h => contains words h <> Some true) todo.

Inductive nl_step : world -> world -> Prop :=
  (** A metablock becomes durable. *)
  | step_commit w m c' :
      negative_lookup_note_commit (w_cache w) m = Some c' ->
      nl_step w {| w_cache := c'; w_clients := add_client (w_clients w) m; w_builds := w_builds w |}
  (** Trim, delete, truncation and rollback take clients away. *)
  | step_forget w clients :
      (forall k, clients k ⊆ w_clients w k) ->
      nl_step w {| w_cache := w_cache w; w_clients := clients; w_builds := w_builds w |}
  | step_check w k h c' a :
      negative_lookup_check (w_cache w) k h = Some (c', a) ->
      nl_step w {| w_cache := c'; w_clients := w_clients w; w_builds := w_builds w |}
  (** A builder starts; it has the whole history to add. *)
  | step_begin w k c' g :
      negative_lookup_try_begin_build (w_cache w) k = (c', Some g) ->
      nl_step w {| w_cache := c'; w_clients := w_clients w;
                   w_builds := <[g := (k, w_clients w k)]> (w_builds w) |}
  | step_begin_refused w k c' :
      negative_lookup_try_begin_build (w_cache w) k = (c', None) ->
      nl_step w {| w_cache := c'; w_clients := w_clients w; w_builds := w_builds w |}
  (** The scan adds one client, or the exact set or the words of a sidecar. *)
  | step_scan w g k todo h c' :
      w_builds w !! g = Some (k, todo) -> u64 h ->
      negative_lookup_insert (w_cache w) k h = Some c' ->
      nl_step w {| w_cache := c'; w_clients := w_clients w;
                   w_builds := <[g := (k, todo ∖ {[h]})]> (w_builds w) |}
  | step_union_exact w g k todo hs c' :
      w_builds w !! g = Some (k, todo) -> all_u64 hs ->
      negative_lookup_union_exact (w_cache w) k hs = Some c' ->
      nl_step w {| w_cache := c'; w_clients := w_clients w;
                   w_builds := <[g := (k, todo ∖ list_to_set hs)]> (w_builds w) |}
  | step_union_bloom w g k todo words c' ok :
      w_builds w !! g = Some (k, todo) ->
      negative_lookup_union_bloom (w_cache w) k words = (c', ok) ->
      nl_step w {| w_cache := c'; w_clients := w_clients w;
                   w_builds := <[g := (k, if ok : bool then uncovered words todo else todo)]> (w_builds w) |}
  (** A builder parks, or completes when nothing is left to add. *)
  | step_finish w g k todo complete c' done :
      w_builds w !! g = Some (k, todo) -> (complete = true -> todo = ∅) ->
      negative_lookup_finish_build (w_cache w) k g complete = Some (c', done) ->
      nl_step w {| w_cache := c'; w_clients := w_clients w; w_builds := delete g (w_builds w) |}
  (** The open-time scan seeds an aggregate, completely only with all its clients. *)
  | step_seed w k hs complete c' installed :
      u64_set hs -> (complete = true -> w_clients w k ⊆ hs) ->
      negative_lookup_seed (w_cache w) k hs complete = Some (c', installed) ->
      nl_step w {| w_cache := c'; w_clients := w_clients w; w_builds := w_builds w |}.

Definition world_init (cache_bytes : Z) : world :=
  {| w_cache := negative_cache_new cache_bytes; w_clients := fun _ => ∅; w_builds := ∅ |}.

(** *** The invariant *)

Definition build_inv (c : NegativeCache) (clients : AggregateKey -> gset Z) (g : Z) (k : AggregateKey)
    (todo : gset Z) (e : NegativeClientBloom) : Prop :=
  g <= negative_lookup_build_generation c /\ builder_active e = true /\ building e = true /\
  build_generation e = g /\ forall h, h ∈ clients k -> h ∈ todo \/ holds e h.

Record nl_inv (c : NegativeCache) (clients : AggregateKey -> gset Z)
    (builds : gmap Z (AggregateKey * gset Z)) : Prop := {
  inv_nodup : NoDup (fst <$> entries c);
  inv_bytes : negative_lookup_bytes c = cost_of (entries c);
  inv_entry k e : (k, e) ∈ entries c ->
    entry_ok e /\ (building e = false -> forall h, h ∈ clients k -> holds e h);
  inv_build g k todo : builds !! g = Some (k, todo) ->
    exists e, (k, e) ∈ entries c /\ build_inv c clients g k todo e;
}.

Lemma evicts_perm target c c' : evicts target c c' ->
  exists ev, entries c ≡ₚ entries c' ++ ev /\ Forall (fun p => ~ pinned p) ev /\
    negative_lookup_bytes c' = negative_lookup_bytes c - cost_of ev.
Proof.
  intros (_ & _ & Hp & _ & ev & He & Hb & _). exists ev.
  assert (Hsplit : forall l, l ≡ₚ pinned_entries l ++ evictable l) by (intros; symmetry; apply filter_app_complement).
  split_and!.
  - rewrite (Hsplit (entries c)), He, <- Hp, app_assoc, <- Hsplit. done.
  - apply Forall_forall. intros p Hin.
    assert (p ∈ evictable (entries c)) as [? _]%list_elem_of_filter by (rewrite He; set_solver). done.
  - done.
Qed.

Lemma inv_evict c clients builds target c' :
  nl_inv c clients builds -> evicts target c c' -> nl_inv c' clients builds.
Proof.
  intros [Hnd Hb He Hbs] Hev. destruct (evicts_perm _ _ _ Hev) as (ev & Hp & Hun & Hb').
  destruct Hev as (_ & Hg & _). split.
  - rewrite Hp, fmap_app in Hnd. by apply NoDup_app in Hnd as [? _].
  - rewrite Hb', Hb. unfold cost_of.
    rewrite (sum_Z_permute _ _ (fmap_Permutation (byte_cost ∘ snd) _ _ Hp)), fmap_app, sum_Z_app. lia.
  - intros k e Hin. apply He. rewrite Hp. set_solver.
  - intros g k todo Hl. destruct (Hbs g k todo Hl) as (e & Hin & Hi). exists e. split.
    + rewrite Hp in Hin. apply elem_of_app in Hin as [?|Hin]; [done|].
      rewrite Forall_forall in Hun. destruct (Hun _ Hin). apply Hi.
    + unfold build_inv in *. by rewrite Hg.
Qed.

Lemma inv_evict_until c clients builds target :
  nl_inv c clients builds -> nl_inv (negative_lookup_evict_until c target) clients builds.
Proof. intros Hi. eapply inv_evict; [done|]. apply evict_until_spec, Hi. Qed.

Lemma inv_replace c clients builds k e e' clients' builds' :
  nl_inv c clients builds -> peek k (negative_lookup c) = Some e -> entry_ok e' ->
  (building e' = false -> forall h, h ∈ clients' k -> holds e' h) ->
  (forall k', k' <> k -> clients' k' ⊆ clients k') ->
  (forall g k' todo, builds' !! g = Some (k', todo) ->
     k' <> k /\ builds !! g = Some (k', todo) \/ k' = k /\ build_inv c clients' g k todo e') ->
  nl_inv (replace_entry c k e e') clients' builds'.
Proof.
  intros [Hnd Hb He Hbs] Hk Hok Hc Hcl Hbs'. rewrite peek_iter in Hk. fold (entries c) in Hk.
  assert (Hent : entries (replace_entry c k e e') = assoc_set k e' (entries c)) by apply assign_iter.
  assert (Hnd' : NoDup (fst <$> assoc_set k e' (entries c))) by (by rewrite assoc_set_keys).
  assert (Hin : forall k1 e1, (k1, e1) ∈ assoc_set k e' (entries c) <->
    k1 = k /\ e1 = e' \/ k1 <> k /\ (k1, e1) ∈ entries c).
  { intros k1 e1. rewrite <- !assoc_get_Some by done. rewrite assoc_get_set, Hk. cbn.
    case_decide; naive_solver. }
  split; rewrite ?Hent; [done| | |].
  - cbn. unfold cost_of. rewrite (assoc_set_sum byte_cost k e' e), Hb by done. unfold cost_of. lia.
  - intros k1 e1 [[-> ->]|[Hne H1]]%Hin; [done|]. destruct (He k1 e1 H1) as [? Hh]. split; [done|].
    intros Hbd h Hh1. apply Hh; [done|]. by apply Hcl.
  - intros g k1 todo Hg. destruct (Hbs' g k1 todo Hg) as [[Hne Hg']|[-> Hi]].
    + destruct (Hbs g k1 todo Hg') as (e1 & H1 & ? & ? & ? & ? & Hh). exists e1. split; [apply Hin; by right|].
      split_and!; try done. intros h Hh1. apply Hh. by apply Hcl.
    + exists e'. split; [apply Hin; by left|]. done.
Qed.

Lemma inv_put c clients builds k e builds' :
  nl_inv c clients builds -> peek k (negative_lookup c) = None -> entry_ok e ->
  (building e = false -> forall h, h ∈ clients k -> holds e h) ->
  (forall g k' todo, builds' !! g = Some (k', todo) ->
     builds !! g = Some (k', todo) \/ k' = k /\ build_inv c clients g k todo e) ->
  nl_inv (with_lookup c (put k e (negative_lookup c)) (negative_lookup_bytes c + byte_cost e)) clients builds'.
Proof.
  intros [Hnd Hb He Hbs] Hk Hok Hc Hbs'. rewrite peek_iter in Hk. fold (entries c) in Hk.
  set (c' := with_lookup _ _ _).
  assert (Hent : entries c' = (k, e) :: entries c).
  { unfold entries, c'. cbn. by rewrite put_iter, assoc_remove_id. }
  split; rewrite ?Hent.
  - rewrite fmap_cons. constructor; [|done]. intros ([k1 e1] & Ek & Hin)%list_elem_of_fmap.
    cbn in Ek. subst k1. apply assoc_get_Some in Hin; [|done]. congruence.
  - change (negative_lookup_bytes c + byte_cost e = cost_of ((k, e) :: entries c)).
    unfold cost_of in *. rewrite fmap_cons, sum_Z_cons. cbn [compose snd]. lia.
  - intros k1 e1 [[= -> ->]|H1]%elem_of_cons; [done|by apply He].
  - intros g k1 todo Hg. destruct (Hbs' g k1 todo Hg) as [Hg'|[-> Hi]].
    + destruct (Hbs g k1 todo Hg') as (e1 & H1 & Hi). exists e1. split; [by apply elem_of_cons; right|done].
    + exists e. split; [apply list_elem_of_here|done].
Qed.

Lemma inv_forget c clients builds clients' :
  nl_inv c clients builds -> (forall k e, (k, e) ∈ entries c -> clients' k ⊆ clients k) ->
  nl_inv c clients' builds.
Proof.
  intros [Hnd Hb He Hbs] Hcl. split; [done|done| |].
  - intros k e Hin. destruct (He k e Hin) as [? Hh]. split; [done|]. intros Hbd h Hx.
    apply Hh; [done|]. by eapply Hcl.
  - intros g k todo Hg. destruct (Hbs g k todo Hg) as (e & Hin & ? & ? & ? & ? & Hh). exists e.
    split; [done|]. split_and!; try done. intros h Hx. apply Hh. by eapply Hcl.
Qed.

(** *** Every operation preserves it *)

Lemma peek_entry c clients builds k e : nl_inv c clients builds ->
  peek k (negative_lookup c) = Some e -> (k, e) ∈ entries c.
Proof. intros Hi. rewrite peek_iter. by intros ?%assoc_get_Some; [|apply Hi]. Qed.

(** A builder's entry is the one the cache holds for its aggregate. *)
Lemma build_entry c clients builds g k todo : nl_inv c clients builds -> builds !! g = Some (k, todo) ->
  exists e, peek k (negative_lookup c) = Some e /\ entry_ok e /\ build_inv c clients g k todo e.
Proof.
  intros Hi Hg. destruct (inv_build _ _ _ Hi g k todo Hg) as (e & Hin & He). exists e.
  split_and!; [rewrite peek_iter; by apply assoc_get_Some; [apply Hi|]|by apply (inv_entry _ _ _ Hi k e)|done].
Qed.

Lemma build_unique c clients builds g g' k todo todo' : nl_inv c clients builds ->
  builds !! g = Some (k, todo) -> builds !! g' = Some (k, todo') -> g' = g.
Proof.
  intros Hi Hg Hg'. destruct (build_entry _ _ _ _ _ _ Hi Hg) as (e & He & _ & Hb).
  destruct (build_entry _ _ _ _ _ _ Hi Hg') as (e' & He' & _ & Hb').
  rewrite He in He'. injection He' as <-. destruct Hb as (_ & _ & _ & <- & _), Hb' as (_ & _ & _ & <- & _). done.
Qed.

(** Growing the entry of a builder, whose list shrinks accordingly. *)
Lemma inv_grow c clients builds g k todo e e' todo' :
  nl_inv c clients builds -> builds !! g = Some (k, todo) -> peek k (negative_lookup c) = Some e ->
  entry_ok e' -> same_build e e' -> (forall x, holds e x -> holds e' x) ->
  (forall x, x ∈ todo -> x ∈ todo' \/ holds e' x) ->
  nl_inv (replace_entry c k e e') clients (<[g := (k, todo')]> builds).
Proof.
  intros Hi Hg He Hok (Hb & Ha & Hgen) Hmono Htodo.
  destruct (build_entry _ _ _ _ _ _ Hi Hg) as (e0 & He0 & _ & Hle & Hact & Hbld & Hg0 & Hcl).
  rewrite He in He0. injection He0 as <-. eapply inv_replace; try done; [intros; congruence|].
  intros g1 k1 todo1. destruct (decide (g1 = g)) as [->|Hne].
  - rewrite lookup_insert_eq. intros [= <- <-]. right. split; [done|]. split_and!; try congruence.
    intros h Hh. destruct (Hcl h Hh) as [?|?]; [by apply Htodo|by right; apply Hmono].
  - rewrite lookup_insert_ne by done. intros Hg1. left. split; [|done]. intros ->.
    apply Hne. by eapply build_unique.
Qed.

(** Growing the entry of an aggregate, with a client added to it or not. *)
Lemma inv_add c clients builds k e e' clients' :
  nl_inv c clients builds -> peek k (negative_lookup c) = Some e ->
  entry_ok e' -> same_build e e' -> (forall x, holds e x -> holds e' x) ->
  (forall k', k' <> k -> clients' k' = clients k') ->
  (forall h, h ∈ clients' k -> h ∈ clients k \/ holds e' h) ->
  nl_inv (replace_entry c k e e') clients' builds.
Proof.
  intros Hi He Hok (Hb & Ha & Hgen) Hmono Hne Hk.
  destruct (inv_entry _ _ _ Hi k e) as [_ Hc]; [by eapply peek_entry|].
  eapply inv_replace; try done.
  - rewrite Hb. intros Hbd h Hh. destruct (Hk h Hh); auto.
  - intros k' ?. by rewrite Hne.
  - intros g k1 todo Hg. destruct (decide (k1 = k)) as [->|]; [right|by left]. split; [done|].
    destruct (build_entry _ _ _ _ _ _ Hi Hg) as (e0 & He0 & _ & Hle & Hact & Hbld & Hg0 & Hcl).
    rewrite He in He0. injection He0 as <-. split_and!; try congruence.
    intros h Hh. destruct (Hk h Hh) as [Hh'|?]; [|by right]. destruct (Hcl h Hh'); auto.
Qed.

Lemma inv_commit c clients builds m : nl_inv c clients builds ->
  exists c', negative_lookup_note_commit c m = Some c' /\ nl_inv c' (add_client clients m) builds.
Proof.
  intros Hi. unfold negative_lookup_note_commit, add_client.
  destruct (metablock_client m) as [[k id]|]; [|by exists c].
  destruct (peek k (negative_lookup c)) as [e|] eqn:Ek.
  - unfold negative_lookup_insert. rewrite Ek.
    destruct (insert_hash_spec e (client_id_bloom_hash id)) as (e' & -> & Hok & Hs & Hin & Hmono);
      [by apply (inv_entry _ _ _ Hi k e), (peek_entry _ _ _ _ _ Hi)|apply client_id_bloom_hash_u64|].
    eexists. split; [done|]. apply inv_evict_until. eapply inv_add; try done.
    + intros k' ?. by rewrite decide_False.
    + intros h. rewrite decide_True by done. intros [->%elem_of_singleton|?]%elem_of_union; auto.
  - exists c. split; [done|]. eapply inv_forget; [done|]. intros k' e' Hin. cbn.
    rewrite decide_False; [done|]. intros ->. apply assoc_get_Some in Hin; [|apply Hi].
    rewrite peek_iter in Ek. unfold entries in Hin. congruence.
Qed.

Lemma check_perm c k : NoDup (fst <$> entries c) -> iter (snd (get k (negative_lookup c))) ≡ₚ entries c.
Proof.
  intros Hnd. destruct (get_iter k (negative_lookup c)) as [_ ->]. fold (entries c).
  destruct (assoc_get k (entries c)) eqn:E; [|done]. by apply assoc_promote_perm.
Qed.

Lemma promote_inv c clients builds k : nl_inv c clients builds ->
  nl_inv (with_lookup c (snd (get k (negative_lookup c))) (negative_lookup_bytes c)) clients builds.
Proof.
  intros Hi. pose proof (check_perm c k (inv_nodup _ _ _ Hi)) as Hperm. set (c' := with_lookup _ _ _).
  assert (Hp : entries c' ≡ₚ entries c) by exact Hperm. destruct Hi as [H1 H2 H3 H4]. split.
  - by rewrite Hp.
  - unfold cost_of in *. by rewrite (sum_Z_permute _ _ (fmap_Permutation (byte_cost ∘ snd) _ _ Hp)).
  - intros k1 e1. rewrite Hp. apply H3.
  - intros g k1 todo Hg. destruct (H4 g k1 todo Hg) as (e1 & ? & ?). exists e1. by rewrite Hp.
Qed.

Lemma check_inv c clients builds k h c' a : nl_inv c clients builds ->
  negative_lookup_check c k h = Some (c', a) -> nl_inv c' clients builds.
Proof.
  intros Hi. pose proof (promote_inv _ _ _ k Hi) as Hp. unfold negative_lookup_check.
  destruct (get k (negative_lookup c)) as [[e|] l]; cbn [snd] in Hp; [|by intros [= <- _]].
  destruct (negb (is_complete e)); [by intros [= <- _]|].
  destruct (entry_may_contain_hash e h); [|done]. by intros [= <- _].
Qed.

Lemma inv_check c clients builds k h : nl_inv c clients builds -> u64 h ->
  exists c' a, negative_lookup_check c k h = Some (c', a) /\ nl_inv c' clients builds /\
    (a = DefinitelyAbsent -> h ∉ clients k).
Proof.
  intros Hi Hh. pose proof (promote_inv _ _ _ k Hi) as Hi'. unfold negative_lookup_check.
  destruct (get_iter k (negative_lookup c)) as [Hf _].
  destruct (get k (negative_lookup c)) as [found l]. cbn [fst snd] in Hf, Hi'. subst found. fold (entries c) in *.
  set (c' := with_lookup _ _ _) in *.
  destruct (assoc_get k (entries c)) as [e|] eqn:E; [|by exists c', NoEntry].
  apply assoc_get_elem in E. destruct (inv_entry _ _ _ Hi k e E) as [Hok Hc]. unfold is_complete. rewrite negb_involutive.
  destruct (building e) eqn:Eb; [by exists c', Building|].
  destruct (entry_may_contain_spec e h Hok Hh) as (b & -> & Hb). cbn.
  eexists c', _. split_and!; [done|done|]. destruct b; [done|]. intros _ Hin.
  by specialize (Hb Eb (Hc eq_refl h Hin)).
Qed.

Lemma bump_inv c clients builds : nl_inv c clients builds -> nl_inv (bump_generation c) clients builds.
Proof.
  intros [H1 H2 H3 H4]. split; [done|done|done|]. intros g k todo Hg.
  destruct (H4 g k todo Hg) as (e & ? & ? & ? & ? & ? & ?). exists e. split; [done|]. split_and!; try done. cbn. lia.
Qed.

Lemma evict_until_absent c target k : NoDup (fst <$> entries c) -> peek k (negative_lookup c) = None ->
  peek k (negative_lookup (negative_lookup_evict_until c target)) = None.
Proof.
  intros Hnd. rewrite !peek_iter. intros Hk. set (c1 := negative_lookup_evict_until c target).
  destruct (evicts_perm _ _ _ (evict_until_spec c target Hnd)) as (ev & Hp & _). fold c1 in Hp.
  destruct (assoc_get k (iter (negative_lookup c1))) as [e|] eqn:E1; [|done].
  apply assoc_get_elem in E1. fold (entries c1) in E1.
  assert (Hin : (k, e) ∈ entries c) by (rewrite Hp; set_solver).
  apply assoc_get_Some in Hin; [|done]. unfold entries in Hin. congruence.
Qed.

Lemma new_building_ok : entry_ok new_building.
Proof. split; [|constructor]. by intros h ?%elem_of_empty. Qed.

Lemma inv_begin c clients builds k c' r : nl_inv c clients builds ->
  negative_lookup_try_begin_build c k = (c', r) ->
  nl_inv c' clients (match r with Some g => <[g := (k, clients k)]> builds | None => builds end) /\
  forall g, r = Some g -> builds !! g = None.
Proof.
  intros Hi. set (g := negative_lookup_build_generation (bump_generation c)).
  assert (Hfresh : builds !! g = None).
  { destruct (builds !! g) as [[k1 todo]|] eqn:E; [|done].
    destruct (inv_build _ _ _ Hi g k1 todo E) as (_ & _ & Hle & _). cbn in *. lia. }
  unfold negative_lookup_try_begin_build. destruct (peek k (negative_lookup c)) as [e|] eqn:Ek.
  - destruct (is_complete e || builder_active e) eqn:Eg; [by intros [= <- <-]|].
    apply orb_false_iff in Eg as [Hbd%negb_false_iff Hact].
    intros [= <- <-]. fold g. split; [|by intros ? [= <-]].
    destruct (inv_entry _ _ _ Hi k e) as [[Hm _] _]; [by eapply peek_entry|].
    assert (Hold : forall e', byte_cost e' = byte_cost e -> replace_entry (bump_generation c) k e' = replace_entry (bump_generation c) k e).
    { intros e' He'. unfold replace_entry. by rewrite He'. }
    rewrite Hold by done. eapply inv_replace; [by apply bump_inv|done|split; [done|constructor]|cbn; congruence|done|].
    intros g1 k1 todo. destruct (decide (g1 = g)) as [->|Hne].
    + rewrite lookup_insert_eq. intros [= <- <-]. right. split; [done|]. split_and!; try done. auto.
    + rewrite lookup_insert_ne by done. intros Hg1. left. split; [|done]. intros ->.
      destruct (build_entry _ _ _ _ _ _ Hi Hg1) as (e0 & He0 & _ & _ & Ha & _). congruence.
  - fold g. set (c1 := negative_lookup_evict_until _ _).
    pose proof (evict_until_spec (bump_generation c) (saturating_sub (negative_lookup_cache_bytes (bump_generation c))
      (byte_cost (set_builder new_building g))) (inv_nodup _ _ _ (bump_inv _ _ _ Hi))) as Hev. fold c1 in Hev.
    assert (Hi1 : nl_inv c1 clients builds) by (eapply inv_evict; [by apply bump_inv|done]).
    destruct Hev as (_ & Hgen & Hrest). fold g in Hgen. rewrite Hgen.
    case_bool; intros [= <- <-]; [done|]. split; [|congruence]. eapply inv_put; [done| |split; [|constructor]| |].
    + unfold c1. by apply evict_until_absent; [apply Hi|].
    + by intros h ?%elem_of_empty.
    + done.
    + intros g1 k1 todo. destruct (decide (g1 = g)) as [->|Hne].
      * rewrite lookup_insert_eq. intros [= <- <-]. right. split; [done|]. split_and!; try done; [by rewrite Hgen|auto].
      * rewrite lookup_insert_ne by done. by left.
Qed.

Lemma inv_scan c clients builds g k todo hs : nl_inv c clients builds ->
  builds !! g = Some (k, todo) -> all_u64 hs ->
  exists c', negative_lookup_union_exact c k hs = Some c' /\
    nl_inv c' clients (<[g := (k, todo ∖ list_to_set hs)]> builds).
Proof.
  intros Hi Hg Hu. destruct (build_entry _ _ _ _ _ _ Hi Hg) as (e & He & Hok & Hb).
  unfold negative_lookup_union_exact. rewrite He.
  destruct (insert_hashes_spec e hs Hok Hu) as (e' & -> & Hok' & Hs & Hin & Hmono). cbn [mbind option_bind].
  eexists. split; [done|]. apply inv_evict_until. eapply inv_grow; try done.
  intros x Hx. destruct (decide (x ∈ hs)); [right; by apply Hin|left]. set_solver.
Qed.

Lemma insert_is_union c k h : negative_lookup_insert c k h = negative_lookup_union_exact c k [h].
Proof.
  unfold negative_lookup_insert, negative_lookup_union_exact. destruct (peek k _); [|done].
  cbn. by destruct (insert_hash _ _).
Qed.

Lemma inv_union_bloom c clients builds g k todo words c' ok : nl_inv c clients builds ->
  builds !! g = Some (k, todo) -> negative_lookup_union_bloom c k words = (c', ok) ->
  nl_inv c' clients (<[g := (k, if ok : bool then uncovered words todo else todo)]> builds).
Proof.
  intros Hi Hg. destruct (build_entry _ _ _ _ _ _ Hi Hg) as (e & He & Hok & Hb).
  unfold negative_lookup_union_bloom. rewrite He.
  destruct (try_union_bloom_words e words) as [e' ok'] eqn:Eu. intros [= <- <-].
  destruct (union_words_spec e words e' ok' Hok Eu) as (Hok' & Hs & Hmono & Hin).
  apply inv_evict_until. eapply inv_grow; try done. intros x Hx. destruct ok'; [|by left].
  destruct (decide (contains words x = Some true)); [right; by apply Hin|left].
  by apply elem_of_filter.
Qed.

Lemma inv_finish c clients builds g k todo complete : nl_inv c clients builds ->
  builds !! g = Some (k, todo) -> (complete = true -> todo = ∅) ->
  exists c', negative_lookup_finish_build c k g complete = Some (c', complete) /\
    nl_inv c' clients (delete g builds).
Proof.
  intros Hi Hg Hdone. destruct (build_entry _ _ _ _ _ _ Hi Hg) as (e & He & Hok & _ & Ha & Hb & Hgen & Hcl).
  unfold negative_lookup_finish_build. rewrite He, Hgen, Z.eqb_refl. cbn [negb].
  destruct (finish_build_spec e complete Hok) as (e' & -> & Hok' & Ha' & Hg' & Hb' & Hmono). cbn [mbind option_bind].
  eexists. unfold is_complete. rewrite Hb', Hb. split; [by destruct complete|].
  apply inv_evict_until. eapply inv_replace; try done.
  - rewrite Hb', Hb. intros Hc h Hh. destruct complete; [|done]. rewrite Hdone in Hcl by done.
    destruct (Hcl h Hh) as [?%elem_of_empty|?]; [done|]. by apply Hmono.
  - intros g1 k1 todo1 [Hne Hg1]%lookup_delete_Some. left. split; [|done]. intros ->.
    apply Hne. symmetry. by eapply build_unique.
Qed.

Lemma inv_seed c clients builds k hs complete : nl_inv c clients builds ->
  u64_set hs -> (complete = true -> clients k ⊆ hs) ->
  exists c' installed, negative_lookup_seed c k hs complete = Some (c', installed) /\ nl_inv c' clients builds.
Proof.
  intros Hi Hu Hall. unfold negative_lookup_seed. destruct (peek k (negative_lookup c)) as [e|] eqn:Ek.
  - destruct (insert_hashes_spec e (elements hs)) as (e' & -> & Hok' & Hs & Hin & Hmono);
      [by apply (inv_entry _ _ _ Hi k e), (peek_entry _ _ _ _ _ Hi)|auto with cel|].
    eexists _, _. split; [done|]. apply inv_evict_until. eapply inv_add; try done. auto.
  - destruct (insert_hashes_spec new_building (elements hs) new_building_ok) as (e & -> & Hok & (Hb & Ha & _) & Hin & _);
      [auto with cel|]. cbn [mbind option_bind].
    assert (Hfin : exists e', (if complete then finish_build e true else Some e) = Some e' /\ entry_ok e' /\
      (building e' = false -> forall h, h ∈ clients k -> holds e' h)).
    { destruct complete; [|exists e; split_and!; [done|done|rewrite Hb; done]].
      destruct (finish_build_spec e true Hok) as (e' & -> & Hok' & _ & _ & _ & Hmono).
      exists e'. split_and!; [done|done|]. intros _ h Hh. apply Hmono, Hin, elem_of_elements. by apply Hall. }
    destruct Hfin as (e' & -> & Hok' & Hc). cbn [mbind option_bind].
    case_bool; eexists _, _; (split; [done|]); [done|]. eapply inv_put; try done. by left.
Qed.

Lemma nl_step_inv w w' : nl_inv (w_cache w) (w_clients w) (w_builds w) -> nl_step w w' ->
  nl_inv (w_cache w') (w_clients w') (w_builds w').
Proof.
  intros Hi Hs. destruct Hs as [w m c' E|w cl Hcl|w k h c' a E|w k c' g E|w k c' E|w g k todo h c' Hg Hh E
    |w g k todo hs c' Hg Hh E|w g k todo words c' ok Hg E|w g k todo complete c' dn Hg Hd E|w k hs complete c' ins Hh Hd E]; cbn.
  - destruct (inv_commit _ _ _ m Hi) as (c1 & E1 & ?). congruence.
  - eapply inv_forget; [done|]. auto.
  - apply (check_inv _ _ _ _ _ _ _ Hi E).
  - by apply (inv_begin _ _ _ _ _ _ Hi E).
  - by apply (inv_begin _ _ _ _ _ _ Hi E).
  - rewrite insert_is_union in E.
    destruct (inv_scan _ _ _ g k todo [h] Hi Hg) as (c1 & E1 & Hi1); [by constructor|].
    rewrite E in E1. injection E1 as <-. cbn in Hi1. by rewrite union_empty_r_L in Hi1.
  - destruct (inv_scan _ _ _ g k todo hs Hi Hg Hh) as (c1 & E1 & Hi1). congruence.
  - by eapply inv_union_bloom.
  - destruct (inv_finish _ _ _ g k todo complete Hi Hg Hd) as (c1 & E1 & Hi1). congruence.
  - destruct (inv_seed _ _ _ k hs complete Hi Hh Hd) as (c1 & i1 & E1 & Hi1). congruence.
Qed.

Lemma world_init_inv n : nl_inv (negative_cache_new n) (fun _ => ∅) ∅.
Proof.
  assert (E : entries (negative_cache_new n) = []) by apply iter_unbounded.
  split; rewrite ?E; [constructor|done|by intros ? ? ?%not_elem_of_nil|].
  intros g k todo. by rewrite lookup_empty.
Qed.

Lemma reachable_inv n w : steps nl_step (world_init n) w -> nl_inv (w_cache w) (w_clients w) (w_builds w).
Proof.
  apply (steps_invariant nl_step (fun w => nl_inv (w_cache w) (w_clients w) (w_builds w)));
    [intros a b; apply nl_step_inv|apply world_init_inv].
Qed.
End protocol.

(** ** Theorems *)

Section theorems.
Context {L : Lru AggregateKey NegativeClientBloom} `{Xxh3}.


(** C37: The byte counter of the negative-lookup cache is the sum of the costs
    of its entries in every reachable state, and eviction to any target keeps
    it so while it ends: it takes the least recently used entries without an
    active builder, no more than needed, and misses the target only when none
    of those is left. *)
Theorem negative_lookup_eviction cache_bytes w target :
  steps nl_step (world_init cache_bytes) w ->
  negative_lookup_bytes (w_cache w) = cost_of (entries (w_cache w)) /\
  evicts target (w_cache w) (negative_lookup_evict_until (w_cache w) target).
Proof.
  intros Hs.
  pose proof (reachable_inv _ _ Hs) as Hi.
  split; [apply Hi|]. apply evict_until_spec, Hi.
Qed.

(** At most one builder works on an aggregate, and its entry stays in the
    cache, latched and stamped with the builder's token, until that builder
    finishes; a new build of the aggregate is refused meanwhile. *)
Theorem negative_lookup_one_builder cache_bytes w g k todo :
  steps nl_step (world_init cache_bytes) w -> w_builds w !! g = Some (k, todo) ->
  (exists e, peek k (negative_lookup (w_cache w)) = Some e /\ builder_active e = true /\
     is_complete e = false /\ build_generation e = g) /\
  (forall g' todo', w_builds w !! g' = Some (k, todo') -> g' = g) /\
  negative_lookup_try_begin_build (w_cache w) k = (w_cache w, None).
Proof.
  intros Hs Hg.
  pose proof (reachable_inv _ _ Hs) as Hi.
  destruct (build_entry _ _ _ _ _ _ Hi Hg) as (e & He & _ & _ & Ha & Hb & Hgen & _). split_and!.
  - exists e. unfold is_complete. by rewrite Hb.
  - intros g' todo' Hg'. by eapply build_unique.
  - unfold negative_lookup_try_begin_build. rewrite He, Ha, orb_true_r. done.
Qed.
End theorems.

(** A run: a build starts, a client commits while it scans, the build
    completes. *)
Module NegativeRun.
#[local] Existing Instance xxh_low.
#[local] Instance list_cache : Lru AggregateKey NegativeClientBloom := lru_list.

Definition key : AggregateKey := {| org_id := 1; aggregate_type_id := 2; aggregate_id := 3 |}.

Definition deletion : Metablock :=
  {| wal_seq := 1; server_timestamp := 1; lease_epoch := 1; node_id := 1; uncompressed_size := 0;
     compressed_size := 0; datablock_version := 1; datablock_compression_type := 0;
     previous_tip_hash := []; datablock_position := 0; previous_aggregate_metablock_pos := 0;
     wal_metablock_type := SoftDelete
       {| sd_aggregate_key := key; allow_recreate := true; allow_sequence_continuation := false;
          sd_aggregate_version := 1; sd_event_seq := 1; sd_client_id := 42; sd_user_id := None |};
     datablock := StorageNone |}.

Definition begun : NegativeCache := fst (negative_lookup_try_begin_build (negative_cache_new 1000) key).
Definition committed : NegativeCache := default begun (negative_lookup_note_commit begun deletion).
Definition completed : NegativeCache :=
  fst (default (committed, false) (negative_lookup_finish_build committed key 1 true)).

Definition world_begun : world :=
  {| w_cache := begun; w_clients := fun _ => ∅; w_builds := <[1 := (key, ∅)]> ∅ |}.
Definition world_building : world :=
  {| w_cache := committed; w_clients := add_client (fun _ => ∅) deletion; w_builds := <[1 := (key, ∅)]> ∅ |}.
Definition world_built : world :=
  {| w_cache := completed; w_clients := add_client (fun _ => ∅) deletion; w_builds := delete 1 (<[1 := (key, ∅)]> ∅) |}.

Lemma building_reachable : steps nl_step (world_init 1000) world_building.
Proof.
  apply (steps_snoc _ _ world_begun); [apply (steps_snoc _ _ (world_init 1000)); [apply steps_refl|]|].
  - refine (step_begin (world_init 1000) key begun 1 _). vm_compute. reflexivity.
  - refine (step_commit world_begun deletion committed _). vm_compute. reflexivity.
Qed.

Lemma built_reachable : steps nl_step (world_init 1000) world_built.
Proof.
  eapply steps_snoc; [apply building_reachable|].
  apply (step_finish world_building 1 key ∅ true completed true); [done|done|]. vm_compute. reflexivity.
Qed.
End NegativeRun.


Lemma negative_lookup_eviction_witness :
  negative_lookup_bytes NegativeRun.completed = 192 /\
  evicts 100 NegativeRun.completed
    (@negative_lookup_evict_until NegativeRun.list_cache NegativeRun.completed 100).
Proof.
  destruct (@negative_lookup_eviction NegativeRun.list_cache xxh_low 1000 NegativeRun.world_built 100
    NegativeRun.built_reachable) as [_ He].
  split; [vm_compute; reflexivity|exact He].
Defined.

Lemma negative_lookup_one_builder_witness :
  @negative_lookup_try_begin_build NegativeRun.list_cache NegativeRun.committed NegativeRun.key
  = (NegativeRun.committed, None).
Proof.
  apply (@negative_lookup_one_builder NegativeRun.list_cache xxh_low 1000 NegativeRun.world_building 1
    NegativeRun.key ∅ NegativeRun.building_reachable). reflexivity.
Defined.
