(* ===== verification/Lease.v ===== *)
(** * Leases, membership and node status

    [celeriant_wal/src/s3/lease.rs] and [membership.rs], and the status types of
    [celeriant_distributed/src]: [node_status.rs], [node_status_logic.rs] and
    [validated_node_status.rs].  [unix_epoch_now_ms] is an argument of the
    functions that read the clock.  Times are milliseconds; expiries and epochs
    are not wrapped at 64 bits, which a clock before the year 292,000,000 and
    fewer than [2^64] elections do not reach. *)

From S2P Require Import Prelude.

(** ** [Lease] *)

Record Lease := {
  leader_node_id : Z;
  lease_epoch : Z;
  acquired_at_ms : Z;
  expires_at_ms : Z;
}.

#[global] Instance Lease_eq_dec : EqDecision Lease.
Proof. solve_decision. Defined.

Definition new_initial (leader_node_id now_millis duration_millis : Z) : Lease :=
  {| leader_node_id := leader_node_id; lease_epoch := 1; acquired_at_ms := now_millis;
     expires_at_ms := now_millis + duration_millis |}.

Definition promote (l : Lease) (new_leader_node_id now_millis duration_millis : Z) : Lease :=
  {| leader_node_id := new_leader_node_id; lease_epoch := lease_epoch l + 1;
     acquired_at_ms := now_millis; expires_at_ms := now_millis + duration_millis |}.

Definition renew (l : Lease) (now_millis duration_millis : Z) : Lease :=
  {| leader_node_id := leader_node_id l; lease_epoch := lease_epoch l;
     acquired_at_ms := now_millis; expires_at_ms := now_millis + duration_millis |}.

Definition is_expired (l : Lease) (now_millis : Z) : bool := expires_at_ms l <=? now_millis.

Definition remaining_millis (l : Lease) (now_millis : Z) : Z := saturating_sub (expires_at_ms l) now_millis.

Definition supersedes (l : Lease) (our_lease_epoch our_node_id : Z) : bool :=
  (our_lease_epoch <? lease_epoch l) && negb (leader_node_id l =? our_node_id).

(** ** [Membership] *)

Record NodeInfo := {
  ni_node_id : Z;
  client_address : string;
  replication_address : string;
}.

#[global] Instance NodeInfo_eq_dec : EqDecision NodeInfo.
Proof. solve_decision. Defined.

(** The two slots. *)
Record Membership := { slot0 : option NodeInfo; slot1 : option NodeInfo }.

#[global] Instance Membership_eq_dec : EqDecision Membership.
Proof. solve_decision. Defined.

Definition Membership_empty : Membership := {| slot0 := None; slot1 := None |}.

Definition holds_node (slot : option NodeInfo) (id : Z) : bool := bool_decide (ni_node_id <$> slot = Some id).

Definition register (m : Membership) (info : NodeInfo) : Membership :=
  if holds_node (slot0 m) (ni_node_id info) then {| slot0 := Some info; slot1 := slot1 m |}
  else if holds_node (slot1 m) (ni_node_id info) then {| slot0 := slot0 m; slot1 := Some info |}
  else match slot0 m, slot1 m with
       | None, _ => {| slot0 := Some info; slot1 := slot1 m |}
       | Some _, None => {| slot0 := slot0 m; slot1 := Some info |}
       | Some _, Some _ => m
       end.

Definition deregister (m : Membership) (node_id : Z) : Membership :=
  if holds_node (slot0 m) node_id then {| slot0 := None; slot1 := slot1 m |}
  else if holds_node (slot1 m) node_id then {| slot0 := slot0 m; slot1 := None |}
  else m.

Definition nodes (m : Membership) : list NodeInfo := option_list (slot0 m) ++ option_list (slot1 m).

Definition is_fully_replicated (m : Membership) : bool :=
  bool_decide (is_Some (slot0 m)) && bool_decide (is_Some (slot1 m)).

Definition node_count (m : Membership) : nat := length (nodes m).

Definition peer_of (m : Membership) (node_id : Z) : option NodeInfo :=
  head (filter (fun n => ni_node_id n <> node_id) (nodes m)).

(** ** [NodeStatus] *)

Inductive NodeStatus :=
  | Leader (lease_epoch : Z)
  | Follower (leader_lease_epoch : Z)
  | FollowerCatchingUp (leader_lease_epoch : Z)
  | Promoting (lease_epoch : Z)
  | BootCatchup
  | Fenced
  | Standalone.

#[global] Instance NodeStatus_eq_dec : EqDecision NodeStatus.
Proof. solve_decision. Defined.

Definition same_role (a b : NodeStatus) : bool :=
  match a, b with
  | Leader _, Leader _ | Follower _, Follower _ | FollowerCatchingUp _, FollowerCatchingUp _
  | Promoting _, Promoting _ | BootCatchup, BootCatchup | Fenced, Fenced | Standalone, Standalone => true
  | _, _ => false
  end.

Definition status_is_leader (s : NodeStatus) : bool := match s with Leader _ => true | _ => false end.
Definition status_is_follower (s : NodeStatus) : bool := match s with Follower _ => true | _ => false end.
Definition status_is_fenced (s : NodeStatus) : bool := match s with Fenced => true | _ => false end.
Definition status_is_standalone (s : NodeStatus) : bool := match s with Standalone => true | _ => false end.
Definition status_is_catching_up (s : NodeStatus) : bool :=
  match s with BootCatchup | FollowerCatchingUp _ => true | _ => false end.
Definition status_is_any_follower_state (s : NodeStatus) : bool :=
  match s with Follower _ | FollowerCatchingUp _ => true | _ => false end.
Definition status_is_promoting (s : NodeStatus) : bool := match s with Promoting _ => true | _ => false end.

Definition status_lease_epoch (s : NodeStatus) : option Z :=
  match s with
  | Leader e | Promoting e => Some e
  | Standalone => Some 0
  | _ => None
  end.

Definition lease_epoch_for_logging (s : NodeStatus) : Z :=
  match s with
  | Leader e | Promoting e | Follower e | FollowerCatchingUp e => e
  | Standalone | Fenced | BootCatchup => 0
  end.

Definition is_valid_transition_to (s new : NodeStatus) : bool :=
  match s, new with
  | _, Fenced => true
  | Fenced, (Leader _ | Follower _ | BootCatchup) => true
  | BootCatchup, (Leader _ | Follower _) => true
  | Standalone, (Leader _ | Follower _) => true
  | Follower _, Follower _ => true
  | Follower _, FollowerCatchingUp _ => true
  | FollowerCatchingUp _, Follower _ => true
  | Leader _, (Leader _ | Follower _) => true
  | (Follower _ | FollowerCatchingUp _ | Fenced | BootCatchup | Promoting _), Promoting _ => true
  | Promoting _, (Leader _ | Follower _) => true
  | _, _ => false
  end.

(** ** [node_status_logic.rs] *)

Definition compute_new_ttl (current_expiry_ms leader_timestamp_ms heartbeat_lease_duration_ms : Z) : Z :=
  Z.max current_expiry_ms (leader_timestamp_ms + heartbeat_lease_duration_ms).

Inductive KickOutcome :=
  | Transition (s : NodeStatus)
  | AlreadyCatchingUp
  | NotAFollower.

Inductive PostCatchupAction :=
  | BootWaitThenReevaluate (wait_ms : Z)
  | StayFollower (leader_lease_epoch lease_expires_at_ms : Z)
  | ChallengeViaCAS.

Definition decide_post_catchup_action (current_status : NodeStatus)
    (lease_expires_at_ms now_ms heartbeat_lease_duration_ms : Z) : PostCatchupAction :=
  if now_ms <? lease_expires_at_ms then
    StayFollower (match current_status with FollowerCatchingUp e => e | _ => 0 end) lease_expires_at_ms
  else if bool_decide (current_status = BootCatchup) && (lease_expires_at_ms =? 0) then
    BootWaitThenReevaluate heartbeat_lease_duration_ms
  else ChallengeViaCAS.

Definition kick_transition (current_status : NodeStatus) : KickOutcome :=
  match current_status with
  | Follower e => Transition (FollowerCatchingUp e)
  | FollowerCatchingUp _ => AlreadyCatchingUp
  | Leader _ | Promoting _ | Standalone | BootCatchup | Fenced => NotAFollower
  end.

(** ** [ValidatedNodeStatus] *)

Record ValidatedNodeStatus := {
  raw : NodeStatus;
  lease_expires_at_ms : Z;
  max_clock_drift_ms : Z;
  leader_since_ms : Z;
  held_leadership_flag : bool;
}.

Definition is_lease_expired (v : ValidatedNodeStatus) (now : Z) : bool := lease_expires_at_ms v <? now.

Definition must_fence (v : ValidatedNodeStatus) (now : Z) : bool :=
  saturating_sub (lease_expires_at_ms v) (max_clock_drift_ms v) <? now.

Definition create_fenced (held_leadership : bool) : ValidatedNodeStatus :=
  {| raw := Fenced; lease_expires_at_ms := 0; max_clock_drift_ms := 0; leader_since_ms := 0;
     held_leadership_flag := held_leadership |}.

Definition held_leadership (v : ValidatedNodeStatus) : bool := status_is_leader (raw v) || held_leadership_flag v.

Definition effective_node_status (v : ValidatedNodeStatus) (now : Z) : NodeStatus :=
  match raw v with
  | Standalone | BootCatchup | Fenced | FollowerCatchingUp _ => raw v
  | _ => if must_fence v now then Fenced else raw v
  end.

Definition current_budget (v : ValidatedNodeStatus) (now : Z) : option Z :=
  if negb (status_is_leader (effective_node_status v now)) then None
  else
    let safe_until := saturating_sub (lease_expires_at_ms v) (max_clock_drift_ms v) in
    Some (saturating_sub safe_until now).

Definition create_standalone : ValidatedNodeStatus :=
  {| raw := Standalone; lease_expires_at_ms := 0; max_clock_drift_ms := 0; leader_since_ms := 0;
     held_leadership_flag := false |}.

Definition create_boot_catchup : ValidatedNodeStatus :=
  {| raw := BootCatchup; lease_expires_at_ms := 0; max_clock_drift_ms := 0; leader_since_ms := 0;
     held_leadership_flag := false |}.

Definition create_custom_status (status : NodeStatus) (max_clock_drift_ms lease_expires_at_ms : Z)
    : ValidatedNodeStatus :=
  {| raw := status; lease_expires_at_ms := lease_expires_at_ms; max_clock_drift_ms := max_clock_drift_ms;
     leader_since_ms := 0; held_leadership_flag := false |}.

Definition is_leader (v : ValidatedNodeStatus) (now : Z) : bool := status_is_leader (effective_node_status v now).
Definition is_follower (v : ValidatedNodeStatus) (now : Z) : bool := status_is_follower (effective_node_status v now).
Definition is_fenced (v : ValidatedNodeStatus) (now : Z) : bool := status_is_fenced (effective_node_status v now).
Definition is_standalone (v : ValidatedNodeStatus) : bool := status_is_standalone (raw v).
Definition is_catching_up (v : ValidatedNodeStatus) (now : Z) : bool :=
  status_is_catching_up (effective_node_status v now).
Definition is_any_follower_state (v : ValidatedNodeStatus) (now : Z) : bool :=
  status_is_any_follower_state (effective_node_status v now).
Definition can_accept_writes (v : ValidatedNodeStatus) (now : Z) : bool := is_leader v now || is_standalone v.

(** The cell update of [set_node_status_and_metric]; every clock read of one
    call is taken at the same [now], and the gauges are not modelled. *)
Definition set_node_status (prev status : ValidatedNodeStatus) (now : Z) : ValidatedNodeStatus :=
  {| raw := raw status; lease_expires_at_ms := lease_expires_at_ms status;
     max_clock_drift_ms := max_clock_drift_ms status;
     leader_since_ms := if is_leader status now && negb (is_leader prev now) then now else leader_since_ms prev;
     held_leadership_flag :=
       match raw status with
       | Leader _ => true
       | Follower _ | Standalone => false
       | Fenced | Promoting _ | FollowerCatchingUp _ | BootCatchup =>
           held_leadership_flag status || held_leadership prev
       end |}.

(** ** Lemmas *)

(** No node is in both slots. *)
Definition membership_wf (m : Membership) : Prop := NoDup (ni_node_id <$> nodes m).

Lemma holds_node_Some s id : holds_node s id = true <-> exists n, s = Some n /\ ni_node_id n = id.
Proof.
  unfold holds_node. rewrite bool_decide_eq_true. destruct s as [n|]; cbn; naive_solver.
Qed.

Lemma holds_node_None id : holds_node None id = false.
Proof. done. Qed.

Lemma elem_of_slots (m : Membership) n : n ∈ nodes m <-> slot0 m = Some n \/ slot1 m = Some n.
Proof.
  unfold nodes. rewrite elem_of_app.
  destruct (slot0 m), (slot1 m); cbn; rewrite ?list_elem_of_singleton, ?elem_of_nil; naive_solver.
Qed.

Lemma membership_wf_alt m : membership_wf m <->
  forall a b, slot0 m = Some a -> slot1 m = Some b -> ni_node_id a <> ni_node_id b.
Proof.
  unfold membership_wf, nodes. destruct (slot0 m) as [a|], (slot1 m) as [b|]; cbn.
  - rewrite NoDup_cons, list_elem_of_singleton. split; [naive_solver|].
    intros Hab. split; [by apply Hab|by apply NoDup_singleton].
  - split; [done|]. intros _. apply NoDup_singleton.
  - split; [done|]. intros _. apply NoDup_singleton.
  - split; [done|]. intros _. constructor.
Qed.

Lemma register_wf m info : membership_wf m -> membership_wf (register m info).
Proof.
  rewrite !membership_wf_alt. intros Hm. unfold register.
  destruct (holds_node (slot0 m) (ni_node_id info)) eqn:E0.
  { apply holds_node_Some in E0 as (n & En & Ei). cbn. intros a b [= <-] Hb. rewrite <- Ei. by eapply Hm. }
  destruct (holds_node (slot1 m) (ni_node_id info)) eqn:E1.
  { apply holds_node_Some in E1 as (n & En & Ei). cbn. intros a b Ha [= <-]. rewrite <- Ei. by eapply Hm. }
  unfold holds_node in E0, E1. apply bool_decide_eq_false in E0, E1.
  destruct (slot0 m) as [n0|] eqn:S0, (slot1 m) as [n1|] eqn:S1; cbn in *; intros a b; rewrite ?S0, ?S1; intros; simplify_eq; try congruence; eauto.
Qed.

(** Registration keeps every other node. *)
Lemma register_keeps m info n : n ∈ nodes m -> ni_node_id n <> ni_node_id info -> n ∈ nodes (register m info).
Proof.
  rewrite !elem_of_slots. intros Hn Hne. unfold register.
  destruct (holds_node (slot0 m) (ni_node_id info)) eqn:E0.
  { apply holds_node_Some in E0 as (k & Ek & Ei). cbn. naive_solver. }
  destruct (holds_node (slot1 m) (ni_node_id info)) eqn:E1.
  { apply holds_node_Some in E1 as (k & Ek & Ei). cbn. naive_solver. }
  destruct (slot0 m) as [n0|] eqn:S0, (slot1 m) as [n1|] eqn:S1; cbn; naive_solver.
Qed.

(** It succeeds when the node has a slot or one is free. *)
Lemma register_in m info :
  (exists n, n ∈ nodes m /\ ni_node_id n = ni_node_id info) \/ is_fully_replicated m = false ->
  info ∈ nodes (register m info).
Proof.
  intros Hm. rewrite elem_of_slots. unfold register.
  destruct (holds_node (slot0 m) (ni_node_id info)) eqn:E0; [by left|].
  destruct (holds_node (slot1 m) (ni_node_id info)) eqn:E1; [by right|].
  unfold holds_node, is_fully_replicated in *. rewrite bool_decide_eq_false in E0, E1.
  destruct (slot0 m) as [n0|] eqn:S0, (slot1 m) as [n1|] eqn:S1; cbn; try by auto.
  exfalso. destruct Hm as [(n & Hn & Ei)|Hf]; [|done].
  apply elem_of_slots in Hn. rewrite S0, S1 in Hn. cbn in *. destruct Hn; simplify_eq; congruence.
Qed.

(** Registration adds nobody else. *)
Lemma register_only m info n : n ∈ nodes (register m info) -> n = info \/ n ∈ nodes m.
Proof.
  rewrite !elem_of_slots. unfold register.
  destruct (holds_node (slot0 m) _); [cbn; naive_solver|].
  destruct (holds_node (slot1 m) _); [cbn; naive_solver|].
  destruct (slot0 m) as [n0|] eqn:S0, (slot1 m) as [n1|] eqn:S1; cbn; rewrite ?S0, ?S1; naive_solver.
Qed.

Lemma peer_of_spec m id n : membership_wf m -> n ∈ nodes m -> ni_node_id n <> id ->
  (exists s, s ∈ nodes m /\ ni_node_id s = id) -> peer_of m id = Some n.
Proof.
  intros Hwf Hn Hne (s & Hs & <-). pose proof (proj1 (membership_wf_alt m) Hwf) as Hab.
  apply elem_of_slots in Hn, Hs. unfold peer_of, nodes.
  destruct Hn as [Hn|Hn], Hs as [Hs|Hs]; try (exfalso; congruence); rewrite Hn, Hs; cbn [option_list option_rect app];
    rewrite filter_cons.
  - by rewrite decide_True by done.
  - by rewrite decide_False, filter_cons, decide_True by naive_solver.
Qed.

Lemma slot_free m x y : membership_wf m -> ni_node_id x <> ni_node_id y ->
  (forall n, n ∈ nodes m -> ni_node_id n = ni_node_id x \/ ni_node_id n = ni_node_id y) ->
  (exists n, n ∈ nodes m /\ ni_node_id n = ni_node_id x) \/ is_fully_replicated m = false.
Proof.
  rewrite membership_wf_alt. intros Hwf Hxy Hids. destruct (is_fully_replicated m) eqn:Ef; [left|by right].
  unfold is_fully_replicated in Ef. apply andb_true_iff in Ef as [H0 H1]. apply bool_decide_eq_true in H0, H1.
  destruct H0 as [n0 S0], H1 as [n1 S1]. specialize (Hwf n0 n1 S0 S1).
  assert (In0 : n0 ∈ nodes m) by (apply elem_of_slots; by left).
  assert (In1 : n1 ∈ nodes m) by (apply elem_of_slots; by right).
  destruct (Hids n0 In0), (Hids n1 In1); [by exists n0|by exists n0|by exists n1|congruence].
Qed.

(** ** Theorems *)

(** The node's leadership as the last steady status left it. *)
Definition publish (v : ValidatedNodeStatus) (p : ValidatedNodeStatus * Z) : ValidatedNodeStatus :=
  set_node_status v (fst p) (snd p).

Definition clears (s : ValidatedNodeStatus) : bool :=
  match raw s with Follower _ | Standalone => true | _ => false end.
Definition asserts (s : ValidatedNodeStatus) : bool :=
  match raw s with Leader _ => true | Follower _ | Standalone => false | _ => held_leadership_flag s end.

Lemma held_publish v s now :
  held_leadership (set_node_status v s now) = asserts s || (negb (clears s) && held_leadership v).
Proof.
  unfold held_leadership, set_node_status, asserts, clears. cbn.
  destruct (raw s); cbn; try done; by destruct (held_leadership_flag s), (status_is_leader (raw v)), (held_leadership_flag v).
Qed.

(** Whether a node counts as having held leadership, which decides if a
    demotion may rewind its log, is what its published statuses say: it holds
    exactly when some status asserted it (a leader, or a fence of a leader) and
    no follower or standalone status came later.  The interim statuses in
    between, however many, do not lose it. *)
Theorem held_leadership_provenance (trace : list (ValidatedNodeStatus * Z)) :
  held_leadership (foldl publish create_boot_catchup trace) = true <->
  exists before s after, trace = before ++ s :: after /\ asserts (fst s) = true /\
    Forall (fun p => clears (fst p) = false) after.
Proof.
  induction trace as [|p trace IH] using rev_ind.
  { cbn. split; [done|]. intros (b & s & a & E & _). by destruct b. }
  rewrite foldl_app. cbn [foldl]. unfold publish at 1. rewrite held_publish, orb_true_iff, andb_true_iff, IH. split.
  - intros [Ha|[Hc (b & s & a & -> & Hs & Hf)]].
    + exists trace, p, []. split_and!; [done|done|constructor].
    + exists b, s, (a ++ [p]). split_and!; [by rewrite <- app_assoc|done|].
      apply Forall_app. split; [done|]. constructor; [by apply negb_true_iff in Hc|constructor].
  - intros (b & s & a & E & Hs & Hf). destruct a as [|q a _] using rev_ind.
    + apply app_inj_tail in E as [_ ->]. by left.
    + rewrite app_comm_cons, app_assoc in E. apply app_inj_tail in E as [-> ->].
      apply Forall_app in Hf as [Hf Hq]. inversion_clear Hq. right.
      split; [by apply negb_true_iff|]. by exists b, s, a.
Qed.

(** Two nodes that register, in whatever state the table was left in by
    the two of them, end up in its two slots under their current addresses, and
    each finds the other as its peer. *)
Theorem membership_peers (m : Membership) (a b : NodeInfo) :
  membership_wf m -> (forall n, n ∈ nodes m -> ni_node_id n = ni_node_id a \/ ni_node_id n = ni_node_id b) ->
  ni_node_id a <> ni_node_id b ->
  let m' := register (register m a) b in
  membership_wf m' /\ node_count m' = 2%nat /\
  peer_of m' (ni_node_id a) = Some b /\ peer_of m' (ni_node_id b) = Some a.
Proof.
  intros Hwf Hids Hne m'.
  assert (Ha : a ∈ nodes (register m a)) by (apply register_in; by eapply slot_free).
  assert (Hwf1 : membership_wf (register m a)) by (by apply register_wf).
  assert (Hb : b ∈ nodes m').
  { apply register_in. eapply (slot_free _ b a); [done|done|]. intros n [->|Hn]%register_only; [by right|].
    destruct (Hids n Hn); auto. }
  assert (Ha' : a ∈ nodes m') by (by apply register_keeps).
  assert (Hwf' : membership_wf m') by (by apply register_wf).
  split_and!; [done| |by eapply peer_of_spec; eauto|eapply peer_of_spec; eauto].
  apply elem_of_slots in Ha', Hb. unfold node_count, nodes.
  destruct Ha' as [E|E], Hb as [E'|E']; rewrite E, ?E' in *; simplify_eq; done.
Qed.

Definition sample_node (id : Z) : NodeInfo :=
  {| ni_node_id := id; client_address := "client"; replication_address := "peer" |}.

Lemma membership_peers_witness :
  peer_of (register (register Membership_empty (sample_node 1)) (sample_node 2)) 1 = Some (sample_node 2).
Proof.
  destruct (membership_peers Membership_empty (sample_node 1) (sample_node 2)) as (_ & _ & H & _).
  - constructor.
  - by intros n ?%not_elem_of_nil.
  - done.
  - exact H.
Defined.
