(* ===== verification/Election.v ===== *)
(** * Leader election over the lease object

    [celeriant_distributed/src/s3_lease_manager.rs] over the [LeaseStore] trait
    of [lease_store.rs].  The manager's methods suspend at every store call, so
    they are programs: trees of store operations and clock reads.  The cluster
    runs any number of them, of any number of nodes, one operation at a time. *)

From S2P Require Import Prelude Lease.

(** ** The store interface *)

Record LeaseWithEtag := { lwe_lease : Lease; lwe_etag : string }.
Record MembershipWithEtag := { mwe_membership : Membership; mwe_etag : string }.

Inductive LeaseStoreError :=
  | AlreadyExists
  | PreconditionFailed
  | Unavailable (message : string).

(** A program: the calls of the [LeaseStore] trait and [unix_epoch_now_ms]. *)
Inductive prog (A : Type) : Type :=
  | Ret (a : A)
  | Now (k : Z -> prog A)
  | GetLease (k : result LeaseStoreError (option LeaseWithEtag) -> prog A)
  | PutLeaseCreateOnly (l : Lease) (k : result LeaseStoreError string -> prog A)
  | PutLeaseConditional (l : Lease) (etag : string) (k : result LeaseStoreError string -> prog A)
  | GetMembership (k : result LeaseStoreError (option MembershipWithEtag) -> prog A)
  | PutMembership (m : Membership) (etag : option string) (k : result LeaseStoreError unit -> prog A).
Arguments Ret {A} a.
Arguments Now {A} k.
Arguments GetLease {A} k.
Arguments PutLeaseCreateOnly {A} l k.
Arguments PutLeaseConditional {A} l etag k.
Arguments GetMembership {A} k.
Arguments PutMembership {A} m etag k.

#[global] Instance prog_ret : MRet prog := fun A => Ret.
#[global] Instance prog_bind : MBind prog :=
  fun A B f => fix go (p : prog A) : prog B :=
    match p with
    | Ret a => f a
    | Now k => Now (fun x => go (k x))
    | GetLease k => GetLease (fun x => go (k x))
    | PutLeaseCreateOnly l k => PutLeaseCreateOnly l (fun x => go (k x))
    | PutLeaseConditional l etag k => PutLeaseConditional l etag (fun x => go (k x))
    | GetMembership k => GetMembership (fun x => go (k x))
    | PutMembership m etag k => PutMembership m etag (fun x => go (k x))
    end.

Definition unix_epoch_now_ms : prog Z := Now Ret.
Definition get_lease : prog (result LeaseStoreError (option LeaseWithEtag)) := GetLease Ret.
Definition put_lease_create_only (l : Lease) : prog (result LeaseStoreError string) := PutLeaseCreateOnly l Ret.
Definition put_lease_conditional (l : Lease) (etag : string) : prog (result LeaseStoreError string) :=
  PutLeaseConditional l etag Ret.
Definition get_membership : prog (result LeaseStoreError (option MembershipWithEtag)) := GetMembership Ret.
Definition put_membership (m : Membership) (etag : option string) : prog (result LeaseStoreError unit) :=
  PutMembership m etag Ret.

(** ** [S3LeaseManager] *)

Record S3LeaseConfig := {
  cfg_node_id : Z;
  advertised_client_address : string;
  advertised_replication_address : string;
  s3_lease_duration : Z;
  max_clock_drift : Z;
}.

Record ElectionOutcome := {
  status : ValidatedNodeStatus;
  peer_info : option NodeInfo;
  reacquired_own_lease : bool;
  cas_written : bool;
}.

Definition MEMBERSHIP_CAS_MAX_RETRIES : nat := 5.

Definition self_info (cfg : S3LeaseConfig) : NodeInfo :=
  {| ni_node_id := cfg_node_id cfg; client_address := advertised_client_address cfg;
     replication_address := advertised_replication_address cfg |}.

Fixpoint register_attempts (cfg : S3LeaseConfig) (n : nat) : prog (result LeaseStoreError unit) :=
  match n with
  | O => mret (Err (Unavailable "membership CAS failed after 5 retries"))
  | S n =>
      existing ← get_membership;
      match existing with
      | Err e => mret (Err e)
      | Ok existing =>
          let '(membership, etag) :=
            match existing with
            | Some mwe => (mwe_membership mwe, Some (mwe_etag mwe))
            | None => (Membership_empty, None)
            end in
          r ← put_membership (register membership (self_info cfg)) etag;
          match r with
          | Ok _ => mret (Ok tt)
          | Err PreconditionFailed => register_attempts cfg n
          | Err e => mret (Err e)
          end
      end
  end.

Definition register_self_on_membership_s3_object (cfg : S3LeaseConfig) : prog (result LeaseStoreError unit) :=
  register_attempts cfg MEMBERSHIP_CAS_MAX_RETRIES.

Definition discover_peer (cfg : S3LeaseConfig) : prog (result LeaseStoreError (option NodeInfo)) :=
  m ← get_membership;
  mret (match m with
        | Err e => Err e
        | Ok m => Ok (mwe ← m; peer_of (mwe_membership mwe) (cfg_node_id cfg))
        end).

(** [discover_peer().await.ok().flatten()]. *)
Definition flatten_ok {A} (r : result LeaseStoreError (option A)) : option A :=
  match r with Ok o => o | Err _ => None end.

Definition become_follower (cfg : S3LeaseConfig) (lease : Lease) : prog (result LeaseStoreError ElectionOutcome) :=
  peer ← discover_peer cfg;
  mret (Ok {| status := create_custom_status (Follower (lease_epoch lease)) (max_clock_drift cfg) (expires_at_ms lease);
              peer_info := flatten_ok peer; reacquired_own_lease := false; cas_written := false |}).

Definition become_leader (cfg : S3LeaseConfig) (lease : Lease) (reacquired_own_lease cas_written : bool)
    : prog (result LeaseStoreError ElectionOutcome) :=
  peer ← discover_peer cfg;
  mret (Ok {| status := create_custom_status (Leader (lease_epoch lease)) (max_clock_drift cfg) (expires_at_ms lease);
              peer_info := flatten_ok peer; reacquired_own_lease := reacquired_own_lease;
              cas_written := cas_written |}).

(** The branch without a lease: race to create it. *)
Definition create_lease (cfg : S3LeaseConfig) : prog (result LeaseStoreError ElectionOutcome) :=
  now ← unix_epoch_now_ms;
  let lease := new_initial (cfg_node_id cfg) now (s3_lease_duration cfg) in
  r ← put_lease_create_only lease;
  match r with
  | Ok _ => become_leader cfg lease false true
  | Err AlreadyExists =>
      again ← get_lease;
      match again with
      | Err e => mret (Err e)
      | Ok None => mret (Err (Unavailable "lease disappeared after AlreadyExists"))
      | Ok (Some lwe) => become_follower cfg (lwe_lease lwe)
      end
  | Err e => mret (Err e)
  end.

(** After a lost race: stay leader only when the lease is still this node's. *)
Definition reread_lease (cfg : S3LeaseConfig) : prog (result LeaseStoreError ElectionOutcome) :=
  again ← get_lease;
  match again with
  | Err e => mret (Err e)
  | Ok None => mret (Err (Unavailable "lease disappeared after PreconditionFailed"))
  | Ok (Some new_lwe) =>
      let still_ours := leader_node_id (lwe_lease new_lwe) =? cfg_node_id cfg in
      now_after_roundtrips ← unix_epoch_now_ms;
      let expired := is_expired (lwe_lease new_lwe) now_after_roundtrips in
      if still_ours && negb expired then become_leader cfg (lwe_lease new_lwe) true false
      else become_follower cfg (lwe_lease new_lwe)
  end.

(** The branch that takes the lease over, or renews this node's own. *)
Definition race_lease (cfg : S3LeaseConfig) (lwe : LeaseWithEtag) : prog (result LeaseStoreError ElectionOutcome) :=
  let is_own_lease := leader_node_id (lwe_lease lwe) =? cfg_node_id cfg in
  now_before_write ← unix_epoch_now_ms;
  let next := if is_own_lease then renew (lwe_lease lwe) now_before_write (s3_lease_duration cfg)
              else promote (lwe_lease lwe) (cfg_node_id cfg) now_before_write (s3_lease_duration cfg) in
  r ← put_lease_conditional next (lwe_etag lwe);
  match r with
  | Ok _ => become_leader cfg next is_own_lease true
  | Err PreconditionFailed => reread_lease cfg
  | Err e => mret (Err e)
  end.

Definition run_election_to_acquire_s3_lease (cfg : S3LeaseConfig) : prog (result LeaseStoreError ElectionOutcome) :=
  now ← unix_epoch_now_ms;
  r ← get_lease;
  match r with
  | Err e => mret (Err e)
  | Ok None => create_lease cfg
  | Ok (Some lwe) =>
      if negb (is_expired (lwe_lease lwe) now) && negb (leader_node_id (lwe_lease lwe) =? cfg_node_id cfg)
      then become_follower cfg (lwe_lease lwe)
      else race_lease cfg lwe
  end.

Definition peek_lease : prog (result LeaseStoreError (option Lease)) :=
  r ← get_lease;
  Ret (match r with Err e => Err e | Ok o => Ok (option_map lwe_lease o) end).

(** ** The cluster *)

Section cluster.
(** The clock of each node against real time. *)
Context (clock : Z -> Z -> Z).
Context (config : Z -> S3LeaseConfig).

(** A lease as written: with the real time of the write. *)
Record logged := { lg_lease : Lease; lg_time : Z }.

Inductive task :=
  | Election (p : prog (result LeaseStoreError ElectionOutcome))
  | Registration (p : prog (result LeaseStoreError unit)).

(** The store, its history (newest lease first, and which lease and membership
    each etag was given to), the programs in flight and the results so far. *)
Record cluster := {
  time : Z;
  lease_obj : option LeaseWithEtag;
  lease_log : list logged;
  lease_etags : gmap string Lease;
  membership_obj : option MembershipWithEtag;
  membership_etags : gmap string Membership;
  tasks : list (Z * task);
  outcomes : list (Z * ElectionOutcome);
  registered : list Z;
}.

Definition cluster_init (t : Z) : cluster :=
  {| time := t; lease_obj := None; lease_log := []; lease_etags := ∅; membership_obj := None;
     membership_etags := ∅; tasks := []; outcomes := []; registered := [] |}.

(** An etag may be reused, but only for the same content. *)
Definition etag_ok {V} (etags : gmap string V) (e : string) (v : V) : Prop :=
  forall v', etags !! e = Some v' -> v' = v.

Definition write_lease (c : cluster) (l : Lease) (e : string) : cluster :=
  {| time := time c; lease_obj := Some {| lwe_lease := l; lwe_etag := e |};
     lease_log := {| lg_lease := l; lg_time := time c |} :: lease_log c;
     lease_etags := <[e := l]> (lease_etags c); membership_obj := membership_obj c;
     membership_etags := membership_etags c; tasks := tasks c; outcomes := outcomes c;
     registered := registered c |}.

Definition write_membership (c : cluster) (m : Membership) (e : string) : cluster :=
  {| time := time c; lease_obj := lease_obj c; lease_log := lease_log c; lease_etags := lease_etags c;
     membership_obj := Some {| mwe_membership := m; mwe_etag := e |};
     membership_etags := <[e := m]> (membership_etags c); tasks := tasks c; outcomes := outcomes c;
     registered := registered c |}.

(** One operation of a program of node [n].  A call may fail at any time, and
    a write that reports a failure may have taken effect. *)
Inductive exec (n : Z) {A} : cluster -> prog A -> cluster -> prog A -> Prop :=
  | exec_now c k : exec n c (Now k) c (k (clock n (time c)))
  | exec_get c k : exec n c (GetLease k) c (k (Ok (lease_obj c)))
  | exec_get_err c k m : exec n c (GetLease k) c (k (Err (Unavailable m)))
  | exec_create c l k e : lease_obj c = None -> etag_ok (lease_etags c) e l ->
      exec n c (PutLeaseCreateOnly l k) (write_lease c l e) (k (Ok e))
  | exec_create_lost c l k e err : lease_obj c = None -> etag_ok (lease_etags c) e l ->
      exec n c (PutLeaseCreateOnly l k) (write_lease c l e) (k (Err err))
  | exec_create_exists c l k : is_Some (lease_obj c) ->
      exec n c (PutLeaseCreateOnly l k) c (k (Err AlreadyExists))
  | exec_create_err c l k m : exec n c (PutLeaseCreateOnly l k) c (k (Err (Unavailable m)))
  | exec_cond c l e k e' : lwe_etag <$> lease_obj c = Some e -> etag_ok (lease_etags c) e' l ->
      exec n c (PutLeaseConditional l e k) (write_lease c l e') (k (Ok e'))
  | exec_cond_lost c l e k e' err : lwe_etag <$> lease_obj c = Some e -> etag_ok (lease_etags c) e' l ->
      exec n c (PutLeaseConditional l e k) (write_lease c l e') (k (Err err))
  | exec_cond_failed c l e k : lwe_etag <$> lease_obj c <> Some e ->
      exec n c (PutLeaseConditional l e k) c (k (Err PreconditionFailed))
  | exec_cond_err c l e k m : exec n c (PutLeaseConditional l e k) c (k (Err (Unavailable m)))
  | exec_get_membership c k : exec n c (GetMembership k) c (k (Ok (membership_obj c)))
  | exec_get_membership_err c k m : exec n c (GetMembership k) c (k (Err (Unavailable m)))
  | exec_put_membership c m e k e' : mwe_etag <$> membership_obj c = e -> etag_ok (membership_etags c) e' m ->
      exec n c (PutMembership m e k) (write_membership c m e') (k (Ok tt))
  | exec_put_membership_lost c m e k e' err : mwe_etag <$> membership_obj c = e -> etag_ok (membership_etags c) e' m ->
      exec n c (PutMembership m e k) (write_membership c m e') (k (Err err))
  | exec_put_membership_failed c m e k : mwe_etag <$> membership_obj c <> e ->
      exec n c (PutMembership m e k) c (k (Err PreconditionFailed))
  | exec_put_membership_exists c m k : is_Some (membership_obj c) ->
      exec n c (PutMembership m None k) c (k (Err AlreadyExists))
  | exec_put_membership_err c m e k msg : exec n c (PutMembership m e k) c (k (Err (Unavailable msg))).

Definition with_tasks (c : cluster) (ts : list (Z * task)) : cluster :=
  {| time := time c; lease_obj := lease_obj c; lease_log := lease_log c; lease_etags := lease_etags c;
     membership_obj := membership_obj c; membership_etags := membership_etags c; tasks := ts;
     outcomes := outcomes c; registered := registered c |}.

Definition with_outcome (c : cluster) (n : Z) (o : ElectionOutcome) : cluster :=
  {| time := time c; lease_obj := lease_obj c; lease_log := lease_log c; lease_etags := lease_etags c;
     membership_obj := membership_obj c; membership_etags := membership_etags c; tasks := tasks c;
     outcomes := (n, o) :: outcomes c; registered := registered c |}.

Definition with_registered (c : cluster) (n : Z) : cluster :=
  {| time := time c; lease_obj := lease_obj c; lease_log := lease_log c; lease_etags := lease_etags c;
     membership_obj := membership_obj c; membership_etags := membership_etags c; tasks := tasks c;
     outcomes := outcomes c; registered := n :: registered c |}.

Definition with_time (c : cluster) (t : Z) : cluster :=
  {| time := t; lease_obj := lease_obj c; lease_log := lease_log c; lease_etags := lease_etags c;
     membership_obj := membership_obj c; membership_etags := membership_etags c; tasks := tasks c;
     outcomes := outcomes c; registered := registered c |}.

Inductive cluster_step : cluster -> cluster -> Prop :=
  | step_time c t : time c <= t -> cluster_step c (with_time c t)
  (** Any node starts an election or a registration at any time. *)
  | step_elect c n :
      cluster_step c (with_tasks c ((n, Election (run_election_to_acquire_s3_lease (config n))) :: tasks c))
  | step_register c n :
      cluster_step c (with_tasks c ((n, Registration (register_self_on_membership_s3_object (config n))) :: tasks c))
  | step_exec_election c c' n p p' l1 l2 :
      tasks c = l1 ++ (n, Election p) :: l2 -> exec n c p c' p' ->
      cluster_step c (with_tasks c' (l1 ++ (n, Election p') :: l2))
  | step_exec_registration c c' n p p' l1 l2 :
      tasks c = l1 ++ (n, Registration p) :: l2 -> exec n c p c' p' ->
      cluster_step c (with_tasks c' (l1 ++ (n, Registration p') :: l2))
  | step_elected c n o l1 l2 :
      tasks c = l1 ++ (n, Election (Ret (Ok o))) :: l2 ->
      cluster_step c (with_outcome (with_tasks c (l1 ++ l2)) n o)
  | step_registered c n l1 l2 :
      tasks c = l1 ++ (n, Registration (Ret (Ok tt))) :: l2 ->
      cluster_step c (with_registered (with_tasks c (l1 ++ l2)) n)
  (** A program fails, or its node stops. *)
  | step_drop c t l1 l2 : tasks c = l1 ++ t :: l2 -> cluster_step c (with_tasks c (l1 ++ l2)).

(** ** Where a program can be *)

Definition outcome_of (st : NodeStatus) (cfg : S3LeaseConfig) (lease : Lease) (own written : bool)
    (peer : result LeaseStoreError (option NodeInfo)) : prog (result LeaseStoreError ElectionOutcome) :=
  Ret (Ok {| status := create_custom_status st (max_clock_drift cfg) (expires_at_ms lease);
             peer_info := flatten_ok peer; reacquired_own_lease := own; cas_written := written |}).

Definition peer_result (cfg : S3LeaseConfig) (m : result LeaseStoreError (option MembershipWithEtag))
    : result LeaseStoreError (option NodeInfo) :=
  match m with Err e => Err e | Ok m => Ok (mwe ← m; peer_of (mwe_membership mwe) (cfg_node_id cfg)) end.

Lemma become_follower_eq cfg lease : become_follower cfg lease =
  GetMembership (fun m => outcome_of (Follower (lease_epoch lease)) cfg lease false false (peer_result cfg m)).
Proof. done. Qed.

Lemma become_leader_eq cfg lease own written : become_leader cfg lease own written =
  GetMembership (fun m => outcome_of (Leader (lease_epoch lease)) cfg lease own written (peer_result cfg m)).
Proof. done. Qed.

Definition follow_existing (cfg : S3LeaseConfig) (again : result LeaseStoreError (option LeaseWithEtag)) :=
  match again with
  | Err e => Ret (Err e)
  | Ok None => Ret (Err (Unavailable "lease disappeared after AlreadyExists"))
  | Ok (Some lwe) => become_follower cfg (lwe_lease lwe)
  end.

Definition created (cfg : S3LeaseConfig) (lease : Lease) (r : result LeaseStoreError string) :=
  match r with
  | Ok _ => become_leader cfg lease false true
  | Err AlreadyExists => GetLease (follow_existing cfg)
  | Err e => Ret (Err e)
  end.

Lemma create_lease_eq cfg : create_lease cfg = Now (fun now =>
  let lease := new_initial (cfg_node_id cfg) now (s3_lease_duration cfg) in
  PutLeaseCreateOnly lease (created cfg lease)).
Proof. done. Qed.

Definition reread_at (cfg : S3LeaseConfig) (lwe : LeaseWithEtag) (now : Z) :=
  if (leader_node_id (lwe_lease lwe) =? cfg_node_id cfg) && negb (is_expired (lwe_lease lwe) now)
  then become_leader cfg (lwe_lease lwe) true false else become_follower cfg (lwe_lease lwe).

Definition reread_got (cfg : S3LeaseConfig) (again : result LeaseStoreError (option LeaseWithEtag)) :=
  match again with
  | Err e => Ret (Err e)
  | Ok None => Ret (Err (Unavailable "lease disappeared after PreconditionFailed"))
  | Ok (Some lwe) => Now (reread_at cfg lwe)
  end.

Definition next_lease (cfg : S3LeaseConfig) (l : Lease) (now : Z) : Lease :=
  if leader_node_id l =? cfg_node_id cfg then renew l now (s3_lease_duration cfg)
  else promote l (cfg_node_id cfg) now (s3_lease_duration cfg).

Definition raced (cfg : S3LeaseConfig) (next : Lease) (own : bool) (r : result LeaseStoreError string) :=
  match r with
  | Ok _ => become_leader cfg next own true
  | Err PreconditionFailed => GetLease (reread_got cfg)
  | Err e => Ret (Err e)
  end.

Lemma race_lease_eq cfg lwe : race_lease cfg lwe = Now (fun now =>
  PutLeaseConditional (next_lease cfg (lwe_lease lwe) now) (lwe_etag lwe)
    (raced cfg (next_lease cfg (lwe_lease lwe) now) (leader_node_id (lwe_lease lwe) =? cfg_node_id cfg))).
Proof. done. Qed.

Definition election_got (cfg : S3LeaseConfig) (now : Z) (r : result LeaseStoreError (option LeaseWithEtag)) :=
  match r with
  | Err e => Ret (Err e)
  | Ok None => create_lease cfg
  | Ok (Some lwe) =>
      if negb (is_expired (lwe_lease lwe) now) && negb (leader_node_id (lwe_lease lwe) =? cfg_node_id cfg)
      then become_follower cfg (lwe_lease lwe) else race_lease cfg lwe
  end.

Lemma run_election_eq cfg : run_election_to_acquire_s3_lease cfg = Now (fun now => GetLease (election_got cfg now)).
Proof. done. Qed.

(** ** The invariant *)

Context (Hconfig : forall n, cfg_node_id (config n) = n).

(** The clocks run forward and are within [skew] of real time. *)
Definition clocks_ok (skew : Z) : Prop :=
  (forall n t t', t <= t' -> clock n t <= clock n t') /\ (forall n t, t - skew <= clock n t <= t + skew).

Context (skew : Z).

(** A lease over an earlier one: the epoch never goes down, an epoch belongs
    to one node, and a new epoch starts when the old lease has expired. *)
Definition after (new old : logged) : Prop :=
  lease_epoch (lg_lease old) <= lease_epoch (lg_lease new) /\
  (lease_epoch (lg_lease old) = lease_epoch (lg_lease new) ->
     leader_node_id (lg_lease old) = leader_node_id (lg_lease new) /\
     (clocks_ok skew -> acquired_at_ms (lg_lease old) <= acquired_at_ms (lg_lease new))) /\
  (lease_epoch (lg_lease old) < lease_epoch (lg_lease new) -> clocks_ok skew ->
     expires_at_ms (lg_lease old) - skew <= lg_time new).

Definition entry_inv (now : Z) (g : logged) : Prop :=
  lg_time g <= now /\
  expires_at_ms (lg_lease g) = acquired_at_ms (lg_lease g) + s3_lease_duration (config (leader_node_id (lg_lease g))) /\
  (clocks_ok skew -> acquired_at_ms (lg_lease g) <= clock (leader_node_id (lg_lease g)) (lg_time g)).

Record store_inv (c : cluster) : Prop := {
  si_sorted : StronglySorted after (lease_log c);
  si_entries : Forall (entry_inv (time c)) (lease_log c);
  si_none : lease_obj c = None -> lease_log c = [];
  si_some lwe : lease_obj c = Some lwe -> exists g log, lease_log c = g :: log /\ lg_lease g = lwe_lease lwe /\
    lease_etags c !! lwe_etag lwe = Some (lwe_lease lwe);
}.

Definition in_log (c : cluster) (l : Lease) : Prop := exists g, g ∈ lease_log c /\ lg_lease g = l.

(** What node [n] knows of a lease it read. *)
Definition knows (c : cluster) (n : Z) (lwe : LeaseWithEtag) : Prop :=
  lease_etags c !! lwe_etag lwe = Some (lwe_lease lwe) /\ in_log c (lwe_lease lwe) /\
  (clocks_ok skew -> leader_node_id (lwe_lease lwe) = n -> acquired_at_ms (lwe_lease lwe) <= clock n (time c)).

Inductive epc (c : cluster) (n : Z) : prog (result LeaseStoreError ElectionOutcome) -> Prop :=
  | pc_start : epc c n (Now (fun now => GetLease (election_got (config n) now)))
  | pc_read now : (clocks_ok skew -> now <= clock n (time c)) -> epc c n (GetLease (election_got (config n) now))
  | pc_create : epc c n (create_lease (config n))
  | pc_creating now : (clocks_ok skew -> now <= clock n (time c)) ->
      let lease := new_initial n now (s3_lease_duration (config n)) in
      epc c n (PutLeaseCreateOnly lease (created (config n) lease))
  | pc_follow : epc c n (GetLease (follow_existing (config n)))
  | pc_race lwe : knows c n lwe ->
      (leader_node_id (lwe_lease lwe) <> n -> clocks_ok skew -> expires_at_ms (lwe_lease lwe) <= clock n (time c)) ->
      epc c n (race_lease (config n) lwe)
  | pc_racing lwe now own : knows c n lwe ->
      (leader_node_id (lwe_lease lwe) <> n -> clocks_ok skew -> expires_at_ms (lwe_lease lwe) <= clock n (time c)) ->
      (clocks_ok skew -> now <= clock n (time c)) ->
      (clocks_ok skew -> leader_node_id (lwe_lease lwe) = n -> acquired_at_ms (lwe_lease lwe) <= now) ->
      let next := next_lease (config n) (lwe_lease lwe) now in
      epc c n (PutLeaseConditional next (lwe_etag lwe) (raced (config n) next own))
  | pc_reread : epc c n (GetLease (reread_got (config n)))
  | pc_reread_at lwe : in_log c (lwe_lease lwe) -> epc c n (Now (reread_at (config n) lwe))
  | pc_following lease : epc c n (become_follower (config n) lease)
  | pc_leading lease own written : in_log c lease -> leader_node_id lease = n ->
      epc c n (become_leader (config n) lease own written)
  | pc_followed lease peer : epc c n (outcome_of (Follower (lease_epoch lease)) (config n) lease false false peer)
  | pc_led lease own written peer : in_log c lease -> leader_node_id lease = n ->
      epc c n (outcome_of (Leader (lease_epoch lease)) (config n) lease own written peer)
  | pc_failed e : epc c n (Ret (Err e)).

(** Time passes and the history grows. *)
Definition le_cluster (c c' : cluster) : Prop :=
  time c <= time c' /\ (forall l, in_log c l -> in_log c' l) /\
  (forall e l, lease_etags c !! e = Some l -> lease_etags c' !! e = Some l).

Lemma clock_later c c' n x : le_cluster c c' ->
  (clocks_ok skew -> x <= clock n (time c)) -> clocks_ok skew -> x <= clock n (time c').
Proof. intros (Ht & _) Hx Hc. etrans; [by apply Hx|]. by apply Hc. Qed.

Lemma knows_le c c' n lwe : le_cluster c c' -> knows c n lwe -> knows c' n lwe.
Proof.
  intros Hle (He & Hl & Ha). pose proof Hle as (Ht & Hlog & Hetag). split_and!; [by apply Hetag|by apply Hlog|].
  intros Hc Hn. eapply clock_later; [done| |done]. auto.
Qed.

Lemma epc_le c c' n p : le_cluster c c' -> epc c n p -> epc c' n p.
Proof.
  intros Hle Hp. pose proof Hle as (_ & Hlog & _).
  destruct Hp; try by constructor; eauto using clock_later, knows_le.
Qed.

(** *** Writes *)

Lemma after_refl g : after g g.
Proof. split_and!; [done|done|lia]. Qed.

Lemma write_le c l e : etag_ok (lease_etags c) e l -> le_cluster c (write_lease c l e).
Proof.
  intros He. split_and!; [done| |].
  - intros l' (g & Hg & Hl). exists g. split; [by apply list_elem_of_further|done].
  - intros e' l' Hl. cbn. destruct (decide (e' = e)) as [->|]; [|by rewrite lookup_insert_ne].
    rewrite lookup_insert_eq. f_equal. symmetry. by apply He.
Qed.

Lemma in_log_write c l e : in_log (write_lease c l e) l.
Proof. eexists. split; [apply list_elem_of_here|done]. Qed.

Lemma write_inv c l e : store_inv c ->
  Forall (after {| lg_lease := l; lg_time := time c |}) (lease_log c) ->
  expires_at_ms l = acquired_at_ms l + s3_lease_duration (config (leader_node_id l)) ->
  (clocks_ok skew -> acquired_at_ms l <= clock (leader_node_id l) (time c)) ->
  store_inv (write_lease c l e).
Proof.
  intros [Hs He Hn Hsome] Ha Hx Hacq. split; cbn.
  - by constructor.
  - constructor; [|done]. done.
  - done.
  - intros lwe [= <-]. eexists _, _. split_and!; [done|done|]. cbn. by rewrite lookup_insert_eq.
Qed.

Lemma write_initial c n now e : store_inv c -> lease_obj c = None ->
  (clocks_ok skew -> now <= clock n (time c)) ->
  store_inv (write_lease c (new_initial n now (s3_lease_duration (config n))) e).
Proof.
  intros Hi Hnone Hnow. apply write_inv; [done| |done|done].
  rewrite (si_none _ Hi Hnone). constructor.
Qed.

Lemma head_after c g log : store_inv c -> lease_log c = g :: log -> Forall (after g) (lease_log c).
Proof.
  intros Hi E. pose proof (si_sorted _ Hi) as Hs. rewrite E in *. inversion_clear Hs.
  constructor; [apply after_refl|done].
Qed.

(** Renewal of the newest lease, or promotion over it once it has expired. *)
Lemma write_next c n l now e g log : store_inv c -> lease_log c = g :: log -> lg_lease g = l ->
  (leader_node_id l <> n -> clocks_ok skew -> expires_at_ms l <= clock n (time c)) ->
  (clocks_ok skew -> now <= clock n (time c)) ->
  (clocks_ok skew -> leader_node_id l = n -> acquired_at_ms l <= now) ->
  store_inv (write_lease c (next_lease (config n) l now) e).
Proof.
  intros Hi Hlog <- Hexp Hnow Hacq. pose proof (head_after _ _ _ Hi Hlog) as Hall.
  pose proof (si_entries _ Hi) as Hent. rewrite Hlog in Hent. inversion_clear Hent as [|? ? (Ht & _ & _) _].
  rewrite Forall_forall in Hall.
  unfold next_lease. rewrite Hconfig. destruct (Z.eqb_spec (leader_node_id (lg_lease g)) n) as [Heq|Hne].
  - apply write_inv; [done| |cbn; by rewrite Heq|cbn; by rewrite Heq].
    apply Forall_forall. intros o Ho. destruct (Hall o Ho) as (He & Hsame & Hlt). unfold after. cbn.
    split_and!; [done| |].
    + intros E. destruct (Hsame E) as [Hl Ha]. split; [done|]. intros Hc. specialize (Ha Hc). specialize (Hacq Hc Heq). lia.
    + intros E Hc. specialize (Hlt E Hc). lia.
  - apply write_inv; [done| |done|done].
    pose proof (si_entries _ Hi) as Hent. rewrite Forall_forall in Hent.
    apply Forall_forall. intros o Ho. destruct (Hall o Ho) as (He & Hsame & Hlt). unfold after. cbn.
    split_and!; [lia|lia|]. intros _ Hc.
    destruct (Z.eq_dec (lease_epoch (lg_lease o)) (lease_epoch (lg_lease g))) as [E|]; [|specialize (Hlt ltac:(lia) Hc); lia].
    destruct (Hsame E) as [Hl Ha]. specialize (Ha Hc).
    destruct (Hent o Ho) as (_ & Ho2 & _). destruct (Hent g) as (_ & Hg2 & _); [rewrite Hlog; apply list_elem_of_here|].
    rewrite Hl in Ho2. specialize (Hexp Hne Hc). destruct Hc as [_ Hskew]. specialize (Hskew n (time c)). lia.
Qed.

(** *** Every operation preserves the invariant *)

Lemma reads_lease c n lwe : store_inv c -> lease_obj c = Some lwe -> knows c n lwe.
Proof.
  intros Hi Hl. destruct (si_some _ Hi lwe Hl) as (g & log & Hlog & Hg & He). split_and!; [done| |].
  - exists g. rewrite Hlog. split; [apply list_elem_of_here|done].
  - intros Hc Hn. pose proof (si_entries _ Hi) as Hent. rewrite Hlog in Hent.
    inversion_clear Hent as [|? ? (Ht & _ & Ha) _]. rewrite Hg, Hn in Ha. etrans; [by apply Ha|]. by apply Hc.
Qed.

Lemma next_lease_leader n l now : leader_node_id (next_lease (config n) l now) = n.
Proof. unfold next_lease. rewrite Hconfig. by destruct (Z.eqb_spec (leader_node_id l) n). Qed.

(** A conditional write finds the lease that was read. *)
Lemma cas_write c n lwe now e : store_inv c -> knows c n lwe ->
  lwe_etag <$> lease_obj c = Some (lwe_etag lwe) ->
  (leader_node_id (lwe_lease lwe) <> n -> clocks_ok skew -> expires_at_ms (lwe_lease lwe) <= clock n (time c)) ->
  (clocks_ok skew -> now <= clock n (time c)) ->
  (clocks_ok skew -> leader_node_id (lwe_lease lwe) = n -> acquired_at_ms (lwe_lease lwe) <= now) ->
  store_inv (write_lease c (next_lease (config n) (lwe_lease lwe) now) e).
Proof.
  intros Hi (Hetag & _) (lwe0 & Hobj & E)%fmap_Some Hexp Hnow Hacq.
  destruct (si_some _ Hi lwe0 Hobj) as (g & log & Hlog & Hg & Hetag0).
  rewrite <- E, Hetag in Hetag0. injection Hetag0 as El. eapply write_next; try done. congruence.
Qed.

Lemma le_refl c : le_cluster c c.
Proof. by split_and!. Qed.

Lemma exec_inv c n p c' p' : store_inv c -> epc c n p -> exec n c p c' p' ->
  store_inv c' /\ le_cluster c c' /\ epc c' n p'.
Proof.
  intros Hi Hp He. destruct Hp as [|now Hnow| |now Hnow lease| |lwe Hk Hexp|lwe now own Hk Hexp Hnow Hacq next
    | |lwe Hl|lease|lease own written Hl Hn|lease peer|lease own written peer Hl Hn|e];
    rewrite ?become_follower_eq, ?become_leader_eq, ?create_lease_eq, ?race_lease_eq in He;
    inversion He; subst; clear He.
  - split_and!; [done|apply le_refl|]. by apply pc_read.
  - split_and!; [done|apply le_refl|]. destruct (lease_obj c') as [lwe|] eqn:El; [|apply pc_create].
    cbn [election_got]. destruct (negb (is_expired (lwe_lease lwe) now) && _) eqn:Eg; [apply pc_following|].
    apply pc_race; [by apply reads_lease|]. intros Hn Hc. rewrite Hconfig in Eg.
    apply andb_false_iff in Eg as [Eg|Eg]; [|apply negb_false_iff, Z.eqb_eq in Eg; done].
    apply negb_false_iff in Eg. unfold is_expired in Eg. reflect. specialize (Hnow Hc). lia.
  - split_and!; [done|apply le_refl|]. apply pc_failed.
  - split_and!; [done|apply le_refl|]. cbv zeta. rewrite Hconfig. by apply pc_creating.
  - split_and!; [by apply write_initial|by apply write_le|]. apply pc_leading; [apply in_log_write|done].
  - split_and!; [by apply write_initial|by apply write_le|].
    destruct err; cbn [created]; [apply pc_follow|apply pc_failed|apply pc_failed].
  - split_and!; [done|apply le_refl|]. apply pc_follow.
  - split_and!; [done|apply le_refl|]. apply pc_failed.
  - split_and!; [done|apply le_refl|]. destruct (lease_obj c'); [apply pc_following|apply pc_failed].
  - split_and!; [done|apply le_refl|]. apply pc_failed.
  - split_and!; [done|apply le_refl|]. apply pc_racing; try done. intros Hc Hn. by apply Hk.
  - split_and!; [by eapply cas_write|by apply write_le|]. apply pc_leading; [apply in_log_write|apply next_lease_leader].
  - split_and!; [by eapply cas_write|by apply write_le|].
    destruct err; cbn [raced]; [apply pc_failed|apply pc_reread|apply pc_failed].
  - split_and!; [done|apply le_refl|]. apply pc_reread.
  - split_and!; [done|apply le_refl|]. apply pc_failed.
  - split_and!; [done|apply le_refl|]. destruct (lease_obj c') as [lwe|] eqn:El; [|apply pc_failed].
    cbn [reread_got]. apply pc_reread_at. by apply (reads_lease c' n lwe).
  - split_and!; [done|apply le_refl|]. apply pc_failed.
  - split_and!; [done|apply le_refl|]. unfold reread_at. rewrite Hconfig.
    destruct (Z.eqb_spec (leader_node_id (lwe_lease lwe)) n) as [Hn|]; cbn [andb]; [|apply pc_following].
    destruct (negb _); [by apply pc_leading|apply pc_following].
  - split_and!; [done|apply le_refl|]. apply pc_followed.
  - split_and!; [done|apply le_refl|]. apply pc_followed.
  - split_and!; [done|apply le_refl|]. by apply pc_led.
  - split_and!; [done|apply le_refl|]. by apply pc_led.
Qed.

(** *** Registrations *)

Definition reg_put (cfg : S3LeaseConfig) (k : nat) (r : result LeaseStoreError unit) :=
  match r with
  | Ok _ => Ret (Ok tt)
  | Err PreconditionFailed => register_attempts cfg k
  | Err e => Ret (Err e)
  end.

Definition read_table (existing : option MembershipWithEtag) : Membership * option string :=
  match existing with
  | Some mwe => (mwe_membership mwe, Some (mwe_etag mwe))
  | None => (Membership_empty, None)
  end.

Definition reg_got (cfg : S3LeaseConfig) (k : nat) (r : result LeaseStoreError (option MembershipWithEtag)) :=
  match r with
  | Err e => Ret (Err e)
  | Ok existing =>
      let '(membership, etag) := read_table existing in
      PutMembership (register membership (self_info cfg)) etag (reg_put cfg k)
  end.

(** The node has a slot with its current addresses, or both slots belong to
    other nodes. *)
Definition in_membership (m : Membership) (n : Z) : Prop :=
  self_info (config n) ∈ nodes m \/ is_fully_replicated m = true /\ forall x, x ∈ nodes m -> ni_node_id x <> n.

Definition in_table (c : cluster) (n : Z) : Prop :=
  exists mwe, membership_obj c = Some mwe /\ in_membership (mwe_membership mwe) n.

Definition table_inv (c : cluster) : Prop := forall mwe, membership_obj c = Some mwe ->
  membership_etags c !! mwe_etag mwe = Some (mwe_membership mwe) /\ membership_wf (mwe_membership mwe).

(** What a registration read is still the content of its etag. *)
Definition table_read (c : cluster) (m : Membership) (etag : option string) : Prop :=
  membership_wf m /\ match etag with Some e => membership_etags c !! e = Some m | None => m = Membership_empty end.

Inductive rpc (c : cluster) (n : Z) : prog (result LeaseStoreError unit) -> Prop :=
  | rpc_get k : rpc c n (GetMembership (reg_got (config n) k))
  | rpc_put m etag k : table_read c m etag ->
      rpc c n (PutMembership (register m (self_info (config n))) etag (reg_put (config n) k))
  | rpc_done : in_table c n -> rpc c n (Ret (Ok tt))
  | rpc_failed e : rpc c n (Ret (Err e)).

Lemma register_attempts_eq cfg k : register_attempts cfg (S k) = GetMembership (reg_got cfg k).
Proof. done. Qed.

Lemma register_attempts_pc c n k : rpc c n (register_attempts (config n) k).
Proof. destruct k as [|k]; [apply rpc_failed|]. rewrite register_attempts_eq. apply rpc_get. Qed.

Lemma register_full m info : is_fully_replicated m = true -> is_fully_replicated (register m info) = true.
Proof.
  unfold is_fully_replicated, register. destruct (slot0 m) as [a|] eqn:Ea, (slot1 m) as [b|] eqn:Eb; try done.
  intros _. destruct (holds_node (Some a) _); cbn; [done|]. destruct (holds_node (Some b) _); cbn; [done|]. by rewrite Ea, Eb.
Qed.

Lemma register_refused m info : is_fully_replicated m = true ->
  (forall x, x ∈ nodes m -> ni_node_id x <> ni_node_id info) -> register m info = m.
Proof.
  intros Hf Hno. assert (Hh : forall s, (forall x, s = Some x -> x ∈ nodes m) -> holds_node s (ni_node_id info) = false).
  { intros s Hs. destruct (holds_node s (ni_node_id info)) eqn:E; [|done].
    apply holds_node_Some in E as (x & -> & Ex). by destruct (Hno x (Hs x eq_refl)). }
  unfold register. rewrite !Hh by (intros x Hx; apply elem_of_slots; auto).
  unfold is_fully_replicated in Hf. by destruct (slot0 m), (slot1 m).
Qed.

Lemma self_info_id n : ni_node_id (self_info (config n)) = n.
Proof. apply Hconfig. Qed.

Lemma in_membership_register m n k :
  in_membership m n -> in_membership (register m (self_info (config k))) n.
Proof.
  intros [Hin|[Hfull Hno]].
  - left. destruct (decide (k = n)) as [->|Hne]; [|apply register_keeps; [done|by rewrite !self_info_id]].
    apply register_in. left. by exists (self_info (config n)).
  - right. destruct (decide (k = n)) as [->|Hne].
    { rewrite register_refused; [done|done|]. by rewrite self_info_id. }
    split; [by apply register_full|]. intros x [->|Hx]%register_only; [by rewrite self_info_id|by apply Hno].
Qed.

Lemma in_membership_self m n : in_membership (register m (self_info (config n))) n.
Proof.
  destruct (decide (Exists (fun x => ni_node_id x = n) (nodes m))) as [Hex|Hno].
  - apply Exists_exists in Hex as (x & Hx & Ex). left. apply register_in. left. exists x. by rewrite self_info_id.
  - destruct (is_fully_replicated m) eqn:Ef; [|left; apply register_in; by right].
    assert (Hno' : forall x, x ∈ nodes m -> ni_node_id x <> n).
    { intros x Hx E. apply Hno, Exists_exists. eauto. }
    right. rewrite register_refused by (rewrite ?self_info_id; done). done.
Qed.

(** The history of the table grows, and nobody loses a slot. *)
Definition le_table (c c' : cluster) : Prop :=
  (forall e m, membership_etags c !! e = Some m -> membership_etags c' !! e = Some m) /\
  (forall n, in_table c n -> in_table c' n).

Lemma rpc_le c c' n p : le_table c c' -> rpc c n p -> rpc c' n p.
Proof.
  intros [He Ht]. destruct 1 as [| m etag k [Hwf Hr]| |]; constructor; auto. split; [done|]. destruct etag; auto.
Qed.

(** A write finds the table that was read. *)
Lemma table_cas c m etag : table_inv c -> table_read c m etag ->
  mwe_etag <$> membership_obj c = etag -> m = default Membership_empty (mwe_membership <$> membership_obj c).
Proof.
  intros Hi [_ Hr] E. destruct (membership_obj c) as [mwe|] eqn:Em; cbn in E; subst etag; [|done].
  destruct (Hi mwe Em) as [Hm _]. cbn. congruence.
Qed.

Lemma write_table_inv c n m etag e : table_inv c -> table_read c m etag ->
  mwe_etag <$> membership_obj c = etag ->
  etag_ok (membership_etags c) e (register m (self_info (config n))) ->
  let c' := write_membership c (register m (self_info (config n))) e in
  table_inv c' /\ le_table c c' /\ in_table c' n.
Proof.
  intros Hi Hr E He c'. split_and!.
  - intros mwe [= <-]. cbn. rewrite lookup_insert_eq. split; [done|]. apply register_wf, Hr.
  - split.
    + intros e' m' Hm. cbn. destruct (decide (e' = e)) as [->|]; [|by rewrite lookup_insert_ne].
      rewrite lookup_insert_eq. f_equal. symmetry. by apply He.
    + intros k (mwe & Hk & Hin). eexists. split; [done|]. cbn.
      rewrite (table_cas c m etag Hi Hr E), Hk. by apply in_membership_register.
  - eexists. split; [done|]. apply in_membership_self.
Qed.

Lemma le_table_refl c : le_table c c.
Proof. by split. Qed.

Lemma exec_rpc c n p c' p' : table_inv c -> rpc c n p -> exec n c p c' p' ->
  table_inv c' /\ le_table c c' /\ rpc c' n p'.
Proof.
  intros Hi Hp He. destruct Hp as [k|m etag k Hr|Hd|e]; inversion He; subst; clear He.
  - split_and!; [done|apply le_table_refl|]. cbn [reg_got]. destruct (membership_obj c') as [mwe|] eqn:Em; cbn [read_table].
    + destruct (Hi mwe Em) as [Hm Hw]. by apply rpc_put.
    + apply rpc_put. split; [|done]. constructor.
  - split_and!; [done|apply le_table_refl|]. apply rpc_failed.
  - destruct (write_table_inv c n m _ e' Hi Hr eq_refl) as (? & ? & ?); [done|]. split_and!; [done|done|]. by apply rpc_done.
  - destruct (write_table_inv c n m _ e' Hi Hr eq_refl) as (? & ? & ?); [done|]. split_and!; [done|done|].
    destruct err; cbn [reg_put]; [apply rpc_failed|apply register_attempts_pc|apply rpc_failed].
  - split_and!; [done|apply le_table_refl|]. apply register_attempts_pc.
  - split_and!; [done|apply le_table_refl|]. apply rpc_failed.
  - split_and!; [done|apply le_table_refl|]. apply rpc_failed.
Qed.

(** *** The cluster *)

Definition outcome_inv (c : cluster) (n : Z) (o : ElectionOutcome) : Prop :=
  match raw (status o) with
  | Leader e => exists l, in_log c l /\ leader_node_id l = n /\ lease_epoch l = e /\
      lease_expires_at_ms (status o) = expires_at_ms l /\
      max_clock_drift_ms (status o) = max_clock_drift (config n)
  | Follower _ => True
  | _ => False
  end.

Record cluster_inv (c : cluster) : Prop := {
  ci_store : store_inv c;
  ci_table : table_inv c;
  ci_election n p : (n, Election p) ∈ tasks c -> epc c n p;
  ci_registration n p : (n, Registration p) ∈ tasks c -> rpc c n p;
  ci_outcome n o : (n, o) ∈ outcomes c -> outcome_inv c n o;
  ci_registered n : n ∈ registered c -> in_table c n;
}.

Lemma exec_frame {A} n c (p : prog A) c' p' : exec n c p c' p' ->
  tasks c' = tasks c /\ outcomes c' = outcomes c /\ registered c' = registered c.
Proof. by destruct 1. Qed.

Lemma exec_epc_table c n p c' p' : epc c n p -> exec n c p c' p' ->
  membership_obj c' = membership_obj c /\ membership_etags c' = membership_etags c.
Proof. intros Hp He. destruct Hp; inversion He; by subst. Qed.

Lemma exec_rpc_store c n p c' p' : store_inv c -> rpc c n p -> exec n c p c' p' -> store_inv c' /\ le_cluster c c'.
Proof.
  intros Hi Hp He. destruct Hp; inversion He; subst; (split; [by destruct Hi|done]).
Qed.

Lemma outcome_le c c' n o : le_cluster c c' -> outcome_inv c n o -> outcome_inv c' n o.
Proof.
  intros (_ & Hl & _). unfold outcome_inv. destruct (raw (status o)); try done.
  intros (l & Hin & ?). exists l. split; [by apply Hl|done].
Qed.

(** One program of the cluster moves; the rest keeps what it knows. *)
Lemma cluster_inv_exec c c' ts : cluster_inv c -> store_inv c' -> table_inv c' ->
  le_cluster c c' -> le_table c c' -> outcomes c' = outcomes c -> registered c' = registered c ->
  (forall n p, (n, Election p) ∈ ts -> (n, Election p) ∈ tasks c \/ epc c' n p) ->
  (forall n p, (n, Registration p) ∈ ts -> (n, Registration p) ∈ tasks c \/ rpc c' n p) ->
  cluster_inv (with_tasks c' ts).
Proof.
  intros [H1 H2 H3 H4 H5 H6] Hs Ht Hle Hlt Ho Hr He Hp. split; cbn; [by destruct Hs|done| | | |].
  - intros n p Hin. apply (epc_le c'); [done|]. destruct (He n p Hin) as [?|?]; [|done]. eapply epc_le; [done|]. by apply H3.
  - intros n p Hin. apply (rpc_le c'); [done|]. destruct (Hp n p Hin) as [?|?]; [|done]. eapply rpc_le; [done|]. by apply H4.
  - rewrite Ho. intros n o Hin. change (outcome_inv c' n o). eapply outcome_le; [done|]. by apply H5.
  - rewrite Hr. intros n Hin. change (in_table c' n). by apply Hlt, H6.
Qed.

Lemma elem_of_replace {X} (x y : X) l1 l2 : x ∈ l1 ++ y :: l2 -> x = y \/ x ∈ l1 ++ l2.
Proof. rewrite !elem_of_app, elem_of_cons. tauto. Qed.

Lemma elem_of_middle {X} (x y : X) l1 l2 : x ∈ l1 ++ l2 -> x ∈ l1 ++ y :: l2.
Proof. rewrite !elem_of_app, elem_of_cons. tauto. Qed.

Lemma cluster_step_inv c c' : cluster_inv c -> cluster_step c c' -> cluster_inv c'.
Proof.
  intros Hi Hs. destruct Hs as [c t Ht|c n|c n|c c' n p p' l1 l2 Etask He|c c' n p p' l1 l2 Etask He
    |c n o l1 l2 Etask|c n l1 l2 Etask|c t l1 l2 Etask].
  - apply (cluster_inv_exec c (with_time c t) (tasks c)); try done; try (by intros; left).
    + destruct (ci_store _ Hi) as [S1 S2 S3 S4]. split; try done. cbn. eapply Forall_impl; [exact S2|].
      intros g (Hg & ?). split; [lia|done].
    + apply Hi.
  - apply (cluster_inv_exec c c); try done; try apply Hi.
    + intros m p [E|Hin]%elem_of_cons; [|by left]. injection E as -> ->. right. rewrite run_election_eq. apply pc_start.
    + intros m p [E|Hin]%elem_of_cons; [done|by left].
  - apply (cluster_inv_exec c c); try done; try apply Hi.
    + intros m p [E|Hin]%elem_of_cons; [done|by left].
    + intros m p [E|Hin]%elem_of_cons; [|by left]. injection E as -> ->. right. apply register_attempts_pc.
  - assert (Hp : epc c n p) by (apply Hi; rewrite Etask; set_solver).
    destruct (exec_inv c n p c' p' (ci_store _ Hi) Hp He) as (Hs' & Hle & Hp').
    destruct (exec_epc_table _ _ _ _ _ Hp He) as [Em Ee]. destruct (exec_frame _ _ _ _ _ He) as (_ & Eo & Er).
    apply (cluster_inv_exec c c'); try done.
    + intros mwe. rewrite Em, Ee. apply Hi.
    + split; [by rewrite Ee|]. unfold in_table. by rewrite Em.
    + intros m q [E|Hin]%elem_of_replace; [injection E as -> ->; by right|left; rewrite Etask; by apply elem_of_middle].
    + intros m q [E|Hin]%elem_of_replace; [done|left; rewrite Etask; by apply elem_of_middle].
  - assert (Hp : rpc c n p) by (apply Hi; rewrite Etask; set_solver).
    destruct (exec_rpc c n p c' p' (ci_table _ Hi) Hp He) as (Ht' & Hlt & Hp').
    destruct (exec_rpc_store _ _ _ _ _ (ci_store _ Hi) Hp He) as [Hs' Hle]. destruct (exec_frame _ _ _ _ _ He) as (_ & Eo & Er).
    apply (cluster_inv_exec c c'); try done.
    + intros m q [E|Hin]%elem_of_replace; [done|left; rewrite Etask; by apply elem_of_middle].
    + intros m q [E|Hin]%elem_of_replace; [injection E as -> ->; by right|left; rewrite Etask; by apply elem_of_middle].
  - assert (Hp : epc c n (Ret (Ok o))) by (apply Hi; rewrite Etask; set_solver).
    assert (Ho : outcome_inv c n o).
    { inversion Hp; subst; cbn; [done|]. by exists lease. }
    destruct Hi as [H1 H2 H3 H4 H5 H6]. split; cbn; [by destruct H1|done| | | |done].
    + intros m p Hin. apply (epc_le c); [done|]. apply (H3 m p). rewrite Etask. by apply elem_of_middle.
    + intros m p Hin. apply (rpc_le c); [done|]. apply (H4 m p). rewrite Etask. by apply elem_of_middle.
    + intros m o' [[= -> ->]|Hin]%elem_of_cons; [done|by apply (H5 m o')].
  - assert (Hp : rpc c n (Ret (Ok tt))) by (apply Hi; rewrite Etask; set_solver).
    assert (Ho : in_table c n) by (by inversion Hp).
    destruct Hi as [H1 H2 H3 H4 H5 H6]. split; cbn; [by destruct H1|done| | |done|].
    + intros m p Hin. apply (epc_le c); [done|]. apply (H3 m p). rewrite Etask. by apply elem_of_middle.
    + intros m p Hin. apply (rpc_le c); [done|]. apply (H4 m p). rewrite Etask. by apply elem_of_middle.
    + intros m [->|Hin]%elem_of_cons; [done|by apply (H6 m)].
  - apply (cluster_inv_exec c c); try done; try apply Hi;
      intros m p Hin; left; rewrite Etask; by apply elem_of_middle.
Qed.

Lemma cluster_init_inv t : cluster_inv (cluster_init t).
Proof.
  split; cbn; try by intros ? ? ?%not_elem_of_nil.
  - split; cbn; [constructor|constructor|done|done].
  - done.
  - by intros ? ?%not_elem_of_nil.
Qed.

Lemma reachable_cluster_inv t c : steps cluster_step (cluster_init t) c -> cluster_inv c.
Proof.
  apply (steps_invariant cluster_step cluster_inv); [apply cluster_step_inv|apply cluster_init_inv].
Qed.
End cluster.

(** ** Theorems *)

(** The leases behind two leader outcomes, in the order they were written. *)
Lemma outcomes_ordered clock config skew c a oa b ob ea eb :
  cluster_inv clock config skew c ->
  (a, oa) ∈ outcomes c -> (b, ob) ∈ outcomes c ->
  raw (status oa) = Leader ea -> raw (status ob) = Leader eb ->
  exists ga gb,
    leader_node_id (lg_lease ga) = a /\ lease_epoch (lg_lease ga) = ea /\
    lease_expires_at_ms (status oa) = expires_at_ms (lg_lease ga) /\
    max_clock_drift_ms (status oa) = max_clock_drift (config a) /\
    leader_node_id (lg_lease gb) = b /\ lease_epoch (lg_lease gb) = eb /\
    lease_expires_at_ms (status ob) = expires_at_ms (lg_lease gb) /\
    max_clock_drift_ms (status ob) = max_clock_drift (config b) /\
    lg_time ga <= time c /\ lg_time gb <= time c /\
    (after clock skew ga gb \/ after clock skew gb ga).
Proof.
  intros Hi Ha Hb Ea Eb. pose proof (ci_outcome _ _ _ _ Hi a oa Ha) as Hoa.
  pose proof (ci_outcome _ _ _ _ Hi b ob Hb) as Hob. unfold outcome_inv in Hoa, Hob.
  rewrite Ea in Hoa. rewrite Eb in Hob. destruct Hoa as (la & (ga & Hga & <-) & ? & ? & ? & ?).
  destruct Hob as (lb & (gb & Hgb & <-) & ? & ? & ? & ?).
  pose proof (si_entries _ _ _ _ (ci_store _ _ _ _ Hi)) as Hent. rewrite Forall_forall in Hent.
  exists ga, gb. split_and!; try done; try (by apply Hent).
  pose proof (si_sorted _ _ _ _ (ci_store _ _ _ _ Hi)) as Hs.
  apply list_elem_of_lookup in Hga as [i Hi1], Hgb as [j Hj].
  destruct (decide (i < j)%nat); [left; by eapply (StronglySorted_lookup_lt _ _ i j)|].
  destruct (decide (j < i)%nat); [right; by eapply (StronglySorted_lookup_lt _ _ j i)|].
  replace j with i in Hj by lia. rewrite Hi1 in Hj. injection Hj as <-. left. apply after_refl.
Qed.

Lemma leader_until v now : is_leader v now = true ->
  exists e, raw v = Leader e /\ now <= saturating_sub (lease_expires_at_ms v) (max_clock_drift_ms v).
Proof.
  unfold is_leader, effective_node_status, must_fence. destruct (raw v) as [e|e|e|e| | |]; cbn; try done;
    destruct (Z.ltb_spec (saturating_sub (lease_expires_at_ms v) (max_clock_drift_ms v)) now); cbn; try done.
  intros _. by exists e.
Qed.

Lemma time_forward clock config t c : steps (cluster_step clock config) (cluster_init t) c -> t <= time c.
Proof.
  apply (steps_invariant (cluster_step clock config) (fun c => t <= time c)); [|done].
  intros x y Hx Hs. destruct Hs as [c' s Ht| | |? ? ? ? ? ? ? ? He|? ? ? ? ? ? ? ? He| | |]; cbn in *; try lia;
    destruct He; cbn in *; lia.
Qed.

Section election_theorems.
Context (clock : Z -> Z -> Z) (config : Z -> S3LeaseConfig).

(** C10: An epoch is a fencing token.  However the elections of any number of
    nodes interleave, whatever their clocks show, and whichever store calls fail
    or take effect behind an error, two elections that end with a leader of the
    same epoch were won by the same node. *)
Theorem election_epoch_unique (t : Z) (c : cluster) (a b e : Z) (oa ob : ElectionOutcome) :
  (forall n, cfg_node_id (config n) = n) ->
  steps (cluster_step clock config) (cluster_init t) c ->
  (a, oa) ∈ outcomes c -> (b, ob) ∈ outcomes c ->
  raw (status oa) = Leader e -> raw (status ob) = Leader e -> a = b.
Proof.
  intros Hcfg Hs Ha Hb Ea Eb. pose proof (reachable_cluster_inv clock config Hcfg 0 t c Hs) as Hi.
  destruct (outcomes_ordered _ _ _ _ _ _ _ _ _ _ Hi Ha Hb Ea Eb)
    as (ga & gb & <- & Hea & _ & _ & <- & Heb & _ & _ & _ & _ & [(_ & Hsame & _)|(_ & Hsame & _)]);
    destruct (Hsame ltac:(congruence)) as [? _]; congruence.
Qed.


(** C38: A node whose registration reported success is in the membership table
    under its current addresses from then on, whichever registrations of other
    nodes interleave with it, unless both slots are taken by other nodes. *)
Theorem registration_durable (t : Z) (c : cluster) (n : Z) :
  (forall n, cfg_node_id (config n) = n) ->
  steps (cluster_step clock config) (cluster_init t) c -> n ∈ registered c -> in_table config c n.
Proof.
  intros Hcfg Hs Hn. by apply (ci_registered _ _ _ _ (reachable_cluster_inv clock config Hcfg 0 t c Hs)).
Qed.
End election_theorems.

(** A run of two nodes: node 1 creates the lease, it expires, node 2 takes
    over and both register. *)
Module ElectionRun.
Definition config (n : Z) : S3LeaseConfig :=
  {| cfg_node_id := n; advertised_client_address := "client"; advertised_replication_address := "peer";
     s3_lease_duration := 1000; max_clock_drift := 50 |}.

(** Node [2]'s clock is 10 ahead of real time. *)
Definition clock (n t : Z) : Z := if n =? 2 then t + 10 else t.

Lemma config_id n : cfg_node_id (config n) = n.
Proof. done. Qed.

Lemma clock_pos n s : 100 <= s -> 0 < clock n s.
Proof. unfold clock. destruct (n =? 2); lia. Qed.

Ltac exec_one := eapply steps_cons; [eapply (step_exec_election _ _ _ _ _ _ _ [] []); [reflexivity|]|].
Ltac exec_reg := eapply steps_cons; [eapply (step_exec_registration _ _ _ _ _ _ _ [] []); [reflexivity|]|].

Definition led (epoch expires : Z) : ElectionOutcome :=
  {| status := create_custom_status (Leader epoch) 50 expires; peer_info := None;
     reacquired_own_lease := false; cas_written := true |}.

Definition lease_1 : Lease :=
  {| leader_node_id := 1; lease_epoch := 1; acquired_at_ms := 100; expires_at_ms := 1100 |}.
Definition lease_2 : Lease :=
  {| leader_node_id := 2; lease_epoch := 2; acquired_at_ms := 2010; expires_at_ms := 3010 |}.
Definition logged_1 : logged := {| lg_lease := lease_1; lg_time := 100 |}.
Definition logged_2 : logged := {| lg_lease := lease_2; lg_time := 2000 |}.

Definition first_elected : cluster :=
  {| time := 100; lease_obj := Some {| lwe_lease := lease_1; lwe_etag := "v1" |};
     lease_log := [logged_1]; lease_etags := <["v1" := lease_1]> ∅;
     membership_obj := None; membership_etags := ∅; tasks := []; outcomes := [(1, led 1 1100)]; registered := [] |}.

Definition second_elected : cluster :=
  {| time := 2000; lease_obj := Some {| lwe_lease := lease_2; lwe_etag := "v2" |};
     lease_log := [logged_2; logged_1]; lease_etags := <["v2" := lease_2]> (<["v1" := lease_1]> ∅);
     membership_obj := None; membership_etags := ∅; tasks := [];
     outcomes := [(2, led 2 3010); (1, led 1 1100)]; registered := [] |}.

Definition both_registered : cluster :=
  {| time := 100; lease_obj := None; lease_log := []; lease_etags := ∅;
     membership_obj := Some {| mwe_membership := {| slot0 := Some (self_info (config 1)); slot1 := None |}; mwe_etag := "m1" |};
     membership_etags := <["m1" := {| slot0 := Some (self_info (config 1)); slot1 := None |}]> ∅;
     tasks := []; outcomes := []; registered := [1] |}.

Lemma run_first : steps (cluster_step clock config) (cluster_init 100) first_elected.
Proof.
  eapply steps_cons; [apply (step_elect _ _ _ 1)|].
  exec_one; [apply exec_now|]. exec_one; [apply exec_get|]. exec_one; [apply exec_now|].
  exec_one; [apply (exec_create _ _ _ _ _ "v1"); [reflexivity|intros ?; done]|].
  exec_one; [apply exec_get_membership|].
  eapply steps_cons; [eapply (step_elected _ _ _ _ _ [] []); reflexivity|]. apply steps_refl.
Qed.

Lemma run_second : steps (cluster_step clock config) (with_time first_elected 2000) second_elected.
Proof.
  eapply steps_cons; [apply (step_elect _ _ _ 2)|].
  exec_one; [apply exec_now|]. exec_one; [apply exec_get|]. exec_one; [apply exec_now|].
  exec_one; [apply (exec_cond _ _ _ _ _ _ "v2"); [reflexivity|intros ?; done]|].
  exec_one; [apply exec_get_membership|].
  eapply steps_cons; [eapply (step_elected _ _ _ _ _ [] []); reflexivity|]. apply steps_refl.
Qed.

Lemma run_both : steps (cluster_step clock config) (cluster_init 100) second_elected.
Proof.
  eapply steps_trans; [apply run_first|]. eapply steps_cons; [apply (step_time _ _ _ 2000); cbn; lia|].
  apply run_second.
Qed.

Lemma run_registered : steps (cluster_step clock config) (cluster_init 100) both_registered.
Proof.
  eapply steps_cons; [apply (step_register _ _ _ 1)|].
  exec_reg; [apply exec_get_membership|].
  exec_reg; [apply (exec_put_membership _ _ _ _ _ _ "m1"); [reflexivity|intros ?; done]|].
  eapply steps_cons; [eapply (step_registered _ _ _ _ [] []); reflexivity|]. apply steps_refl.
Qed.

Lemma clocks : clocks_ok clock 10.
Proof. split; intros; unfold clock; destruct (n =? 2); lia. Qed.
End ElectionRun.

(** Epoch 1 is node 1's, also after node 2 took over. *)
Lemma election_epoch_unique_witness : exists a,
  (a, ElectionRun.led 1 1100) ∈ outcomes ElectionRun.second_elected /\ a = 1.
Proof.
  exists 1. split; [cbn; set_solver|].
  apply (election_epoch_unique ElectionRun.clock ElectionRun.config 100 ElectionRun.second_elected 1 1 1
    (ElectionRun.led 1 1100) (ElectionRun.led 1 1100) ElectionRun.config_id ElectionRun.run_both);
    try reflexivity; cbn; set_solver.
Defined.


Lemma registration_durable_witness : in_table ElectionRun.config ElectionRun.both_registered 1.
Proof.
  apply (registration_durable ElectionRun.clock ElectionRun.config 100 ElectionRun.both_registered 1
    ElectionRun.config_id ElectionRun.run_registered). cbn. set_solver.
Defined.
