(* ===== verification/MemCache.v ===== *)
(** * The shard's in-memory state of aggregates

    The write-path state of [celeriant_memcache/src/shard_mem_cache.rs]: the
    snapshots of what is on disk, the positions of what is queued, the schema
    caches, and how an fsync moves the queue into the snapshots.  The LRU
    caches are finite maps here; that any entry may be evicted at any time is a
    step of its own where it matters.  The negative-lookup cache is the
    component of [NegativeLookup.v], the segment summary that of
    [SegmentSummary.v]. *)

From S2P Require Import Prelude WalConstants WalTypes Lease.

(** ** Data *)

Inductive AggregateStatus := Found | NotFound | Deleted.

#[global] Instance AggregateStatus_eq_dec : EqDecision AggregateStatus.
Proof. solve_decision. Defined.

Record MemSnapshotAggregate := {
  ms_status : AggregateStatus;
  ms_log_id : Z;
  ms_metablock_absolute_pos : Z;
  ms_event_seq : Z;
  ms_aggregate_version : Z;
  ms_min_aggregate_version : Z;
  ms_allow_recreate : bool;
  ms_allow_sequence_continuation : bool;
}.

Definition snapshot_not_found : MemSnapshotAggregate :=
  {| ms_status := NotFound; ms_log_id := 0; ms_metablock_absolute_pos := 0; ms_event_seq := 0;
     ms_aggregate_version := 0; ms_min_aggregate_version := 0; ms_allow_recreate := false;
     ms_allow_sequence_continuation := false |}.

Definition snapshot_deleted (log_id pos event_seq aggregate_version : Z)
    (allow_recreate allow_sequence_continuation : bool) : MemSnapshotAggregate :=
  {| ms_status := Deleted; ms_log_id := log_id; ms_metablock_absolute_pos := pos; ms_event_seq := event_seq;
     ms_aggregate_version := aggregate_version; ms_min_aggregate_version := 0;
     ms_allow_recreate := allow_recreate; ms_allow_sequence_continuation := allow_sequence_continuation |}.

Definition snapshot_found (log_id pos event_seq aggregate_version min_aggregate_version : Z)
    : MemSnapshotAggregate :=
  {| ms_status := Found; ms_log_id := log_id; ms_metablock_absolute_pos := pos; ms_event_seq := event_seq;
     ms_aggregate_version := aggregate_version; ms_min_aggregate_version := min_aggregate_version;
     ms_allow_recreate := false; ms_allow_sequence_continuation := false |}.

Inductive CachePath := CacheRead | CacheWrite.

Record QueueAggregatePositions := {
  pending_delete : bool;
  q_allow_recreate : bool;
  q_allow_sequence_continuation : bool;
  q_log_id : Z;
  q_metablock_absolute_pos : Z;
  q_wal_seq : Z;
  q_event_seq : Z;
  q_aggregate_version : Z;
  q_min_aggregate_version : Z;
  client_seqes : gmap Z Z;
  had_event_batch : bool;
}.

Definition queue_positions_default : QueueAggregatePositions :=
  {| pending_delete := false; q_allow_recreate := false; q_allow_sequence_continuation := false;
     q_log_id := 0; q_metablock_absolute_pos := 0; q_wal_seq := 0; q_event_seq := 0;
     q_aggregate_version := 0; q_min_aggregate_version := 0; client_seqes := ∅; had_event_batch := false |}.

Record ShardLogQueueItem := {
  datablock_bytes : option bytes;
  qi_datablock : option DatablockKind;
  qi_metablock : Metablock;
  qi_metablock_absolute_pos : Z;
  size_bytes : Z;
}.

Definition ShardLogQueueItem_new (datablock : option DatablockKind) (datablock_bytes : option bytes)
    (metablock : Metablock) : ShardLogQueueItem :=
  let datablock_len := match datablock_bytes with Some v => length v | None => 0%nat end in
  {| datablock_bytes := datablock_bytes; qi_datablock := datablock; qi_metablock := metablock;
     qi_metablock_absolute_pos := 0;
     size_bytes := Z.of_nat (FIXED_BLOCK_SIZE_BYTES + datablock_len) * STRUCT_TO_MEMORY_REAL_SIZE |}.

Inductive ClientSeqStatus :=
  | InflightInQueue (client_seq : Z)
  | Fsynced (client_seq wal_seq : Z).

Definition status_client_seq (s : ClientSeqStatus) : Z :=
  match s with InflightInQueue c | Fsynced c _ => c end.

Record EventIndexes := {
  pending_delete_or_deleted : bool;
  ix_allow_recreate : bool;
  ix_allow_sequence_continuation : bool;
  ix_aggregate_version : Z;
  ix_min_aggregate_version : Z;
  ix_event_seq : Z;
}.

(** The trait [Validate] and the compiled schemas; the reserved size of a
    validator only matters to the allocator. *)
Class Validate (V : Type) := validate : V -> bytes -> result bytes unit.

Inductive CachedSchema (V : Type) :=
  | Validated (validator : V)
  | CompilationFailed (error : bytes)
  | NotYetLoaded.
Arguments Validated {V} validator.
Arguments CompilationFailed {V} error.
Arguments NotYetLoaded {V}.

(** The write-path fields of [ShardMemCache]. *)
Record MemCache (V : Type) := {
  write_snapshots : gmap AggregateKey MemSnapshotAggregate;
  read_snapshots : gmap AggregateKey MemSnapshotAggregate;
  client_snapshots : gmap AggregateClientKey (Z * Z);
  queue_positions : gmap AggregateKey QueueAggregatePositions;
  pending_append_queue : list ShardLogQueueItem;
  pending_append_bytes : Z;
  schema_cache : gmap SchemaKey (CachedSchema V);
  no_schema_cache : gset SchemaKey;
  pending_schema_registrations : gset SchemaKey;
  fsync_rollback_occurred : bool;
  rollback_generation : Z;
}.
Arguments write_snapshots {V} _.
Arguments read_snapshots {V} _.
Arguments client_snapshots {V} _.
Arguments queue_positions {V} _.
Arguments pending_append_queue {V} _.
Arguments pending_append_bytes {V} _.
Arguments schema_cache {V} _.
Arguments no_schema_cache {V} _.
Arguments pending_schema_registrations {V} _.
Arguments fsync_rollback_occurred {V} _.
Arguments rollback_generation {V} _.

Record SyncPositionsSnapshot := {
  sps_queue : list ShardLogQueueItem;
  sps_positions : gmap AggregateKey QueueAggregatePositions;
  sps_schemas : gset SchemaKey;
}.

Section mem_cache.
Context {V : Type}.
Implicit Types (m : MemCache V).

Definition MemCache_new : MemCache V :=
  {| write_snapshots := ∅; read_snapshots := ∅; client_snapshots := ∅; queue_positions := ∅;
     pending_append_queue := []; pending_append_bytes := 0; schema_cache := ∅; no_schema_cache := ∅;
     pending_schema_registrations := ∅; fsync_rollback_occurred := false; rollback_generation := 0 |}.

(** Field updates. *)
Definition set_snapshots m (path : CachePath) (s : gmap AggregateKey MemSnapshotAggregate) : MemCache V :=
  {| write_snapshots := match path with CacheWrite => s | CacheRead => write_snapshots m end;
     read_snapshots := match path with CacheRead => s | CacheWrite => read_snapshots m end;
     client_snapshots := client_snapshots m; queue_positions := queue_positions m;
     pending_append_queue := pending_append_queue m; pending_append_bytes := pending_append_bytes m;
     schema_cache := schema_cache m; no_schema_cache := no_schema_cache m;
     pending_schema_registrations := pending_schema_registrations m;
     fsync_rollback_occurred := fsync_rollback_occurred m; rollback_generation := rollback_generation m |}.

Definition set_clients m (c : gmap AggregateClientKey (Z * Z)) : MemCache V :=
  {| write_snapshots := write_snapshots m; read_snapshots := read_snapshots m; client_snapshots := c;
     queue_positions := queue_positions m; pending_append_queue := pending_append_queue m;
     pending_append_bytes := pending_append_bytes m;
     schema_cache := schema_cache m; no_schema_cache := no_schema_cache m;
     pending_schema_registrations := pending_schema_registrations m;
     fsync_rollback_occurred := fsync_rollback_occurred m; rollback_generation := rollback_generation m |}.

Definition set_positions m (q : gmap AggregateKey QueueAggregatePositions) : MemCache V :=
  {| write_snapshots := write_snapshots m; read_snapshots := read_snapshots m;
     client_snapshots := client_snapshots m; queue_positions := q;
     pending_append_queue := pending_append_queue m; pending_append_bytes := pending_append_bytes m;
     schema_cache := schema_cache m; no_schema_cache := no_schema_cache m;
     pending_schema_registrations := pending_schema_registrations m;
     fsync_rollback_occurred := fsync_rollback_occurred m; rollback_generation := rollback_generation m |}.

Definition set_schemas m (c : gmap SchemaKey (CachedSchema V)) (absent pending : gset SchemaKey) : MemCache V :=
  {| write_snapshots := write_snapshots m; read_snapshots := read_snapshots m;
     client_snapshots := client_snapshots m; queue_positions := queue_positions m;
     pending_append_queue := pending_append_queue m; pending_append_bytes := pending_append_bytes m;
     schema_cache := c; no_schema_cache := absent; pending_schema_registrations := pending;
     fsync_rollback_occurred := fsync_rollback_occurred m; rollback_generation := rollback_generation m |}.

Definition snapshots m (path : CachePath) : gmap AggregateKey MemSnapshotAggregate :=
  match path with CacheRead => read_snapshots m | CacheWrite => write_snapshots m end.

(** ** Lookups *)

Definition aggregate_load_status m (key : AggregateKey) (path : CachePath) : bool * AggregateStatus :=
  match match path with CacheWrite => queue_positions m !! key | CacheRead => None end with
  | Some q => (true, if pending_delete q then Deleted else Found)
  | None =>
      match snapshots m path !! key with
      | Some s => (true, ms_status s)
      | None => (false, NotFound)
      end
  end.

Definition aggregate_client_load_status m (key : AggregateKey) (ck : AggregateClientKey)
    : bool * option Z :=
  match queue_positions m !! key ≫= fun q => client_seqes q !! ack_client_id ck with
  | Some idx => (true, Some idx)
  | None =>
      match client_snapshots m !! ck with
      | Some (client_seq, _) => (true, if client_seq =? 0 then None else Some client_seq)
      | None => (false, None)
      end
  end.

Definition get_client_seq_entry m (key : AggregateKey) (client_id : Z) : option ClientSeqStatus :=
  match queue_positions m !! key ≫= fun q => client_seqes q !! client_id with
  | Some client_seq => Some (InflightInQueue client_seq)
  | None =>
      '(client_seq, wal_seq) ← client_snapshots m !! {| ack_aggregate_key := key; ack_client_id := client_id |};
      if 0 <? client_seq then Some (Fsynced client_seq wal_seq) else None
  end.

Definition get_write_event_seqes m (key : AggregateKey) : EventIndexes :=
  match queue_positions m !! key with
  | Some q =>
      {| pending_delete_or_deleted := pending_delete q; ix_allow_recreate := q_allow_recreate q;
         ix_allow_sequence_continuation := q_allow_sequence_continuation q;
         ix_aggregate_version := q_aggregate_version q; ix_min_aggregate_version := q_min_aggregate_version q;
         ix_event_seq := q_event_seq q |}
  | None =>
      match write_snapshots m !! key with
      | Some s =>
          {| pending_delete_or_deleted := bool_decide (ms_status s = Deleted);
             ix_allow_recreate := ms_allow_recreate s;
             ix_allow_sequence_continuation := ms_allow_sequence_continuation s;
             ix_aggregate_version := ms_aggregate_version s;
             ix_min_aggregate_version := ms_min_aggregate_version s; ix_event_seq := ms_event_seq s |}
      | None =>
          {| pending_delete_or_deleted := false; ix_allow_recreate := false;
             ix_allow_sequence_continuation := false; ix_aggregate_version := 0;
             ix_min_aggregate_version := 0; ix_event_seq := 0 |}
      end
  end.

(** ** Queueing *)

Definition push_item m (item : ShardLogQueueItem) : MemCache V :=
  {| write_snapshots := write_snapshots m; read_snapshots := read_snapshots m;
     client_snapshots := client_snapshots m; queue_positions := queue_positions m;
     pending_append_queue := pending_append_queue m ++ [item];
     pending_append_bytes := saturating_add 64 (pending_append_bytes m) (size_bytes item);
     schema_cache := schema_cache m; no_schema_cache := no_schema_cache m;
     pending_schema_registrations := pending_schema_registrations m;
     fsync_rollback_occurred := fsync_rollback_occurred m; rollback_generation := rollback_generation m |}.

Definition queue_entry m (key : AggregateKey) : QueueAggregatePositions :=
  default queue_positions_default (queue_positions m !! key).

Definition add_pending_trim_to_queue m (key : AggregateKey)
    (keep_from_aggregate_version aggregate_version event_seq : Z) (item : ShardLogQueueItem) : MemCache V :=
  let q := queue_entry m key in
  let q := {| pending_delete := pending_delete q; q_allow_recreate := q_allow_recreate q;
              q_allow_sequence_continuation := q_allow_sequence_continuation q; q_log_id := q_log_id q;
              q_metablock_absolute_pos := q_metablock_absolute_pos q; q_wal_seq := q_wal_seq q;
              q_event_seq := Z.max (q_event_seq q) event_seq;
              q_aggregate_version := Z.max (q_aggregate_version q) aggregate_version;
              q_min_aggregate_version := Z.max (q_min_aggregate_version q) keep_from_aggregate_version;
              client_seqes := client_seqes q; had_event_batch := had_event_batch q |} in
  push_item (set_positions m (<[key := q]> (queue_positions m))) item.

Definition add_pending_delete_to_queue m (key : AggregateKey) (event_seq aggregate_version : Z)
    (allow_recreate allow_sequence_continuation : bool) (item : ShardLogQueueItem) : MemCache V :=
  let q := queue_entry m key in
  let q := {| pending_delete := true; q_allow_recreate := allow_recreate;
              q_allow_sequence_continuation := allow_sequence_continuation; q_log_id := q_log_id q;
              q_metablock_absolute_pos := q_metablock_absolute_pos q; q_wal_seq := q_wal_seq q;
              q_event_seq := event_seq; q_aggregate_version := aggregate_version;
              q_min_aggregate_version := q_min_aggregate_version q;
              client_seqes := client_seqes q; had_event_batch := had_event_batch q |} in
  push_item (set_positions m (<[key := q]> (queue_positions m))) item.

Definition merge_client_seq (seqs : gmap Z Z) (client_id client_seq : Z) : gmap Z Z :=
  <[client_id := match seqs !! client_id with Some e => Z.max e client_seq | None => client_seq end]> seqs.

Definition add_to_pending_append_queue m (key : AggregateKey)
    (event_seq aggregate_version min_aggregate_version client_id client_seq : Z) (item : ShardLogQueueItem)
    : MemCache V :=
  let q := queue_entry m key in
  let q := {| pending_delete := false; q_allow_recreate := q_allow_recreate q;
              q_allow_sequence_continuation := q_allow_sequence_continuation q; q_log_id := q_log_id q;
              q_metablock_absolute_pos := q_metablock_absolute_pos q; q_wal_seq := q_wal_seq q;
              q_event_seq := Z.max (q_event_seq q) event_seq;
              q_aggregate_version := Z.max (q_aggregate_version q) aggregate_version;
              q_min_aggregate_version := min_aggregate_version;
              client_seqes := merge_client_seq (client_seqes q) client_id client_seq;
              had_event_batch := true |} in
  push_item (set_positions m (<[key := q]> (queue_positions m))) item.

(** Prepared items go to the queue as they are (replication). *)
Definition add_to_pending_queue m (items : list ShardLogQueueItem) : MemCache V :=
  {| write_snapshots := write_snapshots m; read_snapshots := read_snapshots m;
     client_snapshots := client_snapshots m; queue_positions := queue_positions m;
     pending_append_queue := pending_append_queue m ++ items;
     pending_append_bytes := saturating_add 64 (pending_append_bytes m) (sum_Z (size_bytes <$> items));
     schema_cache := schema_cache m; no_schema_cache := no_schema_cache m;
     pending_schema_registrations := pending_schema_registrations m;
     fsync_rollback_occurred := fsync_rollback_occurred m; rollback_generation := rollback_generation m |}.

(** ** Fsync *)

Definition take_sync_positions_snapshot m : MemCache V * SyncPositionsSnapshot :=
  ({| write_snapshots := write_snapshots m; read_snapshots := read_snapshots m;
      client_snapshots := client_snapshots m; queue_positions := queue_positions m;
      pending_append_queue := []; pending_append_bytes := 0;
      schema_cache := schema_cache m; no_schema_cache := no_schema_cache m; pending_schema_registrations := ∅;
      fsync_rollback_occurred := fsync_rollback_occurred m; rollback_generation := rollback_generation m |},
   {| sps_queue := pending_append_queue m; sps_positions := queue_positions m;
      sps_schemas := pending_schema_registrations m |}).

Definition buffer_size_datablocks (q : list ShardLogQueueItem) : Z :=
  sum_Z ((fun item => match datablock_bytes item with Some b => Z.of_nat (length b) | None => 0 end) <$> q).

Definition buffer_size_metablocks (q : list ShardLogQueueItem) : Z :=
  Z.of_nat (length q * FIXED_BLOCK_SIZE_BYTES).

Definition execute_fsync_rollback m : MemCache V :=
  let queued := match pending_append_queue m with [] => false | _ => true end in
  {| write_snapshots := write_snapshots m; read_snapshots := read_snapshots m;
     client_snapshots := client_snapshots m; queue_positions := ∅;
     pending_append_queue := []; pending_append_bytes := if queued then 0 else pending_append_bytes m;
     schema_cache := ∅; no_schema_cache := ∅; pending_schema_registrations := ∅;
     fsync_rollback_occurred := if queued then true else fsync_rollback_occurred m;
     rollback_generation := wrapping_add 64 (rollback_generation m) 1 |}.

Definition merge_aggregate_client_seq_max m (ck : AggregateClientKey) (client_seq wal_seq : Z) : MemCache V :=
  match client_snapshots m !! ck with
  | Some (existing, _) =>
      if existing <? client_seq then set_clients m (<[ck := (client_seq, wal_seq)]> (client_snapshots m)) else m
  | None => set_clients m (<[ck := (client_seq, wal_seq)]> (client_snapshots m))
  end.

Definition put_aggregate_into_cache_as_not_found m (key : AggregateKey) (path : CachePath) : MemCache V :=
  set_snapshots m path (<[key := snapshot_not_found]> (snapshots m path)).

(** The recent writes that the read path drops are in [RecentWrites]. *)
Definition put_aggregate_into_cache_as_deleted m (key : AggregateKey)
    (log_id pos event_seq aggregate_version : Z) (allow_recreate allow_sequence_continuation : bool)
    (path : CachePath) : MemCache V :=
  set_snapshots m path
    (<[key := snapshot_deleted log_id pos event_seq aggregate_version allow_recreate allow_sequence_continuation]>
       (snapshots m path)).

Definition put_aggregate_snapshot_only m (key : AggregateKey) (s : MemSnapshotAggregate)
    (path : CachePath) : MemCache V := set_snapshots m path (<[key := s]> (snapshots m path)).

Definition put_aggregate_into_cache m (key : AggregateKey) (s : MemSnapshotAggregate)
    (client_id last_client_seq : Z) (path : CachePath) : MemCache V :=
  let m := set_snapshots m path (<[key := s]> (snapshots m path)) in
  match path with
  | CacheWrite =>
      set_clients m (<[{| ack_aggregate_key := key; ack_client_id := client_id |} := (last_client_seq, 0)]>
                       (client_snapshots m))
  | CacheRead => m
  end.

Definition commit_position_snapshot m (eb : MetablockEventBatch) (log_id pos : Z) (path : CachePath)
    : MemCache V :=
  let fresh := {| ms_status := Found; ms_log_id := log_id; ms_metablock_absolute_pos := pos;
                  ms_event_seq := max_event_seq eb; ms_aggregate_version := eb_aggregate_version eb;
                  ms_min_aggregate_version := trimmed_below_version eb; ms_allow_recreate := false;
                  ms_allow_sequence_continuation := false |} in
  let s :=
    match snapshots m path !! eb_aggregate_key eb with
    | Some s =>
        if bool_decide (ms_status s = NotFound) then fresh
        else {| ms_status := Found; ms_log_id := log_id; ms_metablock_absolute_pos := pos;
                ms_event_seq := Z.max (ms_event_seq s) (max_event_seq eb);
                ms_aggregate_version := Z.max (ms_aggregate_version s) (eb_aggregate_version eb);
                ms_min_aggregate_version := Z.max (ms_min_aggregate_version s) (trimmed_below_version eb);
                ms_allow_recreate := ms_allow_recreate s;
                ms_allow_sequence_continuation := ms_allow_sequence_continuation s |}
    | None => fresh
    end in
  set_snapshots m path (<[eb_aggregate_key eb := s]> (snapshots m path)).

Definition commit_trim_snapshot m (key : AggregateKey)
    (keep_from_aggregate_version aggregate_version event_seq log_id pos : Z) (path : CachePath) : MemCache V :=
  let s :=
    match snapshots m path !! key with
    | Some s =>
        {| ms_status := ms_status s; ms_log_id := ms_log_id s;
           ms_metablock_absolute_pos := ms_metablock_absolute_pos s;
           ms_event_seq := Z.max (ms_event_seq s) event_seq;
           ms_aggregate_version := Z.max (ms_aggregate_version s) aggregate_version;
           ms_min_aggregate_version := Z.max (ms_min_aggregate_version s) keep_from_aggregate_version;
           ms_allow_recreate := ms_allow_recreate s;
           ms_allow_sequence_continuation := ms_allow_sequence_continuation s |}
    | None => snapshot_found log_id pos event_seq aggregate_version keep_from_aggregate_version
    end in
  set_snapshots m path (<[key := s]> (snapshots m path)).

(** The snapshot of one entry of the queue positions. *)
Definition queue_snapshot (s : option MemSnapshotAggregate) (q : QueueAggregatePositions) : MemSnapshotAggregate :=
  let fresh := {| ms_status := Found; ms_log_id := q_log_id q; ms_metablock_absolute_pos := q_metablock_absolute_pos q;
                  ms_event_seq := q_event_seq q; ms_aggregate_version := q_aggregate_version q;
                  ms_min_aggregate_version := q_min_aggregate_version q; ms_allow_recreate := false;
                  ms_allow_sequence_continuation := false |} in
  match s with
  | Some s =>
      if bool_decide (ms_status s = NotFound) then fresh
      else {| ms_status := Found; ms_log_id := q_log_id q; ms_metablock_absolute_pos := q_metablock_absolute_pos q;
              ms_event_seq := Z.max (ms_event_seq s) (q_event_seq q);
              ms_aggregate_version := Z.max (ms_aggregate_version s) (q_aggregate_version q);
              ms_min_aggregate_version := ms_min_aggregate_version s;
              ms_allow_recreate := ms_allow_recreate s;
              ms_allow_sequence_continuation := ms_allow_sequence_continuation s |}
  | None => fresh
  end.

Definition commit_queue_entry (node_status : NodeStatus) m (p : AggregateKey * QueueAggregatePositions) : MemCache V :=
  let '(key, q) := p in
  if pending_delete q then m
  else
    let m :=
      if had_event_batch q then
        let m := set_snapshots m CacheWrite
                   (<[key := queue_snapshot (write_snapshots m !! key) q]> (write_snapshots m)) in
        if status_is_leader node_status then m
        else set_snapshots m CacheRead (<[key := queue_snapshot (read_snapshots m !! key) q]> (read_snapshots m))
      else m in
    let m :=
      foldl (fun m '(client_id, client_seq) =>
               merge_aggregate_client_seq_max m {| ack_aggregate_key := key; ack_client_id := client_id |}
                 client_seq (q_wal_seq q)) m (map_to_list (client_seqes q)) in
    match queue_positions m !! key with
    | Some current =>
        if q_aggregate_version current =? q_aggregate_version q
        then set_positions m (delete key (queue_positions m)) else m
    | None => m
    end.

Definition commit_sync_positions_snapshot (node_status : NodeStatus) m (s : SyncPositionsSnapshot) : MemCache V :=
  foldl (commit_queue_entry node_status) m (map_to_list (sps_positions s)).

(** ** Schemas *)

Definition schema_cache_get m (key : SchemaKey) : option (CachedSchema V) := schema_cache m !! key.

Definition schema_cache_insert m (key : SchemaKey) (value : CachedSchema V) : MemCache V :=
  set_schemas m (<[key := value]> (schema_cache m)) (no_schema_cache m ∖ {[key]}) (pending_schema_registrations m).

Definition no_schema_cache_insert m (key : SchemaKey) : MemCache V :=
  if bool_decide (is_Some (schema_cache m !! key)) then m
  else set_schemas m (schema_cache m) (no_schema_cache m ∪ {[key]}) (pending_schema_registrations m).

Definition schema_cache_contains m (key : SchemaKey) : bool :=
  bool_decide (is_Some (schema_cache m !! key)) || bool_decide (key ∈ no_schema_cache m).

Definition schema_cache_has_schema m (key : SchemaKey) : bool := bool_decide (is_Some (schema_cache m !! key)).

Definition schema_is_pending m (key : SchemaKey) : bool := bool_decide (key ∈ pending_schema_registrations m).

Definition schema_mark_pending m (key : SchemaKey) : MemCache V :=
  set_schemas m (schema_cache m) (no_schema_cache m) (pending_schema_registrations m ∪ {[key]}).

Definition schema_cache_clear m : MemCache V := set_schemas m ∅ ∅ (pending_schema_registrations m).

(** ** Compaction *)

Definition remap_snapshots (target_log_id : Z) (new_tips : gmap AggregateKey Z)
    (c : gmap AggregateKey MemSnapshotAggregate) : gmap AggregateKey MemSnapshotAggregate :=
  map_imap (fun key s =>
    if ms_log_id s =? target_log_id then
      (fun new_pos =>
         {| ms_status := ms_status s; ms_log_id := ms_log_id s; ms_metablock_absolute_pos := new_pos;
            ms_event_seq := ms_event_seq s; ms_aggregate_version := ms_aggregate_version s;
            ms_min_aggregate_version := ms_min_aggregate_version s; ms_allow_recreate := ms_allow_recreate s;
            ms_allow_sequence_continuation := ms_allow_sequence_continuation s |}) <$> new_tips !! key
    else Some s) c.

Definition remap_positions (target_log_id : Z) (new_tips : gmap AggregateKey Z)
    (c : gmap AggregateKey QueueAggregatePositions) : gmap AggregateKey QueueAggregatePositions :=
  map_imap (fun key q =>
    if q_log_id q =? target_log_id then
      (fun new_pos =>
         {| pending_delete := pending_delete q; q_allow_recreate := q_allow_recreate q;
            q_allow_sequence_continuation := q_allow_sequence_continuation q; q_log_id := q_log_id q;
            q_metablock_absolute_pos := new_pos; q_wal_seq := q_wal_seq q; q_event_seq := q_event_seq q;
            q_aggregate_version := q_aggregate_version q; q_min_aggregate_version := q_min_aggregate_version q;
            client_seqes := client_seqes q; had_event_batch := had_event_batch q |}) <$> new_tips !! key
    else Some q) c.

Definition remap_compacted_positions m (target_log_id : Z) (new_tips : gmap AggregateKey Z) : MemCache V :=
  let m := set_snapshots m CacheRead (remap_snapshots target_log_id new_tips (read_snapshots m)) in
  let m := set_snapshots m CacheWrite (remap_snapshots target_log_id new_tips (write_snapshots m)) in
  set_positions m (remap_positions target_log_id new_tips (queue_positions m)).
End mem_cache.

(** ** The fsync commit, key by key *)

Lemma foldl_keyed {K A S X} `{Countable K} (step : S -> K * A -> S) (proj : S -> K -> X) (f : A -> X -> X)
    (l : list (K * A)) s k :
  (forall s k a, proj (step s (k, a)) k = f a (proj s k)) ->
  (forall s k a k', k' <> k -> proj (step s (k, a)) k' = proj s k') ->
  NoDup l.*1 ->
  proj (foldl step s l) k =
    match (list_to_map l : gmap K A) !! k with Some a => f a (proj s k) | None => proj s k end.
Proof.
  intros Hsame Hother. revert s. induction l as [|[k0 a] l IH]; intros s Hnd; [done|].
  apply NoDup_cons in Hnd as [Hk0 Hnd]. cbn [foldl list_to_map foldr fst snd]. rewrite IH by done.
  destruct (decide (k = k0)) as [->|Hne].
  - rewrite lookup_insert_eq, Hsame, (not_elem_of_list_to_map_1 l k0) by done. done.
  - by rewrite lookup_insert_ne, Hother by done.
Qed.

Lemma foldl_keyed_map {K A S X} `{Countable K} (step : S -> K * A -> S) (proj : S -> K -> X) (f : A -> X -> X)
    (M : gmap K A) s k :
  (forall s k a, proj (step s (k, a)) k = f a (proj s k)) ->
  (forall s k a k', k' <> k -> proj (step s (k, a)) k' = proj s k') ->
  proj (foldl step s (map_to_list M)) k = match M !! k with Some a => f a (proj s k) | None => proj s k end.
Proof.
  intros. rewrite (foldl_keyed step proj f) by (done || apply NoDup_fst_map_to_list).
  by rewrite list_to_map_to_list.
Qed.

Section commit.
Context {V : Type}.
Implicit Types (m : MemCache V).

(** What the commit of an entry leaves for its own key. *)
Definition committed_snapshot (q : QueueAggregatePositions) (s : option MemSnapshotAggregate)
    : option MemSnapshotAggregate :=
  if pending_delete q then s else if had_event_batch q then Some (queue_snapshot s q) else s.

Definition committed_position (q : QueueAggregatePositions) (p : option QueueAggregatePositions)
    : option QueueAggregatePositions :=
  if pending_delete q then p
  else match p with
       | Some cur => if q_aggregate_version cur =? q_aggregate_version q then None else Some cur
       | None => None
       end.

Definition merged_client (old : option (Z * Z)) (client_seq wal_seq : Z) : option (Z * Z) :=
  match old with
  | Some (existing, w) => if existing <? client_seq then Some (client_seq, wal_seq) else Some (existing, w)
  | None => Some (client_seq, wal_seq)
  end.

Definition committed_client (c : Z) (q : QueueAggregatePositions) (old : option (Z * Z)) : option (Z * Z) :=
  if pending_delete q then old
  else match client_seqes q !! c with Some cs => merged_client old cs (q_wal_seq q) | None => old end.

Lemma merge_client_lookup m ck cs w ck' :
  client_snapshots (merge_aggregate_client_seq_max m ck cs w) !! ck' =
    (if decide (ck' = ck) then merged_client (client_snapshots m !! ck) cs w else client_snapshots m !! ck').
Proof.
  unfold merge_aggregate_client_seq_max, merged_client.
  destruct (client_snapshots m !! ck) as [[e w0]|] eqn:E; [destruct (e <? cs)|]; cbn;
    destruct (decide (ck' = ck)) as [->|Hne]; rewrite ?lookup_insert_eq, ?lookup_insert_ne; done.
Qed.

Lemma merge_client_frame m ck cs w :
  let m' := merge_aggregate_client_seq_max m ck cs w in
  write_snapshots m' = write_snapshots m /\ read_snapshots m' = read_snapshots m /\
  queue_positions m' = queue_positions m /\ pending_append_queue m' = pending_append_queue m.
Proof. unfold merge_aggregate_client_seq_max. by repeat case_match. Qed.

Lemma merge_clients_frame m key w l :
  let m' := foldl (fun m '(client_id, client_seq) =>
      merge_aggregate_client_seq_max m {| ack_aggregate_key := key; ack_client_id := client_id |} client_seq w) m l in
  write_snapshots m' = write_snapshots m /\ read_snapshots m' = read_snapshots m /\
  queue_positions m' = queue_positions m /\ pending_append_queue m' = pending_append_queue m.
Proof.
  revert m. induction l as [|[c cs] l IH]; intros m; [done|]. cbn [foldl].
  destruct (merge_client_frame m {| ack_aggregate_key := key; ack_client_id := c |} cs w) as (E1 & E2 & E3 & E4).
  destruct (IH (merge_aggregate_client_seq_max m {| ack_aggregate_key := key; ack_client_id := c |} cs w))
    as (F1 & F2 & F3 & F4).
  by rewrite F1, F2, F3, F4.
Qed.

Lemma merge_clients_lookup m key w (M : gmap Z Z) key' c :
  client_snapshots (foldl (fun m '(client_id, client_seq) =>
      merge_aggregate_client_seq_max m {| ack_aggregate_key := key; ack_client_id := client_id |} client_seq w) m
      (map_to_list M)) !! {| ack_aggregate_key := key'; ack_client_id := c |} =
    let old := client_snapshots m !! {| ack_aggregate_key := key'; ack_client_id := c |} in
    if decide (key' = key) then match M !! c with Some cs => merged_client old cs w | None => old end else old.
Proof.
  rewrite (foldl_keyed_map _
    (fun (m : MemCache V) c => client_snapshots m !! {| ack_aggregate_key := key'; ack_client_id := c |})
    (fun cs old => if decide (key' = key) then merged_client old cs w else old)).
  - cbn. by destruct (M !! c), (decide (key' = key)).
  - intros s k a. rewrite merge_client_lookup. destruct (decide (key' = key)) as [->|Hne].
    + by rewrite decide_True.
    + rewrite decide_False; congruence.
  - intros s k a k' Hne. rewrite merge_client_lookup, decide_False; congruence.
Qed.

(** The state of one key, with that of one of its clients. *)
Definition key_view (c : Z) m (key : AggregateKey) :=
  (write_snapshots m !! key, queue_positions m !! key,
   client_snapshots m !! {| ack_aggregate_key := key; ack_client_id := c |}).

Definition committed_view (c : Z) (q : QueueAggregatePositions)
    (v : option MemSnapshotAggregate * option QueueAggregatePositions * option (Z * Z)) :=
  (committed_snapshot q v.1.1, committed_position q v.1.2, committed_client c q v.2).

(** The three parts of [commit_queue_entry]. *)
Definition commit_snapshots (node_status : NodeStatus) m (key : AggregateKey) (q : QueueAggregatePositions) : MemCache V :=
  if had_event_batch q then
    let m := set_snapshots m CacheWrite
               (<[key := queue_snapshot (write_snapshots m !! key) q]> (write_snapshots m)) in
    if status_is_leader node_status then m
    else set_snapshots m CacheRead (<[key := queue_snapshot (read_snapshots m !! key) q]> (read_snapshots m))
  else m.

Lemma commit_snapshots_frame ns m key q :
  write_snapshots (commit_snapshots ns m key q) =
    (if had_event_batch q then <[key := queue_snapshot (write_snapshots m !! key) q]> (write_snapshots m)
     else write_snapshots m) /\
  queue_positions (commit_snapshots ns m key q) = queue_positions m /\
  client_snapshots (commit_snapshots ns m key q) = client_snapshots m /\
  pending_append_queue (commit_snapshots ns m key q) = pending_append_queue m.
Proof. unfold commit_snapshots. by repeat case_match. Qed.

Definition drop_position m (key : AggregateKey) (q : QueueAggregatePositions) : MemCache V :=
  match queue_positions m !! key with
  | Some current =>
      if q_aggregate_version current =? q_aggregate_version q
      then set_positions m (delete key (queue_positions m)) else m
  | None => m
  end.

Lemma drop_position_frame m key q :
  write_snapshots (drop_position m key q) = write_snapshots m /\
  client_snapshots (drop_position m key q) = client_snapshots m /\
  pending_append_queue (drop_position m key q) = pending_append_queue m.
Proof. unfold drop_position. by repeat case_match. Qed.

Lemma drop_position_lookup m key q key' : pending_delete q = false ->
  queue_positions (drop_position m key q) !! key' =
    if decide (key' = key) then committed_position q (queue_positions m !! key) else queue_positions m !! key'.
Proof.
  intros Hd. unfold drop_position, committed_position. rewrite Hd.
  destruct (queue_positions m !! key) as [cur|] eqn:E;
    [destruct (q_aggregate_version cur =? q_aggregate_version q)|]; cbn;
    destruct (decide (key' = key)) as [->|]; by rewrite ?lookup_delete_eq, ?lookup_delete_ne.
Qed.

Lemma commit_queue_entry_view c ns m key q key' :
  key_view c (commit_queue_entry ns m (key, q)) key' =
    if decide (key' = key) then committed_view c q (key_view c m key) else key_view c m key'.
Proof.
  unfold commit_queue_entry, committed_view, committed_snapshot, committed_client.
  destruct (pending_delete q) eqn:Hd.
  { unfold committed_position. rewrite Hd. destruct (decide (key' = key)) as [->|]; [|done].
    by destruct (key_view c m key) as [[??]?]. }
  fold (commit_snapshots ns m key q). set (m1 := commit_snapshots ns m key q). set (m2 := foldl _ m1 _).
  fold (drop_position m2 key q). unfold key_view.
  destruct (commit_snapshots_frame ns m key q) as (Hw & Hq & Hc & _). fold m1 in Hw, Hq, Hc.
  destruct (merge_clients_frame m1 key (q_wal_seq q) (map_to_list (client_seqes q))) as (Fw & _ & Fq & _).
  pose proof (merge_clients_lookup m1 key (q_wal_seq q) (client_seqes q) key' c) as Fc.
  fold m2 in Fw, Fq, Fc. cbn zeta in Fc.
  destruct (drop_position_frame m2 key q) as (Gw & Gc & _).
  rewrite Gw, Gc, drop_position_lookup, Fw, Fq, Fc, Hc, Hw, Hq by done.
  destruct (decide (key' = key)) as [->|Hne]; cbn [fst snd]; destruct (had_event_batch q);
    rewrite ?lookup_insert_eq, ?lookup_insert_ne by done; done.
Qed.

Lemma commit_sync_view c ns m s key :
  key_view c (commit_sync_positions_snapshot ns m s) key =
    match sps_positions s !! key with
    | Some q => committed_view c q (key_view c m key)
    | None => key_view c m key
    end.
Proof.
  unfold commit_sync_positions_snapshot.
  apply (foldl_keyed_map _ (key_view c) (committed_view c)); intros.
  - by rewrite commit_queue_entry_view, decide_True.
  - by rewrite commit_queue_entry_view, decide_False.
Qed.

Lemma commit_queue_entry_queue ns m p :
  pending_append_queue (commit_queue_entry ns m p) = pending_append_queue m.
Proof.
  destruct p as [key q]. unfold commit_queue_entry. destruct (pending_delete q); [done|].
  fold (commit_snapshots ns m key q). set (m1 := commit_snapshots ns m key q). set (m2 := foldl _ m1 _).
  fold (drop_position m2 key q).
  destruct (drop_position_frame m2 key q) as (_ & _ & ->).
  destruct (merge_clients_frame m1 key (q_wal_seq q) (map_to_list (client_seqes q))) as (_ & _ & _ & F).
  fold m2 in F. rewrite F. unfold m1.
  by destruct (commit_snapshots_frame ns m key q) as (_ & _ & _ & ->).
Qed.

Lemma commit_sync_queue ns m s :
  pending_append_queue (commit_sync_positions_snapshot ns m s) = pending_append_queue m.
Proof.
  unfold commit_sync_positions_snapshot. generalize (map_to_list (sps_positions s)). intros l. revert m.
  induction l as [|p l IH]; intros m; [done|]. cbn [foldl]. by rewrite IH, commit_queue_entry_queue.
Qed.
End commit.
