(* ===== verification/LogSegment.v ===== *)
(** * The segment files of the log

    [celeriant_rotating_log/src/log_segment_file/]: the bloom of a segment's
    aggregate keys ([aggregate_key_bloom.rs]), the cursors
    ([log_segment_cursor.rs]) and the metadata of an open segment file
    ([log_segment_file_metadata.rs]).

    The cursors of one segment share their blooms through [Rc<RefCell<_>>]
    (the read cursor is a clone of the write cursor or is built from it), so
    here a segment file owns the two blooms and a cursor is the segment's id
    with the positions that its header stores. *)

From S2P Require Import Prelude WalConstants Codec WalTypes WalCodec DiskFormat Sbbf.

(** ** aggregate_key_bloom.rs *)

Definition WORDS : Z := AGGREGATE_BLOOM_BYTES / 8.

Record AggregateKeyBloom := { words : list Z }.

Definition AggregateKeyBloom_new : AggregateKeyBloom := {| words := zero_words WORDS |}.

Definition with_capacity_bytes (bytes : Z) : AggregateKeyBloom := {| words := zero_words (bytes / 8) |}.

Definition bloom_absent : AggregateKeyBloom := {| words := [] |}.

Definition from_bytes (b : list Z) : AggregateKeyBloom :=
  if negb (Nat.eqb (length b mod 4) 0) then bloom_absent else {| words := b |}.

Definition is_absent (b : AggregateKeyBloom) : bool := match words b with [] => true | _ => false end.

Definition bloom_clear (b : AggregateKeyBloom) : AggregateKeyBloom := {| words := (fun _ => 0) <$> words b |}.

Definition insert_hash (b : AggregateKeyBloom) (hash : Z) : option AggregateKeyBloom :=
  if is_absent b then Some b else w ← Sbbf.insert (words b) hash; Some {| words := w |}.

Definition bloom_may_contain_hash (b : AggregateKeyBloom) (hash : Z) : option bool :=
  if is_absent b then Some true else Sbbf.contains (words b) hash.

Section keys.
Context `{Xxh3}.

Definition bloom_insert (b : AggregateKeyBloom) (key : AggregateKey) : option AggregateKeyBloom :=
  insert_hash b (AggregateKey_bloom_hash key).

Definition bloom_insert_all (b : AggregateKeyBloom) (keys : list AggregateKey) : option AggregateKeyBloom :=
  foldM (fun b key => insert_hash b (AggregateKey_bloom_hash key)) keys b.

Definition bloom_may_contain (b : AggregateKeyBloom) (key : AggregateKey) : option bool :=
  bloom_may_contain_hash b (AggregateKey_bloom_hash key).
End keys.

(** ** log_segment_cursor.rs *)

Record LogSegmentCursor := {
  cur_log_id : Z;
  pos : HeaderCursor;
}.

Definition from_header_cursor (log_id : Z) (cursor : HeaderCursor) : LogSegmentCursor :=
  {| cur_log_id := log_id; pos := cursor |}.

Definition from_shard_log_header_write (log_id : Z) (header : ShardLogHeader) : LogSegmentCursor :=
  from_header_cursor log_id (write header).

Definition read_snapshot_sharing_bloom (c : LogSegmentCursor) (read_hc : HeaderCursor) : LogSegmentCursor :=
  {| cur_log_id := cur_log_id c; pos := read_hc |}.

Definition to_header_cursor (c : LogSegmentCursor) : HeaderCursor := pos c.

Definition cursor_to_shard_log_header (c : LogSegmentCursor) (read : option LogSegmentCursor)
    (last_received last_self_acked : Z) : ShardLogHeader :=
  {| write := to_header_cursor c; last_received_replication_wal_seq := last_received;
     last_self_acked_wal_seq := last_self_acked;
     read := match read with Some r => to_header_cursor r | None => HeaderCursor_genesis end |}.

(** ** log_segment_file_metadata.rs *)

Record LogSegmentFileMetadata := {
  md_log_id : Z;
  file_len : Z;
  md_write : LogSegmentCursor;
  md_read : option LogSegmentCursor;
  datablocks_carry_over : option bytes;
  md_last_received_replication_wal_seq : Z;
  md_last_self_acked_wal_seq : Z;
}.

Definition md_available_space (md : LogSegmentFileMetadata) : Z :=
  saturating_sub (datablocks_position (pos (md_write md))) (metablocks_position (pos (md_write md))).

Definition LogSegmentFileMetadata_new (log_id file_len : Z) (carry_over : option bytes)
    (header : ShardLogHeader) (advance_read : bool) : LogSegmentFileMetadata :=
  let w := from_shard_log_header_write log_id header in
  {| md_log_id := log_id; file_len := file_len; md_write := w;
     md_read :=
       if advance_read && (Z.of_nat HEADER_BLOCK_SIZE_BYTES <=? metablocks_position (read header))
       then Some (read_snapshot_sharing_bloom w (read header)) else None;
     datablocks_carry_over := carry_over;
     md_last_received_replication_wal_seq := last_received_replication_wal_seq header;
     md_last_self_acked_wal_seq := last_self_acked_wal_seq header |}.

Definition to_shard_log_header (md : LogSegmentFileMetadata) : ShardLogHeader :=
  cursor_to_shard_log_header (md_write md) (md_read md) (md_last_received_replication_wal_seq md)
    (md_last_self_acked_wal_seq md).

Definition advance_visible_position (md : LogSegmentFileMetadata) : LogSegmentFileMetadata :=
  {| md_log_id := md_log_id md; file_len := file_len md; md_write := md_write md;
     md_read := Some (md_write md); datablocks_carry_over := datablocks_carry_over md;
     md_last_received_replication_wal_seq := md_last_received_replication_wal_seq md;
     md_last_self_acked_wal_seq := md_last_self_acked_wal_seq md |}.

Definition is_pending_advance (md : LogSegmentFileMetadata) : bool :=
  match md_read md with
  | None => true
  | Some r => hc_wal_seq (pos r) <? hc_wal_seq (pos (md_write md))
  end.

Definition readable_metablocks_end (md : LogSegmentFileMetadata) : Z :=
  match md_read md with
  | Some r => metablocks_position (pos r)
  | None => metablocks_position (pos (md_write md))
  end.

(** ** The bloom has no false negatives *)

Definition segment_bloom_ok (b : AggregateKeyBloom) : Prop := is_absent b = true \/ bloom_ok (words b).

Lemma segment_insert_spec b hash : segment_bloom_ok b -> u64 hash ->
  exists b', insert_hash b hash = Some b' /\ segment_bloom_ok b' /\
    bloom_may_contain_hash b' hash = Some true /\
    forall h, bloom_may_contain_hash b h = Some true -> bloom_may_contain_hash b' h = Some true.
Proof.
  intros Hb Hh. unfold insert_hash, bloom_may_contain_hash. destruct (is_absent b) eqn:Ha.
  { exists b. rewrite Ha. split_and!; by try left. }
  destruct Hb as [|Hok]; [congruence|].
  destruct (insert_spec (words b) hash Hok Hh) as (w & E & Hcov & Hc). rewrite E. cbn.
  pose proof (covers_length _ _ Hcov) as Hl.
  assert (Hok' : bloom_ok w) by (by eapply bloom_ok_length).
  exists {| words := w |}. split_and!; [done|by right|..].
  - unfold is_absent. cbn. by destruct w.
  - intros h Hin. unfold is_absent in *. cbn. destruct w; [done|]. by eapply contains_covers.
Qed.

(** ** Reopening a segment *)

Section header.
Context `{Bincode, Crc32c}.

Definition header_block (h : ShardLogHeader) : bytes :=
  block_bytes (enc_shard_log_header h) WIRE_VERSION_WAL_SHARD_LOG_HEADER
    (HEADER_BLOCK_SIZE_BYTES - (HEADER_SIZE + length (enc_shard_log_header h))).

Lemma length_enc_shard_log_header h : wf_shard_log_header h ->
  length (enc_shard_log_header h) = ShardLogHeaderLayout.WIRE_SIZE_TOTAL.
Proof.
  intros ((_ & _ & _ & [H1 _]) & _ & _ & (_ & _ & _ & [H2 _])).
  unfold enc_shard_log_header, enc_header_cursor.
  by rewrite !length_app, !length_enc_uint, !(length_enc_array _ 1), H1, H2 by apply length_enc_uint.
Qed.

Lemma serialize_header h buffer :
  wf_shard_log_header h -> length buffer = HEADER_BLOCK_SIZE_BYTES ->
  serialize_versioned_message (enc_shard_log_header h) WIRE_VERSION_WAL_SHARD_LOG_HEADER buffer =
    Some (Ok (header_block h)).
Proof.
  intros Hh Hl. rewrite serialize_shape by (rewrite length_enc_shard_log_header, Hl by done; vm_compute; lia).
  unfold header_block. by rewrite Hl.
Qed.

Lemma length_header_block h : wf_shard_log_header h -> length (header_block h) = HEADER_BLOCK_SIZE_BYTES.
Proof.
  intros Hh. unfold header_block. rewrite length_block_bytes, length_enc_shard_log_header by done. done.
Qed.

Lemma deserialise_header_block h : wf_shard_log_header h ->
  deserialise_shard_log_header (header_block h) = Ok h.
Proof.
  intros Hh. unfold deserialise_shard_log_header. rewrite length_header_block by done. cbn [negb Nat.eqb].
  replace (negb (Nat.eqb HEADER_BLOCK_SIZE_BYTES HEADER_BLOCK_SIZE_BYTES)) with false by done.
  unfold header_block. rewrite validate_block by done. cbn [mbind result_bind].
  replace (negb _) with false by done.
  unfold fixed_deserialise. rewrite drop_block, (shard_log_header_ok h) by done. done.
Qed.
End header.

(** The metadata of an open segment: its cursors belong to it, and the read
    cursor, once it exists, is past the header. *)
Record metadata_ok (md : LogSegmentFileMetadata) : Prop := {
  md_write_id : cur_log_id (md_write md) = md_log_id md;
  md_read_ok r : md_read md = Some r ->
    cur_log_id r = md_log_id md /\ Z.of_nat HEADER_BLOCK_SIZE_BYTES <= metablocks_position (pos r);
  md_header_wf : wf_shard_log_header (to_shard_log_header md);
}.

Section reopen.
Context `{Bincode, Crc32c}.

(** C39: a segment's header survives a restart: the block written from an open
    segment's metadata decodes, whatever the recycled buffer held, to a header
    from which the same metadata is rebuilt, the read cursor that has not
    reached the segment included. *)
Theorem segment_reopen_roundtrip (md : LogSegmentFileMetadata) (buffer : bytes) :
  metadata_ok md -> length buffer = HEADER_BLOCK_SIZE_BYTES ->
  exists block header,
    serialize_versioned_message (enc_shard_log_header (to_shard_log_header md))
      WIRE_VERSION_WAL_SHARD_LOG_HEADER buffer = Some (Ok block) /\
    deserialise_shard_log_header block = Ok header /\
    LogSegmentFileMetadata_new (md_log_id md) (file_len md) (datablocks_carry_over md) header true = md.
Proof.
  intros [Hw Hr Hwf] Hl. eexists _, _. split; [by apply serialize_header|].
  split; [by apply deserialise_header_block|].
  destruct md as [id len [wid w] rd carry lr ls]. cbn in *. subst wid.
  unfold LogSegmentFileMetadata_new, from_shard_log_header_write, from_header_cursor. cbn. f_equal.
  destruct rd as [[rid r]|]; cbn; [|done].
  destruct (Hr _ eq_refl) as [Hid Hle]. cbn in Hid, Hle. subst rid.
  by rewrite (proj2 (Z.leb_le _ _)).
Qed.
End reopen.

Definition sample_metadata : LogSegmentFileMetadata :=
  LogSegmentFileMetadata_new 1 (5 * 4096) None (ShardLogHeader_new (5 * 4096)) true.

Lemma sample_metadata_ok : metadata_ok sample_metadata.
Proof.
  split; [done| |].
  - intros r [= <-]. vm_compute. done.
  - assert (Hz : wf_byte_array 32 GENESIS_HASH) by (split; [done|repeat constructor; lia]).
    unfold wf_shard_log_header, wf_header_cursor. cbn -[GENESIS_HASH]. split_and!; done || lia.
Qed.

Lemma segment_reopen_roundtrip_witness : exists block header,
  @serialize_versioned_message bincode_le crc_sum
    (@enc_shard_log_header bincode_le (to_shard_log_header sample_metadata))
    WIRE_VERSION_WAL_SHARD_LOG_HEADER (zeros HEADER_BLOCK_SIZE_BYTES) = Some (Ok block) /\
  @deserialise_shard_log_header bincode_le crc_sum block = Ok header /\
  LogSegmentFileMetadata_new 1 (5 * 4096) None header true = sample_metadata.
Proof.
  apply (@segment_reopen_roundtrip bincode_le crc_sum sample_metadata (zeros HEADER_BLOCK_SIZE_BYTES)
    sample_metadata_ok). apply length_replicate.
Defined.
