(* ===== verification/LogSync.v ===== *)
(** * Writing a batch to the active segment

    [celeriant_shard/src/shard_wal_sync.rs], [sync]: the datablocks of the
    batch are laid out downwards from the end of the file, the metablocks are
    stamped with their sequence number, position, backlink and chain hash and
    laid out upwards from its start, and both are written before the header
    that makes them part of the log.

    A file is its bytes.  The buffers of the direct I/O come from a pool and
    hold anything when they are allocated: [recycled] is the content of the
    metablock buffer, block by block. *)

From S2P Require Import Prelude Lease WalConstants Codec WalTypes WalCodec DiskFormat HashChain Sbbf LogSegment MemCache.

Inductive CommitTarget := FullCommit | DeferToReplicationAck | DeferToLeaderConfirmed.

#[global] Instance CommitTarget_eq_dec : EqDecision CommitTarget.
Proof. solve_decision. Defined.

Inductive Stage := Datablocks | Metablocks.

Inductive ShardFsyncError :=
  | DatablocksCarryOverBufferNotPresent
  | RollbackInvalidatedWrites
  | BatchesTooLarge (preallocate_bytes : Z)
  | UnableToRotateToNewLogSegmentFile
  | ActiveWriteFileUnavailable
  | WriteLockTimeout
  | MetablockSerialisationError
  | WriteMetablocksError
  | LogSegmentFileHeaderWriteFailure
  | FDataSyncError
  | WriteDatablocksError
  | OverlappingWriteRanges (data_start data_end meta_start meta_end : Z)
  | ShortWrite (stage : Stage) (offset : Z) (expected got : nat)
  | SegmentSummarySidecarWriteError
  | BudgetExhausted
  | TruncateRefusedByAckBarrier (divergent_wal_seq barrier : Z).

Definition fsync_is_retriable (e : ShardFsyncError) : bool :=
  match e with
  | RollbackInvalidatedWrites | WriteLockTimeout | TruncateRefusedByAckBarrier _ _ => true
  | _ => false
  end.

(** An open segment file. *)
Record LogSegmentFile := {
  metadata : LogSegmentFileMetadata;
  aggregate_chain_tips : gmap AggregateKey Z;
  aggregate_key_bloom : AggregateKeyBloom;
  client_id_bloom : AggregateKeyBloom;
  contents : bytes;
}.

Definition verify_full_write (got expected : nat) (stage : Stage) (offset : Z) : outcome ShardFsyncError unit :=
  if Nat.eqb got expected then Done tt else Failed (ShortWrite stage offset expected got).

Definition check_batch_write_ranges (data_start data_end meta_start meta_end : Z)
    : outcome ShardFsyncError unit :=
  if (data_start <? data_end) && (meta_start <? meta_end) && (meta_end <=? data_start) then Done tt
  else Failed (OverlappingWriteRanges data_start data_end meta_start meta_end).

(** ** Datablocks *)

(** The copy loop: each datablock goes below the one before it. *)
Fixpoint place_datablocks (front : nat) (new_datablocks_position : Z) (position : nat)
    (queue : list ShardLogQueueItem) (buffer : bytes) : list Z * bytes :=
  match queue with
  | [] => ([], buffer)
  | item :: queue =>
      match datablock_bytes item with
      | None => place_datablocks front new_datablocks_position position queue buffer
      | Some b =>
          let position := (position - length b)%nat in
          let buffer := write_at buffer (front + position) b in
          let '(positions, buffer) := place_datablocks front new_datablocks_position position queue buffer in
          (new_datablocks_position + Z.of_nat position :: positions, buffer)
      end
  end.

Record DatablockLayout := {
  absolute_write_positions : list Z;
  new_datablocks_position : Z;
  new_carry_over : option bytes;
  datablocks_write : option (Z * bytes);
}.

Definition layout_datablocks (alignment : Z) (md : LogSegmentFileMetadata) (queue : list ShardLogQueueItem)
    (metablocks_write_start metablocks_write_end : Z) : outcome ShardFsyncError DatablockLayout :=
  let dp := datablocks_position (pos (md_write md)) in
  let size := buffer_size_datablocks queue in
  if 0 <? size then
    let write_to_pos := align_up dp alignment in
    let new_dp := saturating_sub dp size in
    let write_from_pos := align_down new_dp alignment in
    let aligned_size := saturating_sub write_to_pos write_from_pos in
    _ ← check_batch_write_ranges write_from_pos write_to_pos metablocks_write_start metablocks_write_end;
    let front_carry_over := Z.to_nat (saturating_sub new_dp write_from_pos) in
    let end_carry_over := Z.to_nat (saturating_sub write_to_pos dp) in
    let buffer := zeros (front_carry_over + Z.to_nat size + end_carry_over) in
    buffer ←
      (if Nat.eqb end_carry_over 0 then Done buffer
       else match datablocks_carry_over md with
            | Some carry =>
                if Nat.eqb (length carry) end_carry_over
                then Done (write_at buffer (Z.to_nat (saturating_sub aligned_size (Z.of_nat end_carry_over))) carry)
                else Failed DatablocksCarryOverBufferNotPresent
            | None => Failed DatablocksCarryOverBufferNotPresent
            end);
    let '(positions, buffer) := place_datablocks front_carry_over new_dp (Z.to_nat size) queue buffer in
    let carry_size := Z.to_nat (saturating_sub (align_up new_dp alignment) new_dp) in
    Done {| absolute_write_positions := positions; new_datablocks_position := new_dp;
            new_carry_over := if Nat.eqb carry_size 0 then datablocks_carry_over md
                              else Some (slice buffer front_carry_over carry_size);
            datablocks_write := Some (saturating_sub new_dp (Z.of_nat front_carry_over), buffer) |}
  else
    Done {| absolute_write_positions := []; new_datablocks_position := dp;
            new_carry_over := datablocks_carry_over md; datablocks_write := None |}.

(** ** Metablocks *)

(** What the stamping loop carries from item to item. *)
Record Stamping := {
  st_index : nat;
  st_wal_seq : Z;
  st_offset : nat;
  st_tip_hash : bytes;
  chain_overlay : gmap AggregateKey Z;
  st_positions : gmap AggregateKey QueueAggregatePositions;
}.

(** Event batches and deletes record their position, trims do not. *)
Definition positions_key (m : Metablock) : option AggregateKey :=
  match wal_metablock_type m with
  | EventBatchMetadata b => Some (eb_aggregate_key b)
  | SoftDelete d => Some (sd_aggregate_key d)
  | _ => None
  end.

Definition record_position (log_id position wal_seq : Z) (q : QueueAggregatePositions) : QueueAggregatePositions :=
  {| pending_delete := pending_delete q; q_allow_recreate := q_allow_recreate q;
     q_allow_sequence_continuation := q_allow_sequence_continuation q; q_log_id := log_id;
     q_metablock_absolute_pos := position; q_wal_seq := wal_seq; q_event_seq := q_event_seq q;
     q_aggregate_version := q_aggregate_version q; q_min_aggregate_version := q_min_aggregate_version q;
     client_seqes := client_seqes q; had_event_batch := had_event_batch q |}.

Section sync.
Context `{Bincode, Crc32c, Blake3, Xxh3}.
Context (recycled : nat -> bytes).

Definition stamp_metablock (m : Metablock) (datablock_position previous_pos wal_seq : Z) (tip : bytes) : Metablock :=
  {| wal_seq := wal_seq; server_timestamp := server_timestamp m; lease_epoch := lease_epoch m;
     node_id := node_id m; uncompressed_size := uncompressed_size m; compressed_size := compressed_size m;
     datablock_version := datablock_version m; datablock_compression_type := datablock_compression_type m;
     previous_tip_hash := tip; datablock_position := datablock_position;
     previous_aggregate_metablock_pos := previous_pos;
     wal_metablock_type := wal_metablock_type m; datablock := datablock m |}.

(** The position of the block, the position entries it updates, and the
    backlink to the aggregate's previous block in this segment. *)
Definition absolute_pos (md : LogSegmentFileMetadata) (st : Stamping) : Z :=
  metablocks_position (pos (md_write md)) + Z.of_nat (st_offset st).

Definition positions_after (md : LogSegmentFileMetadata) (st : Stamping) (m : Metablock) (wal_seq : Z)
    : gmap AggregateKey QueueAggregatePositions :=
  match positions_key m with
  | Some key => alter (record_position (md_log_id md) (absolute_pos md st) wal_seq) key (st_positions st)
  | None => st_positions st
  end.

Definition backlink (tips : gmap AggregateKey Z) (st : Stamping) (m : Metablock) : Z :=
  match chain_aggregate_key m with
  | Some key => default 0 (match chain_overlay st !! key with Some p => Some p | None => tips !! key end)
  | None => previous_aggregate_metablock_pos m
  end.

Definition overlay_after (md : LogSegmentFileMetadata) (st : Stamping) (m : Metablock) : gmap AggregateKey Z :=
  match chain_aggregate_key m with
  | Some key => <[key := absolute_pos md st]> (chain_overlay st)
  | None => chain_overlay st
  end.

(** One turn of the loop: the new state, the item and its block. *)
Definition stamp_item (md : LogSegmentFileMetadata) (tips : gmap AggregateKey Z) (positions : list Z)
    (st : Stamping) (item : ShardLogQueueItem)
    : outcome ShardFsyncError (Stamping * ShardLogQueueItem * bytes) :=
  let m := qi_metablock item in
  '(data_pos, index) ←
    (match datablock_bytes item, qi_datablock item with
     | Some _, Some _ => p ← or_panic (positions !! st_index st); Done (p, S (st_index st))
     | _, _ => Done (datablock_position m, st_index st)
     end);
  let wal_seq := saturating_add 64 (st_wal_seq st) 1 in
  let m' := stamp_metablock m data_pos (backlink tips st m) wal_seq (st_tip_hash st) in
  serialised ← or_panic (serialize_versioned_message (enc_metablock m') WIRE_VERSION_WAL_METABLOCK
                           (recycled (st_offset st)));
  block ← from_result (fun _ => MetablockSerialisationError) serialised;
  tip ← or_panic (compute_entry_hash (st_tip_hash st) block);
  Done ({| st_index := index; st_wal_seq := wal_seq; st_offset := st_offset st + FIXED_BLOCK_SIZE_BYTES;
           st_tip_hash := tip; chain_overlay := overlay_after md st m;
           st_positions := positions_after md st m wal_seq |},
        {| datablock_bytes := datablock_bytes item; qi_datablock := qi_datablock item; qi_metablock := m';
           qi_metablock_absolute_pos := absolute_pos md st; size_bytes := size_bytes item |},
        block).

Fixpoint stamp_items (md : LogSegmentFileMetadata) (tips : gmap AggregateKey Z) (positions : list Z)
    (st : Stamping) (queue : list ShardLogQueueItem)
    : outcome ShardFsyncError (Stamping * list ShardLogQueueItem * bytes) :=
  match queue with
  | [] => Done (st, [], [])
  | item :: queue =>
      '(st, item, block) ← stamp_item md tips positions st item;
      '(st, items, blocks) ← stamp_items md tips positions st queue;
      Done (st, item :: items, block ++ blocks)
  end.

(** ** The writes of a batch *)

Record SyncPlan := {
  plan_snapshot : SyncPositionsSnapshot;
  plan_metadata : LogSegmentFileMetadata;
  plan_datablocks : option (Z * bytes);
  plan_metablocks : Z * bytes;
  plan_header : ShardLogHeader;
}.

Definition sync_plan (dma_alignment : Z) (seg : LogSegmentFile) (s : SyncPositionsSnapshot)
    (commit_target : CommitTarget) : outcome ShardFsyncError SyncPlan :=
  let md := metadata seg in
  let w := pos (md_write md) in
  let alignment := Z.max dma_alignment MIN_WRITE_ALIGNMENT in
  let content_size := buffer_size_metablocks (sps_queue s) in
  let padded_size := align_up content_size alignment in
  let metablocks_write_start := metablocks_position w in
  let metablocks_write_end := saturating_add 64 metablocks_write_start padded_size in
  layout ← layout_datablocks alignment md (sps_queue s) metablocks_write_start metablocks_write_end;
  '(st, items, blocks) ←
    stamp_items md (aggregate_chain_tips seg) (absolute_write_positions layout)
      {| st_index := 0; st_wal_seq := hc_wal_seq w; st_offset := 0; st_tip_hash := tip_hash w;
         chain_overlay := ∅; st_positions := sps_positions s |} (sps_queue s);
  let md' :=
    {| md_log_id := md_log_id md; file_len := file_len md;
       md_write := {| cur_log_id := cur_log_id (md_write md);
                      pos := {| metablocks_position := metablocks_position w + content_size;
                                datablocks_position := new_datablocks_position layout;
                                hc_wal_seq := st_wal_seq st; tip_hash := st_tip_hash st |} |};
       md_read := md_read md; datablocks_carry_over := new_carry_over layout;
       md_last_received_replication_wal_seq := md_last_received_replication_wal_seq md;
       md_last_self_acked_wal_seq := md_last_self_acked_wal_seq md |} in
  let md' := match commit_target with FullCommit => advance_visible_position md' | _ => md' end in
  Done {| plan_snapshot := {| sps_queue := items; sps_positions := st_positions st; sps_schemas := sps_schemas s |};
          plan_metadata := md';
          plan_datablocks := datablocks_write layout;
          plan_metablocks := (metablocks_write_start, blocks ++ zeros (Z.to_nat padded_size - Z.to_nat content_size));
          plan_header := to_shard_log_header md' |}.

(** The keys of the batch enter the segment's blooms. *)
Definition bloom_keys (m : Metablock) : option (AggregateKey * Z) :=
  match wal_metablock_type m with
  | EventBatchMetadata b => Some (eb_aggregate_key b, eb_client_id b)
  | SchemaRegistration _ => None
  | SoftDelete d => Some (sd_aggregate_key d, sd_client_id d)
  | SoftTrim t => Some (st_aggregate_key t, st_client_id t)
  end.

Definition update_blooms (blooms : AggregateKeyBloom * AggregateKeyBloom) (item : ShardLogQueueItem)
    : option (AggregateKeyBloom * AggregateKeyBloom) :=
  match bloom_keys (qi_metablock item) with
  | None => Some blooms
  | Some (key, client_id) =>
      a ← insert_hash blooms.1 (AggregateKey_bloom_hash key);
      c ← insert_hash blooms.2 (client_id_bloom_hash client_id);
      Some (a, c)
  end.

Definition file_write (file : bytes) (at_ : Z) (buffer : bytes) : bytes := write_at file (Z.to_nat at_) buffer.

Definition write_opt (file : bytes) (w : option (Z * bytes)) : bytes :=
  match w with Some (at_, buffer) => file_write file at_ buffer | None => file end.

(** [write_dual_shard_log_header]. *)
Definition write_dual_shard_log_header (file : bytes) (header_end_start_pos : Z) (header : ShardLogHeader)
    (buffer : bytes) : outcome ShardFsyncError bytes :=
  serialised ← or_panic (serialize_versioned_message (enc_shard_log_header header)
                           WIRE_VERSION_WAL_SHARD_LOG_HEADER buffer);
  block ← from_result (fun _ => LogSegmentFileHeaderWriteFailure) serialised;
  Done (file_write (file_write file 0 block) header_end_start_pos block).

(** What the storage answers: whether the lock and the file were available, and
    the bytes written by each write, [None] an I/O error. *)
Record SyncIo := {
  io_lock : bool;
  io_writer : bool;
  io_datablocks : option nat;
  io_metablocks : option nat;
  io_header : bool;
  io_fdatasync : bool;
}.

Definition check_write (r : option nat) (e : ShardFsyncError) (stage : Stage) (w : Z * bytes)
    : outcome ShardFsyncError unit :=
  match r with
  | None => Failed e
  | Some got => verify_full_write got (length w.2) stage w.1
  end.

(** [sync]: the two writes may be joined ([join_data_meta_writes]); either
    way both are checked before the header is written. *)
Definition sync (dma_alignment : Z) (header_buffer : bytes) (seg : LogSegmentFile) (s : SyncPositionsSnapshot)
    (commit_target : CommitTarget) (io : SyncIo)
    : outcome ShardFsyncError (SyncPositionsSnapshot * LogSegmentFileMetadata * LogSegmentFile) :=
  _ ← (if io_lock io then Done tt else Failed WriteLockTimeout);
  _ ← (if io_writer io then Done tt else Failed ActiveWriteFileUnavailable);
  plan ← sync_plan dma_alignment seg s commit_target;
  _ ← (match plan_datablocks plan with
       | Some w => check_write (io_datablocks io) WriteDatablocksError Datablocks w
       | None => Done tt
       end);
  _ ← check_write (io_metablocks io) WriteMetablocksError Metablocks (plan_metablocks plan);
  let file := file_write (write_opt (contents seg) (plan_datablocks plan))
                (plan_metablocks plan).1 (plan_metablocks plan).2 in
  blooms ← or_panic (foldM update_blooms (sps_queue (plan_snapshot plan))
                       (aggregate_key_bloom seg, client_id_bloom seg));
  file ← write_dual_shard_log_header file
           (saturating_sub (file_len (metadata seg)) (Z.of_nat HEADER_BLOCK_SIZE_BYTES)) (plan_header plan) header_buffer;
  if negb (io_header io) then Failed LogSegmentFileHeaderWriteFailure
  else if negb (io_fdatasync io) then Failed FDataSyncError
  else Done (plan_snapshot plan, plan_metadata plan,
             {| metadata := metadata seg; aggregate_chain_tips := aggregate_chain_tips seg;
                aggregate_key_bloom := blooms.1; client_id_bloom := blooms.2; contents := file |}).
End sync.

(** ** The datablock area *)

Lemma write_at_end {A} (a m src : list A) off :
  off = length a -> length src = length m -> write_at (a ++ m) off src = a ++ src.
Proof. intros. by rewrite <- (app_nil_r m), write_at_mid, app_nil_r. Qed.

(** The datablocks of a batch, in queue order, and as they lie in the file. *)
Definition datablocks_of (queue : list ShardLogQueueItem) : list bytes := omap datablock_bytes queue.
Definition data_area (queue : list ShardLogQueueItem) : bytes := concat (reverse (datablocks_of queue)).

Lemma data_area_cons_Some item queue b : datablock_bytes item = Some b ->
  data_area (item :: queue) = data_area queue ++ b.
Proof.
  intros E. unfold data_area, datablocks_of. cbn [omap list_omap]. rewrite E.
  rewrite reverse_cons, concat_app. cbn. by rewrite app_nil_r.
Qed.

Lemma data_area_cons_None item queue : datablock_bytes item = None -> data_area (item :: queue) = data_area queue.
Proof. intros E. unfold data_area, datablocks_of. cbn [omap list_omap]. by rewrite E. Qed.

Lemma length_data_area queue : Z.of_nat (length (data_area queue)) = buffer_size_datablocks queue.
Proof.
  induction queue as [|item queue IH]; [done|]. unfold buffer_size_datablocks in *. cbn [fmap list_fmap].
  rewrite sum_Z_cons. destruct (datablock_bytes item) as [b|] eqn:E.
  - rewrite (data_area_cons_Some _ _ _ E), length_app. lia.
  - rewrite (data_area_cons_None _ _ E). lia.
Qed.

(** The copy loop fills the middle of the buffer from its end, and every
    recorded position leads to the datablock copied there. *)
Lemma place_datablocks_spec front base queue : forall position pre mid post,
  length pre = front -> length mid = position -> (length (data_area queue) <= position)%nat ->
  exists positions,
    place_datablocks front base position queue (pre ++ mid ++ post) =
      (positions, pre ++ take (position - length (data_area queue)) mid ++ data_area queue ++ post) /\
    Forall2 (fun p b => base <= p /\ p + Z.of_nat (length b) <= base + Z.of_nat position /\
      slice (pre ++ take (position - length (data_area queue)) mid ++ data_area queue ++ post)
        (front + Z.to_nat (p - base)) (length b) = b) positions (datablocks_of queue).
Proof.
  induction queue as [|item queue IH]; intros position pre mid post Hpre Hmid Hle.
  { exists []. cbn. rewrite Nat.sub_0_r, firstn_all2 by lia. split; [done|constructor]. }
  cbn [place_datablocks]. unfold datablocks_of. cbn [omap list_omap]. fold (datablocks_of queue).
  destruct (datablock_bytes item) as [b|] eqn:E.
  2: { rewrite (data_area_cons_None _ _ E) in *. by apply IH. }
  rewrite (data_area_cons_Some _ _ _ E), length_app in *.
  set (position' := (position - length b)%nat).
  assert (Hw : write_at (pre ++ mid ++ post) (front + position') b = pre ++ take position' mid ++ b ++ post).
  { replace (pre ++ mid ++ post) with ((pre ++ take position' mid) ++ drop position' mid ++ post)
      by (by rewrite <- !app_assoc, (app_assoc (take _ _)), take_drop).
    rewrite write_at_mid.
    - by rewrite <- !app_assoc.
    - rewrite length_app, length_take. lia.
    - rewrite length_drop. lia. }
  rewrite Hw.
  destruct (IH position' pre (take position' mid) (b ++ post)) as (ps & Eq & HF);
    [done|rewrite length_take; lia|lia|].
  rewrite Eq. rewrite take_take in Eq, HF |- *.
  replace (Nat.min (position' - length (data_area queue)) position')
    with (position - (length (data_area queue) + length b))%nat in * by lia.
  exists (base + Z.of_nat position' :: ps). rewrite <- app_assoc. split; [done|].
  constructor.
  - split_and!; [lia|lia|]. replace (base + Z.of_nat position' - base) with (Z.of_nat position') by lia.
    rewrite Nat2Z.id, !app_assoc, <- (app_assoc _ b post).
    apply slice_app_exact; [|done]. rewrite !length_app, length_take. lia.
  - eapply Forall2_impl; [exact HF|]. cbn. intros p c (? & ? & ?). split_and!; [done|lia|done].
Qed.

(** Each datablock lies below the one before it. *)
Fixpoint descends (top : Z) (positions : list Z) (blocks : list bytes) : Prop :=
  match positions, blocks with
  | p :: positions, b :: blocks => p + Z.of_nat (length b) <= top /\ descends p positions blocks
  | [], [] => True
  | _, _ => False
  end.

Lemma place_descends front base queue : forall position buffer, (length (data_area queue) <= position)%nat ->
  descends (base + Z.of_nat position) (place_datablocks front base position queue buffer).1 (datablocks_of queue).
Proof.
  induction queue as [|item queue IH]; intros position buffer Hle; [done|].
  cbn [place_datablocks]. unfold datablocks_of. cbn [omap list_omap]. fold (datablocks_of queue).
  destruct (datablock_bytes item) as [b|] eqn:E.
  2: { rewrite (data_area_cons_None _ _ E) in Hle. by apply IH. }
  rewrite (data_area_cons_Some _ _ _ E), length_app in Hle.
  specialize (IH (position - length b)%nat (write_at buffer (front + (position - length b)) b) ltac:(lia)).
  destruct (place_datablocks _ _ _ _ _) as [ps buf]. cbn [fst descends] in *. split; [lia|done].
Qed.

Lemma descends_lookup top ps bs i j p q c : descends top ps bs -> (i < j)%nat ->
  ps !! i = Some p -> ps !! j = Some q -> bs !! j = Some c -> q + Z.of_nat (length c) <= p.
Proof.
  revert top ps bs j. induction i as [|i IH]; intros top [|p0 ps] [|b bs] [|j] Hd Hij Hp Hq Hc; try done; try lia; cbn in *.
  - injection Hp as ->. destruct Hd as [_ Hd]. clear Hij. revert p ps bs Hd Hq Hc. induction j as [|j IH]; intros p [|q0 ps] [|c0 bs] Hd Hq Hc; try done; cbn in *.
    + injection Hq as ->. injection Hc as ->. apply Hd.
    + destruct Hd as [Hq0 Hd]. pose proof (IH q0 ps bs Hd Hq Hc). lia.
  - destruct Hd as [_ Hd]. apply (IH p0 ps bs j); try done. lia.
Qed.

(** ** Well-formed segments and batches *)

Definition wcur (seg : LogSegmentFile) : HeaderCursor := pos (md_write (metadata seg)).
Definition mp (seg : LogSegmentFile) : Z := metablocks_position (wcur seg).
Definition dp (seg : LogSegmentFile) : Z := datablocks_position (wcur seg).

(** The carry-over is the part of the file between the datablock area and the
    next aligned position. *)
Definition carry_over_ok (file : bytes) (datablocks_position : Z) (carry : option bytes) : Prop :=
  datablocks_position < align_up datablocks_position MIN_WRITE_ALIGNMENT ->
  carry = Some (slice file (Z.to_nat datablocks_position)
                  (Z.to_nat (align_up datablocks_position MIN_WRITE_ALIGNMENT - datablocks_position))).

(** [ready_up] refuses files that are not whole aligned blocks. *)
Record segment_ok (seg : LogSegmentFile) : Prop := {
  so_len : Z.of_nat (length (contents seg)) = file_len (metadata seg);
  so_aligned : (MIN_WRITE_ALIGNMENT | file_len (metadata seg));
  so_small : file_len (metadata seg) < 2 ^ 63;
  so_positions : Z.of_nat HEADER_BLOCK_SIZE_BYTES <= mp seg <= dp seg /\
    dp seg <= file_len (metadata seg) - Z.of_nat HEADER_BLOCK_SIZE_BYTES;
  so_metadata : metadata_ok (metadata seg);
  so_carry : carry_over_ok (contents seg) (dp seg) (datablocks_carry_over (metadata seg));
  so_tips : map_Forall (fun _ p => u64 p) (aggregate_chain_tips seg);
  so_blooms : segment_bloom_ok (aggregate_key_bloom seg) /\ segment_bloom_ok (client_id_bloom seg);
}.

(** A queued item: its metablock encodes, and separate bytes come with their
    datablock and are not empty. *)
Definition item_ok (item : ShardLogQueueItem) : Prop :=
  wf_metablock (qi_metablock item) /\
  forall b, datablock_bytes item = Some b -> b <> [] /\ is_Some (qi_datablock item).

(** The guard of [commit_fsync_with_rollback]. *)
Definition required_disk_space (queue : list ShardLogQueueItem) : Z :=
  saturating_add 64 (buffer_size_datablocks queue) (buffer_size_metablocks queue).

Definition total_required (queue : list ShardLogQueueItem) : Z :=
  required_disk_space queue + write_padding (buffer_size_metablocks queue) + MIN_WRITE_ALIGNMENT - 1.

Record batch_ok (seg : LogSegmentFile) (queue : list ShardLogQueueItem) : Prop := {
  bo_nonempty : queue <> [];
  bo_items : Forall item_ok queue;
  bo_space : total_required queue <= md_available_space (metadata seg);
  bo_seq : hc_wal_seq (wcur seg) + Z.of_nat (length queue) < 2 ^ 64;
}.

Lemma align_up_4096 p : 0 <= p < 2 ^ 63 ->
  p <= align_up p MIN_WRITE_ALIGNMENT < p + 4096 /\ (4096 | align_up p MIN_WRITE_ALIGNMENT).
Proof.
  intros. unfold MIN_WRITE_ALIGNMENT. change 4096 with (2 ^ 12). rewrite align_up_pow2 by lia.
  destruct (round_up_bounds 12 ltac:(lia) p) as [Hb Hd]. split; [lia|done].
Qed.

Lemma align_down_4096 p : 0 <= p < 2 ^ 64 ->
  p - 4096 < align_down p MIN_WRITE_ALIGNMENT <= p /\ 0 <= align_down p MIN_WRITE_ALIGNMENT.
Proof.
  intros. unfold MIN_WRITE_ALIGNMENT. change 4096 with (2 ^ 12). rewrite align_down_pow2 by (done || lia).
  pose proof (Z.mod_pos_bound p (2 ^ 12)). pose proof (Z.div_mod p (2 ^ 12)).
  pose proof (Z.div_pos p (2 ^ 12)). lia.
Qed.

Lemma align_up_aligned p q : 0 <= p <= q -> q < 2 ^ 63 -> (4096 | q) -> align_up p MIN_WRITE_ALIGNMENT <= q.
Proof.
  intros Hp Hq Hd. destruct (align_up_4096 p) as [Hb [k Hk]]; [lia|]. destruct Hd as [j Hj]. nia.
Qed.

Section layout.
Context (seg : LogSegmentFile) (Hseg : segment_ok seg).

Lemma dp_bounds : 4096 <= mp seg <= dp seg /\ dp seg + 4096 <= file_len (metadata seg) < 2 ^ 63 /\
  Z.of_nat (length (contents seg)) = file_len (metadata seg) /\ Z.of_nat HEADER_BLOCK_SIZE_BYTES = 4096.
Proof.
  destruct Hseg as [Hl _ Hs Hp _ _ _ _].
  assert (E : Z.of_nat HEADER_BLOCK_SIZE_BYTES = 4096) by done. lia.
Qed.

(** The aligned end of the datablock write stays below the closing header. *)
Lemma data_write_end : align_up (dp seg) MIN_WRITE_ALIGNMENT <= file_len (metadata seg) - 4096.
Proof.
  pose proof dp_bounds. apply align_up_aligned; [lia..|].
  destruct (so_aligned _ Hseg) as [k Hk]. exists (k - 1). unfold MIN_WRITE_ALIGNMENT in Hk. lia.
Qed.

Record layout_ok (queue : list ShardLogQueueItem) (limit : Z) (L : DatablockLayout) : Prop := {
  lo_position : new_datablocks_position L = dp seg - buffer_size_datablocks queue;
  lo_file : exists X, write_opt (contents seg) (datablocks_write L) =
    take (Z.to_nat limit) (contents seg) ++ X ++ data_area queue ++ drop (Z.to_nat (dp seg)) (contents seg) /\
    limit + Z.of_nat (length X) = new_datablocks_position L;
  lo_positions : Forall2 (fun p b => new_datablocks_position L <= p /\
    p + Z.of_nat (length b) <= dp seg /\
    slice (data_area queue) (Z.to_nat (p - new_datablocks_position L)) (length b) = b)
    (absolute_write_positions L) (datablocks_of queue);
  lo_descends : descends (dp seg) (absolute_write_positions L) (datablocks_of queue);
  lo_carry : carry_over_ok (write_opt (contents seg) (datablocks_write L)) (new_datablocks_position L) (new_carry_over L);
  lo_write at_ buffer : datablocks_write L = Some (at_, buffer) ->
    limit <= at_ <= new_datablocks_position L /\
    at_ + Z.of_nat (length buffer) = align_up (dp seg) MIN_WRITE_ALIGNMENT;
}.

(** The datablock buffer: padding, the datablocks, and the carried-over bytes. *)
Lemma layout_datablocks_buffer queue ms limit (size := buffer_size_datablocks queue)
    (from := align_down (dp seg - size) MIN_WRITE_ALIGNMENT) (to := align_up (dp seg) MIN_WRITE_ALIGNMENT) :
  0 < size -> 0 <= ms < limit -> limit + 4095 + size <= dp seg ->
  exists positions,
    let carried := slice (contents seg) (Z.to_nat (dp seg)) (Z.to_nat (to - dp seg)) in
    let buffer := zeros (Z.to_nat (dp seg - size - from)) ++ data_area queue ++ carried in
    let carry_size := Z.to_nat (align_up (dp seg - size) MIN_WRITE_ALIGNMENT - (dp seg - size)) in
    layout_datablocks MIN_WRITE_ALIGNMENT (metadata seg) queue ms limit =
      Done {| absolute_write_positions := positions; new_datablocks_position := dp seg - size;
              new_carry_over := if Nat.eqb carry_size 0 then datablocks_carry_over (metadata seg)
                                else Some (slice buffer (Z.to_nat (dp seg - size - from)) carry_size);
              datablocks_write := Some (from, buffer) |} /\
    Forall2 (fun p b => dp seg - size <= p /\ p + Z.of_nat (length b) <= dp seg /\
      slice (data_area queue) (Z.to_nat (p - (dp seg - size))) (length b) = b) positions (datablocks_of queue).
Proof.
  intros Hsize Hms Hlimit. pose proof dp_bounds. pose proof data_write_end as Hto. fold to in Hto.
  destruct (align_down_4096 (dp seg - size)) as [Hfrom Hfrom0]; [lia|]. fold from in Hfrom, Hfrom0.
  destruct (align_up_4096 (dp seg)) as [Hup _]; [lia|]. fold to in Hup.
  unfold layout_datablocks. change (datablocks_position (pos (md_write (metadata seg)))) with (dp seg).
  cbv zeta. fold size. rewrite (proj2 (Z.ltb_lt _ _) Hsize).
  fold to. unfold saturating_sub.
  rewrite !(Z.max_r 0 (dp seg - size)) by lia. fold from.
  unfold check_batch_write_ranges. rewrite (proj2 (Z.ltb_lt from to)), (proj2 (Z.ltb_lt ms limit)),
    (proj2 (Z.leb_le limit from)) by lia. cbn [andb mbind outcome_bind].
  rewrite (Z.max_r 0 (to - from)), (Z.max_r 0 (dp seg - size - from)), (Z.max_r 0 (to - dp seg)) by lia.
  set (front := Z.to_nat (dp seg - size - from)). set (endc := Z.to_nat (to - dp seg)).
  set (carried := slice (contents seg) (Z.to_nat (dp seg)) endc).
  assert (Hc : length carried = endc) by (unfold carried; rewrite length_slice; lia).
  assert (Hz : zeros (front + Z.to_nat size + endc) = zeros front ++ zeros (Z.to_nat size) ++ zeros endc)
    by (unfold zeros; by rewrite !replicate_add, <- app_assoc).
  replace (if Nat.eqb endc 0 then _ else _)
    with (Done (zeros front ++ zeros (Z.to_nat size) ++ carried) : outcome ShardFsyncError bytes).
  2: { rewrite Hz. destruct (Nat.eqb_spec endc 0) as [E0|Hne].
       - rewrite E0 in *. by apply length_zero_iff_nil in Hc as ->.
       - rewrite (so_carry _ Hseg) by (fold to; lia). fold to endc carried. rewrite Hc, Nat.eqb_refl.
         f_equal. rewrite !(app_assoc (zeros front)). symmetry. apply write_at_end; rewrite ?length_app;
           unfold zeros; rewrite ?length_replicate; lia. }
  cbn [mbind outcome_bind].
  destruct (place_datablocks_spec front (dp seg - size) queue (Z.to_nat size) (zeros front)
    (zeros (Z.to_nat size)) carried) as (ps & -> & HF); [apply length_replicate..| |].
  { pose proof (length_data_area queue). fold size in H0. lia. }
  assert (Hd : Z.to_nat size = length (data_area queue)) by (pose proof (length_data_area queue); lia).
  rewrite Hd, Nat.sub_diag, take_0 in *. cbn [app] in *.
  exists ps. cbv zeta. split.
  - f_equal. f_equal.
    + destruct (align_up_4096 (dp seg - size)); [lia|]. by rewrite (Z.max_r 0 (align_up _ _ - _)) by lia.
    + f_equal. f_equal. lia.
  - eapply Forall2_impl; [exact HF|]. cbn. intros p b (Hp & Hpb & Hs).
    split_and!; [done|lia|].
    rewrite <- Hs at 2. rewrite slice_app_r by (unfold zeros; rewrite length_replicate; lia).
    unfold zeros. rewrite length_replicate. replace (front + _ - front)%nat with (Z.to_nat (p - (dp seg - size))) by lia.
    rewrite slice_app_l; [done|]. lia.
Qed.

Lemma layout_ok_written queue limit ps (size := buffer_size_datablocks queue)
    (from := align_down (dp seg - size) MIN_WRITE_ALIGNMENT) (to := align_up (dp seg) MIN_WRITE_ALIGNMENT)
    (carried := slice (contents seg) (Z.to_nat (dp seg)) (Z.to_nat (to - dp seg)))
    (buffer := zeros (Z.to_nat (dp seg - size - from)) ++ data_area queue ++ carried)
    (carry_size := Z.to_nat (align_up (dp seg - size) MIN_WRITE_ALIGNMENT - (dp seg - size))) :
  0 < size -> 0 <= limit -> limit + 4095 + size <= dp seg ->
  Forall2 (fun p b => dp seg - size <= p /\ p + Z.of_nat (length b) <= dp seg /\
    slice (data_area queue) (Z.to_nat (p - (dp seg - size))) (length b) = b) ps (datablocks_of queue) ->
  descends (dp seg) ps (datablocks_of queue) ->
  layout_ok queue limit
    {| absolute_write_positions := ps; new_datablocks_position := dp seg - size;
       new_carry_over := if Nat.eqb carry_size 0 then datablocks_carry_over (metadata seg)
                         else Some (slice buffer (Z.to_nat (dp seg - size - from)) carry_size);
       datablocks_write := Some (from, buffer) |}.
Proof.
  intros Hsize Hl0 Hlimit HF Hdesc. pose proof dp_bounds. pose proof (length_data_area queue) as Hlen. fold size in Hlen.
  pose proof data_write_end as Hto. fold to in Hto.
  destruct (align_down_4096 (dp seg - size)) as [Hfrom Hfrom0]; [lia|]. fold from in Hfrom, Hfrom0.
  destruct (align_up_4096 (dp seg)) as [Hup Hdiv]; [lia|]. fold to in Hup, Hdiv.
  assert (Hc : length carried = Z.to_nat (to - dp seg)) by (unfold carried; rewrite length_slice; lia).
  assert (Hb : length buffer = Z.to_nat (to - from)).
  { unfold buffer, zeros. rewrite !length_app, length_replicate, Hc. lia. }
  assert (Hfile : file_write (contents seg) from buffer =
    take (Z.to_nat from) (contents seg) ++ buffer ++ drop (Z.to_nat to) (contents seg)).
  { unfold file_write, write_at. rewrite Hb. do 3 f_equal. lia. }
  split; cbn [new_datablocks_position datablocks_write write_opt absolute_write_positions new_carry_over]; [done| |done|done| |].
  - exists (slice (contents seg) (Z.to_nat limit) (Z.to_nat (from - limit)) ++ zeros (Z.to_nat (dp seg - size - from))).
    rewrite Hfile. unfold buffer. rewrite <- !app_assoc. split.
    + rewrite (drop_slice _ (Z.to_nat (dp seg)) (Z.to_nat (to - dp seg))). fold carried.
      replace (Z.to_nat (dp seg) + Z.to_nat (to - dp seg))%nat with (Z.to_nat to) by lia.
      rewrite (take_split _ (Z.to_nat limit) (Z.to_nat from)), <- app_assoc by lia.
      do 3 f_equal. lia.
    + unfold zeros. rewrite length_app, length_slice, length_replicate. lia.
  - intros Hlt. destruct (Nat.eqb_spec carry_size 0) as [|Hne]; [lia|]. fold carry_size. rewrite Hfile.
    assert (align_up (dp seg - size) MIN_WRITE_ALIGNMENT <= to) by (apply align_up_aligned; [lia..|done]).
    rewrite slice_app_r by (rewrite length_take; lia). rewrite slice_app_l by (rewrite length_take; lia).
    do 2 f_equal. rewrite length_take. lia.
  - intros at_ buf [= <- <-]. rewrite Hb. lia.
Qed.

Lemma no_datablocks queue : Forall item_ok queue -> buffer_size_datablocks queue <= 0 -> datablocks_of queue = [].
Proof.
  intros Hitems Hs. pose proof (length_data_area queue) as Hlen.
  assert (Hnil : data_area queue = []) by (apply length_zero_iff_nil; lia). clear Hs Hlen.
  induction Hitems as [|item queue [_ Hb] _ IH]; [done|].
  unfold datablocks_of. cbn [omap list_omap]. destruct (datablock_bytes item) as [b|] eqn:E.
  - rewrite (data_area_cons_Some _ _ _ E) in Hnil. apply app_eq_nil in Hnil as [_ ->]. by destruct (Hb _ eq_refl).
  - rewrite (data_area_cons_None _ _ E) in Hnil. by apply IH.
Qed.

Lemma layout_descends queue ms limit L : layout_datablocks MIN_WRITE_ALIGNMENT (metadata seg) queue ms limit = Done L ->
  0 < buffer_size_datablocks queue -> buffer_size_datablocks queue <= dp seg ->
  descends (dp seg) (absolute_write_positions L) (datablocks_of queue).
Proof.
  intros E Hsize Hle. pose proof (length_data_area queue) as Hlen. unfold layout_datablocks in E. cbv zeta in E.
  change (datablocks_position (pos (md_write (metadata seg)))) with (dp seg) in E. rewrite (proj2 (Z.ltb_lt _ _) Hsize) in E.
  destruct (check_batch_write_ranges _ _ _ _); [|done..]. cbn [mbind outcome_bind] in E.
  destruct (if Nat.eqb _ 0 then _ else _) as [buffer| |]; [|done..]. cbn [mbind outcome_bind] in E.
  set (front := Z.to_nat (saturating_sub (saturating_sub (dp seg) _) _)) in E.
  pose proof (place_descends front (saturating_sub (dp seg) (buffer_size_datablocks queue)) queue (Z.to_nat (buffer_size_datablocks queue)) buffer ltac:(lia)) as Hd.
  destruct (place_datablocks _ _ _ _ _) as [ps buf]. apply Done_inj in E. subst L. cbn [absolute_write_positions fst] in *.
  replace (saturating_sub (dp seg) (buffer_size_datablocks queue) + Z.of_nat (Z.to_nat (buffer_size_datablocks queue))) with (dp seg) in Hd
    by (unfold saturating_sub; lia). done.
Qed.

Lemma layout_spec queue ms limit :
  0 <= ms < limit -> limit + 4095 + buffer_size_datablocks queue <= dp seg -> Forall item_ok queue ->
  exists L, layout_datablocks MIN_WRITE_ALIGNMENT (metadata seg) queue ms limit = Done L /\ layout_ok queue limit L.
Proof.
  intros Hms Hlimit Hitems. pose proof dp_bounds.
  destruct (Z.ltb_spec 0 (buffer_size_datablocks queue)) as [Hsize|Hsize].
  - destruct (layout_datablocks_buffer queue ms limit Hsize Hms Hlimit) as (ps & E & HF).
    pose proof (layout_descends queue ms limit _ E) as Hdesc. rewrite E.
    eexists. split; [done|]. apply layout_ok_written; [done|lia|done|done|]. apply Hdesc; [done|lia].
  - pose proof (no_datablocks queue Hitems Hsize) as Hnil. pose proof (length_data_area queue).
    assert (Hd : data_area queue = []) by (unfold data_area; by rewrite Hnil).
    rewrite Hd in *. cbn [length] in *.
    unfold layout_datablocks. rewrite (proj2 (Z.ltb_ge _ _)) by done. eexists. split; [done|].
    split; cbn [new_datablocks_position datablocks_write write_opt absolute_write_positions new_carry_over].
    + unfold dp, wcur in *. lia.
    + exists (slice (contents seg) (Z.to_nat limit) (Z.to_nat (dp seg) - Z.to_nat limit)). rewrite Hd. split.
      * rewrite app_assoc, <- take_split by lia. cbn [app]. by rewrite take_drop.
      * rewrite length_slice. change (datablocks_position _) with (dp seg). lia.
    + rewrite Hnil. constructor.
    + by rewrite Hnil.
    + apply (so_carry _ Hseg).
    + done.
Qed.
End layout.

(** ** Stamping *)

Section stamping.
Context `{Bincode, Crc32c, Blake3} (recycled : nat -> bytes).
Context (Hrecycled : forall i, length (recycled i) = FIXED_BLOCK_SIZE_BYTES).
Context (md : LogSegmentFileMetadata) (tips : gmap AggregateKey Z) (positions : list Z).

(** The same turn as total functions. *)
Definition is_external (item : ShardLogQueueItem) : bool :=
  match datablock_bytes item, qi_datablock item with Some _, Some _ => true | _, _ => false end.

Definition stamped (st : Stamping) (item : ShardLogQueueItem) : ShardLogQueueItem :=
  let m := qi_metablock item in
  {| datablock_bytes := datablock_bytes item; qi_datablock := qi_datablock item;
     qi_metablock := stamp_metablock m
       (if is_external item then positions !!! st_index st else datablock_position m)
       (backlink tips st m) (st_wal_seq st + 1) (st_tip_hash st);
     qi_metablock_absolute_pos := absolute_pos md st; size_bytes := size_bytes item |}.

Definition stamp_next (st : Stamping) (item : ShardLogQueueItem) : Stamping :=
  let m := qi_metablock item in
  {| st_index := if is_external item then S (st_index st) else st_index st;
     st_wal_seq := st_wal_seq st + 1; st_offset := st_offset st + FIXED_BLOCK_SIZE_BYTES;
     st_tip_hash := default [] (advance_tip (st_tip_hash st) (qi_metablock (stamped st item)));
     chain_overlay := overlay_after md st m; st_positions := positions_after md st m (st_wal_seq st + 1) |}.

Fixpoint stamped_all (st : Stamping) (queue : list ShardLogQueueItem) : list ShardLogQueueItem :=
  match queue with
  | [] => []
  | item :: queue => stamped st item :: stamped_all (stamp_next st item) queue
  end.

(** What the loop relies on: numbers in range and a position for every
    separate datablock of the rest of the queue. *)
Record stamping_ok (st : Stamping) (queue : list ShardLogQueueItem) : Prop := {
  sk_seq : 0 <= st_wal_seq st /\ st_wal_seq st + Z.of_nat (length queue) < 2 ^ 64;
  sk_pos : 0 <= absolute_pos md st /\
    absolute_pos md st + Z.of_nat (length queue * FIXED_BLOCK_SIZE_BYTES) < 2 ^ 64;
  sk_tip : wf_byte_array 32 (st_tip_hash st);
  sk_overlay : map_Forall (fun _ p => u64 p) (chain_overlay st);
  sk_tips : map_Forall (fun _ p => u64 p) tips;
  sk_positions : Forall (fun p => u64 p) positions;
  sk_index : (st_index st + length (filter (fun item => is_external item = true) queue) <= length positions)%nat;
  sk_items : Forall item_ok queue;
}.

Lemma backlink_u64 st m : map_Forall (fun _ p => u64 p) (chain_overlay st) -> map_Forall (fun _ p => u64 p) tips ->
  wf_metablock m -> u64 (backlink tips st m).
Proof.
  intros Ho Ht Hm. unfold backlink. destruct (chain_aggregate_key m) as [k|]; [|apply Hm].
  destruct (chain_overlay st !! k) eqn:E1; [by apply (Ho k)|].
  destruct (tips !! k) eqn:E2; [by apply (Ht k)|]. cbn. done.
Qed.

Lemma stamp_metablock_wf m d p w t : wf_metablock m -> u64 d -> u64 p -> u64 w -> wf_byte_array 32 t ->
  wf_metablock (stamp_metablock m d p w t).
Proof.
  intros (? & ? & ? & ? & ? & ? & ? & ? & ? & ? & ? & ? & ?) ????. unfold wf_metablock.
  cbn -[wf_metablock_kind wf_storage_kind]. by split_and!.
Qed.

Lemma stamped_wf st item queue : stamping_ok st (item :: queue) -> wf_metablock (qi_metablock (stamped st item)).
Proof.
  intros [Hs _ Ht Ho Htips Hp Hi Hitems]. apply Forall_cons in Hitems as [[Hm _] _].
  cbn [length] in *. apply stamp_metablock_wf; [done| |by apply backlink_u64|split; lia|done].
  destruct (is_external item) eqn:E; [|apply Hm].
  rewrite filter_cons_True in Hi by done. cbn in Hi.
  apply (Forall_lookup_1 _ _ (st_index st) _ Hp), list_lookup_lookup_total_lt. lia.
Qed.

Lemma external_position st item queue : stamping_ok st (item :: queue) ->
  match datablock_bytes item, qi_datablock item with
  | Some _, Some _ => p ← or_panic (positions !! st_index st); Done (p, S (st_index st))
  | _, _ => Done (datablock_position (qi_metablock item), st_index st)
  end = (Done (if is_external item then positions !!! st_index st else datablock_position (qi_metablock item),
               if is_external item then S (st_index st) else st_index st) : outcome ShardFsyncError (Z * nat)).
Proof.
  intros [_ _ _ _ _ _ Hi _]. destruct (is_external item) eqn:E.
  - rewrite filter_cons_True in Hi by done. cbn in Hi. unfold is_external in E.
    destruct (datablock_bytes item), (qi_datablock item); try done.
    by rewrite list_lookup_lookup_total_lt by lia.
  - unfold is_external in E. by destruct (datablock_bytes item), (qi_datablock item).
Qed.

Lemma stamp_next_ok st item queue : stamping_ok st (item :: queue) -> stamping_ok (stamp_next st item) queue.
Proof.
  intros Hok. pose proof (stamped_wf _ _ _ Hok) as Hwf. destruct Hok as [Hs Hpos Ht Ho Htips Hp Hi Hitems].
  apply Forall_cons in Hitems as [_ Hitems]. cbn [length] in *.
  destruct (advance_tip_Some (st_tip_hash st) _ Hwf) as (pre & _ & Htip).
  unfold absolute_pos in *. split; cbn [stamp_next st_wal_seq st_offset st_tip_hash chain_overlay st_index]; try done.
  - lia.
  - unfold absolute_pos. cbn [stamp_next st_offset]. lia.
  - rewrite Htip. apply blake3_32.
  - unfold overlay_after. destruct (chain_aggregate_key _) as [k|]; [|done].
    apply map_Forall_insert_2; [|done]. unfold absolute_pos. split; lia.
  - destruct (is_external item) eqn:E; [rewrite filter_cons_True in Hi by done; cbn in Hi; lia|].
    rewrite filter_cons_False in Hi by (by rewrite E). done.
Qed.

Lemma stamp_item_done st item queue : stamping_ok st (item :: queue) ->
  stamp_item recycled md tips positions st item =
    Done (stamp_next st item, stamped st item, metablock_block (qi_metablock (stamped st item))).
Proof.
  intros Hok. pose proof (stamped_wf _ _ _ Hok) as Hwf. pose proof (external_position _ _ _ Hok) as Hext.
  destruct (sk_seq _ _ Hok) as [Hs0 Hs]. cbn [length] in Hs.
  destruct (advance_tip_Some (st_tip_hash st) _ Hwf) as (pre & Hpre & Htip).
  unfold stamp_item. cbv zeta. rewrite Hext. cbn [mbind outcome_bind].
  replace (saturating_add 64 (st_wal_seq st) 1) with (st_wal_seq st + 1) by (unfold saturating_add; lia).
  fold (stamped st item).
  change (stamp_metablock _ _ _ _ _) with (qi_metablock (stamped st item)).
  rewrite serialize_metablock by done. cbn [or_panic from_result mbind outcome_bind].
  unfold compute_entry_hash. rewrite Hpre. cbn [fmap option_fmap option_map or_panic mbind outcome_bind].
  unfold stamp_next. rewrite Htip. done.
Qed.

Lemma stamp_items_done queue st : stamping_ok st queue ->
  stamp_items recycled md tips positions st queue =
    Done (foldl stamp_next st queue, stamped_all st queue,
          concat ((fun item => metablock_block (qi_metablock item)) <$> stamped_all st queue)).
Proof.
  revert st. induction queue as [|item queue IH]; intros st Hok; [done|].
  cbn [stamp_items foldl stamped_all fmap list_fmap concat].
  rewrite (stamp_item_done _ _ _ Hok). cbn [mbind outcome_bind].
  by rewrite IH by (by apply stamp_next_ok).
Qed.

(** The state before item [i]. *)
Definition state_at (st : Stamping) (queue : list ShardLogQueueItem) (i : nat) : Stamping :=
  foldl stamp_next st (take i queue).

Lemma length_stamped_all queue st : length (stamped_all st queue) = length queue.
Proof. revert st. induction queue as [|item queue IH]; intros st; [done|]. cbn. by rewrite IH. Qed.

Lemma stamped_all_lookup queue st i item :
  queue !! i = Some item -> stamped_all st queue !! i = Some (stamped (state_at st queue i) item).
Proof.
  revert st i. induction queue as [|x queue IH]; intros st [|i] E; [done..| |].
  - by injection E as ->.
  - cbn in E |- *. by rewrite (IH _ _ E).
Qed.

Lemma take_stamped_all queue st i : take i (stamped_all st queue) = stamped_all st (take i queue).
Proof. revert st i. induction queue as [|x queue IH]; intros st [|i]; [done..|]. cbn. by rewrite IH. Qed.

Lemma state_at_ok queue st i : stamping_ok st queue -> stamping_ok (state_at st queue i) (drop i queue).
Proof.
  revert st i. induction queue as [|x queue IH]; intros st [|i] Hok; [done..|].
  apply IH. by eapply stamp_next_ok.
Qed.

Lemma state_at_counters queue st i : (i <= length queue)%nat ->
  st_wal_seq (state_at st queue i) = st_wal_seq st + Z.of_nat i /\
  st_offset (state_at st queue i) = (st_offset st + i * FIXED_BLOCK_SIZE_BYTES)%nat.
Proof.
  revert st i. induction queue as [|x queue IH]; intros st [|i] Hi; cbn [length] in Hi; [cbn; lia..|].
  destruct (IH (stamp_next st x) i) as [E1 E2]; [lia|].
  change (state_at st (x :: queue) (S i)) with (state_at (stamp_next st x) queue i). rewrite E1, E2.
  cbn [stamp_next st_wal_seq st_offset]. lia.
Qed.

Lemma stamped_all_wf queue st : stamping_ok st queue ->
  Forall (fun item => wf_metablock (qi_metablock item)) (stamped_all st queue).
Proof.
  revert st. induction queue as [|x queue IH]; intros st Hok; [constructor|]. constructor.
  - by eapply stamped_wf.
  - by apply IH, stamp_next_ok.
Qed.

(** Each block carries the tip its predecessor left. *)
Lemma stamped_tip st item queue : stamping_ok st (item :: queue) ->
  advance_tip (st_tip_hash st) (qi_metablock (stamped st item)) = Some (st_tip_hash (stamp_next st item)).
Proof.
  intros Hok. pose proof (stamped_wf _ _ _ Hok) as Hwf.
  destruct (advance_tip_Some (st_tip_hash st) _ Hwf) as (pre & _ & Htip).
  cbn [stamp_next st_tip_hash]. by rewrite Htip.
Qed.

Lemma stamped_all_linked queue st j : stamping_ok st queue ->
  linked (qi_metablock <$> stamped_all st queue) j.
Proof.
  revert st j. induction queue as [|x queue IH]; intros st j Hok; [by destruct j; intros a b|].
  destruct j as [|j].
  - destruct queue as [|y queue]; [by intros a b _ ?|]. intros a b [= <-] [= <-]. by eapply stamped_tip.
  - apply linked_cons, IH. by eapply stamp_next_ok.
Qed.

(** The overlay over the segment's tips is the map of the latest blocks. *)
Definition latest (st : Stamping) (key : AggregateKey) : option Z :=
  match chain_overlay st !! key with Some p => Some p | None => tips !! key end.

Lemma latest_next st item key :
  latest (stamp_next st item) key =
    if decide (chain_aggregate_key (qi_metablock item) = Some key) then Some (absolute_pos md st) else latest st key.
Proof.
  unfold latest. cbn [stamp_next chain_overlay]. unfold overlay_after.
  destruct (chain_aggregate_key (qi_metablock item)) as [k|]; [|done].
  destruct (decide (Some k = Some key)) as [E|Hne].
  - injection E as ->. by rewrite lookup_insert_eq.
  - by rewrite lookup_insert_ne by congruence.
Qed.

Lemma stamped_externals queue st :
  datablock_bytes <$> filter (fun item => is_external item = true) (stamped_all st queue) =
  datablock_bytes <$> filter (fun item => is_external item = true) queue.
Proof.
  revert st. induction queue as [|x queue IH]; intros st; [done|]. cbn [stamped_all].
  destruct (is_external x) eqn:Ex.
  - rewrite !filter_cons_True by done. cbn [fmap list_fmap]. by rewrite IH.
  - rewrite !filter_cons_False by (unfold is_external in *; cbn; congruence). apply IH.
Qed.

(** The separate datablocks take the positions in order. *)
Lemma stamped_positions queue st : stamping_ok st queue ->
  (fun item => datablock_position (qi_metablock item)) <$> filter (fun item => is_external item = true) (stamped_all st queue) =
    take (length (filter (fun item => is_external item = true) queue)) (drop (st_index st) positions).
Proof.
  revert st. induction queue as [|x queue IH]; intros st Hok; [done|]. cbn [stamped_all].
  pose proof (IH _ (stamp_next_ok _ _ _ Hok)) as E. pose proof (sk_index _ _ Hok) as Hi.
  assert (Hx : is_external (stamped st x) = is_external x) by done.
  destruct (is_external x) eqn:Ex.
  - rewrite !filter_cons_True in * by done. cbn [fmap list_fmap length]. rewrite E.
    cbn [stamp_next st_index]. rewrite Ex. cbn [length] in Hi.
    destruct (lookup_lt_is_Some_2 positions (st_index st)) as [p Hp]; [lia|].
    rewrite (drop_S _ _ _ Hp). cbn [take]. f_equal. cbn. rewrite Ex. by apply list_lookup_total_correct.
  - rewrite !filter_cons_False in * by congruence. rewrite E. cbn [stamp_next st_index]. by rewrite Ex.
Qed.
End stamping.

(** ** The plan of a batch *)

Lemma externals_datablocks queue : Forall item_ok queue ->
  Some <$> datablocks_of queue = datablock_bytes <$> filter (fun item => is_external item = true) queue.
Proof.
  induction 1 as [|item queue [_ Hb] _ IH]; [done|]. unfold datablocks_of in *. cbn [omap list_omap].
  destruct (datablock_bytes item) as [b|] eqn:E.
  - rewrite filter_cons_True.
    + cbn [fmap list_fmap]. by rewrite IH, E.
    + unfold is_external. rewrite E. by destruct (Hb b eq_refl) as [_ [? ->]].
  - rewrite filter_cons_False; [done|]. unfold is_external. by rewrite E.
Qed.

Lemma length_externals queue : Forall item_ok queue ->
  length (filter (fun item => is_external item = true) queue) = length (datablocks_of queue).
Proof.
  intros Hq. rewrite <- (length_fmap datablock_bytes), <- externals_datablocks by done. by rewrite length_fmap.
Qed.

Section plan.
Context `{Bincode, Crc32c, Blake3} (recycled : nat -> bytes).
Context (Hrecycled : forall i, length (recycled i) = FIXED_BLOCK_SIZE_BYTES).
Context (seg : LogSegmentFile) (s : SyncPositionsSnapshot) (dma_alignment : Z).
Context (Hseg : segment_ok seg) (Hbatch : batch_ok seg (sps_queue s)).
Context (Hdma : dma_alignment <= MIN_WRITE_ALIGNMENT).

Definition content_size : Z := buffer_size_metablocks (sps_queue s).
Definition write_limit : Z := mp seg + align_up content_size MIN_WRITE_ALIGNMENT.

Lemma space : 0 < content_size /\ 0 <= buffer_size_datablocks (sps_queue s) /\
  mp seg + content_size <= write_limit /\ write_limit < mp seg + content_size + 4096 /\
  write_limit + 4095 + buffer_size_datablocks (sps_queue s) <= dp seg.
Proof.
  pose proof (dp_bounds seg Hseg). destruct Hbatch as [Hne _ Hs _].
  pose proof (length_data_area (sps_queue s)) as Hd.
  assert (Hc : 0 < content_size).
  { unfold content_size, buffer_size_metablocks, FIXED_BLOCK_SIZE_BYTES. destruct (sps_queue s); [done|]. cbn [length]. lia. }
  unfold total_required, required_disk_space, md_available_space, saturating_sub, saturating_add in Hs.
  fold (wcur seg) (dp seg) (mp seg) content_size in Hs. unfold MIN_WRITE_ALIGNMENT at 1 in Hs.
  destruct (Z.le_gt_cases (2 ^ 63) content_size) as [Hbig|Hsmall].
  { exfalso. pose proof (Z.mod_pos_bound (align_up content_size MIN_WRITE_ALIGNMENT - content_size) (2 ^ 64)).
    unfold write_padding, wrapping_sub, wrap in Hs. unfold MIN_WRITE_ALIGNMENT in *. lia. }
  destruct (align_up_4096 content_size) as [Hup _]; [lia|].
  assert (Hw : write_padding content_size = align_up content_size MIN_WRITE_ALIGNMENT - content_size).
  { unfold write_padding, wrapping_sub. apply wrap_small. split; lia. }
  rewrite Hw in Hs. unfold write_limit. unfold MIN_WRITE_ALIGNMENT in *. lia.
Qed.

Definition initial_stamping : Stamping :=
  {| st_index := 0; st_wal_seq := hc_wal_seq (wcur seg); st_offset := 0; st_tip_hash := tip_hash (wcur seg);
     chain_overlay := ∅; st_positions := sps_positions s |}.

Definition stamped_queue (L : DatablockLayout) : list ShardLogQueueItem :=
  stamped_all (metadata seg) (aggregate_chain_tips seg) (absolute_write_positions L) initial_stamping (sps_queue s).
Definition final_stamping (L : DatablockLayout) : Stamping :=
  foldl (stamp_next (metadata seg) (aggregate_chain_tips seg) (absolute_write_positions L)) initial_stamping (sps_queue s).

Lemma positions_u64 L : layout_ok seg (sps_queue s) write_limit L ->
  Forall (fun p => u64 p) (absolute_write_positions L).
Proof.
  intros [Hp _ Hps _ _]. pose proof space. pose proof (dp_bounds seg Hseg).
  apply Forall_lookup. intros i p Hi. destruct (Forall2_lookup_l _ _ _ _ _ Hps Hi) as (b & _ & ? & ? & _).
  split; lia.
Qed.

Lemma initial_ok L : layout_ok seg (sps_queue s) write_limit L ->
  stamping_ok (metadata seg) (aggregate_chain_tips seg) (absolute_write_positions L) initial_stamping (sps_queue s).
Proof.
  intros HL. pose proof space. pose proof (dp_bounds seg Hseg). destruct Hbatch as [_ Hitems _ Hseq].
  destruct (md_header_wf _ (so_metadata _ Hseg)) as ((_ & _ & Hw & Ht) & _).
  split; cbn [initial_stamping st_wal_seq st_tip_hash chain_overlay st_index]; try done.
  - split; [apply Hw|exact Hseq].
  - unfold absolute_pos. cbn. fold (wcur seg) (mp seg). unfold content_size, buffer_size_metablocks in *. lia.
  - apply (so_tips _ Hseg).
  - by apply positions_u64.
  - rewrite length_externals by done. by rewrite (Forall2_length _ _ _ (lo_positions _ _ _ _ HL)).
Qed.

Definition new_metadata (commit_target : CommitTarget) (L : DatablockLayout) : LogSegmentFileMetadata :=
  let md := metadata seg in
  let md' :=
    {| md_log_id := md_log_id md; file_len := file_len md;
       md_write := {| cur_log_id := cur_log_id (md_write md);
                      pos := {| metablocks_position := mp seg + content_size;
                                datablocks_position := new_datablocks_position L;
                                hc_wal_seq := st_wal_seq (final_stamping L);
                                tip_hash := st_tip_hash (final_stamping L) |} |};
       md_read := md_read md; datablocks_carry_over := new_carry_over L;
       md_last_received_replication_wal_seq := md_last_received_replication_wal_seq md;
       md_last_self_acked_wal_seq := md_last_self_acked_wal_seq md |} in
  match commit_target with FullCommit => advance_visible_position md' | _ => md' end.

Definition metablock_area (L : DatablockLayout) : bytes :=
  concat ((fun item => metablock_block (qi_metablock item)) <$> stamped_queue L).

Lemma sync_plan_done commit_target : exists L,
  layout_ok seg (sps_queue s) write_limit L /\
  sync_plan recycled dma_alignment seg s commit_target =
    Done {| plan_snapshot := {| sps_queue := stamped_queue L; sps_positions := st_positions (final_stamping L);
                                sps_schemas := sps_schemas s |};
            plan_metadata := new_metadata commit_target L; plan_datablocks := datablocks_write L;
            plan_metablocks := (mp seg, metablock_area L ++ zeros (Z.to_nat (write_limit - mp seg - content_size)));
            plan_header := to_shard_log_header (new_metadata commit_target L) |}.
Proof.
  pose proof space as (Hc & Hd & Hl1 & Hl2 & Hl3). pose proof (dp_bounds seg Hseg).
  unfold sync_plan. fold (wcur seg). rewrite (Z.max_r dma_alignment) by done.
  fold content_size (mp seg).
  replace (saturating_add 64 (mp seg) (align_up content_size MIN_WRITE_ALIGNMENT)) with write_limit
    by (unfold saturating_add, write_limit in *; lia).
  destruct (layout_spec seg Hseg (sps_queue s) (mp seg) write_limit) as (L & -> & HL); [lia..|apply Hbatch|].
  exists L. split; [done|]. cbn [mbind outcome_bind].
  fold initial_stamping. rewrite (stamp_items_done recycled Hrecycled) by (by apply initial_ok).
  cbn [mbind outcome_bind]. fold (stamped_queue L) (final_stamping L) (metablock_area L).
  do 5 f_equal. unfold write_limit in *. lia.
Qed.

Lemma length_concat_blocks L : layout_ok seg (sps_queue s) write_limit L ->
  Z.of_nat (length (metablock_area L)) = content_size.
Proof.
  intros HL. unfold metablock_area, content_size, buffer_size_metablocks, stamped_queue.
  pose proof (stamped_all_wf _ _ _ _ _ (initial_ok L HL)) as Hwf.
  rewrite <- (length_stamped_all (metadata seg) (aggregate_chain_tips seg) (absolute_write_positions L)
    (sps_queue s) initial_stamping).
  induction Hwf as [|item items Hm _ IH]; [done|]. cbn [fmap list_fmap concat length].
  rewrite length_app, length_metablock_block by done. lia.
Qed.

Lemma final_counters L : layout_ok seg (sps_queue s) write_limit L ->
  st_wal_seq (final_stamping L) = hc_wal_seq (wcur seg) + Z.of_nat (length (sps_queue s)) /\
  wf_byte_array 32 (st_tip_hash (final_stamping L)).
Proof.
  intros HL. pose proof (state_at_ok _ _ _ _ _ (length (sps_queue s)) (initial_ok L HL)) as Hok.
  destruct (state_at_counters (metadata seg) (aggregate_chain_tips seg) (absolute_write_positions L)
    (sps_queue s) initial_stamping (length (sps_queue s))) as [E _]; [done|].
  unfold state_at in *. rewrite firstn_all in *. split; [done|]. apply Hok.
Qed.

Lemma new_metadata_ok commit_target L : layout_ok seg (sps_queue s) write_limit L ->
  metadata_ok (new_metadata commit_target L).
Proof.
  intros HL. pose proof space. pose proof (dp_bounds seg Hseg). destruct (final_counters L HL) as [Hw Ht].
  destruct Hbatch as [_ _ _ Hseq]. destruct (so_metadata _ Hseg) as [Hid Hread Hwf].
  destruct Hwf as ((Hm & Hdp & Hseq0 & Htip) & Hr & Ha & Hrd).
  assert (Hcur : wf_header_cursor
    {| metablocks_position := mp seg + content_size; datablocks_position := new_datablocks_position L;
       hc_wal_seq := st_wal_seq (final_stamping L); tip_hash := st_tip_hash (final_stamping L) |}).
  { change (hc_wal_seq _) with (hc_wal_seq (wcur seg)) in Hseq0.
    unfold wf_header_cursor, fits in *. cbn. rewrite (lo_position _ _ _ _ HL), Hw. split_and!; [lia..|done]. }
  destruct commit_target; split; cbn -[wf_shard_log_header]; try done.
  1: { intros r [= <-]. cbn. split; [done|]. lia. }
  all: by split_and!.
Qed.

(** The file once the two writes landed: only free space has changed. *)
Lemma written_file L : layout_ok seg (sps_queue s) write_limit L -> exists Y,
  file_write (write_opt (contents seg) (datablocks_write L)) (mp seg)
    (metablock_area L ++ zeros (Z.to_nat (write_limit - mp seg - content_size))) =
  take (Z.to_nat (mp seg)) (contents seg) ++ metablock_area L ++ Y ++ data_area (sps_queue s) ++
    drop (Z.to_nat (dp seg)) (contents seg) /\
  mp seg + content_size + Z.of_nat (length Y) = new_datablocks_position L.
Proof.
  intros HL. pose proof space. pose proof (dp_bounds seg Hseg). pose proof (length_concat_blocks L HL) as Ha.
  destruct (lo_file _ _ _ _ HL) as (X & -> & HX).
  exists (zeros (Z.to_nat (write_limit - mp seg - content_size)) ++ X).
  rewrite (take_split _ (Z.to_nat (mp seg)) (Z.to_nat write_limit)) by lia. rewrite <- !app_assoc.
  unfold file_write. rewrite write_at_mid.
  - rewrite <- !app_assoc. split; [done|]. unfold zeros. rewrite length_app, length_replicate. lia.
  - rewrite length_take. lia.
  - rewrite length_app, length_slice. unfold zeros. rewrite length_replicate. lia.
Qed.

Lemma length_written L : layout_ok seg (sps_queue s) write_limit L ->
  length (file_write (write_opt (contents seg) (datablocks_write L)) (mp seg)
    (metablock_area L ++ zeros (Z.to_nat (write_limit - mp seg - content_size)))) = length (contents seg).
Proof.
  intros HL. pose proof space. pose proof (dp_bounds seg Hseg). pose proof (length_concat_blocks L HL).
  pose proof (length_data_area (sps_queue s)). pose proof (lo_position _ _ _ _ HL).
  destruct (written_file L HL) as (Y & -> & HY). rewrite !length_app, length_take, length_drop. lia.
Qed.

(** Then the two headers. *)
Lemma headers_written (C hdr mid : bytes) :
  length hdr = HEADER_BLOCK_SIZE_BYTES -> length mid = (length (contents seg) - 2 * HEADER_BLOCK_SIZE_BYTES)%nat ->
  length C = length (contents seg) -> slice C HEADER_BLOCK_SIZE_BYTES (length mid) = mid ->
  file_write (file_write C 0 hdr)
    (saturating_sub (file_len (metadata seg)) (Z.of_nat HEADER_BLOCK_SIZE_BYTES)) hdr = hdr ++ mid ++ hdr.
Proof.
  intros Hh Hmid HC Hs. pose proof (dp_bounds seg Hseg). unfold file_write, saturating_sub.
  rewrite Z.max_r by lia. cbn [Z.to_nat]. rewrite write_at_0, Hh, (drop_slice C HEADER_BLOCK_SIZE_BYTES (length mid)), Hs.
  rewrite app_assoc, write_at_end, <- app_assoc; [done|..].
  - rewrite length_app, Hh, Hmid. lia.
  - rewrite length_drop. lia.
Qed.

(** The whole file after the batch: new headers, the committed metablocks,
    the batch's metablocks, free space, the batch's datablocks and the
    committed datablocks. *)
Lemma synced_file L hdr : layout_ok seg (sps_queue s) write_limit L -> length hdr = HEADER_BLOCK_SIZE_BYTES ->
  exists Y,
  file_write (file_write (file_write (write_opt (contents seg) (datablocks_write L)) (mp seg)
      (metablock_area L ++ zeros (Z.to_nat (write_limit - mp seg - content_size)))) 0 hdr)
    (saturating_sub (file_len (metadata seg)) (Z.of_nat HEADER_BLOCK_SIZE_BYTES)) hdr =
  hdr ++ (slice (contents seg) HEADER_BLOCK_SIZE_BYTES (Z.to_nat (mp seg) - HEADER_BLOCK_SIZE_BYTES) ++
    metablock_area L ++ Y ++ data_area (sps_queue s) ++
    slice (contents seg) (Z.to_nat (dp seg)) (length (contents seg) - HEADER_BLOCK_SIZE_BYTES - Z.to_nat (dp seg))) ++ hdr /\
  mp seg + content_size + Z.of_nat (length Y) = new_datablocks_position L.
Proof.
  intros HL Hh. pose proof space. pose proof (dp_bounds seg Hseg). pose proof (length_concat_blocks L HL) as Ha.
  pose proof (length_data_area (sps_queue s)). pose proof (lo_position _ _ _ _ HL).
  destruct (written_file L HL) as (Y & -> & HY). exists Y. split; [|done].
  apply headers_written; [done|..].
  - rewrite !length_app, !length_slice. lia.
  - rewrite !length_app, length_take, length_drop. lia.
  - rewrite (take_split (contents seg) HEADER_BLOCK_SIZE_BYTES (Z.to_nat (mp seg))) by lia.
    rewrite (drop_slice (contents seg) (Z.to_nat (dp seg)) (length (contents seg) - HEADER_BLOCK_SIZE_BYTES - Z.to_nat (dp seg))).
    rewrite <- !app_assoc. rewrite slice_app_r by (rewrite length_take; lia).
    rewrite length_take, Nat.min_l, Nat.sub_diag by lia. rewrite !app_assoc. apply slice_app_here.
    by rewrite <- !app_assoc.
Qed.
End plan.

(** ** A segment as a log of entries *)

Record LogEntry := {
  le_pos : Z;
  le_metablock : Metablock;
  le_data : option bytes;
}.

Definition entry_of (item : ShardLogQueueItem) : LogEntry :=
  {| le_pos := qi_metablock_absolute_pos item; le_metablock := qi_metablock item; le_data := datablock_bytes item |}.

(** The latest block of each aggregate. *)
Definition note_chain_tip (tips : gmap AggregateKey Z) (m : Metablock) (p : Z) : gmap AggregateKey Z :=
  match chain_aggregate_key m with Some key => <[key := p]> tips | None => tips end.

Definition chain_tips (log : list LogEntry) : gmap AggregateKey Z :=
  foldl (fun tips e => note_chain_tip tips (le_metablock e) (le_pos e)) ∅ log.

(** What [commit_sync] does to the segment: the new metadata, and the blocks
    of the batch as the tips of their aggregates. *)
Definition install_batch (seg : LogSegmentFile) (md : LogSegmentFileMetadata) (queue : list ShardLogQueueItem)
    : LogSegmentFile :=
  {| metadata := md;
     aggregate_chain_tips := foldl (fun tips item => note_chain_tip tips (qi_metablock item) (qi_metablock_absolute_pos item))
                               (aggregate_chain_tips seg) queue;
     aggregate_key_bloom := aggregate_key_bloom seg; client_id_bloom := client_id_bloom seg;
     contents := contents seg |}.

Section log.
Context `{Bincode, Crc32c, Blake3, Xxh3}.

(** Every entry carries the tip of the chain before it. *)
Fixpoint chain_ok (tip : bytes) (ms : list Metablock) (last : bytes) : Prop :=
  match ms with
  | [] => last = tip
  | m :: ms => previous_tip_hash m = tip /\ exists t, advance_tip tip m = Some t /\ chain_ok t ms last
  end.

Lemma chain_ok_app tip ms1 mid ms2 last :
  chain_ok tip ms1 mid -> chain_ok mid ms2 last -> chain_ok tip (ms1 ++ ms2) last.
Proof.
  revert tip. induction ms1 as [|m ms1 IH]; intros tip; cbn; [by intros ->|].
  intros (E & t & Ht & Hc) H'. eauto 10.
Qed.

Lemma chain_ok_fold tip ms last : chain_ok tip ms last ->
  foldl (fun t m => t ≫= fun t => advance_tip t m) (Some tip) ms = Some last.
Proof.
  revert tip. induction ms as [|m ms IH]; intros tip; cbn; [by intros ->|].
  intros (_ & t & Ht & Hc). rewrite Ht. by apply IH.
Qed.

Lemma chain_ok_linked tip ms last j : chain_ok tip ms last -> linked ms j.
Proof.
  revert tip j. induction ms as [|m ms IH]; intros tip j Hc; [by destruct j; intros a b|].
  destruct Hc as (E & t & Ht & Hc). destruct j as [|j].
  - destruct ms as [|m' ms]; [by intros a b _ ?|]. intros a b [= <-] [= <-]. destruct Hc as [-> _]. by rewrite E.
  - apply linked_cons. by eapply IH.
Qed.

Definition bloom_covers (seg : LogSegmentFile) (m : Metablock) : Prop :=
  match bloom_keys m with
  | Some (key, client_id) =>
      bloom_may_contain (aggregate_key_bloom seg) key = Some true /\
      bloom_may_contain_hash (client_id_bloom seg) (client_id_bloom_hash client_id) = Some true
  | None => True
  end.

(** The segment holds the log [log], whose chain starts at [tip0]: every block
    is the encoding of its entry, the separate datablocks are where the entries say,
    sequence numbers and chain hashes follow each other up to the cursor, the
    backlinks lead to the previous block of the aggregate, and the blooms
    contain what the entries mention. *)
Record segment_holds (seg : LogSegmentFile) (tip0 : bytes) (log : list LogEntry) : Prop := {
  sh_ok : segment_ok seg;
  sh_end : mp seg = Z.of_nat (HEADER_BLOCK_SIZE_BYTES + length log * FIXED_BLOCK_SIZE_BYTES);
  sh_entry i e : log !! i = Some e ->
    le_pos e = Z.of_nat (HEADER_BLOCK_SIZE_BYTES + i * FIXED_BLOCK_SIZE_BYTES) /\
    wal_seq (le_metablock e) = hc_wal_seq (wcur seg) - Z.of_nat (length log) + 1 + Z.of_nat i /\
    wf_metablock (le_metablock e) /\
    slice (contents seg) (Z.to_nat (le_pos e)) FIXED_BLOCK_SIZE_BYTES = metablock_block (le_metablock e) /\
    bloom_covers seg (le_metablock e);
  sh_data i e b : log !! i = Some e -> le_data e = Some b ->
    dp seg <= datablock_position (le_metablock e) /\
    datablock_position (le_metablock e) + Z.of_nat (length b) <= file_len (metadata seg) - Z.of_nat HEADER_BLOCK_SIZE_BYTES /\
    slice (contents seg) (Z.to_nat (datablock_position (le_metablock e))) (length b) = b;
  sh_descending i j e e' b b' : (i < j)%nat -> log !! i = Some e -> log !! j = Some e' -> le_data e = Some b -> le_data e' = Some b' ->
    datablock_position (le_metablock e') + Z.of_nat (length b') <= datablock_position (le_metablock e);
  sh_chain : chain_ok tip0 (le_metablock <$> log) (tip_hash (wcur seg));
  sh_tips : aggregate_chain_tips seg = chain_tips log;
  sh_backlinks i e key : log !! i = Some e -> chain_aggregate_key (le_metablock e) = Some key ->
    previous_aggregate_metablock_pos (le_metablock e) = default 0 (chain_tips (take i log) !! key);
}.
End log.

(** ** The file of a synced batch, part by part *)

Section shape.
Context (h : nat) (C hdr area Y data : bytes) (m d n : nat).
Let F : bytes := hdr ++ (slice C h (m - h) ++ area ++ Y ++ data ++ slice C d (n - h - d)) ++ hdr.
Context (Hn : length C = n) (Hh : length hdr = h) (Hm : (h <= m)%nat) (Hd : (d + h <= n)%nat).
Context (Hfit : (m + length area + length Y + length data = d)%nat).

Lemma length_shape : length F = n.
Proof. unfold F. rewrite !length_app, !length_slice. lia. Qed.

Lemma shape_metablocks off k : (h <= off)%nat -> (off + k <= m)%nat -> slice F off k = slice C off k.
Proof.
  intros. unfold F. rewrite slice_app_r by lia. rewrite <- app_assoc, slice_app_l by (rewrite length_slice; lia).
  rewrite slice_slice by lia. f_equal. lia.
Qed.

Lemma shape_batch off k : (off + k <= length area)%nat -> slice F (m + off) k = slice area off k.
Proof.
  intros. unfold F. rewrite slice_app_r by lia. rewrite <- app_assoc, slice_app_r by (rewrite length_slice; lia).
  rewrite <- app_assoc, slice_app_l by (rewrite length_slice; lia). f_equal. rewrite length_slice. lia.
Qed.

(** The front of [F] up to the batch's datablocks. *)
Lemma shape_tail off k : (m + length area + length Y <= off)%nat ->
  slice F off k = slice (data ++ slice C d (n - h - d) ++ hdr) (off - (m + length area + length Y)) k.
Proof.
  intros. unfold F. rewrite slice_app_r by lia. rewrite <- !app_assoc.
  rewrite slice_app_r by (rewrite length_slice; lia). rewrite slice_app_r by (rewrite length_slice; lia).
  rewrite slice_app_r by (rewrite length_slice; lia). f_equal. rewrite length_slice. lia.
Qed.

Lemma shape_datablocks off k : (off + k <= length data)%nat -> slice F (d - length data + off) k = slice data off k.
Proof. intros. rewrite shape_tail by lia. rewrite slice_app_l by lia. f_equal. lia. Qed.

Lemma shape_old_datablocks off k : (d <= off)%nat -> (off + k <= n - h)%nat -> slice F off k = slice C off k.
Proof.
  intros. rewrite shape_tail by lia. rewrite slice_app_r by lia. rewrite slice_app_l by (rewrite length_slice; lia).
  rewrite slice_slice by lia. f_equal. lia.
Qed.

Lemma shape_headers : slice F 0 h = hdr /\ slice F (n - h) h = hdr.
Proof.
  split; [by apply slice_app_here|]. unfold F. rewrite app_assoc, slice_app_r.
  - rewrite <- (app_nil_r hdr) at 1. replace (_ - _)%nat with 0%nat; [by apply slice_app_here|].
    rewrite !length_app, !length_slice. lia.
  - rewrite !length_app, !length_slice. lia.
Qed.
End shape.

(** ** Blooms *)

Section blooms.
Context `{Xxh3}.

Definition covered (blooms : AggregateKeyBloom * AggregateKeyBloom) (m : Metablock) : Prop :=
  match bloom_keys m with
  | Some (key, client_id) =>
      bloom_may_contain blooms.1 key = Some true /\
      bloom_may_contain_hash blooms.2 (client_id_bloom_hash client_id) = Some true
  | None => True
  end.

Definition blooms_ok (blooms : AggregateKeyBloom * AggregateKeyBloom) : Prop :=
  segment_bloom_ok blooms.1 /\ segment_bloom_ok blooms.2.

Lemma update_blooms_spec blooms item : blooms_ok blooms ->
  exists blooms', update_blooms blooms item = Some blooms' /\ blooms_ok blooms' /\
    covered blooms' (qi_metablock item) /\ forall m, covered blooms m -> covered blooms' m.
Proof.
  intros [Ha Hc]. unfold update_blooms, covered. destruct (bloom_keys (qi_metablock item)) as [[key c]|]; [|by exists blooms].
  destruct (segment_insert_spec _ (AggregateKey_bloom_hash key) Ha) as (a' & -> & Ha' & Hka & Hma); [apply xxh3_64_u64|].
  destruct (segment_insert_spec _ (client_id_bloom_hash c) Hc) as (c' & -> & Hc' & Hkc & Hmc); [apply xxh3_64_u64|].
  exists (a', c'). split_and!; [done..|]. intros m. destruct (bloom_keys m) as [[k' c0]|]; [|done].
  intros [? ?]. split; [by apply Hma|by apply Hmc].
Qed.

Lemma update_blooms_all items blooms : blooms_ok blooms ->
  exists blooms', foldM update_blooms items blooms = Some blooms' /\ blooms_ok blooms' /\
    Forall (fun item => covered blooms' (qi_metablock item)) items /\ forall m, covered blooms m -> covered blooms' m.
Proof.
  revert blooms. induction items as [|item items IH]; intros blooms Hok; [by exists blooms|].
  cbn [foldM]. destruct (update_blooms_spec blooms item Hok) as (b1 & -> & Hok1 & Hc1 & Hm1). cbn.
  destruct (IH b1 Hok1) as (b2 & -> & Hok2 & Hc2 & Hm2). exists b2. split_and!; [done..| |by auto].
  constructor; [by apply Hm2|done].
Qed.
End blooms.

(** ** Appending a batch *)

Definition io_complete (plan : SyncPlan) (io : SyncIo) : Prop :=
  io_lock io = true /\ io_writer io = true /\
  (forall w, plan_datablocks plan = Some w -> io_datablocks io = Some (length w.2)) /\
  io_metablocks io = Some (length (plan_metablocks plan).2) /\ io_header io = true /\ io_fdatasync io = true.

Section append.
Context `{Bincode, Crc32c, Blake3, Xxh3} (recycled : nat -> bytes).
Context (Hrecycled : forall i, length (recycled i) = FIXED_BLOCK_SIZE_BYTES).
Context (seg : LogSegmentFile) (s : SyncPositionsSnapshot) (dma_alignment : Z) (header_buffer : bytes).
Context (commit_target : CommitTarget).
Context (Hbatch : batch_ok seg (sps_queue s)) (Hdma : dma_alignment <= MIN_WRITE_ALIGNMENT).
Context (Hheader : length header_buffer = HEADER_BLOCK_SIZE_BYTES).

Lemma sync_done : segment_ok seg -> exists L plan blooms Y,
  layout_ok seg (sps_queue s) (write_limit seg s) L /\
  sync_plan recycled dma_alignment seg s commit_target = Done plan /\
  plan_snapshot plan = {| sps_queue := stamped_queue seg s L; sps_positions := st_positions (final_stamping seg s L);
                          sps_schemas := sps_schemas s |} /\
  plan_metadata plan = new_metadata seg s commit_target L /\
  blooms_ok blooms /\ Forall (fun item => covered blooms (qi_metablock item)) (stamped_queue seg s L) /\
  (forall m, covered (aggregate_key_bloom seg, client_id_bloom seg) m -> covered blooms m) /\
  mp seg + content_size s + Z.of_nat (length Y) = new_datablocks_position L /\
  forall io, io_complete plan io ->
    sync recycled dma_alignment header_buffer seg s commit_target io =
      Done (plan_snapshot plan, plan_metadata plan,
        {| metadata := metadata seg; aggregate_chain_tips := aggregate_chain_tips seg;
           aggregate_key_bloom := blooms.1; client_id_bloom := blooms.2;
           contents := let hdr := header_block (to_shard_log_header (new_metadata seg s commit_target L)) in
             hdr ++ (slice (contents seg) HEADER_BLOCK_SIZE_BYTES (Z.to_nat (mp seg) - HEADER_BLOCK_SIZE_BYTES) ++ metablock_area seg s L ++ Y ++
               data_area (sps_queue s) ++
               slice (contents seg) (Z.to_nat (dp seg)) (length (contents seg) - HEADER_BLOCK_SIZE_BYTES - Z.to_nat (dp seg))) ++ hdr |}).
Proof.
  intros Hseg. destruct (sync_plan_done recycled Hrecycled seg s dma_alignment Hseg Hbatch Hdma commit_target)
    as (L & HL & Hplan).
  pose proof (new_metadata_ok seg s Hseg Hbatch commit_target L HL) as Hmd.
  set (hdr := header_block (to_shard_log_header (new_metadata seg s commit_target L))).
  assert (Hh : length hdr = HEADER_BLOCK_SIZE_BYTES) by (apply length_header_block, Hmd).
  destruct (update_blooms_all (stamped_queue seg s L) (aggregate_key_bloom seg, client_id_bloom seg))
    as (blooms & Hb & Hbok & Hcov & Hmono); [apply Hseg|].
  destruct (synced_file seg s Hseg Hbatch L hdr HL Hh) as (Y & HF & HY).
  eexists L, _, blooms, Y. split_and!; [done|exact Hplan|done..|].
  intros io (Hl & Hw & Hd & Hm & Hio & Hf). unfold sync. rewrite Hl, Hw. cbn [mbind outcome_bind]. rewrite Hplan. cbn [mbind outcome_bind plan_datablocks plan_metablocks plan_snapshot plan_metadata plan_header].
  assert (Hwd : match datablocks_write L with
    | Some w => check_write (io_datablocks io) WriteDatablocksError Datablocks w | None => Done tt end = Done tt).
  { destruct (datablocks_write L) as [w|] eqn:E; [|done]. rewrite (Hd w eq_refl). cbn. unfold verify_full_write. by rewrite Nat.eqb_refl. }
  rewrite Hwd. cbn [mbind outcome_bind]. rewrite Hm. cbn [check_write plan_metablocks]. unfold verify_full_write. rewrite Nat.eqb_refl.
  cbn [mbind outcome_bind fst snd]. cbn [sps_queue]. rewrite Hb. cbn [or_panic mbind outcome_bind].
  unfold write_dual_shard_log_header. rewrite serialize_header by (done || apply Hmd). fold hdr.
  cbn [or_panic from_result mbind outcome_bind]. rewrite HF, Hio, Hf. done.
Qed.

(** *** The parts of the appended segment *)

Context (L : DatablockLayout) (Hseg : segment_ok seg) (HL : layout_ok seg (sps_queue s) (write_limit seg s) L).
Let md' : LogSegmentFileMetadata := new_metadata seg s commit_target L.
Let queue' : list ShardLogQueueItem := stamped_queue seg s L.
Let hdr : bytes := header_block (to_shard_log_header md').

Lemma new_cursor : pos (md_write md') =
  {| metablocks_position := mp seg + content_size s; datablocks_position := new_datablocks_position L;
     hc_wal_seq := st_wal_seq (final_stamping seg s L); tip_hash := st_tip_hash (final_stamping seg s L) |} /\
  file_len md' = file_len (metadata seg) /\ datablocks_carry_over md' = new_carry_over L.
Proof. unfold md', new_metadata. by destruct commit_target. Qed.

Lemma initial_stamping_ok : stamping_ok (metadata seg) (aggregate_chain_tips seg) (absolute_write_positions L)
  (initial_stamping seg s) (sps_queue s).
Proof. by apply initial_ok. Qed.

Lemma queue_lookup j item' : queue' !! j = Some item' -> exists item, sps_queue s !! j = Some item /\
  item' = stamped (metadata seg) (aggregate_chain_tips seg) (absolute_write_positions L)
            (state_at (metadata seg) (aggregate_chain_tips seg) (absolute_write_positions L) (initial_stamping seg s)
               (sps_queue s) j) item /\
  qi_metablock_absolute_pos item' = mp seg + Z.of_nat (j * FIXED_BLOCK_SIZE_BYTES) /\
  wal_seq (qi_metablock item') = hc_wal_seq (wcur seg) + Z.of_nat j + 1 /\ wf_metablock (qi_metablock item').
Proof.
  intros Hj. pose proof (lookup_lt_Some _ _ _ Hj) as Hlt. unfold queue', stamped_queue in Hlt.
  rewrite length_stamped_all in Hlt. destruct (lookup_lt_is_Some_2 _ _ Hlt) as [item Hitem].
  unfold queue', stamped_queue in Hj. pose proof Hj as Hj'.
  rewrite (stamped_all_lookup _ _ _ _ _ _ _ Hitem) in Hj. injection Hj as <-.
  destruct (state_at_counters (metadata seg) (aggregate_chain_tips seg) (absolute_write_positions L)
    (sps_queue s) (initial_stamping seg s) j) as [E1 E2]; [lia|].
  exists item. split_and!; [done|done|..].
  - cbn [stamped qi_metablock_absolute_pos]. unfold absolute_pos. rewrite E2. fold (wcur seg) (mp seg). cbn. lia.
  - cbn [stamped qi_metablock stamp_metablock wal_seq]. rewrite E1. cbn. lia.
  - pose proof (stamped_all_wf _ _ _ _ _ initial_stamping_ok) as Hwf.
    by apply (Forall_lookup_1 _ _ _ _ Hwf Hj').
Qed.

Context (Y : bytes) (HY : mp seg + content_size s + Z.of_nat (length Y) = new_datablocks_position L).
Context (blooms : AggregateKeyBloom * AggregateKeyBloom) (Hblooms : blooms_ok blooms).
Let area : bytes := metablock_area seg s L.
Let data : bytes := data_area (sps_queue s).
Let F : bytes := hdr ++ (slice (contents seg) HEADER_BLOCK_SIZE_BYTES (Z.to_nat (mp seg) - HEADER_BLOCK_SIZE_BYTES) ++ area ++ Y ++ data ++
  slice (contents seg) (Z.to_nat (dp seg)) (length (contents seg) - HEADER_BLOCK_SIZE_BYTES - Z.to_nat (dp seg))) ++ hdr.
Let seg' : LogSegmentFile :=
  install_batch {| metadata := metadata seg; aggregate_chain_tips := aggregate_chain_tips seg;
                   aggregate_key_bloom := blooms.1; client_id_bloom := blooms.2; contents := F |} md' queue'.

Lemma appended_sizes :
  length hdr = HEADER_BLOCK_SIZE_BYTES /\ (HEADER_BLOCK_SIZE_BYTES <= Z.to_nat (mp seg))%nat /\
  (Z.to_nat (dp seg) + HEADER_BLOCK_SIZE_BYTES <= length (contents seg))%nat /\
  (Z.to_nat (mp seg) + length area + length Y + length data = Z.to_nat (dp seg))%nat /\
  Z.of_nat (length area) = content_size s /\ Z.of_nat (length data) = buffer_size_datablocks (sps_queue s) /\
  new_datablocks_position L = dp seg - Z.of_nat (length data) /\
  0 < mp seg + content_size s <= new_datablocks_position L.
Proof.
  pose proof (space seg s Hseg Hbatch). pose proof (dp_bounds seg Hseg).
  pose proof (length_concat_blocks seg s Hseg Hbatch L HL) as Ha. fold area in Ha.
  pose proof (length_data_area (sps_queue s)) as Hd. fold data in Hd.
  pose proof (lo_position _ _ _ _ HL) as Hp.
  assert (Hh : length hdr = HEADER_BLOCK_SIZE_BYTES)
    by (apply length_header_block; exact (md_header_wf _ (new_metadata_ok seg s Hseg Hbatch commit_target L HL))).
  split_and!; [done|lia..].
Qed.

Ltac shape := destruct appended_sizes as (Hhd & Hmp & Hdp & Hfit & Harea & Hdata & Hnew & Hspace).

Lemma new_carry_ok : carry_over_ok F (new_datablocks_position L) (new_carry_over L).
Proof.
  shape. intros Hlt. rewrite (lo_carry _ _ _ _ HL Hlt). f_equal.
  pose proof (dp_bounds seg Hseg). pose proof (data_write_end seg Hseg) as Hend.
  destruct (align_up_4096 (dp seg)) as [Hup Hdiv]; [lia|].
  assert (Hcap : align_up (new_datablocks_position L) MIN_WRITE_ALIGNMENT <= align_up (dp seg) MIN_WRITE_ALIGNMENT)
    by (apply align_up_aligned; [lia..|done]).
  destruct (lo_file _ _ _ _ HL) as (X & -> & HX). fold data.
  pose proof (space seg s Hseg Hbatch).
  rewrite slice_app_r by (rewrite length_take; lia). rewrite slice_app_r by (rewrite length_take; lia).
  unfold F. rewrite (shape_tail HEADER_BLOCK_SIZE_BYTES (contents seg) hdr area Y data (Z.to_nat (mp seg)) (Z.to_nat (dp seg))
    (length (contents seg))) by lia.
  set (k := Z.to_nat (align_up _ _ - _)). rewrite length_take.
  replace (Z.to_nat (new_datablocks_position L) - _ - _)%nat with 0%nat by lia.
  replace (Z.to_nat (new_datablocks_position L) - _)%nat with 0%nat by lia.
  rewrite (drop_slice (contents seg) (Z.to_nat (dp seg)) (length (contents seg) - HEADER_BLOCK_SIZE_BYTES - Z.to_nat (dp seg))).
  rewrite !app_assoc. set (tail := data ++ slice _ _ _).
  assert (k <= length tail)%nat by (unfold tail, k; rewrite length_app, length_slice; lia).
  rewrite !(slice_app_l tail) by lia. done.
Qed.

Lemma new_tips_u64 : map_Forall (fun _ p => u64 p) (aggregate_chain_tips seg').
Proof.
  shape. pose proof (dp_bounds seg Hseg). cbn [seg' install_batch aggregate_chain_tips].
  assert (Hall : Forall (fun item => u64 (qi_metablock_absolute_pos item)) queue').
  { apply Forall_lookup. intros j item' Hj. destruct (queue_lookup _ _ Hj) as (item & Hq & _ & E & _).
    pose proof (lookup_lt_Some _ _ _ Hq). unfold content_size, buffer_size_metablocks in *.
    pose proof (Nat.mul_le_mono_r j (length (sps_queue s)) FIXED_BLOCK_SIZE_BYTES). rewrite E. split; lia. }
  generalize (so_tips _ Hseg). generalize (aggregate_chain_tips seg).
  induction Hall as [|item q Hi _ IH]; intros tips Ht; [done|]. cbn [foldl]. apply IH.
  unfold note_chain_tip. destruct (chain_aggregate_key _); [by apply map_Forall_insert_2|done].
Qed.

Lemma new_segment_ok : segment_ok seg'.
Proof.
  shape. pose proof (dp_bounds seg Hseg). destruct new_cursor as (Hc & Hlen & Hcarry).
  assert (Hmp' : mp seg' = mp seg + content_size s) by (unfold mp, wcur; cbn [seg' install_batch metadata]; by rewrite Hc).
  assert (Hdp' : dp seg' = new_datablocks_position L) by (unfold dp, wcur; cbn [seg' install_batch metadata]; by rewrite Hc).
  split.
  - cbn [seg' install_batch metadata contents]. rewrite Hlen. unfold F. rewrite length_shape by lia. lia.
  - cbn [seg' install_batch metadata]. rewrite Hlen. apply Hseg.
  - cbn [seg' install_batch metadata]. rewrite Hlen. apply Hseg.
  - rewrite Hmp', Hdp'. cbn [seg' install_batch metadata]. rewrite Hlen.
    pose proof (so_positions _ Hseg). lia.
  - exact (new_metadata_ok seg s Hseg Hbatch commit_target L HL).
  - rewrite Hdp'. cbn [seg' install_batch metadata contents]. rewrite Hcarry. apply new_carry_ok.
  - apply new_tips_u64.
  - exact Hblooms.
Qed.

Context (tip0 : bytes) (log : list LogEntry) (Hlog : segment_holds seg tip0 log).
Context (Hcov : Forall (fun item => covered blooms (qi_metablock item)) queue').
Context (Hmono : forall m, covered (aggregate_key_bloom seg, client_id_bloom seg) m -> covered blooms m).
Let log' : list LogEntry := log ++ (entry_of <$> queue').

Lemma appended_cursor : mp seg' = mp seg + content_size s /\ dp seg' = new_datablocks_position L /\
  hc_wal_seq (wcur seg') = hc_wal_seq (wcur seg) + Z.of_nat (length (sps_queue s)) /\
  file_len (metadata seg') = file_len (metadata seg).
Proof.
  destruct new_cursor as (Hc & Hlen & _). unfold mp, dp, wcur. cbn [seg' install_batch metadata].
  rewrite Hc, Hlen. cbn. destruct (final_counters seg s Hseg Hbatch L HL) as [-> _]. done.
Qed.

Lemma length_log' : length log' = (length log + length (sps_queue s))%nat.
Proof. unfold log', queue', stamped_queue. by rewrite length_app, length_fmap, length_stamped_all. Qed.

(** An entry of the new log is an old one or one of the batch. *)
Lemma log_lookup i e : log' !! i = Some e ->
  (log !! i = Some e /\ (i < length log)%nat) \/
  exists j item', i = (length log + j)%nat /\ queue' !! j = Some item' /\ e = entry_of item'.
Proof.
  intros [Hi|[Hle Hi]]%lookup_app_Some; [left; split; [done|by eapply lookup_lt_Some]|].
  right. apply list_lookup_fmap_Some in Hi as (item' & -> & Hi). exists (i - length log)%nat, item'.
  split_and!; [lia|done|done].
Qed.

Lemma batch_block j item' : queue' !! j = Some item' ->
  slice F (Z.to_nat (qi_metablock_absolute_pos item')) FIXED_BLOCK_SIZE_BYTES = metablock_block (qi_metablock item').
Proof.
  intros Hj. shape. destruct (queue_lookup _ _ Hj) as (item & Hq & _ & Hp & _).
  pose proof (lookup_lt_Some _ _ _ Hq) as Hlt. unfold content_size, buffer_size_metablocks in Harea.
  assert (Hle : (j * FIXED_BLOCK_SIZE_BYTES + FIXED_BLOCK_SIZE_BYTES <= length area)%nat).
  { pose proof (Nat.mul_le_mono_r (S j) (length (sps_queue s)) FIXED_BLOCK_SIZE_BYTES). lia. }
  pose proof (dp_bounds seg Hseg).
  replace (Z.to_nat (qi_metablock_absolute_pos item')) with (Z.to_nat (mp seg) + j * FIXED_BLOCK_SIZE_BYTES)%nat by lia.
  unfold F. rewrite shape_batch by lia. unfold area, metablock_area.
  apply slice_concat; [|by rewrite list_lookup_fmap; unfold queue' in Hj; rewrite Hj].
  apply Forall_fmap. eapply Forall_impl; [apply (stamped_all_wf _ _ _ _ _ initial_stamping_ok)|].
  intros x Hx. by apply length_metablock_block.
Qed.

Lemma appended_entries i e : log' !! i = Some e ->
  le_pos e = Z.of_nat (HEADER_BLOCK_SIZE_BYTES + i * FIXED_BLOCK_SIZE_BYTES) /\
  wal_seq (le_metablock e) = hc_wal_seq (wcur seg') - Z.of_nat (length log') + 1 + Z.of_nat i /\
  wf_metablock (le_metablock e) /\
  slice F (Z.to_nat (le_pos e)) FIXED_BLOCK_SIZE_BYTES = metablock_block (le_metablock e) /\
  covered blooms (le_metablock e).
Proof.
  intros Hi. shape. destruct appended_cursor as (_ & _ & -> & _). rewrite length_log'.
  pose proof (sh_end _ _ _ Hlog) as Hend. pose proof (dp_bounds seg Hseg).
  destruct (log_lookup _ _ Hi) as [[Ho Hlt]|(j & item' & -> & Hj & ->)].
  - destruct (sh_entry _ _ _ Hlog _ _ Ho) as (Hp & Hs & Hwf & Hd & Hb). split_and!; [done|lia|done| |by apply Hmono].
    unfold F. rewrite shape_metablocks; [done|lia..| |].
    + lia.
    + pose proof (Nat.mul_le_mono_r (S i) (length log) FIXED_BLOCK_SIZE_BYTES). lia.
  - destruct (queue_lookup _ _ Hj) as (item & Hq & _ & Hp & Hs & Hwf). cbn [entry_of le_pos le_metablock].
    split_and!; [lia|lia|done|by apply batch_block in Hj|by apply (Forall_lookup_1 _ _ _ _ Hcov Hj)].
Qed.

Notation externals := (filter (fun item => is_external item = true) queue').

Lemma batch_external j item' b : queue' !! j = Some item' -> datablock_bytes item' = Some b -> is_external item' = true.
Proof.
  intros Hj Hb. destruct (queue_lookup _ _ Hj) as (item & Hq & E & _).
  destruct (Forall_lookup_1 _ _ _ _ (bo_items _ _ Hbatch) Hq) as [_ Hok]. subst item'. cbn in Hb.
  unfold is_external. cbn. rewrite Hb. by destruct (Hok _ Hb) as [_ [? ->]].
Qed.

(** The position and the bytes of the [k]-th datablock of the batch. *)
Lemma external_placed k item' b : externals !! k = Some item' -> datablock_bytes item' = Some b ->
  absolute_write_positions L !! k = Some (datablock_position (qi_metablock item')) /\ datablocks_of (sps_queue s) !! k = Some b.
Proof.
  intros Hk Hb. pose proof (bo_items _ _ Hbatch) as Hitems.
  pose proof (stamped_positions _ _ _ _ _ initial_stamping_ok) as Hpos.
  rewrite drop_0, take_ge in Hpos
    by (rewrite (Forall2_length _ _ _ (lo_positions _ _ _ _ HL)), length_externals by done; lia).
  pose proof (stamped_externals (metadata seg) (aggregate_chain_tips seg) (absolute_write_positions L)
    (sps_queue s) (initial_stamping seg s)) as Hbytes.
  rewrite <- (externals_datablocks (sps_queue s)) in Hbytes by done.
  fold (stamped_queue seg s L) queue' in Hpos, Hbytes. split.
  - apply (f_equal (lookup k)) in Hpos. rewrite list_lookup_fmap, Hk in Hpos. by symmetry.
  - apply (f_equal (lookup k)) in Hbytes. rewrite !list_lookup_fmap, Hk in Hbytes. cbn in Hbytes. rewrite Hb in Hbytes.
    destruct (datablocks_of _ !! k); cbn in Hbytes; congruence.
Qed.

Lemma batch_datablock j item' b : queue' !! j = Some item' -> datablock_bytes item' = Some b ->
  new_datablocks_position L <= datablock_position (qi_metablock item') /\
  datablock_position (qi_metablock item') + Z.of_nat (length b) <= dp seg /\
  slice data (Z.to_nat (datablock_position (qi_metablock item') - new_datablocks_position L)) (length b) = b.
Proof.
  intros Hj Hb.
  assert (Hin : item' ∈ externals)
    by (apply list_elem_of_filter; split; [by eapply batch_external|by eapply list_elem_of_lookup_2]).
  apply list_elem_of_lookup in Hin as [k Hk]. destruct (external_placed _ _ _ Hk Hb) as [Hk1 Hk2].
  exact (Forall2_lookup_lr _ _ _ _ _ _ (lo_positions _ _ _ _ HL) Hk1 Hk2).
Qed.

Lemma batch_descending i j x y b c : (i < j)%nat -> queue' !! i = Some x -> queue' !! j = Some y ->
  datablock_bytes x = Some b -> datablock_bytes y = Some c ->
  datablock_position (qi_metablock y) + Z.of_nat (length c) <= datablock_position (qi_metablock x).
Proof.
  intros Hij Hi Hj Hb Hc. pose proof (batch_external _ _ _ Hi Hb) as Hx. pose proof (batch_external _ _ _ Hj Hc) as Hy.
  assert (Hin : x ∈ filter (fun item => is_external item = true) (take j queue')).
  { apply list_elem_of_filter. split; [done|]. apply (list_elem_of_lookup_2 _ i). by rewrite lookup_take_lt. }
  apply list_elem_of_lookup in Hin as [k1 Hk1]. pose proof (lookup_lt_Some _ _ _ Hk1) as Hlt.
  assert (Hsplit : externals = filter (fun item => is_external item = true) (take j queue') ++ y :: filter (fun item => is_external item = true) (drop (S j) queue')).
  { rewrite <- (take_drop j queue') at 1. by rewrite filter_app, (drop_S _ _ _ Hj), filter_cons_True. }
  assert (E1 : externals !! k1 = Some x) by (by rewrite Hsplit, lookup_app_l).
  assert (E2 : externals !! length (filter (fun item => is_external item = true) (take j queue')) = Some y)
    by (by rewrite Hsplit, lookup_app_r, Nat.sub_diag by lia).
  destruct (external_placed _ _ _ E1 Hb) as [Hp1 _]. destruct (external_placed _ _ _ E2 Hc) as [Hp2 Hc2].
  exact (descends_lookup _ _ _ _ _ _ _ _ (lo_descends _ _ _ _ HL) Hlt Hp1 Hp2 Hc2).
Qed.

Lemma appended_descending i j e e' b b' : (i < j)%nat -> log' !! i = Some e -> log' !! j = Some e' -> le_data e = Some b -> le_data e' = Some b' ->
  datablock_position (le_metablock e') + Z.of_nat (length b') <= datablock_position (le_metablock e).
Proof.
  intros Hij Hi Hj Hb Hb'. destruct (log_lookup _ _ Hi) as [[Ho Hlt]|(k & x & -> & Hk & ->)];
    destruct (log_lookup _ _ Hj) as [[Ho' Hlt']|(k' & y & -> & Hk' & ->)]; try lia.
  - by eapply (sh_descending _ _ _ Hlog i j).
  - destruct (sh_data _ _ _ Hlog _ _ _ Ho Hb) as [? _]. destruct (batch_datablock _ _ _ Hk' Hb') as (_ & ? & _). cbn. lia.
  - apply (batch_descending k k' x y b b'); try done. lia.
Qed.

Lemma appended_data i e b : log' !! i = Some e -> le_data e = Some b ->
  dp seg' <= datablock_position (le_metablock e) /\
  datablock_position (le_metablock e) + Z.of_nat (length b) <= file_len (metadata seg') - Z.of_nat HEADER_BLOCK_SIZE_BYTES /\
  slice F (Z.to_nat (datablock_position (le_metablock e))) (length b) = b.
Proof.
  intros Hi Hb. shape. destruct appended_cursor as (_ & -> & _ & ->). pose proof (dp_bounds seg Hseg).
  destruct (log_lookup _ _ Hi) as [[Ho Hlt]|(j & item' & -> & Hj & ->)].
  - destruct (sh_data _ _ _ Hlog _ _ _ Ho Hb) as (Hd1 & Hd2 & Hd3).
    split_and!; [lia|lia|].
    unfold F. rewrite shape_old_datablocks by lia. exact Hd3.
  - destruct (batch_datablock _ _ _ Hj Hb) as (Hd1 & Hd2 & Hd3). cbn [entry_of le_metablock].
    split_and!; [lia|lia|].
    replace (Z.to_nat (datablock_position (qi_metablock item'))) with
      (Z.to_nat (dp seg) - length data +
         Z.to_nat (datablock_position (qi_metablock item') - new_datablocks_position L))%nat by lia.
    unfold F. rewrite shape_datablocks by lia. exact Hd3.
Qed.

Lemma stamped_chain st queue positions :
  stamping_ok (metadata seg) (aggregate_chain_tips seg) positions st queue ->
  chain_ok (st_tip_hash st)
    (qi_metablock <$> stamped_all (metadata seg) (aggregate_chain_tips seg) positions st queue)
    (st_tip_hash (foldl (stamp_next (metadata seg) (aggregate_chain_tips seg) positions) st queue)).
Proof.
  revert st. induction queue as [|x queue IH]; intros st Hok; [done|].
  cbn [stamped_all fmap list_fmap foldl chain_ok]. split; [done|].
  eexists. split; [by eapply stamped_tip|]. by apply IH; eapply stamp_next_ok.
Qed.

Lemma latest_fold st queue positions T :
  (forall key, latest (aggregate_chain_tips seg) st key = T !! key) ->
  forall key, latest (aggregate_chain_tips seg)
    (foldl (stamp_next (metadata seg) (aggregate_chain_tips seg) positions) st queue) key =
  foldl (fun tips item => note_chain_tip tips (qi_metablock item) (qi_metablock_absolute_pos item)) T
    (stamped_all (metadata seg) (aggregate_chain_tips seg) positions st queue) !! key.
Proof.
  revert st T. induction queue as [|x queue IH]; intros st T HT key; [done|].
  cbn [foldl stamped_all]. apply IH. intros k. rewrite latest_next. unfold note_chain_tip.
  change (chain_aggregate_key (qi_metablock (stamped _ _ _ st x))) with (chain_aggregate_key (qi_metablock x)).
  destruct (chain_aggregate_key (qi_metablock x)) as [kx|]; [|rewrite decide_False; [apply HT|done]].
  destruct (decide (Some kx = Some k)) as [E|Hne].
  - injection E as ->. by rewrite lookup_insert_eq.
  - rewrite lookup_insert_ne by congruence. apply HT.
Qed.

Lemma chain_tips_batch items : chain_tips (log ++ (entry_of <$> items)) =
  foldl (fun tips item => note_chain_tip tips (qi_metablock item) (qi_metablock_absolute_pos item))
    (aggregate_chain_tips seg) items.
Proof.
  unfold chain_tips. rewrite foldl_app. fold (chain_tips log). rewrite <- (sh_tips _ _ _ Hlog).
  generalize (aggregate_chain_tips seg). induction items as [|x items IH]; intros tips; [done|]. cbn. apply IH.
Qed.

Lemma appended_backlinks i e key : log' !! i = Some e -> chain_aggregate_key (le_metablock e) = Some key ->
  previous_aggregate_metablock_pos (le_metablock e) = default 0 (chain_tips (take i log') !! key).
Proof.
  intros Hi Hk. destruct (log_lookup _ _ Hi) as [[Ho Hlt]|(j & item' & -> & Hj & ->)].
  - unfold log'. rewrite take_app_le by lia. by apply (sh_backlinks _ _ _ Hlog).
  - unfold log'. rewrite take_app_add, <- fmap_take, chain_tips_batch.
    destruct (queue_lookup _ _ Hj) as (item & Hq & -> & _). unfold queue', stamped_queue.
    rewrite take_stamped_all, <- latest_fold.
    + cbn [entry_of le_metablock stamped qi_metablock stamp_metablock previous_aggregate_metablock_pos].
      unfold backlink. change (chain_aggregate_key _) with (chain_aggregate_key (qi_metablock item)) in Hk.
      rewrite Hk. done.
    + intros key0. unfold latest. cbn. by rewrite lookup_empty.
Qed.

Lemma appended_holds : segment_holds seg' tip0 log'.
Proof.
  destruct appended_cursor as (Hmp & Hdp & Hws & Hlen). split.
  - apply new_segment_ok.
  - rewrite Hmp, (sh_end _ _ _ Hlog), length_log'. unfold content_size, buffer_size_metablocks. lia.
  - apply appended_entries.
  - apply appended_data.
  - apply appended_descending.
  - destruct new_cursor as (Hc & _). unfold wcur. cbn [seg' install_batch metadata]. rewrite Hc.
    cbn [tip_hash]. unfold log'. rewrite fmap_app, <- list_fmap_compose.
    apply (chain_ok_app _ _ (tip_hash (wcur seg))); [apply Hlog|]. apply (stamped_chain _ _ _ initial_stamping_ok).
  - unfold log'. by rewrite chain_tips_batch.
  - apply appended_backlinks.
Qed.
End append.

(** An item as queued and as written: only the stamped fields differ. *)
Definition stamped_from (item item' : ShardLogQueueItem) : Prop :=
  (exists d p w t, qi_metablock item' = stamp_metablock (qi_metablock item) d p w t) /\
  datablock_bytes item' = datablock_bytes item /\ qi_datablock item' = qi_datablock item.

Lemma stamped_all_from `{Bincode, Crc32c, Blake3} md tips positions st queue :
  Forall2 stamped_from queue (stamped_all md tips positions st queue).
Proof.
  revert st. induction queue as [|x queue IH]; intros st; constructor; [|apply IH].
  split; [|done]. by eexists _, _, _, _.
Qed.

(** ** What a completed sync returns *)

(** Queue positions whose place in the log was filled in. *)
Definition recorded (q q' : QueueAggregatePositions) : Prop :=
  q' = q \/ exists log_id position wal_seq, q' = record_position log_id position wal_seq q.

Lemma recorded_trans o1 o2 o3 : option_Forall2 recorded o1 o2 -> option_Forall2 recorded o2 o3 -> option_Forall2 recorded o1 o3.
Proof.
  intros [q1 q2 H12|] Hb; inversion Hb as [? q3 H23|]; subst; constructor.
  destruct H12 as [->|(? & ? & ? & ->)], H23 as [->|(? & ? & ? & ->)]; unfold recorded; eauto.
Qed.

Section returned.
Context `{Bincode, Crc32c, Blake3, Xxh3} (recycled : nat -> bytes).

Lemma positions_after_recorded md st m w key :
  option_Forall2 recorded (st_positions st !! key) (positions_after md st m w !! key).
Proof.
  assert (Hrefl : forall o, option_Forall2 recorded o o) by (intros [q|]; constructor; by left).
  unfold positions_after. destruct (positions_key m) as [k|]; [|done]. destruct (decide (k = key)) as [->|Hne].
  - rewrite lookup_alter_eq. destruct (st_positions st !! key); constructor. unfold recorded. eauto.
  - by rewrite lookup_alter_ne.
Qed.

Lemma stamp_item_returns md tips positions st item st' item' block :
  stamp_item recycled md tips positions st item = Done (st', item', block) ->
  stamped_from item item' /\ wal_seq (qi_metablock item') = saturating_add 64 (st_wal_seq st) 1 /\
  st_wal_seq st' = saturating_add 64 (st_wal_seq st) 1 /\
  forall key, option_Forall2 recorded (st_positions st !! key) (st_positions st' !! key).
Proof.
  unfold stamp_item. cbv zeta. destruct (match datablock_bytes item with Some _ => _ | None => _ end) as [[dp ix]| |]; [|done..].
  cbn [mbind outcome_bind]. destruct (or_panic _) as [r| |]; [|done..]. cbn [mbind outcome_bind].
  destruct (from_result _ r) as [b| |]; [|done..]. cbn [mbind outcome_bind].
  destruct (or_panic _) as [t| |]; [|done..]. cbn [mbind outcome_bind]. intros Hd. apply Done_inj in Hd.
  pose proof (f_equal (fun p => p.1.1) Hd) as E1. pose proof (f_equal (fun p => p.1.2) Hd) as E2. cbn in E1, E2. subst st' item'.
  split; [split; [by eexists _, _, _, _|done]|]. split_and!; [done..|]. intros key. apply positions_after_recorded.
Qed.

Lemma stamp_items_returns md tips positions queue st st' items blocks :
  stamp_items recycled md tips positions st queue = Done (st', items, blocks) ->
  Forall2 stamped_from queue items /\
  (forall key, option_Forall2 recorded (st_positions st !! key) (st_positions st' !! key)) /\
  (0 <= st_wal_seq st -> st_wal_seq st + Z.of_nat (length queue) < 2 ^ 64 ->
     st_wal_seq st' = st_wal_seq st + Z.of_nat (length queue) /\
     forall i item, items !! i = Some item -> wal_seq (qi_metablock item) = st_wal_seq st + 1 + Z.of_nat i).
Proof.
  revert st items blocks. induction queue as [|item queue IH]; intros st items blocks; cbn [stamp_items].
  { intros Hd. apply Done_inj in Hd. injection Hd as <- <- _. split; [constructor|]. split; [|cbn; split; [lia|done]].
    intros key. destruct (st_positions st !! key); constructor. by left. }
  destruct (stamp_item _ _ _ _ _ _) as [[[st1 item'] block]| |] eqn:E1; [|done..]. cbn [mbind outcome_bind].
  destruct (stamp_items _ _ _ _ _ _) as [[[st2 items'] blocks']| |] eqn:E2; [|done..]. cbn [mbind outcome_bind].
  intros Hd. apply Done_inj in Hd. injection Hd as <- <- _.
  destruct (stamp_item_returns _ _ _ _ _ _ _ _ E1) as (Hs & Hw & Hw' & Hr), (IH _ _ _ E2) as (Hss & Hrs & Hseq).
  split; [by constructor|]. split; [intros key; by eapply recorded_trans|]. cbn [length]. intros H0' Hb.
  assert (Hsat : saturating_add 64 (st_wal_seq st) 1 = st_wal_seq st + 1) by (unfold saturating_add; lia).
  rewrite Hsat in *. destruct Hseq as [E Hi]; [lia..|]. split; [lia|].
  intros [|i] x Hx; cbn in Hx; [injection Hx as <-; lia|]. rewrite (Hi i x Hx). lia.
Qed.

(** An answer [Ok] of [sync] means that the plan was made and carried out. *)
Lemma sync_completed dma_alignment header_buffer seg s commit_target io snapshot md file :
  sync recycled dma_alignment header_buffer seg s commit_target io = Done (snapshot, md, file) ->
  exists plan, sync_plan recycled dma_alignment seg s commit_target = Done plan /\ io_complete plan io /\
    snapshot = plan_snapshot plan /\ md = plan_metadata plan.
Proof.
  unfold sync, check_write, verify_full_write. intros Hs.
  destruct (io_lock io) eqn:El; [|done]. destruct (io_writer io) eqn:Ew; [|done]. cbn [mbind outcome_bind] in Hs.
  destruct (sync_plan _ _ _ _ _) as [plan|e|]; [|done..]. exists plan. split; [done|]. cbn [mbind outcome_bind] in Hs.
  assert (Hd : forall w, plan_datablocks plan = Some w -> io_datablocks io = Some (length w.2)).
  { intros w Ew'. rewrite Ew' in Hs. destruct (io_datablocks io) as [got|]; [|done].
    destruct (Nat.eqb_spec got (length w.2)); [by subst|done]. }
  destruct (match plan_datablocks plan with Some _ => _ | None => _ end) in Hs; try done. cbn [mbind outcome_bind] in Hs.
  destruct (io_metablocks io) as [got|] eqn:Em; [|done].
  destruct (Nat.eqb_spec got (length (plan_metablocks plan).2)) as [->|]; [|done]. cbn [mbind outcome_bind] in Hs.
  destruct (foldM _ _ _); [|done]. cbn [or_panic mbind outcome_bind] in Hs.
  destruct (write_dual_shard_log_header _ _ _ _); [|done..]. cbn [mbind outcome_bind] in Hs.
  destruct (io_header io) eqn:Eh; [|done]. destruct (io_fdatasync io) eqn:Ef; [|done]. apply Done_inj in Hs.
  pose proof (f_equal (fun p => p.1.1) Hs) as E1. pose proof (f_equal (fun p => p.1.2) Hs) as E2. by repeat split.
Qed.

(** [sync] stamps the batch and records positions, nothing else. *)
Lemma sync_returns dma_alignment header_buffer seg s commit_target io snapshot md file :
  sync recycled dma_alignment header_buffer seg s commit_target io = Done (snapshot, md, file) ->
  Forall2 stamped_from (sps_queue s) (sps_queue snapshot) /\
  (forall key, option_Forall2 recorded (sps_positions s !! key) (sps_positions snapshot !! key)) /\
  (0 <= hc_wal_seq (wcur seg) -> hc_wal_seq (wcur seg) + Z.of_nat (length (sps_queue s)) < 2 ^ 64 ->
     hc_wal_seq (pos (md_write md)) = hc_wal_seq (wcur seg) + Z.of_nat (length (sps_queue s)) /\
     forall i item, sps_queue snapshot !! i = Some item -> wal_seq (qi_metablock item) = hc_wal_seq (wcur seg) + 1 + Z.of_nat i).
Proof.
  intros Hs. apply sync_completed in Hs as (plan & Hp & _ & -> & ->). revert Hp.
  unfold sync_plan. cbv zeta. destruct (layout_datablocks _ _ _ _ _) as [L| |]; [|done..]. cbn [mbind outcome_bind].
  destruct (stamp_items _ _ _ _ _ _) as [[[st2 items'] blocks']| |] eqn:E2; [|done..]. cbn [mbind outcome_bind].
  intros Hd. apply Done_inj in Hd. subst plan. cbn [plan_snapshot plan_metadata sps_queue sps_positions].
  apply stamp_items_returns in E2 as (Hs & Hr & Hw). split; [done|]. split; [done|]. cbn [st_wal_seq] in Hw. fold (wcur seg) in Hw.
  intros H0' Hb. destruct (Hw H0' Hb) as [E Hi]. split; [|done]. rewrite <- E. by destruct commit_target.
Qed.
End returned.

(** A file in which some of the bytes of a write have landed. *)
Definition torn (before after now : bytes) : Prop :=
  length now = length before /\ forall i : nat, now !! i = before !! i \/ now !! i = after !! i.

Definition with_contents (seg : LogSegmentFile) (file : bytes) : LogSegmentFile :=
  {| metadata := metadata seg; aggregate_chain_tips := aggregate_chain_tips seg;
     aggregate_key_bloom := aggregate_key_bloom seg; client_id_bloom := client_id_bloom seg; contents := file |}.

(** The log lives in the bytes before the metablock cursor and after the
    datablock cursor. *)
Lemma segment_holds_ext `{Bincode, Crc32c, Blake3, Xxh3} seg tip0 log file :
  segment_holds seg tip0 log -> length file = length (contents seg) ->
  (forall i, (i < Z.to_nat (mp seg))%nat \/ (Z.to_nat (dp seg) <= i)%nat -> file !! i = contents seg !! i) ->
  segment_holds (with_contents seg file) tip0 log.
Proof.
  intros Hlog Hlen Hext. pose proof (sh_ok _ _ _ Hlog) as Hseg. pose proof (dp_bounds seg Hseg).
  pose proof (sh_end _ _ _ Hlog) as Hend.
  assert (Hd : forall off n, (Z.to_nat (dp seg) <= off)%nat -> slice file off n = slice (contents seg) off n)
    by (intros off n Ho; apply slice_ext; intros i Hi; apply Hext; lia).
  destruct Hlog as [_ _ Hentry Hdata Hdesc Hchain Htips Hback]. split; try done.
  - destruct Hseg as [Hl Ha Hs Hp Hmd Hc Ht Hb]. split; try done.
    + cbn [with_contents contents metadata]. by rewrite Hlen.
    + cbn [with_contents contents metadata]. intros Hlt. rewrite (Hc Hlt). f_equal. symmetry. by apply Hd.
  - intros i e Hi. destruct (Hentry i e Hi) as (Hp & Hw & Hwf & Hde & Hb). split_and!; [done..| |done].
    rewrite <- Hde. cbn [with_contents contents]. apply slice_ext. intros j Hj. apply Hext. left.
    pose proof (lookup_lt_Some _ _ _ Hi). pose proof (Nat.mul_le_mono_r (S i) (length log) FIXED_BLOCK_SIZE_BYTES). lia.
  - intros i e b Hi Hb. destruct (Hdata i e b Hi Hb) as (H1' & H2' & H3'). split_and!; [done..|].
    rewrite <- H3' at 2. apply Hd. unfold dp, wcur in *. cbn [with_contents metadata] in *. lia.
Qed.

Section properties.
Context `{Bincode, Crc32c, Blake3, Xxh3}.

Lemma sync_refines_append (recycled : nat -> bytes) (dma_alignment : Z) (header_buffer : bytes)
    (seg : LogSegmentFile) (s : SyncPositionsSnapshot) (commit_target : CommitTarget) (tip0 : bytes) (log : list LogEntry) :
  (forall i, length (recycled i) = FIXED_BLOCK_SIZE_BYTES) -> length header_buffer = HEADER_BLOCK_SIZE_BYTES ->
  dma_alignment <= MIN_WRITE_ALIGNMENT ->
  segment_holds seg tip0 log -> batch_ok seg (sps_queue s) ->
  exists plan, sync_plan recycled dma_alignment seg s commit_target = Done plan /\
  forall io, io_complete plan io -> exists snapshot md file,
    sync recycled dma_alignment header_buffer seg s commit_target io = Done (snapshot, md, file) /\
    segment_holds (install_batch file md (sps_queue snapshot)) tip0 (log ++ (entry_of <$> sps_queue snapshot)) /\
    Forall2 stamped_from (sps_queue s) (sps_queue snapshot) /\
    deserialise_shard_log_header (slice (contents file) 0 HEADER_BLOCK_SIZE_BYTES) = Ok (to_shard_log_header md) /\
    deserialise_shard_log_header (slice (contents file) (length (contents file) - HEADER_BLOCK_SIZE_BYTES)
      HEADER_BLOCK_SIZE_BYTES) = Ok (to_shard_log_header md).
Proof.
  intros Hr Hh Hdma Hlog Hbatch. pose proof (sh_ok _ _ _ Hlog) as Hseg.
  destruct (sync_done recycled Hr seg s dma_alignment header_buffer commit_target Hbatch Hdma Hh Hseg)
    as (L & plan & blooms & Y & HL & Hplan & Hsnap & Hmd & Hbl & Hcov & Hmono & HY & Hsync).
  exists plan. split; [done|]. intros io Hio. eexists _, _, _. split; [by apply Hsync|].
  rewrite Hsnap, Hmd. cbn [sps_queue].
  destruct (appended_sizes seg s header_buffer commit_target Hbatch Hh L Hseg HL Y HY) as (Hhd & Hm & Hd & Hfit & _).
  pose proof (deserialise_header_block _ (md_header_wf _ (new_metadata_ok seg s Hseg Hbatch commit_target L HL))) as Hde.
  destruct (shape_headers HEADER_BLOCK_SIZE_BYTES (contents seg) (header_block (to_shard_log_header (new_metadata seg s commit_target L)))
    (metablock_area seg s L) Y (data_area (sps_queue s)) (Z.to_nat (mp seg)) (Z.to_nat (dp seg))
    (length (contents seg)) eq_refl Hhd Hm Hd Hfit) as [H1' H2'].
  split_and!.
  - by apply (appended_holds seg s header_buffer).
  - apply stamped_all_from.
  - cbn [contents]. cbv zeta. by rewrite H1'.
  - cbn [contents]. cbv zeta.
    rewrite (length_shape HEADER_BLOCK_SIZE_BYTES (contents seg) _ (metablock_area seg s L) Y (data_area (sps_queue s)) (Z.to_nat (mp seg))
      (Z.to_nat (dp seg)) (length (contents seg))) by done. by rewrite H2'.
Qed.

(** C3: appending a batch to the active segment refines appending to a list.
    For a segment that holds a log and a batch that passes the space guard,
    [sync] lays the batch out without an error or a panic, and when the
    storage completes the writes the segment holds the old log followed by the
    batch: every old and new block is at its position, every separate
    datablock is where its entry says, sequence numbers and hash chain continue
    across the batch, backlinks and tips lead to the latest block of the
    aggregate, both headers decode to the new cursors, and nothing of the
    batch but the stamped fields differs from what was queued. *)
Theorem sync_appends_batch (recycled : nat -> bytes) (dma_alignment : Z) (header_buffer : bytes)
    (seg : LogSegmentFile) (s : SyncPositionsSnapshot) (commit_target : CommitTarget) (tip0 : bytes) (log : list LogEntry) :
  (forall i, length (recycled i) = FIXED_BLOCK_SIZE_BYTES) -> length header_buffer = HEADER_BLOCK_SIZE_BYTES ->
  dma_alignment <= MIN_WRITE_ALIGNMENT ->
  segment_holds seg tip0 log -> batch_ok seg (sps_queue s) ->
  exists plan, sync_plan recycled dma_alignment seg s commit_target = Done plan /\
  forall io, io_complete plan io -> exists snapshot md file,
    sync recycled dma_alignment header_buffer seg s commit_target io = Done (snapshot, md, file) /\
    segment_holds (install_batch file md (sps_queue snapshot)) tip0 (log ++ (entry_of <$> sps_queue snapshot)) /\
    Forall2 stamped_from (sps_queue s) (sps_queue snapshot) /\
    deserialise_shard_log_header (slice (contents file) 0 HEADER_BLOCK_SIZE_BYTES) = Ok (to_shard_log_header md) /\
    deserialise_shard_log_header (slice (contents file) (length (contents file) - HEADER_BLOCK_SIZE_BYTES)
      HEADER_BLOCK_SIZE_BYTES) = Ok (to_shard_log_header md).
Proof. apply sync_refines_append. Qed.

(** C13: a crash while a batch is being written loses nothing that was
    committed.  Whatever bytes of the datablock and metablock writes have
    landed, in whatever order, the segment still holds its log, and both
    headers are as they were, so that it reopens at the old cursors. *)
Theorem sync_crash_safe (recycled : nat -> bytes) (dma_alignment : Z) (seg : LogSegmentFile)
    (s : SyncPositionsSnapshot) (commit_target : CommitTarget) (tip0 : bytes) (log : list LogEntry) (now : bytes) plan :
  (forall i, length (recycled i) = FIXED_BLOCK_SIZE_BYTES) -> dma_alignment <= MIN_WRITE_ALIGNMENT ->
  segment_holds seg tip0 log -> batch_ok seg (sps_queue s) ->
  sync_plan recycled dma_alignment seg s commit_target = Done plan ->
  torn (contents seg) (file_write (write_opt (contents seg) (plan_datablocks plan))
                         (plan_metablocks plan).1 (plan_metablocks plan).2) now ->
  segment_holds (with_contents seg now) tip0 log /\
  slice now 0 HEADER_BLOCK_SIZE_BYTES = slice (contents seg) 0 HEADER_BLOCK_SIZE_BYTES /\
  slice now (length now - HEADER_BLOCK_SIZE_BYTES) HEADER_BLOCK_SIZE_BYTES =
    slice (contents seg) (length (contents seg) - HEADER_BLOCK_SIZE_BYTES) HEADER_BLOCK_SIZE_BYTES.
Proof.
  intros Hr Hdma Hlog Hbatch Hplan [Hlen Htorn]. pose proof (sh_ok _ _ _ Hlog) as Hseg. pose proof (dp_bounds seg Hseg).
  destruct (sync_plan_done recycled Hr seg s dma_alignment Hseg Hbatch Hdma commit_target) as (L & HL & E).
  rewrite E in Hplan. injection Hplan as <-. cbn [plan_datablocks plan_metablocks fst snd] in Htorn.
  destruct (written_file seg s Hseg Hbatch L HL) as (Y & HF & HY). rewrite HF in Htorn.
  pose proof (length_concat_blocks seg s Hseg Hbatch L HL). pose proof (length_data_area (sps_queue s)).
  pose proof (lo_position _ _ _ _ HL).
  assert (Hsame : forall i, (i < Z.to_nat (mp seg))%nat \/ (Z.to_nat (dp seg) <= i)%nat -> now !! i = contents seg !! i).
  { intros i Hi. destruct (Htorn i) as [->| ->]; [done|]. destruct Hi as [Hi|Hi].
    - rewrite lookup_app_l by (rewrite length_take; lia). by rewrite lookup_take_lt by lia.
    - rewrite !app_assoc, lookup_app_r by (rewrite !length_app, length_take; lia).
      rewrite lookup_drop. f_equal. rewrite !length_app, length_take. lia. }
  split_and!; [by apply segment_holds_ext|..]; rewrite ?Hlen; apply slice_ext; intros i Hi; apply Hsame; lia.
Qed.

(** Every batch the leader writes is one a follower accepts: the metablocks
    [sync] produced pass the follower's [validate_intra_batch_chain], the first
    of them carries the tip the log had before, and folding the follower's
    [advance_tip] over them gives the tip the leader recorded. *)
Theorem sync_batch_chain_validates (recycled : nat -> bytes) (dma_alignment : Z) (seg : LogSegmentFile)
    (s : SyncPositionsSnapshot) (commit_target : CommitTarget) :
  (forall i, length (recycled i) = FIXED_BLOCK_SIZE_BYTES) -> dma_alignment <= MIN_WRITE_ALIGNMENT ->
  segment_ok seg -> batch_ok seg (sps_queue s) ->
  exists plan, sync_plan recycled dma_alignment seg s commit_target = Done plan /\
    let ms := qi_metablock <$> sps_queue (plan_snapshot plan) in
    validate_intra_batch_chain ms = Some (Ok tt) /\
    previous_tip_hash <$> head ms = Some (tip_hash (wcur seg)) /\
    foldl (fun t m => t ≫= fun t => advance_tip t m) (Some (tip_hash (wcur seg))) ms =
      Some (tip_hash (pos (md_write (plan_metadata plan)))).
Proof.
  intros Hr Hdma Hseg Hbatch.
  destruct (sync_plan_done recycled Hr seg s dma_alignment Hseg Hbatch Hdma commit_target) as (L & HL & E).
  eexists. split; [exact E|]. cbv zeta. cbn [plan_snapshot sps_queue plan_metadata].
  pose proof (initial_ok seg s Hseg Hbatch L HL) as Hok.
  pose proof (stamped_chain seg _ _ _ Hok) as Hc. fold (stamped_queue seg s L) (final_stamping seg s L) in Hc.
  split_and!.
  - unfold validate_intra_batch_chain.
    destruct (validate_windows_spec (qi_metablock <$> stamped_queue seg s L) 0) as [[-> _]|(b & j & _ & _ & Hn & _)].
    + apply Forall_fmap. apply (stamped_all_wf _ _ _ _ _ Hok).
    + done.
    + destruct Hn. by eapply chain_ok_linked.
  - destruct (sps_queue s) as [|x q] eqn:Eq; [by destruct (bo_nonempty _ _ Hbatch)|].
    unfold stamped_queue. by rewrite Eq.
  - replace (tip_hash (pos (md_write (new_metadata seg s commit_target L)))) with (st_tip_hash (final_stamping seg s L))
      by (unfold new_metadata; by destruct commit_target).
    by apply chain_ok_fold.
Qed.
End properties.

(** ** A first batch *)

Module SyncRun.
#[local] Existing Instance xxh_low.

Definition segment : LogSegmentFile :=
  {| metadata := sample_metadata; aggregate_chain_tips := ∅; aggregate_key_bloom := bloom_absent;
     client_id_bloom := bloom_absent; contents := zeros (Z.to_nat (5 * 4096)) |}.

Definition item : ShardLogQueueItem :=
  ShardLogQueueItem_new (Some (EventBatchItem {| aggregate_version := 1; events := [] |})) (Some [1; 2; 3])
    sample_metablock.

Definition batch : SyncPositionsSnapshot :=
  {| sps_queue := [item; item]; sps_positions := ∅; sps_schemas := ∅ |}.

Lemma segment_empty : @segment_holds bincode_le crc_sum blake_pad xxh_low segment GENESIS_HASH [].
Proof.
  split; [|done|by intros [|i] e|by intros [|i] e b|by intros [|i] j e|done|done|by intros [|i] e key].
  split; [|by exists 5|done|by vm_compute|apply sample_metadata_ok|done|done|by split; left].
  cbn [contents segment]. unfold zeros. rewrite length_replicate, Z2Nat.id by lia. reflexivity.
Qed.

Lemma item_is_ok : item_ok item.
Proof. split; [apply sample_metablock_wf|]. intros b [= <-]. split; [done|by eexists]. Qed.

Lemma batch_fits : batch_ok segment (sps_queue batch).
Proof.
  split; [done| |by vm_compute|done]. constructor; [apply item_is_ok|]. constructor; [apply item_is_ok|constructor].
Qed.

Definition io_of (plan : SyncPlan) : SyncIo :=
  {| io_lock := true; io_writer := true;
     io_datablocks := Some (length (match plan_datablocks plan with Some w => w.2 | None => [] end));
     io_metablocks := Some (length (plan_metablocks plan).2); io_header := true; io_fdatasync := true |}.

Lemma io_of_complete plan : io_complete plan (io_of plan).
Proof. split_and!; try done. by intros w E; cbn; rewrite E. Qed.

(** Both writes landed, the header is still the old one. *)
Definition landed (plan : SyncPlan) : bytes :=
  file_write (write_opt (contents segment) (plan_datablocks plan)) (plan_metablocks plan).1 (plan_metablocks plan).2.

Lemma landed_torn : exists plan,
  @sync_plan bincode_le crc_sum blake_pad (fun _ => zeros 1024) 512 segment batch FullCommit = Done plan /\
  torn (contents segment) (landed plan) (landed plan).
Proof.
  pose proof (@sh_ok bincode_le crc_sum blake_pad xxh_low _ _ _ segment_empty) as Hseg.
  destruct (@sync_plan_done bincode_le crc_sum blake_pad (fun _ => zeros 1024) (fun _ => eq_refl) segment batch 512 Hseg
    batch_fits ltac:(done) FullCommit) as (L & HL & E).
  eexists. split; [exact E|]. split; [|by right].
  exact (@length_written bincode_le crc_sum blake_pad segment batch Hseg batch_fits L HL).
Qed.
End SyncRun.

Lemma sync_appends_batch_witness : exists plan snapshot md file,
  @sync bincode_le crc_sum blake_pad xxh_low (fun _ => zeros 1024) 512 (zeros 4096) SyncRun.segment SyncRun.batch
    FullCommit (SyncRun.io_of plan) = Done (snapshot, md, file) /\
  @segment_holds bincode_le crc_sum blake_pad xxh_low (install_batch file md (sps_queue snapshot)) GENESIS_HASH
    (entry_of <$> sps_queue snapshot) /\ length (sps_queue snapshot) = 2%nat.
Proof.
  destruct (@sync_appends_batch bincode_le crc_sum blake_pad xxh_low (fun _ => zeros 1024) 512 (zeros 4096)
    SyncRun.segment SyncRun.batch FullCommit GENESIS_HASH [] (fun _ => eq_refl) eq_refl ltac:(done)
    SyncRun.segment_empty SyncRun.batch_fits) as (plan & _ & Hio).
  destruct (Hio (SyncRun.io_of plan) (SyncRun.io_of_complete plan)) as (snapshot & md & file & E & Hh & Hf & _).
  exists plan, snapshot, md, file. split_and!; [exact E|exact Hh|]. by rewrite <- (Forall2_length _ _ _ Hf).
Defined.

Lemma sync_crash_safe_witness : exists plan,
  @sync_plan bincode_le crc_sum blake_pad (fun _ => zeros 1024) 512 SyncRun.segment SyncRun.batch FullCommit = Done plan /\
  @segment_holds bincode_le crc_sum blake_pad xxh_low (with_contents SyncRun.segment (SyncRun.landed plan)) GENESIS_HASH [].
Proof.
  destruct SyncRun.landed_torn as (plan & E & Ht). exists plan. split; [exact E|].
  apply (@sync_crash_safe bincode_le crc_sum blake_pad xxh_low (fun _ => zeros 1024) 512 SyncRun.segment SyncRun.batch
    FullCommit GENESIS_HASH [] (SyncRun.landed plan) plan (fun _ => eq_refl) ltac:(done) SyncRun.segment_empty
    SyncRun.batch_fits E Ht).
Defined.

Lemma sync_batch_chain_validates_witness : exists plan,
  @sync_plan bincode_le crc_sum blake_pad (fun _ => zeros 1024) 512 SyncRun.segment SyncRun.batch FullCommit = Done plan /\
  @validate_intra_batch_chain bincode_le crc_sum blake_pad (qi_metablock <$> sps_queue (plan_snapshot plan)) = Some (Ok tt).
Proof.
  destruct (@sync_batch_chain_validates bincode_le crc_sum blake_pad (fun _ => zeros 1024) 512 SyncRun.segment
    SyncRun.batch FullCommit (fun _ => eq_refl) ltac:(done)
    (@sh_ok bincode_le crc_sum blake_pad xxh_low _ _ _ SyncRun.segment_empty) SyncRun.batch_fits) as (plan & E & Hv & _).
  exists plan. split; [exact E|exact Hv].
Defined.
