(* ===== verification/ReadFilter.v ===== *)
(** * Read filters

    How a read selects batches without decoding them and then selects events
    inside the batches it decoded: the filters
    ([celeriant_msg/src/request/read_filters.rs]), the event types recorded in
    the metablock at write time ([celeriant_shard/src/bloom/]) and the two
    filtering passes ([celeriant_shard/src/in_memory_filtering.rs]). *)

From S2P Require Import Prelude WalConstants WalTypes Sbbf.

(** ** read_filters.rs *)

Record ReadFilters := {
  from_aggregate_version : Z;
  to_aggregate_version : option Z;
  include_event_types : option (list Z);
  exclude_client_id : option Z;
  include_client_id : option Z;
  exclude_user_id : option Z;
  include_user_id : option Z;
  min_server_timestamp : option Z;
  max_server_timestamp : option Z;
  rf_min_client_seq : option Z;
  rf_max_client_seq : option Z;
  rf_min_event_timestamp : option Z;
  rf_max_event_timestamp : option Z;
  rf_min_event_seq : option Z;
  rf_max_event_seq : option Z;
}.

Definition ReadFilters_new (from : Z) : ReadFilters :=
  {| from_aggregate_version := if from =? 0 then 1 else from; to_aggregate_version := None;
     include_event_types := None; exclude_client_id := None; include_client_id := None;
     exclude_user_id := None; include_user_id := None; min_server_timestamp := None;
     max_server_timestamp := None; rf_min_client_seq := None; rf_max_client_seq := None;
     rf_min_event_timestamp := None; rf_max_event_timestamp := None; rf_min_event_seq := None;
     rf_max_event_seq := None |}.

(** [Option::map_or]. *)
Definition map_or {A B} (d : B) (f : A -> B) (o : option A) : B := match o with Some a => f a | None => d end.

Definition contains_type (types : list Z) (t : Z) : bool := existsb (Z.eqb t) types.

(** ** event_type_filter.rs *)

Record EventTypeExtraction := {
  ext_event_types : list Z;
  needs_bloom : bool;
}.

(** The array of four with [unique_count] of them in use. *)
Fixpoint extract_loop (events : list DatablockAggregateEvent) (event_types : list Z) (unique_count : nat)
    : EventTypeExtraction :=
  match events with
  | [] => {| ext_event_types := event_types; needs_bloom := false |}
  | e :: events =>
      if contains_type (take unique_count event_types) (event_type_major e)
      then extract_loop events event_types unique_count
      else if decide (unique_count < 4)%nat
      then extract_loop events (<[unique_count := event_type_major e]> event_types) (S unique_count)
      else {| ext_event_types := event_types; needs_bloom := true |}
  end.

Definition extract_unique_event_types (events : list DatablockAggregateEvent) : EventTypeExtraction :=
  extract_loop events (replicate 4 U64_MAX) 0.

(** ** bloom_filter_cache.rs *)

Section event_types.
Context `{Xxh3}.

Definition event_type_hash (event_type : Z) : Z := xxh3_64 (le_bytes 8 event_type).

(** The set iterates in an arbitrary order; [insert_all] does not depend on it. *)
Definition create_bloom_bytes (events : list DatablockAggregateEvent) : option (list Z) :=
  let dedup_set := list_to_set (event_type_major <$> events) : gset Z in
  Sbbf.insert_all (replicate (BLOOM_BYTES / 8) 0) (event_type_hash <$> elements dedup_set).

(** The choice made by [validate_and_prepare_write]. *)
Definition event_types_of (events : list DatablockAggregateEvent) : option EventTypesKind :=
  let extraction := extract_unique_event_types events in
  if needs_bloom extraction then EventTypesBloom <$> create_bloom_bytes events
  else Some (EventTypesDirect (ext_event_types extraction)).

(** ** in_memory_filtering.rs *)

(** [Iterator::any] over a check that may panic. *)
Fixpoint any_option {A} (f : A -> option bool) (l : list A) : option bool :=
  match l with
  | [] => Some false
  | x :: l => b ← f x; if b : bool then Some true else any_option f l
  end.

Definition check_event_types_match (event_types_data : EventTypesKind) (include : list Z) : option bool :=
  match event_types_data with
  | EventTypesDirect event_types =>
      Some (if decide (length event_types < length include)%nat
            then existsb (contains_type include) event_types
            else existsb (contains_type event_types) include)
  | EventTypesBloom bloom => any_option (fun t => Sbbf.contains bloom (event_type_hash t)) include
  end.

(** The conditions under which [is_include_batch] returns early, in order;
    the check of the event types is last. *)
Definition batch_rejected (m : Metablock) (meta : MetablockEventBatch) (f : ReadFilters) : bool :=
  (eb_aggregate_version meta <? from_aggregate_version f) ||
  map_or false (fun to => to <? eb_aggregate_version meta) (to_aggregate_version f) ||
  map_or false (fun t => server_timestamp m <? t) (min_server_timestamp f) ||
  map_or false (fun t => t <? server_timestamp m) (max_server_timestamp f) ||
  map_or false (fun c => eb_client_id meta =? c) (exclude_client_id f) ||
  map_or false (fun c => negb (eb_client_id meta =? c)) (include_client_id f) ||
  map_or false (fun u => bool_decide (eb_user_id meta = Some u)) (exclude_user_id f) ||
  map_or false (fun u => negb (bool_decide (eb_user_id meta = Some u))) (include_user_id f).

Definition ranges_rejected (meta : MetablockEventBatch) (f : ReadFilters) : bool :=
  map_or false (fun v => max_client_seq meta <? v) (rf_min_client_seq f) ||
  map_or false (fun v => v <? min_client_seq meta) (rf_max_client_seq f) ||
  map_or false (fun v => max_event_timestamp meta <? v) (rf_min_event_timestamp f) ||
  map_or false (fun v => v <? min_event_timestamp meta) (rf_max_event_timestamp f) ||
  map_or false (fun v => max_event_seq meta <? v) (rf_min_event_seq f) ||
  map_or false (fun v => v <? min_event_seq meta) (rf_max_event_seq f).

Definition is_include_batch (m : Metablock) (f : ReadFilters) : option bool :=
  match wal_metablock_type m with
  | EventBatchMetadata meta =>
      if batch_rejected m meta f then Some false
      else if ranges_rejected meta f then Some false
      else match include_event_types f with
           | Some (t :: ts) => check_event_types_match (event_types_data meta) (t :: ts)
           | _ => Some true
           end
  | _ => Some false
  end.

Definition retain_if {A B} (o : option A) (p : A -> B -> bool) (l : list B) : list B :=
  match o with Some a => filter (fun b => p a b = true) l | None => l end.

Definition apply_event_filters (b : DatablockAggregateEventBatch) (f : ReadFilters) : DatablockAggregateEventBatch :=
  let es := events b in
  let es := match include_event_types f with
            | Some (t :: ts) => filter (fun e => contains_type (t :: ts) (event_type_major e) = true) es
            | _ => es
            end in
  let es := retain_if (rf_min_event_seq f) (fun v e => v <=? event_seq e) es in
  let es := retain_if (rf_max_event_seq f) (fun v e => event_seq e <=? v) es in
  let es := retain_if (rf_min_event_timestamp f) (fun v e => v <=? event_timestamp e) es in
  let es := retain_if (rf_max_event_timestamp f) (fun v e => event_timestamp e <=? v) es in
  let es := retain_if (rf_min_client_seq f) (fun v e => v <=? client_seq e) es in
  let es := retain_if (rf_max_client_seq f) (fun v e => client_seq e <=? v) es in
  {| aggregate_version := aggregate_version b; events := es |}.

Fixpoint cut_index (max_bytes cumulative_size : Z) (index : nat) (ms : list Metablock) : option nat :=
  match ms with
  | [] => None
  | m :: ms =>
      let cumulative_size := wrapping_add 64 cumulative_size (uncompressed_size m) in
      if max_bytes <? cumulative_size then Some index else cut_index max_bytes cumulative_size (S index) ms
  end.

Fixpoint retain_included (f : ReadFilters) (ms : list Metablock) : option (list Metablock) :=
  match ms with
  | [] => Some []
  | m :: ms => b ← is_include_batch m f; ms ← retain_included f ms; Some (if b : bool then m :: ms else ms)
  end.

Definition trim_end_if_exceeds_max_bytes (ms : list Metablock) (f : ReadFilters) (max_bytes : option Z)
    : option (list Metablock * option Z) :=
  ms ← retain_included f ms;
  match max_bytes with
  | None => Some (ms, None)
  | Some limit =>
      match cut_index limit 0 0 ms with
      | Some index =>
          Some (take index ms,
                m ← ms !! index;
                match wal_metablock_type m with EventBatchMetadata meta => Some (eb_aggregate_version meta) | _ => None end)
      | None => Some (ms, None)
      end
  end.
End event_types.

(** ** Selecting by metadata hides no matching event *)

(** What a filter asks of a single event. *)
Definition event_matches (f : ReadFilters) (e : DatablockAggregateEvent) : bool :=
  match include_event_types f with
  | Some (t :: ts) => contains_type (t :: ts) (event_type_major e)
  | _ => true
  end &&
  map_or true (fun v => v <=? event_seq e) (rf_min_event_seq f) &&
  map_or true (fun v => event_seq e <=? v) (rf_max_event_seq f) &&
  map_or true (fun v => v <=? event_timestamp e) (rf_min_event_timestamp f) &&
  map_or true (fun v => event_timestamp e <=? v) (rf_max_event_timestamp f) &&
  map_or true (fun v => v <=? client_seq e) (rf_min_client_seq f) &&
  map_or true (fun v => client_seq e <=? v) (rf_max_client_seq f).

Lemma filter_all {A} (l : list A) : filter (fun _ => true = true) l = l.
Proof. induction l as [|x l IH]; [done|]. by rewrite filter_cons_True, IH. Qed.

Lemma retain_if_filter {A B} (o : option A) (p : A -> B -> bool) (l : list B) :
  retain_if o p l = filter (fun b => map_or true (fun a => p a b) o = true) l.
Proof. destruct o; cbn; [done|]. by rewrite filter_all. Qed.

Lemma filter_andb {A} (p q : A -> bool) (l : list A) :
  filter (fun x => q x = true) (filter (fun x => p x = true) l) = filter (fun x => p x && q x = true) l.
Proof.
  rewrite list_filter_filter. apply list_filter_iff. intros x. rewrite andb_true_iff. tauto.
Qed.

(** The passes of [apply_event_filters] are one selection, in order. *)
Lemma apply_event_filters_events b f :
  events (apply_event_filters b f) = filter (fun e => event_matches f e = true) (events b).
Proof.
  unfold apply_event_filters. cbn [events]. rewrite !retain_if_filter.
  set (first := match include_event_types f with Some _ => _ | None => _ end).
  assert (E : first = filter (fun e => match include_event_types f with
    | Some (t :: ts) => contains_type (t :: ts) (event_type_major e) | _ => true end = true) (events b)).
  { unfold first. destruct (include_event_types f) as [[|t ts]|]; by rewrite ?filter_all. }
  rewrite E, !filter_andb. apply list_filter_iff. intros e. unfold event_matches. by rewrite !andb_assoc.
Qed.

Lemma contains_type_spec types t : contains_type types t = true <-> t ∈ types.
Proof.
  unfold contains_type. rewrite existsb_exists. setoid_rewrite Z.eqb_eq. setoid_rewrite <- list_elem_of_In.
  naive_solver.
Qed.

(** The bounds a metablock records contain every event of its batch. *)
Definition bounded (acc : (Z * Z) * (Z * Z) * (Z * Z)) (e : DatablockAggregateEvent) : Prop :=
  let '((a, b), (c, d), (g, h)) := acc in
  a <= client_seq e <= b /\ c <= event_timestamp e <= d /\ g <= event_seq e <= h.

Lemma batch_bounds_fold es acc :
  Forall (bounded (foldl batch_bounds_step acc es)) es /\
  forall e, bounded acc e -> bounded (foldl batch_bounds_step acc es) e.
Proof.
  revert acc. induction es as [|x es IH]; intros acc; [by split|]. cbn [foldl].
  destruct (IH (batch_bounds_step acc x)) as [H1 H2]. split.
  - constructor; [|done]. apply H2. destruct acc as [[[a b] [c d]] [g h]]. cbn. lia.
  - intros e He. apply H2. destruct acc as [[[a b] [c d]] [g h]]. cbn in *. lia.
Qed.

Definition event_fields_ok (e : DatablockAggregateEvent) : Prop :=
  0 <= client_seq e /\ 0 <= event_timestamp e /\ 0 <= event_seq e.

Lemma from_batch_item_bounds c u k tb b types e : e ∈ events b -> event_fields_ok e ->
  let meta := from_batch_item c u k tb b types in
  min_client_seq meta <= client_seq e <= max_client_seq meta /\
  min_event_timestamp meta <= event_timestamp e <= max_event_timestamp meta /\
  min_event_seq meta <= event_seq e <= max_event_seq meta.
Proof.
  intros He (? & ? & ?). unfold from_batch_item.
  destruct (batch_bounds_fold (events b) ((U64_MAX, 0), (U64_MAX, 0), (U64_MAX, 0))) as [Hall _].
  rewrite Forall_forall in Hall. specialize (Hall e He).
  destruct (foldl _ _ _) as [[[a1 b1] [c1 d1]] [g1 h1]]. cbn in *. case_bool; lia.
Qed.

(** The recorded event types contain every type of the batch. *)
Lemma extract_loop_spec es types n : (n <= 4)%nat -> length types = 4%nat ->
  needs_bloom (extract_loop es types n) = false ->
  Forall (fun t => t ∈ ext_event_types (extract_loop es types n)) (take n types ++ (event_type_major <$> es)).
Proof.
  revert types n. induction es as [|e es IH]; intros types n Hn Hl; cbn [extract_loop].
  { intros _. rewrite app_nil_r. apply Forall_forall. intros t Ht. cbn. by eapply subseteq_take. }
  destruct (contains_type (take n types) (event_type_major e)) eqn:Ec.
  - intros Hb. specialize (IH types n Hn Hl Hb). cbn [fmap list_fmap].
    apply Forall_app in IH as [H1 H2]. apply Forall_app. split; [done|]. constructor; [|done].
    apply contains_type_spec in Ec. rewrite Forall_forall in H1. by apply H1.
  - destruct (decide (n < 4)%nat) as [Hlt|Hge]; [|done]. intros Hb.
    specialize (IH (<[n := event_type_major e]> types) (S n)). rewrite length_insert in IH.
    specialize (IH ltac:(lia) Hl Hb).
    rewrite (take_S_r _ n (event_type_major e)) in IH by (apply list_lookup_insert_eq; lia).
    rewrite take_insert_ge in IH by lia. by rewrite <- app_assoc in IH.
Qed.

Section prefilter.
Context `{Xxh3}.

Lemma create_bloom_bytes_spec es : exists w, create_bloom_bytes es = Some w /\ bloom_ok w /\
  Forall (fun t => Sbbf.contains w (event_type_hash t) = Some true) (event_type_major <$> es).
Proof.
  unfold create_bloom_bytes. set (S := list_to_set _ : gset Z).
  destruct (insert_all_spec (replicate (BLOOM_BYTES / 8) 0) (event_type_hash <$> elements S))
    as (w & E & Hok & _ & Hin).
  - exists 1%nat. split_and!; [done|lia|lia].
  - apply Forall_fmap, Forall_true. intros t. apply xxh3_64_u64.
  - exists w. split_and!; [done|done|]. apply Forall_forall. intros t Ht.
    rewrite Forall_fmap, Forall_forall in Hin. apply Hin, elem_of_elements. by apply elem_of_list_to_set.
Qed.

(** The recorded types answer, and answer yes for a type of the batch. *)
Definition types_cover (types : EventTypesKind) (es : list DatablockAggregateEvent) : Prop :=
  match types with
  | EventTypesDirect ts => Forall (fun t => t ∈ ts) (event_type_major <$> es)
  | EventTypesBloom w => bloom_ok w /\
      Forall (fun t => Sbbf.contains w (event_type_hash t) = Some true) (event_type_major <$> es)
  end.

Lemma event_types_of_spec es : exists types, event_types_of es = Some types /\ types_cover types es.
Proof.
  unfold event_types_of. destruct (needs_bloom _) eqn:Eb.
  - destruct (create_bloom_bytes_spec es) as (w & -> & ? & ?). by eexists.
  - eexists. split; [done|]. apply (extract_loop_spec es (replicate 4 U64_MAX) 0); [lia|done..].
Qed.

Lemma any_option_spec {A} (f : A -> option bool) l : (forall x, x ∈ l -> is_Some (f x)) ->
  exists b, any_option f l = Some b /\ (b = true <-> exists x, x ∈ l /\ f x = Some true).
Proof.
  induction l as [|x l IH]; intros Hf; cbn [any_option].
  { exists false. split; [done|]. split; [done|]. intros (x & Hx & _). by apply elem_of_nil in Hx. }
  destruct (Hf x) as [b E]; [by left|]. rewrite E. cbn. destruct b.
  - exists true. split; [done|]. split; [|done]. intros _. exists x. by split; [left|].
  - destruct IH as (b & -> & Hb); [intros; apply Hf; by right|]. exists b. split; [done|].
    rewrite Hb. split; intros (y & Hy & Ey); exists y; [by split; [right|]|].
    apply elem_of_cons in Hy as [->|Hy]; [congruence|done].
Qed.

Lemma check_event_types_match_spec types es include : types_cover types es ->
  exists ok, check_event_types_match types include = Some ok /\
    (ok = false -> Forall (fun e => contains_type include (event_type_major e) = false) es).
Proof.
  intros Hc. assert (Hno : forall ok, (forall e, e ∈ es -> event_type_major e ∈ include -> ok = true) ->
    ok = false -> Forall (fun e => contains_type include (event_type_major e) = false) es).
  { intros ok Hok ->. apply Forall_forall. intros e He. apply not_true_iff_false. rewrite contains_type_spec.
    intros Hin. by specialize (Hok e He Hin). }
  destruct types as [w|ts]; cbn in *.
  - destruct Hc as [Hok Hc].
    destruct (any_option_spec (fun t => Sbbf.contains w (event_type_hash t)) include) as (b & -> & Hb).
    { intros t _. apply contains_total; [done|apply xxh3_64_u64]. }
    exists b. split; [done|]. apply Hno. intros e He Hin. apply Hb. exists (event_type_major e). split; [done|].
    rewrite Forall_fmap, Forall_forall in Hc. by apply Hc.
  - eexists. split; [done|]. apply Hno. intros e He Hin.
    rewrite Forall_fmap, Forall_forall in Hc. specialize (Hc e He).
    case_decide; apply existsb_exists; exists (event_type_major e);
      (split; [by apply list_elem_of_In|by apply contains_type_spec]).
Qed.

Lemma ranges_rejected_spec c u k tb b types f : Forall event_fields_ok (events b) ->
  ranges_rejected (from_batch_item c u k tb b types) f = true ->
  Forall (fun e => event_matches f e = false) (events b).
Proof.
  rewrite !Forall_forall. intros Hok Hr e He. apply not_true_iff_false. intros Hm.
  destruct (from_batch_item_bounds c u k tb b types e He (Hok e He)) as (? & ? & ?).
  unfold event_matches in Hm. rewrite !andb_true_iff in Hm. destruct Hm as [[[[[[_ ?] ?] ?] ?] ?] ?].
  unfold ranges_rejected in Hr. rewrite !orb_true_iff in Hr.
  destruct Hr as [[[[[Hr|Hr]|Hr]|Hr]|Hr]|Hr];
    destruct (rf_min_client_seq f), (rf_max_client_seq f), (rf_min_event_timestamp f),
      (rf_max_event_timestamp f), (rf_min_event_seq f), (rf_max_event_seq f); cbn in *; lia.
Qed.

Lemma nothing_selected f b : Forall (fun e => event_matches f e = false) (events b) ->
  events (apply_event_filters b f) = [].
Proof.
  intros Hn. rewrite apply_event_filters_events. apply elem_of_nil_inv. intros e.
  rewrite list_elem_of_filter. intros [Hm He]. rewrite Forall_forall in Hn. specialize (Hn e He). congruence.
Qed.

(** C35: skipping a batch on its metablock alone hides no event. The types
    recorded when a batch is written never panic, and for every filter the
    decision of [is_include_batch] on that metablock answers, rejects what the
    batch-level conditions reject, and otherwise rejects only batches of which
    the event-level filter of the decoded batch would keep nothing; that
    filter is one order-preserving selection. *)
Theorem prefilter_hides_nothing b : Forall event_fields_ok (events b) ->
  exists types, event_types_of (events b) = Some types /\
  forall m c u k tb f, let meta := from_batch_item c u k tb b types in
    wal_metablock_type m = EventBatchMetadata meta ->
    events (apply_event_filters b f) = filter (fun e => event_matches f e = true) (events b) /\
    exists included, is_include_batch m f = Some included /\
      (batch_rejected m meta f = true -> included = false) /\
      (batch_rejected m meta f = false -> included = false -> events (apply_event_filters b f) = []).
Proof.
  intros Hok. destruct (event_types_of_spec (events b)) as (types & E & Hcov).
  exists types. split; [done|]. intros m c u k tb f meta Hm. split; [apply apply_event_filters_events|].
  unfold is_include_batch. rewrite Hm. destruct (batch_rejected m meta f); [by exists false|].
  destruct (ranges_rejected meta f) eqn:Er.
  { exists false. split_and!; [done..|]. intros _ _. by eapply nothing_selected, ranges_rejected_spec. }
  destruct (include_event_types f) as [[|t ts]|] eqn:Et; [by exists true| |by exists true].
  assert (event_types_data meta = types) as ->.
  { unfold meta, from_batch_item. by destruct (foldl _ _ _) as [[[? ?] [? ?]] [? ?]]. }
  destruct (check_event_types_match_spec types (events b) (t :: ts) Hcov) as (ok & -> & Hno).
  exists ok. split_and!; [done..|]. intros _ Hf. apply nothing_selected.
  eapply Forall_impl; [exact (Hno Hf)|]. intros e He. unfold event_matches. by rewrite Et, He.
Qed.
End prefilter.

(** A batch of five event types, recorded as a filter of hashes. *)
Definition typed_event (i t : Z) : DatablockAggregateEvent :=
  {| client_seq := i; event_seq := i; event_id := None; event_timestamp := 1000 + i; event_type_major := t;
     event_type_minor := 0; event_value := [1; 2]; iv := None |}.

Definition typed_batch : DatablockAggregateEventBatch :=
  {| aggregate_version := 3;
     events := [typed_event 1 10; typed_event 2 20; typed_event 3 30; typed_event 4 40; typed_event 5 50] |}.

Definition with_types (f : ReadFilters) (types : list Z) : ReadFilters :=
  {| from_aggregate_version := from_aggregate_version f; to_aggregate_version := to_aggregate_version f;
     include_event_types := Some types; exclude_client_id := exclude_client_id f;
     include_client_id := include_client_id f; exclude_user_id := exclude_user_id f;
     include_user_id := include_user_id f; min_server_timestamp := min_server_timestamp f;
     max_server_timestamp := max_server_timestamp f; rf_min_client_seq := rf_min_client_seq f;
     rf_max_client_seq := rf_max_client_seq f; rf_min_event_timestamp := rf_min_event_timestamp f;
     rf_max_event_timestamp := rf_max_event_timestamp f; rf_min_event_seq := rf_min_event_seq f;
     rf_max_event_seq := rf_max_event_seq f |}.

Lemma prefilter_hides_nothing_witness : exists types,
  @event_types_of xxh_low (events typed_batch) = Some types /\
  (exists w, types = EventTypesBloom w) /\
  let f := with_types (ReadFilters_new 0) [40] in
  forall m, wal_metablock_type m =
              EventBatchMetadata (from_batch_item 7 None {| org_id := 1; aggregate_type_id := 2; aggregate_id := 3 |} 0 typed_batch types) ->
    @is_include_batch xxh_low m f = Some true /\
    events (apply_event_filters typed_batch f) = [typed_event 4 40].
Proof.
  destruct (@prefilter_hides_nothing xxh_low typed_batch) as (types & E & Hall).
  { repeat constructor; cbn; lia. }
  exists types. split; [exact E|]. split.
  { vm_compute in E. injection E as <-. by eexists. }
  intros f m Hm. destruct (Hall m _ _ _ _ f Hm) as (Hev & inc & Hinc & _ & Hno).
  assert (events (apply_event_filters typed_batch f) = [typed_event 4 40]) as Ee.
  { rewrite Hev. reflexivity. }
  split; [|exact Ee]. rewrite Hinc. destruct inc; [done|]. rewrite Ee in Hno.
  exfalso. enough ([typed_event 4 40] = []) by done. apply Hno; [|done]. vm_compute in E. injection E as <-.
  reflexivity.
Defined.
