(* ===== verification/ReverseScan.v ===== *)
(** * Scanning the log backwards

    The reverse scanner every cache load, client lookup and read goes through
    ([celeriant_rotating_log/src/reverse_metablock_scanner.rs]) over the
    chunked record reader
    ([celeriant_disk/src/files/read_fixed_records_visit_const.rs]).  The
    theorems: on segments that hold a log, what the visitor is called with is
    the log, newest entry first, with only such segments left out that the
    blooms and hints rule out, whatever the sizes of chunks and windows; and on
    arbitrary bytes the scan ends without a panic. *)

From S2P Require Import Prelude Lease WalConstants Codec WalTypes WalCodec DiskFormat HashChain Sbbf LogSegment MemCache LogSync.

(** ** Effects

    A visitor updates what it captured, may fail, may panic. *)

Definition effect (S E A : Type) : Type := S -> S * outcome E A.

#[global] Instance effect_ret {S E} : MRet (effect S E) := fun A a s => (s, Done a).
#[global] Instance effect_bind {S E} : MBind (effect S E) := fun A B f m s =>
  match m s with
  | (s, Done a) => f a s
  | (s, Failed e) => (s, Failed e)
  | (s, Panicked) => (s, Panicked)
  end.

Definition pure {S E A} (o : outcome E A) : effect S E A := fun s => (s, o).

Definition effect_map_err {S E F A} (f : E -> F) (m : effect S E A) : effect S F A := fun s =>
  match m s with
  | (s, Done a) => (s, Done a)
  | (s, Failed e) => (s, Failed (f e))
  | (s, Panicked) => (s, Panicked)
  end.

(** ** read_fixed_records_visit_const.rs *)

Inductive ReadVisitError (E : Type) :=
  | RvIo
  | RvShortRead (pos requested got : Z)
  | RvVisitor (e : E).
Arguments RvIo {E}.
Arguments RvShortRead {E} pos requested got.
Arguments RvVisitor {E} e.

(** An open file: its contents, the alignment of its device, and how many bytes
    a read of a range returns, [None] an I/O error. *)
Record DmaFile := {
  df_contents : bytes;
  df_alignment : Z;
  df_reads : Z -> Z -> option Z;
}.

Definition read_at (f : DmaFile) (pos len : Z) : option bytes :=
  got ← df_reads f pos len; Some (slice (df_contents f) (Z.to_nat pos) (Z.to_nat got)).

(** [as_chunks], each chunk with its position in the file. *)
Definition records_of (n : nat) (start : Z) (chunk : bytes) : list (Z * bytes) :=
  (fun i => (start + Z.of_nat (i * n), slice chunk (i * n) n)) <$> seq 0 (length chunk / n).

Section read_visit.
Context {S E : Type} (on_record : Z -> bytes -> effect S E bool).

(** The loop over the records of a chunk; [true]: the visitor asked to stop. *)
Fixpoint visit_records (rs : list (Z * bytes)) (records : Z) : effect S (ReadVisitError E) (bool * Z) :=
  match rs with
  | [] => mret (false, records)
  | (pos, rec) :: rs =>
      stop ← effect_map_err RvVisitor (on_record pos rec);
      if stop : bool then mret (true, records + 1) else visit_records rs (records + 1)
  end.

Definition read_chunk (f : DmaFile) (pos len : Z) : effect S (ReadVisitError E) bytes :=
  match read_at f pos len with
  | None => pure (Failed RvIo)
  | Some chunk =>
      if Z.of_nat (length chunk) <? len then pure (Failed (RvShortRead pos len (Z.of_nat (length chunk))))
      else mret chunk
  end.

Fixpoint read_forward_aligned (fuel : nat) (n : nat) (f : DmaFile) (pos valid_end chunk_size records : Z)
    : effect S (ReadVisitError E) Z :=
  if negb (pos <? valid_end) then mret records
  else match fuel with
  | O => pure Panicked
  | Datatypes.S fuel =>
      let read_end := Z.min (pos + chunk_size) valid_end in
      chunk ← read_chunk f pos (read_end - pos);
      '(stop, records) ← visit_records (records_of n pos chunk) records;
      if stop : bool then mret records else read_forward_aligned fuel n f read_end valid_end chunk_size records
  end.

Fixpoint read_reverse_aligned (fuel : nat) (n : nat) (f : DmaFile) (start pos chunk_size records : Z)
    : effect S (ReadVisitError E) Z :=
  if negb (start <? pos) then mret records
  else match fuel with
  | O => pure Panicked
  | Datatypes.S fuel =>
      let read_start := Z.max start (saturating_sub pos chunk_size) in
      chunk ← read_chunk f read_start (pos - read_start);
      '(stop, records) ← visit_records (reverse (records_of n read_start chunk)) records;
      if stop : bool then mret records else read_reverse_aligned fuel n f start read_start chunk_size records
  end.

(** Each turn of either loop moves by a record at least. *)
Definition read_fixed_records_visit_const (n : nat) (f : DmaFile) (move_in_reverse : bool)
    (start end_ chunk_size : Z) : effect S (ReadVisitError E) Z :=
  let N := Z.of_nat n in
  if negb ((0 <? N) && (df_alignment f <=? N) && (N mod df_alignment f =? 0) && (N <=? chunk_size) &&
           (chunk_size mod N =? 0) && (start mod N =? 0) && (start <? end_))
  then pure Panicked
  else
    let valid_end := start + (end_ - start) / N * N in
    let fuel := Z.to_nat (valid_end - start) in
    if move_in_reverse then read_reverse_aligned fuel n f start valid_end chunk_size 0
    else read_forward_aligned fuel n f start valid_end chunk_size 0.
End read_visit.

(** ** reverse_metablock_scanner.rs *)

Inductive SegmentHint := Skip | SeekTo (pos : Z).

Inductive ScanError (E : Type) :=
  | OpenLogSegment
  | LockTimeout
  | NoFileHandle (log_id : Z)
  | ScanIo (log_id : Z)
  | ScanShortRead (log_id pos requested got : Z)
  | Visitor (e : E).
Arguments OpenLogSegment {E}.
Arguments LockTimeout {E}.
Arguments NoFileHandle {E} log_id.
Arguments ScanIo {E} log_id.
Arguments ScanShortRead {E} log_id pos requested got.
Arguments Visitor {E} e.

(** What the scanner meets: the segments that open, whether their lock is
    taken in time and their handle is there, and the storage under them. *)
Record LogSegmentsCache := {
  lc_get : Z -> option LogSegmentFile;
  lc_lock : Z -> bool;
  lc_handle : Z -> bool;
  lc_alignment : Z;
  lc_reads : Z -> Z -> Z -> option Z;
}.

Definition dma_file (cache : LogSegmentsCache) (log_id : Z) (seg : LogSegmentFile) : DmaFile :=
  {| df_contents := contents seg; df_alignment := lc_alignment cache; df_reads := lc_reads cache log_id |}.

Record ReverseMetablockScanner := {
  current_log_id : Z;
  chunk_size : Z;
  start_from_position : option Z;
  bloom_filter_hash : option Z;
  client_bloom_filter_hash : option Z;
  use_write_cursor : bool;
  sc_chain_aggregate_key : option AggregateKey;
  chain_follow_window : Z;
  segment_hints : option (gmap Z SegmentHint);
  min_log_id : Z;
}.

Definition ReverseMetablockScanner_new (starting_log_id : Z) (start_from_position : option Z) (chunk_size : Z)
    : ReverseMetablockScanner :=
  {| current_log_id := starting_log_id; chunk_size := chunk_size; start_from_position := start_from_position;
     bloom_filter_hash := None; client_bloom_filter_hash := None; use_write_cursor := false;
     sc_chain_aggregate_key := None; chain_follow_window := Z.of_nat FIXED_BLOCK_SIZE_BYTES;
     segment_hints := None; min_log_id := 1 |}.

Definition with_min_log_id (sc : ReverseMetablockScanner) (min_log_id : Z) : ReverseMetablockScanner :=
  {| current_log_id := current_log_id sc; chunk_size := chunk_size sc;
     start_from_position := start_from_position sc; bloom_filter_hash := bloom_filter_hash sc;
     client_bloom_filter_hash := client_bloom_filter_hash sc; use_write_cursor := use_write_cursor sc;
     sc_chain_aggregate_key := sc_chain_aggregate_key sc; chain_follow_window := chain_follow_window sc;
     segment_hints := segment_hints sc; min_log_id := Z.max min_log_id 1 |}.

Definition with_segment_hints (sc : ReverseMetablockScanner) (hints : gmap Z SegmentHint) : ReverseMetablockScanner :=
  {| current_log_id := current_log_id sc; chunk_size := chunk_size sc;
     start_from_position := start_from_position sc; bloom_filter_hash := bloom_filter_hash sc;
     client_bloom_filter_hash := client_bloom_filter_hash sc; use_write_cursor := use_write_cursor sc;
     sc_chain_aggregate_key := sc_chain_aggregate_key sc; chain_follow_window := chain_follow_window sc;
     segment_hints := Some hints; min_log_id := min_log_id sc |}.

Definition with_bloom_filter_hash (sc : ReverseMetablockScanner) (hash : Z) : ReverseMetablockScanner :=
  {| current_log_id := current_log_id sc; chunk_size := chunk_size sc;
     start_from_position := start_from_position sc; bloom_filter_hash := Some hash;
     client_bloom_filter_hash := client_bloom_filter_hash sc; use_write_cursor := use_write_cursor sc;
     sc_chain_aggregate_key := sc_chain_aggregate_key sc; chain_follow_window := chain_follow_window sc;
     segment_hints := segment_hints sc; min_log_id := min_log_id sc |}.

Definition with_client_bloom_filter_hash (sc : ReverseMetablockScanner) (hash : Z) : ReverseMetablockScanner :=
  {| current_log_id := current_log_id sc; chunk_size := chunk_size sc;
     start_from_position := start_from_position sc; bloom_filter_hash := bloom_filter_hash sc;
     client_bloom_filter_hash := Some hash; use_write_cursor := use_write_cursor sc;
     sc_chain_aggregate_key := sc_chain_aggregate_key sc; chain_follow_window := chain_follow_window sc;
     segment_hints := segment_hints sc; min_log_id := min_log_id sc |}.

Definition with_write_cursor_upper_bound (sc : ReverseMetablockScanner) : ReverseMetablockScanner :=
  {| current_log_id := current_log_id sc; chunk_size := chunk_size sc;
     start_from_position := start_from_position sc; bloom_filter_hash := bloom_filter_hash sc;
     client_bloom_filter_hash := client_bloom_filter_hash sc; use_write_cursor := true;
     sc_chain_aggregate_key := sc_chain_aggregate_key sc; chain_follow_window := chain_follow_window sc;
     segment_hints := segment_hints sc; min_log_id := min_log_id sc |}.

(** How far the segment is readable: up to the write cursor, or up to the read
    cursor if it has reached the segment. *)
Definition cursor_position (sc : ReverseMetablockScanner) (seg : LogSegmentFile) : option Z :=
  if use_write_cursor sc then Some (metablocks_position (pos (md_write (metadata seg))))
  else (fun r => metablocks_position (pos r)) <$> md_read (metadata seg).

(** Whether the segment may be skipped on its blooms.  [None]: nothing to visit
    in it.  The two cursors of a segment share its blooms. *)
Definition scan_gate (sc : ReverseMetablockScanner) (seg : LogSegmentFile) : option (option Z) :=
  match cursor_position sc seg with
  | None => Some None
  | Some position =>
      skip ← (match bloom_filter_hash sc with
              | None => Some false
              | Some hash =>
                  if is_absent (aggregate_key_bloom seg) then Some false
                  else negb <$> bloom_may_contain_hash (aggregate_key_bloom seg) hash
              end);
      if skip : bool then Some None
      else
        client_skip ← (match client_bloom_filter_hash sc with
                       | None => Some false
                       | Some hash => negb <$> bloom_may_contain_hash (client_id_bloom seg) hash
                       end);
        Some (if client_skip : bool then None else Some position)
  end.

Section scan.
Context `{Xxh3} {S E T : Type} (visitor : Z -> Z -> bytes -> effect S E (option T)).
Context (cache : LogSegmentsCache).

Definition with_bloom_filter (sc : ReverseMetablockScanner) (key : AggregateKey) : ReverseMetablockScanner :=
  with_bloom_filter_hash sc (AggregateKey_bloom_hash key).

Definition with_aggregate_chain (sc : ReverseMetablockScanner) (key : AggregateKey) (follow_window_bytes : Z)
    : ReverseMetablockScanner :=
  {| current_log_id := current_log_id sc; chunk_size := chunk_size sc;
     start_from_position := start_from_position sc; bloom_filter_hash := Some (AggregateKey_bloom_hash key);
     client_bloom_filter_hash := client_bloom_filter_hash sc; use_write_cursor := use_write_cursor sc;
     sc_chain_aggregate_key := Some key;
     chain_follow_window := Z.max (follow_window_bytes / Z.of_nat FIXED_BLOCK_SIZE_BYTES) 1 * Z.of_nat FIXED_BLOCK_SIZE_BYTES;
     segment_hints := segment_hints sc; min_log_id := min_log_id sc |}.

Definition map_read_error {F} (log_id : Z) (e : ReadVisitError (ScanError F)) : ScanError F :=
  match e with
  | RvIo => ScanIo log_id
  | RvShortRead pos requested got => ScanShortRead log_id pos requested got
  | RvVisitor e => e
  end.

(** The visitor of the record reader keeps what was found in a captured
    variable. *)
Definition found_record (log_id pos : Z) (block : bytes) : effect (S * option T) (ScanError E) bool :=
  fun '(s, found) =>
    match visitor log_id pos block s with
    | (s, Done (Some result)) => ((s, Some result), Done true)
    | (s, Done None) => ((s, found), Done false)
    | (s, Failed e) => ((s, found), Failed (Visitor e))
    | (s, Panicked) => ((s, found), Panicked)
    end.

Definition scan_records (log_id : Z) (f : DmaFile) (chunk_size start end_ : Z) : effect S (ScanError E) (option T) :=
  fun s =>
    match effect_map_err (map_read_error log_id)
            (read_fixed_records_visit_const (found_record log_id) FIXED_BLOCK_SIZE_BYTES f true start end_ chunk_size)
            (s, None) with
    | ((s, found), Done _) => (s, Done found)
    | ((s, _), Failed e) => (s, Failed e)
    | ((s, _), Panicked) => (s, Panicked)
    end.

(** [lock_reader] and the file behind it. *)
Definition locked_file (log_id : Z) (seg : LogSegmentFile) : outcome (ScanError E) DmaFile :=
  if negb (lc_lock cache log_id) then Failed LockTimeout
  else if negb (lc_handle cache log_id) then Failed (NoFileHandle log_id)
  else Done (dma_file cache log_id seg).

Definition scan_single_log (sc : ReverseMetablockScanner) (log_id : Z) (override_end : option Z)
    : effect S (ScanError E) (option T) :=
  seg ← pure (match lc_get cache log_id with Some seg => Done seg | None => Failed OpenLogSegment end);
  gate ← pure (or_panic (scan_gate sc seg));
  match gate with
  | None => mret None
  | Some position =>
      f ← pure (locked_file log_id seg);
      let start := Z.of_nat HEADER_BLOCK_SIZE_BYTES in
      let end_ := Z.min (default position override_end) position in
      if end_ <=? start then mret None else scan_records log_id f (chunk_size sc) start end_
  end.

(** [find_first_chain_member]. *)
Definition chain_member (key : AggregateKey) (pos : Z) (block : bytes) : effect (option Z) unit bool := fun found =>
  match read_chain_aggregate_key block with
  | None => (found, Panicked)
  | Some k => if bool_decide (k = Some key) then (Some pos, Done true) else (found, Done false)
  end.

Definition find_first_chain_member (log_id : Z) (f : DmaFile) (chunk_size start end_ : Z) (key : AggregateKey)
    : outcome (ScanError E) (option Z) :=
  match read_fixed_records_visit_const (chain_member key) FIXED_BLOCK_SIZE_BYTES f true start end_ chunk_size None with
  | (found, Done _) => Done found
  | (found, Failed RvIo) => Failed (ScanIo log_id)
  | (found, Failed (RvShortRead pos requested got)) => Failed (ScanShortRead log_id pos requested got)
  | (found, Failed (RvVisitor _)) => Done found
  | (found, Panicked) => Panicked
  end.

(** [buf.get(off..off + N)] of the block at [pos]. *)
Definition block_at (log_id pos : Z) (off : nat) (buf : bytes) : outcome (ScanError E) bytes :=
  if decide (off + FIXED_BLOCK_SIZE_BYTES <= length buf)%nat then Done (slice buf off FIXED_BLOCK_SIZE_BYTES)
  else Failed (ScanShortRead log_id pos (Z.of_nat FIXED_BLOCK_SIZE_BYTES) (Z.of_nat (length buf - off))).

Definition covered_by (win : option (Z * bytes)) (pos : Z) : bool :=
  match win with
  | Some (win_start, buf) =>
      (win_start <=? pos) && (pos + Z.of_nat FIXED_BLOCK_SIZE_BYTES <=? win_start + Z.of_nat (length buf))
  | None => false
  end.

(** The window that holds the block at [pos]: the one at hand, or a fresh one
    that ends with the block. *)
Definition fresh_window (log_id : Z) (f : DmaFile) (window start pos : Z) : outcome (ScanError E) (Z * bytes) :=
  let win_end := pos + Z.of_nat FIXED_BLOCK_SIZE_BYTES in
  let win_start := Z.max (saturating_sub win_end window) start in
  let len := win_end - win_start in
  match read_at f win_start len with
  | None => Failed (ScanIo log_id)
  | Some buf =>
      if Z.of_nat (length buf) <? len then Failed (ScanShortRead log_id win_start len (Z.of_nat (length buf)))
      else Done (win_start, buf)
  end.

Definition window_for (log_id : Z) (f : DmaFile) (window start : Z) (win : option (Z * bytes)) (pos : Z)
    : outcome (ScanError E) (Z * bytes) :=
  match win with
  | Some w => if covered_by win pos then Done w else fresh_window log_id f window start pos
  | None => fresh_window log_id f window start pos
  end.

(** The loop over the backlinks; each of them leads down. *)
Fixpoint follow_chain (fuel : nat) (log_id : Z) (f : DmaFile) (window start : Z) (key : AggregateKey)
    (win : option (Z * bytes)) (pos : Z) : effect S (ScanError E) (option T) :=
  match fuel with
  | O => pure Panicked
  | Datatypes.S fuel =>
      w ← pure (window_for log_id f window start win pos);
      block ← pure (block_at log_id pos (Z.to_nat (pos - w.1)) w.2);
      k ← pure (or_panic (read_chain_aggregate_key block));
      if negb (bool_decide (k = Some key)) then mret None
      else
        result ← effect_map_err Visitor (visitor log_id pos block);
        match result with
        | Some result => mret (Some result)
        | None =>
            backlink ← pure (or_panic (read_previous_aggregate_metablock_pos block));
            if (backlink <? start) || (pos <=? backlink) then mret None
            else follow_chain fuel log_id f window start key (Some w) backlink
        end
  end.

(** The hinted target, verified: the block must belong to the chain. *)
Definition hinted_start (log_id : Z) (f : DmaFile) (start end_ : Z) (key : AggregateKey) (hint : option SegmentHint)
    : outcome (ScanError E) (option (Z * bytes)) :=
  match hint with
  | Some (SeekTo hint_pos) =>
      if (start <=? hint_pos) &&
         match checked_add 64 hint_pos (Z.of_nat FIXED_BLOCK_SIZE_BYTES) with Some e => e <=? end_ | None => false end
      then
        match read_at f hint_pos (Z.of_nat FIXED_BLOCK_SIZE_BYTES) with
        | None => Failed (ScanIo log_id)
        | Some buf =>
            if decide (length buf < FIXED_BLOCK_SIZE_BYTES)%nat
            then Failed (ScanShortRead log_id hint_pos (Z.of_nat FIXED_BLOCK_SIZE_BYTES) (Z.of_nat (length buf)))
            else
              k ← or_panic (read_chain_aggregate_key (slice buf 0 FIXED_BLOCK_SIZE_BYTES));
              Done (if bool_decide (k = Some key) then Some (hint_pos, buf) else None)
        end
      else Done None
  | _ => Done None
  end.

Definition scan_chain_single_log (sc : ReverseMetablockScanner) (log_id : Z) (override_end : option Z)
    (key : AggregateKey) : effect S (ScanError E) (option T) :=
  seg ← pure (match lc_get cache log_id with Some seg => Done seg | None => Failed OpenLogSegment end);
  gate ← pure (or_panic (scan_gate sc seg));
  match gate with
  | None => mret None
  | Some position =>
      let start := Z.of_nat HEADER_BLOCK_SIZE_BYTES in
      let end_ := Z.min (default position override_end) position in
      if end_ <=? start then mret None
      else
        let hint := hints ← segment_hints sc; hints !! log_id in
        match hint with
        | Some Skip => mret None
        | _ =>
            f ← pure (locked_file log_id seg);
            win ← pure (hinted_start log_id f start end_ key hint);
            resolved ← (match win with
                        | Some (hint_pos, _) => mret (Some hint_pos)
                        | None => pure (find_first_chain_member log_id f (chunk_size sc) start end_ key)
                        end);
            match resolved with
            | None => mret None
            | Some p =>
                follow_chain (Datatypes.S (Z.to_nat p)) log_id f (chain_follow_window sc) start key win p
            end
        end
  end.

(** The loop over the segments, from the current one down to the oldest to
    visit. *)
Fixpoint scan_from (n : nat) (sc : ReverseMetablockScanner) (log_id : Z) (override_end : option Z)
    : effect S (ScanError E) (option T) :=
  match n with
  | O => mret None
  | Datatypes.S n =>
      result ← (match sc_chain_aggregate_key sc with
                | Some key => scan_chain_single_log sc log_id override_end key
                | None => scan_single_log sc log_id override_end
                end);
      match result with
      | Some found => mret (Some found)
      | None => scan_from n sc (log_id - 1) None
      end
  end.

Definition scan (sc : ReverseMetablockScanner) : effect S (ScanError E) (option T) :=
  scan_from (Z.to_nat (current_log_id sc - min_log_id sc + 1)) sc (current_log_id sc) (start_from_position sc).
End scan.

(** ** The record reader visits every record once, in order *)

Definition complete_reads (f : DmaFile) : Prop :=
  forall pos len, 0 <= pos -> 0 <= len -> pos + len <= Z.of_nat (length (df_contents f)) -> df_reads f pos len = Some len.

Lemma effect_bind_assoc {S E A B C} (m : effect S E A) (f : A -> effect S E B) (g : B -> effect S E C) s :
  ((m ≫= f) ≫= g) s = (m ≫= fun a => f a ≫= g) s.
Proof. unfold mbind, effect_bind. by destruct (m s) as [s' [a|e|]]. Qed.

Lemma effect_bind_ext {S E A B} (m : effect S E A) (f g : A -> effect S E B) s :
  (forall a s, f a s = g a s) -> (m ≫= f) s = (m ≫= g) s.
Proof. intros Hf. unfold mbind, effect_bind. by destruct (m s) as [s' [a|e|]]. Qed.

Lemma visit_records_app {S E} (v : Z -> bytes -> effect S E bool) a b records s :
  visit_records v (a ++ b) records s =
  (visit_records v a records ≫= fun '(stop, records) =>
     if stop : bool then mret (true, records) else visit_records v b records) s.
Proof.
  revert records s. induction a as [|[p rec] a IH]; intros records s; [done|]. cbn [visit_records app].
  rewrite effect_bind_assoc. apply effect_bind_ext. intros [|] s'; [done|apply IH].
Qed.

Lemma records_of_app n start a b : (n <> 0)%nat -> (length a mod n = 0)%nat ->
  records_of n start (a ++ b) = records_of n start a ++ records_of n (start + Z.of_nat (length a)) b.
Proof.
  intros Hn Ha. apply Nat.Div0.mod_divides in Ha as [k Ha]. unfold records_of.
  rewrite length_app, Ha, (Nat.mul_comm n k), Nat.div_add_l by done.
  replace (k * n / n)%nat with k by (symmetry; by apply Nat.div_mul).
  rewrite seq_app, fmap_app. f_equal.
  - apply list_fmap_ext. intros i j [-> Hlt]%lookup_seq. f_equal. apply slice_app_l.
    pose proof (Nat.mul_le_mono_r (S i) k n). lia.
  - replace (seq (0 + k) (length b / n)) with (Nat.add k <$> seq 0 (length b / n))
      by (rewrite fmap_add_seq; f_equal; lia).
    rewrite <- list_fmap_compose.
    apply list_fmap_ext. intros i j [-> Hlt]%lookup_seq. cbn. f_equal; [lia|].
    rewrite slice_app_r by lia. f_equal. lia.
Qed.

Section read_spec.
Context {S E : Type} (v : Z -> bytes -> effect S E bool) (n : nat) (f : DmaFile).
Context (Hn : (0 < n)%nat) (Hreads : complete_reads f).

Lemma read_chunk_done pos len s : 0 <= pos -> 0 <= len -> pos + len <= Z.of_nat (length (df_contents f)) ->
  read_chunk (S := S) (E := E) f pos len s = (s, Done (slice (df_contents f) (Z.to_nat pos) (Z.to_nat len))).
Proof.
  intros. unfold read_chunk, read_at. rewrite (Hreads pos len) by done. cbn [mbind option_bind].
  rewrite length_slice. case_bool; [|done]. lia.
Qed.

Definition file_records (start end_ : Z) : list (Z * bytes) :=
  records_of n start (slice (df_contents f) (Z.to_nat start) (Z.to_nat (end_ - start))).

Lemma file_records_split start mid end_ : 0 <= start <= mid -> mid <= end_ ->
  end_ <= Z.of_nat (length (df_contents f)) -> (mid - start) mod Z.of_nat n = 0 ->
  file_records start end_ = file_records start mid ++ file_records mid end_.
Proof.
  intros Hs Hm He Hd. unfold file_records.
  assert (Hl : length (slice (df_contents f) (Z.to_nat start) (Z.to_nat (mid - start))) = Z.to_nat (mid - start))
    by (rewrite length_slice; lia).
  replace (slice (df_contents f) (Z.to_nat start) (Z.to_nat (end_ - start))) with
    (slice (df_contents f) (Z.to_nat start) (Z.to_nat (mid - start)) ++
     slice (df_contents f) (Z.to_nat mid) (Z.to_nat (end_ - mid))).
  - rewrite records_of_app, Hl; [|lia|]; [do 2 f_equal; lia|]. apply Nat2Z.inj. rewrite Nat2Z.inj_mod.
    rewrite Hl, Z2Nat.id by lia. done.
  - unfold slice. replace (Z.to_nat (end_ - start)) with (Z.to_nat (mid - start) + Z.to_nat (end_ - mid))%nat by lia.
    rewrite <- take_take_drop. f_equal. rewrite drop_drop. f_equal. f_equal. lia.
Qed.

Lemma file_records_empty start : file_records start start = [].
Proof.
  unfold file_records, records_of. rewrite Z.sub_diag. unfold slice. rewrite take_0. cbn [length].
  by rewrite Nat.Div0.div_0_l.
Qed.

Lemma read_reverse_spec fuel start pos chunk_size records s :
  0 <= start <= pos -> pos <= Z.of_nat (length (df_contents f)) -> (pos - start) mod Z.of_nat n = 0 ->
  Z.of_nat n <= chunk_size -> chunk_size mod Z.of_nat n = 0 -> (Z.to_nat (pos - start) <= fuel)%nat ->
  read_reverse_aligned v fuel n f start pos chunk_size records s =
  (visit_records v (reverse (file_records start pos)) records ≫= fun '(_, records) => mret records) s.
Proof.
  revert pos records s. induction fuel as [|fuel IH]; intros pos records s Hs He Hd Hc Hcd Hf; cbn [read_reverse_aligned].
  { replace pos with start by lia. rewrite Z.ltb_irrefl. cbn. by rewrite file_records_empty. }
  destruct (Z.ltb_spec start pos) as [Hlt|]; cbn [negb]; [|replace pos with start by lia; by rewrite file_records_empty].
  set (rs := Z.max start (saturating_sub pos chunk_size)).
  assert (Hrs : start <= rs < pos /\ (rs - start) mod Z.of_nat n = 0 /\ (pos - rs) mod Z.of_nat n = 0).
  { unfold rs, saturating_sub. apply Z.mod_divide in Hd as [a Ha]; [|lia]. apply Z.mod_divide in Hcd as [b Hb]; [|lia].
    split; [lia|]. destruct (Z.max_spec start (Z.max 0 (pos - chunk_size))) as [[? ->]|[? ->]].
    - rewrite Z.max_r by lia. split; apply Z.mod_divide; try lia; [exists (a - b)|exists b]; lia.
    - split; apply Z.mod_divide; try lia; [exists 0|exists a]; lia. }
  destruct Hrs as (Hr & Hd1 & Hd2).
  rewrite (file_records_split start rs pos), reverse_app by lia.
  unfold mbind at 1, effect_bind at 1. rewrite read_chunk_done by lia.
  fold (file_records rs pos). unfold mbind at 2, effect_bind at 2. rewrite visit_records_app.
  unfold mbind, effect_bind. destruct (visit_records v _ _ s) as [s' [[[|] r]|e|]]; [done| |done|done].
  cbn [mret effect_ret]. rewrite IH by (done || lia). done.
Qed.

Lemma read_forward_spec fuel pos valid_end chunk_size records s :
  0 <= pos <= valid_end -> valid_end <= Z.of_nat (length (df_contents f)) -> (valid_end - pos) mod Z.of_nat n = 0 ->
  Z.of_nat n <= chunk_size -> chunk_size mod Z.of_nat n = 0 -> (Z.to_nat (valid_end - pos) <= fuel)%nat ->
  read_forward_aligned v fuel n f pos valid_end chunk_size records s =
  (visit_records v (file_records pos valid_end) records ≫= fun '(_, records) => mret records) s.
Proof.
  revert pos records s. induction fuel as [|fuel IH]; intros pos records s Hs He Hd Hc Hcd Hf; cbn [read_forward_aligned].
  { replace pos with valid_end by lia. rewrite Z.ltb_irrefl. cbn. by rewrite file_records_empty. }
  destruct (Z.ltb_spec pos valid_end) as [Hlt|]; cbn [negb]; [|replace pos with valid_end by lia; by rewrite file_records_empty].
  set (re := Z.min (pos + chunk_size) valid_end).
  assert (Hre : pos < re <= valid_end /\ (re - pos) mod Z.of_nat n = 0 /\ (valid_end - re) mod Z.of_nat n = 0).
  { unfold re. apply Z.mod_divide in Hd as [a Ha]; [|lia]. apply Z.mod_divide in Hcd as [b Hb]; [|lia].
    split; [lia|]. destruct (Z.min_spec (pos + chunk_size) valid_end) as [[? ->]|[? ->]].
    - split; apply Z.mod_divide; try lia; [exists b|exists (a - b)]; lia.
    - split; apply Z.mod_divide; try lia; [exists a|exists 0]; lia. }
  destruct Hre as (Hr & Hd1 & Hd2).
  rewrite (file_records_split pos re valid_end) by lia.
  unfold mbind at 1, effect_bind at 1. rewrite read_chunk_done by lia.
  fold (file_records pos re). unfold mbind at 2, effect_bind at 2. rewrite visit_records_app.
  unfold mbind, effect_bind. destruct (visit_records v _ _ s) as [s' [[[|] r]|e|]]; [done| |done|done].
  cbn [mret effect_ret]. rewrite IH by (done || lia). done.
Qed.
End read_spec.

(** ** The chain of an aggregate in a log *)

Definition keyed (key : AggregateKey) (log : list LogEntry) : list LogEntry :=
  filter (fun e => chain_aggregate_key (le_metablock e) = Some key) log.

Lemma chain_tips_last log key : chain_tips log !! key = le_pos <$> last (keyed key log).
Proof.
  induction log as [|e log IH] using rev_ind; [done|]. unfold chain_tips, keyed in *.
  rewrite foldl_app, filter_app. cbn [foldl]. unfold note_chain_tip.
  destruct (chain_aggregate_key (le_metablock e)) as [k|] eqn:Ek.
  - destruct (decide (k = key)) as [->|Hne].
    + rewrite lookup_insert_eq, filter_cons_True by done. by rewrite filter_nil, last_snoc.
    + rewrite lookup_insert_ne, filter_cons_False, filter_nil, app_nil_r by congruence. done.
  - rewrite filter_cons_False, filter_nil, app_nil_r by congruence. done.
Qed.

Lemma keyed_last key log e : last (keyed key log) = Some e ->
  exists i, log !! i = Some e /\ chain_aggregate_key (le_metablock e) = Some key /\
    keyed key log = keyed key (take (S i) log).
Proof.
  induction log as [|x log IH] using rev_ind; [done|]. unfold keyed in *. rewrite filter_app.
  destruct (decide (chain_aggregate_key (le_metablock x) = Some key)) as [Hk|Hk].
  - rewrite filter_cons_True, filter_nil, last_snoc by done. intros [= ->]. exists (length log).
    split_and!; [by apply list_lookup_middle|done|]. rewrite take_ge by (rewrite length_app; cbn; lia).
    by rewrite filter_app, filter_cons_True, filter_nil.
  - rewrite filter_cons_False, filter_nil, app_nil_r by done. intros (i & Hi & Hke & ->)%IH.
    pose proof (lookup_lt_Some _ _ _ Hi). exists i. rewrite lookup_app_l by done. split_and!; [done..|].
    by rewrite take_app_le by lia.
Qed.

Lemma keyed_take_S key log i e : log !! i = Some e -> chain_aggregate_key (le_metablock e) = Some key ->
  keyed key (take (S i) log) = keyed key (take i log) ++ [e].
Proof.
  intros Hi Hk. unfold keyed. rewrite (take_S_r _ _ _ Hi), filter_app, filter_cons_True by done.
  by rewrite filter_nil.
Qed.

(** ** Visiting the entries of a log *)

Section visits.
Context `{Bincode, Crc32c, Blake3, Xxh3} {S E T : Type} (visitor : Z -> Z -> bytes -> effect S E (option T)).

(** What a scan comes down to: the visitor on one entry after the other until
    it finds what it looks for. *)
Fixpoint visit_entries (es : list (Z * LogEntry)) : effect S E (option T) :=
  match es with
  | [] => mret None
  | (log_id, e) :: es =>
      r ← visitor log_id (le_pos e) (metablock_block (le_metablock e));
      match r with Some x => mret (Some x) | None => visit_entries es end
  end.

Lemma visit_entries_app a b s :
  visit_entries (a ++ b) s =
  (visit_entries a ≫= fun r => match r with Some x => mret (Some x) | None => visit_entries b end) s.
Proof.
  revert s. induction a as [|[i e] a IH]; intros s; [done|]. cbn [visit_entries app].
  rewrite effect_bind_assoc. apply effect_bind_ext. intros [x|] s'; [done|apply IH].
Qed.

Definition entry_record (e : LogEntry) : Z * bytes := (le_pos e, metablock_block (le_metablock e)).

(** The records below a position of a segment are the entries of its log. *)
Lemma log_records seg tip0 log cache log_id m : segment_holds seg tip0 log -> (m <= length log)%nat ->
  file_records FIXED_BLOCK_SIZE_BYTES (dma_file cache log_id seg) (Z.of_nat HEADER_BLOCK_SIZE_BYTES)
    (Z.of_nat HEADER_BLOCK_SIZE_BYTES + Z.of_nat m * Z.of_nat FIXED_BLOCK_SIZE_BYTES) = entry_record <$> take m log.
Proof.
  intros Hlog Hm. pose proof (dp_bounds seg (sh_ok _ _ _ Hlog)) as Hdp. pose proof (sh_end _ _ _ Hlog) as Hend.
  pose proof (Nat.mul_le_mono_r m (length log) FIXED_BLOCK_SIZE_BYTES Hm) as Hmul.
  unfold file_records, records_of. cbn [dma_file df_contents].
  replace (Z.to_nat _) with HEADER_BLOCK_SIZE_BYTES at 1 by lia.
  replace (Z.to_nat (_ - _)) with (m * FIXED_BLOCK_SIZE_BYTES)%nat by lia.
  set (area := slice (contents seg) HEADER_BLOCK_SIZE_BYTES (m * FIXED_BLOCK_SIZE_BYTES)).
  assert (Ha : length area = (m * FIXED_BLOCK_SIZE_BYTES)%nat) by (unfold area; rewrite length_slice; lia).
  rewrite Ha, Nat.div_mul by done. apply list_eq. intros i. rewrite !list_lookup_fmap.
  destruct (decide (i < m)%nat) as [Hi|Hi].
  - rewrite lookup_seq_lt, lookup_take_lt by done. destruct (lookup_lt_is_Some_2 log i) as [e He]; [lia|].
    rewrite He. cbn [fmap option_fmap option_map Nat.add]. unfold entry_record.
    destruct (sh_entry _ _ _ Hlog _ _ He) as (Hp & _ & _ & <- & _). rewrite Hp. do 2 f_equal; [lia|].
    pose proof (Nat.mul_le_mono_r (Datatypes.S i) m FIXED_BLOCK_SIZE_BYTES).
    unfold area. rewrite slice_slice by lia. f_equal. lia.
  - rewrite lookup_seq_ge, lookup_take_ge by lia. done.
Qed.

Definition end_records {A} (p : (S * option T) * outcome (ScanError E) A) : S * outcome (ScanError E) (option T) :=
  match p with
  | ((s, found), Done _) => (s, Done found)
  | ((s, _), Failed e) => (s, Failed e)
  | ((s, _), Panicked) => (s, Panicked)
  end.

Lemma found_records log_id es records s :
  end_records (effect_map_err (map_read_error log_id)
    (visit_records (found_record visitor log_id) (entry_record <$> es) records ≫= fun '(_, r) => mret r) (s, None))
  = effect_map_err Visitor (visit_entries (pair log_id <$> es)) s.
Proof.
  revert records s. induction es as [|e es IH]; intros records s; [done|].
  cbn [fmap list_fmap visit_records visit_entries entry_record]. unfold effect_map_err, mbind, effect_bind in *.
  unfold found_record at 1. cbn. destruct (visitor log_id (le_pos e) _ s) as [s' [[x|]|e'|]]; cbn; try done.
Qed.

Lemma last_reverse_head {A} (l : list A) : last l = head (reverse l).
Proof. induction l as [|x l _] using rev_ind; [done|]. by rewrite last_snoc, reverse_snoc. Qed.

Lemma chain_member_records key es records : Forall (fun e => wf_metablock (le_metablock e)) es ->
  exists stop r, visit_records (chain_member key) (entry_record <$> es) records None =
    (le_pos <$> head (keyed key es), Done (stop, r)).
Proof.
  intros Hwf. revert records. induction es as [|e es IH]; intros records; [by eexists _, _|].
  inversion Hwf as [|? ? He Hes]; subst. cbn [fmap list_fmap visit_records entry_record].
  unfold effect_map_err, mbind, effect_bind, chain_member at 1. rewrite (chain_key_read _ He).
  unfold keyed. rewrite filter_cons. case_bool_decide; case_decide; try done; [by eexists _, _|].
  by apply IH.
Qed.

(** ** One segment *)

Section segment.
Context (cache : LogSegmentsCache) (sc : ReverseMetablockScanner).
Context (Halign : 0 < lc_alignment cache /\ Z.of_nat FIXED_BLOCK_SIZE_BYTES mod lc_alignment cache = 0).
Context (Hchunk : Z.of_nat FIXED_BLOCK_SIZE_BYTES <= chunk_size sc /\ chunk_size sc mod Z.of_nat FIXED_BLOCK_SIZE_BYTES = 0).
Context (log_id : Z) (seg : LogSegmentFile) (tip0 : bytes) (log : list LogEntry).
Context (Hlog : segment_holds seg tip0 log) (Hreads : complete_reads (dma_file cache log_id seg)).

(** The entries below an upper bound of the scan. *)
Definition entries_below (end_ : Z) : nat :=
  Z.to_nat ((end_ - Z.of_nat HEADER_BLOCK_SIZE_BYTES) / Z.of_nat FIXED_BLOCK_SIZE_BYTES).

Lemma entries_below_length end_ : end_ <= mp seg -> (entries_below end_ <= length log)%nat.
Proof.
  intros He. rewrite (sh_end _ _ _ Hlog), Nat2Z.inj_add, Nat2Z.inj_mul in He. unfold entries_below.
  assert (0 < Z.of_nat FIXED_BLOCK_SIZE_BYTES) by done.
  assert (Hd : (end_ - Z.of_nat HEADER_BLOCK_SIZE_BYTES) / Z.of_nat FIXED_BLOCK_SIZE_BYTES <=
          (Z.of_nat (length log) * Z.of_nat FIXED_BLOCK_SIZE_BYTES) / Z.of_nat FIXED_BLOCK_SIZE_BYTES)
    by (apply Z.div_le_mono; lia).
  rewrite Z.div_mul in Hd by lia. lia.
Qed.

Lemma read_segment {S' E'} (v : Z -> bytes -> effect S' E' bool) end_ s :
  Z.of_nat HEADER_BLOCK_SIZE_BYTES < end_ <= mp seg ->
  read_fixed_records_visit_const v FIXED_BLOCK_SIZE_BYTES (dma_file cache log_id seg) true
    (Z.of_nat HEADER_BLOCK_SIZE_BYTES) end_ (chunk_size sc) s =
  (visit_records v (entry_record <$> reverse (take (entries_below end_) log)) 0 ≫= fun '(_, r) => mret r) s.
Proof.
  intros He. unfold read_fixed_records_visit_const.
  set (N := Z.of_nat FIXED_BLOCK_SIZE_BYTES) in *. set (h := Z.of_nat HEADER_BLOCK_SIZE_BYTES) in *.
  assert (HN : N = 1024) by done. assert (Hh : h mod N = 0) by done.
  assert (Hal : lc_alignment cache <= N).
  { destruct Halign as [Ha Hm]. apply Z.mod_divide in Hm as Hm; [|lia]. apply Z.divide_pos_le in Hm; lia. }
  cbn [dma_file df_alignment]. replace (negb _) with false
    by (symmetry; apply negb_false_iff; rewrite !andb_true_iff, !Z.ltb_lt, !Z.leb_le, !Z.eqb_eq; naive_solver lia).
  pose proof (dp_bounds seg (sh_ok _ _ _ Hlog)). pose proof (Z.div_mod (end_ - h) N ltac:(lia)).
  pose proof (Z.mod_pos_bound (end_ - h) N ltac:(lia)).
  assert (Hq : 0 <= (end_ - h) / N) by (apply Z.div_pos; lia).
  assert (Hv : h + (end_ - h) / N * N <= end_) by lia.
  rewrite read_reverse_spec; [|lia|done|lia|cbn [dma_file df_contents]; lia| |apply Hchunk|apply Hchunk|lia].
  - unfold file_records. fold (file_records FIXED_BLOCK_SIZE_BYTES (dma_file cache log_id seg) h (h + (end_ - h) / N * N)).
    replace ((end_ - h) / N) with (Z.of_nat (entries_below end_)) at 1
      by (unfold entries_below; fold h; fold N; lia).
    rewrite (log_records _ _ _ _ _ _ Hlog (entries_below_length end_ ltac:(lia))). by rewrite <- fmap_reverse.
  - replace (h + (end_ - h) / N * N - h) with ((end_ - h) / N * N) by lia. apply Z.mod_mul. lia.
Qed.

Lemma scan_records_spec end_ s : Z.of_nat HEADER_BLOCK_SIZE_BYTES < end_ <= mp seg ->
  scan_records visitor log_id (dma_file cache log_id seg) (chunk_size sc) (Z.of_nat HEADER_BLOCK_SIZE_BYTES) end_ s =
  effect_map_err Visitor (visit_entries (pair log_id <$> reverse (take (entries_below end_) log))) s.
Proof.
  intros He. rewrite <- (found_records log_id _ 0). unfold scan_records, effect_map_err.
  rewrite read_segment by done.
  by destruct (mbind (M := effect _ _) _ _ _) as [[s' found] [r|e|]].
Qed.

Lemma entries_wf m : Forall (fun e => wf_metablock (le_metablock e)) (take m log).
Proof.
  apply Forall_take, Forall_lookup. intros i e Hi. by destruct (sh_entry _ _ _ Hlog _ _ Hi) as (_ & _ & ? & _).
Qed.

Lemma find_first_spec key end_ : Z.of_nat HEADER_BLOCK_SIZE_BYTES < end_ <= mp seg ->
  find_first_chain_member (E := E) log_id (dma_file cache log_id seg) (chunk_size sc)
    (Z.of_nat HEADER_BLOCK_SIZE_BYTES) end_ key = Done (le_pos <$> last (keyed key (take (entries_below end_) log))).
Proof.
  intros He. unfold find_first_chain_member. rewrite read_segment by done. unfold mbind, effect_bind.
  destruct (chain_member_records key (reverse (take (entries_below end_) log)) 0) as (stop & r & ->).
  { rewrite reverse_Permutation. apply entries_wf. }
  cbn. unfold keyed. by rewrite filter_reverse, <- last_reverse_head.
Qed.

(** A window of the file. *)
Definition true_window (win : option (Z * bytes)) : Prop :=
  match win with
  | Some (win_start, buf) => 0 <= win_start /\ slice (contents seg) (Z.to_nat win_start) (length buf) = buf
  | None => True
  end.

Lemma window_block i e win : log !! i = Some e -> Z.of_nat FIXED_BLOCK_SIZE_BYTES <= chain_follow_window sc ->
  true_window win ->
  exists w, window_for (E := E) log_id (dma_file cache log_id seg) (chain_follow_window sc)
      (Z.of_nat HEADER_BLOCK_SIZE_BYTES) win (le_pos e) = Done w /\ true_window (Some w) /\
    block_at (E := E) log_id (le_pos e) (Z.to_nat (le_pos e - w.1)) w.2 = Done (metablock_block (le_metablock e)).
Proof.
  intros Hi Hw Htrue. destruct (sh_entry _ _ _ Hlog _ _ Hi) as (Hp & _ & _ & Hb & _).
  pose proof (dp_bounds seg (sh_ok _ _ _ Hlog)) as Hdp. pose proof (sh_end _ _ _ Hlog) as Hend.
  pose proof (lookup_lt_Some _ _ _ Hi) as Hlt.
  pose proof (Nat.mul_le_mono_r (Datatypes.S i) (length log) FIXED_BLOCK_SIZE_BYTES Hlt) as Hmul.
  assert (Hblock : forall win_start buf, 0 <= win_start -> slice (contents seg) (Z.to_nat win_start) (length buf) = buf ->
    win_start <= le_pos e -> le_pos e + Z.of_nat FIXED_BLOCK_SIZE_BYTES <= win_start + Z.of_nat (length buf) ->
    block_at (E := E) log_id (le_pos e) (Z.to_nat (le_pos e - win_start)) buf = Done (metablock_block (le_metablock e))).
  { intros ws buf H1' H2' H3' H4'. unfold block_at. rewrite decide_True by lia. rewrite <- H2', slice_slice by lia.
    rewrite <- Hb. do 2 f_equal. lia. }
  assert (Hfresh : exists w, fresh_window (E := E) log_id (dma_file cache log_id seg) (chain_follow_window sc)
      (Z.of_nat HEADER_BLOCK_SIZE_BYTES) (le_pos e) = Done w /\ true_window (Some w) /\
    block_at (E := E) log_id (le_pos e) (Z.to_nat (le_pos e - w.1)) w.2 = Done (metablock_block (le_metablock e))).
  { unfold fresh_window, read_at. set (ws := Z.max _ _). set (len := _ - ws).
    assert (Hws : Z.of_nat HEADER_BLOCK_SIZE_BYTES <= ws <= le_pos e) by (unfold ws, saturating_sub; lia).
    assert (Hlen : 0 <= len /\ ws + len = le_pos e + Z.of_nat FIXED_BLOCK_SIZE_BYTES) by (unfold len; lia).
    rewrite Hreads by (cbn [dma_file df_contents]; lia). cbn [mbind option_bind dma_file df_contents].
    assert (Hl : length (slice (contents seg) (Z.to_nat ws) (Z.to_nat len)) = Z.to_nat len)
      by (rewrite length_slice; lia).
    rewrite Hl. case_bool; [lia|]. eexists. split; [done|]. cbn [true_window fst snd].
    rewrite Hl. split; [split; [lia|done]|]. apply Hblock; rewrite ?Hl; (lia || done). }
  destruct win as [[ws buf]|]; [|exact Hfresh]. cbn [window_for].
  destruct (covered_by (Some (ws, buf)) (le_pos e)) eqn:Ec; [|exact Hfresh].
  cbn [covered_by] in Ec. rewrite andb_true_iff, !Z.leb_le in Ec. destruct Htrue. exists (ws, buf). split_and!; [done..|].
  cbn [fst snd]. apply Hblock; [done..|lia|lia].
Qed.

Lemma follow_chain_spec key i e win fuel s :
  log !! i = Some e -> chain_aggregate_key (le_metablock e) = Some key ->
  Z.of_nat FIXED_BLOCK_SIZE_BYTES <= chain_follow_window sc -> true_window win -> (Z.to_nat (le_pos e) < fuel)%nat ->
  follow_chain visitor fuel log_id (dma_file cache log_id seg) (chain_follow_window sc)
    (Z.of_nat HEADER_BLOCK_SIZE_BYTES) key win (le_pos e) s =
  effect_map_err Visitor (visit_entries (pair log_id <$> reverse (keyed key (take (Datatypes.S i) log)))) s.
Proof.
  intros Hi Hk Hw. revert i e win s Hi Hk. induction fuel as [|fuel IH]; intros i e win s Hi Hk Ht Hf; [lia|].
  destruct (window_block i e win Hi Hw Ht) as (w & Ew & Htw & Eb).
  destruct (sh_entry _ _ _ Hlog _ _ Hi) as (Hp & _ & Hwf & _). pose proof (sh_backlinks _ _ _ Hlog _ _ _ Hi Hk) as Hback.
  rewrite (keyed_take_S _ _ _ _ Hi Hk), reverse_snoc. cbn [follow_chain fmap list_fmap visit_entries].
  unfold mbind, effect_bind, pure. rewrite Ew, Eb, (chain_key_read _ Hwf), Hk. cbn [or_panic].
  rewrite bool_decide_eq_true_2 by done. cbn [negb].
  unfold effect_map_err. destruct (visitor log_id (le_pos e) _ s) as [s' [[x|]|e'|]]; [done| |done|done].
  destruct (read_common _ Hwf) as (_ & _ & _ & _ & _ & ->). cbn [or_panic]. rewrite Hback, chain_tips_last.
  destruct (last (keyed key (take i log))) as [e'|] eqn:El; cbn [fmap option_fmap option_map default].
  - destruct (keyed_last _ _ _ El) as (j & Hj & Hkj & ->).
    assert (j < i)%nat as Hji by (apply lookup_lt_Some in Hj; rewrite length_take in Hj; lia).
    rewrite lookup_take_lt in Hj by done. destruct (sh_entry _ _ _ Hlog _ _ Hj) as (Hpj & _).
    pose proof (Nat.mul_le_mono_r (Datatypes.S j) i FIXED_BLOCK_SIZE_BYTES Hji) as Hmul.
    assert (0 < Z.of_nat FIXED_BLOCK_SIZE_BYTES) by done.
    assert (Hdown : Z.of_nat HEADER_BLOCK_SIZE_BYTES <= le_pos e' < le_pos e) by lia.
    unfold id. replace ((le_pos e' <? _) || _) with false by (symmetry; rewrite orb_false_iff, Z.ltb_ge, Z.leb_gt; lia).
    rewrite (IH j e' (Some w) s' Hj Hkj Htw) by lia.
    rewrite take_take, Nat.min_l by lia. done.
  - replace (0 <? _) with true by done. cbn [orb].
    apply last_None in El. by rewrite El.
Qed.

(** *** What the scan of the segment visits *)

Definition upper_bound (override_end : option Z) (position : Z) : Z := Z.min (default position override_end) position.

Definition visible (override_end : option Z) : list LogEntry :=
  match cursor_position sc seg with
  | None => []
  | Some position => take (entries_below (upper_bound override_end position)) log
  end.

Definition selected (es : list LogEntry) : list LogEntry :=
  match sc_chain_aggregate_key sc with Some key => keyed key es | None => es end.

(** An entry the filters of the scanner ask for: any, if it has none. *)
Definition wanted (e : LogEntry) : Prop :=
  (bloom_filter_hash sc = None /\ client_bloom_filter_hash sc = None) \/
  exists key client_id, bloom_keys (le_metablock e) = Some (key, client_id) /\
    (forall h, bloom_filter_hash sc = Some h -> AggregateKey_bloom_hash key = h) /\
    (forall h, client_bloom_filter_hash sc = Some h -> client_id_bloom_hash client_id = h).

Definition hashes_ok : Prop :=
  (forall h, bloom_filter_hash sc = Some h -> u64 h) /\ (forall h, client_bloom_filter_hash sc = Some h -> u64 h).

Lemma may_contain_total b h : segment_bloom_ok b -> u64 h -> exists r, bloom_may_contain_hash b h = Some r.
Proof.
  intros Hb Hh. unfold bloom_may_contain_hash. destruct (is_absent b) eqn:Ea; [by eexists|].
  destruct Hb as [?|Hb]; [congruence|]. destruct (contains_total _ _ Hb Hh) as [r ->]. by eexists.
Qed.

Lemma scan_gate_spec : hashes_ok ->
  exists gate, scan_gate sc seg = Some gate /\
  match gate with
  | Some position => cursor_position sc seg = Some position
  | None => cursor_position sc seg = None \/ Forall (fun e => ~ wanted e) log
  end.
Proof.
  intros [Hh Hc]. unfold scan_gate. destruct (cursor_position sc seg) as [p|]; [|exists None; by split; [|left]].
  destruct (so_blooms _ (sh_ok _ _ _ Hlog)) as [Hb1 Hb2].
  assert (Hcov : forall e, e ∈ log -> bloom_covers seg (le_metablock e)).
  { intros e [i Hi]%list_elem_of_lookup. by destruct (sh_entry _ _ _ Hlog _ _ Hi) as (_ & _ & _ & _ & ?). }
  assert (Hclient : exists gate, (client_skip ← match client_bloom_filter_hash sc with
        | None => Some false | Some hash => negb <$> bloom_may_contain_hash (client_id_bloom seg) hash end;
      Some (if client_skip : bool then None else Some p)) = Some gate /\
    match gate with Some position => Some p = Some position
    | None => Some p = None \/ Forall (fun e => ~ wanted e) log end).
  { destruct (client_bloom_filter_hash sc) as [h|] eqn:Eh; [|by eexists].
    destruct (may_contain_total _ h Hb2 (Hc h eq_refl)) as [[|] Er]; rewrite Er; [by eexists|].
    eexists. split; [done|]. right. apply Forall_forall. intros e He [[_ ?]|(key & cl & Ek & _ & H2')]; [congruence|].
    specialize (Hcov e He). unfold bloom_covers in Hcov. rewrite Ek, (H2' h Eh) in Hcov. destruct Hcov. congruence. }
  destruct (bloom_filter_hash sc) as [h|] eqn:Eh; [|exact Hclient].
  destruct (is_absent (aggregate_key_bloom seg)) eqn:Ea; [exact Hclient|].
  destruct (may_contain_total _ h Hb1 (Hh h eq_refl)) as [[|] Er]; rewrite Er; [exact Hclient|].
  eexists. split; [done|]. right. apply Forall_forall. intros e He [[? _]|(key & cl & Ek & H1' & _)]; [congruence|].
  specialize (Hcov e He). unfold bloom_covers, bloom_may_contain in Hcov. rewrite Ek, (H1' h Eh) in Hcov.
  destruct Hcov. congruence.
Qed.

(** A hint of the caller: a segment to skip holds no wanted entry, and a block
    to seek to is a block of the segment, the chain's newest if it is one of
    the chain at all. *)
Definition hint_ok (override_end : option Z) (key : AggregateKey) : Prop :=
  match hints ← segment_hints sc; hints !! log_id with
  | None => True
  | Some Skip => Forall (fun e => ~ wanted e) (keyed key (visible override_end))
  | Some (SeekTo p) =>
      exists i, p = Z.of_nat (HEADER_BLOCK_SIZE_BYTES + i * FIXED_BLOCK_SIZE_BYTES) /\
      forall e, visible override_end !! i = Some e -> chain_aggregate_key (le_metablock e) = Some key ->
        last (keyed key (visible override_end)) = Some e
  end.

Lemma entries_below_upto end_ i : (i < entries_below end_)%nat <->
  Z.of_nat (HEADER_BLOCK_SIZE_BYTES + i * FIXED_BLOCK_SIZE_BYTES) + Z.of_nat FIXED_BLOCK_SIZE_BYTES <= end_.
Proof.
  unfold entries_below. rewrite Nat2Z.inj_add, Nat2Z.inj_mul.
  assert (0 < Z.of_nat FIXED_BLOCK_SIZE_BYTES) by done.
  set (N := Z.of_nat FIXED_BLOCK_SIZE_BYTES) in *. set (h := Z.of_nat HEADER_BLOCK_SIZE_BYTES) in *.
  pose proof (Z.div_mod (end_ - h) N ltac:(lia)). pose proof (Z.mod_pos_bound (end_ - h) N ltac:(lia)).
  split; intros Hi; nia.
Qed.

(** The verified hint is the chain's newest block, and its window is a window
    of the file. *)
Lemma hinted_start_spec override_end key position :
  cursor_position sc seg = Some position -> position <= mp seg -> hint_ok override_end key ->
  exists win, hinted_start (E := E) log_id (dma_file cache log_id seg) (Z.of_nat HEADER_BLOCK_SIZE_BYTES)
      (upper_bound override_end position) key (hints ← segment_hints sc; hints !! log_id) = Done win /\
    true_window win /\
    match win with
    | Some (p, _) => exists e, last (keyed key (visible override_end)) = Some e /\ p = le_pos e
    | None => True
    end.
Proof.
  unfold hint_ok, visible. intros Hpos Hle Hok. rewrite Hpos in Hok |- *.
  destruct (hints ← segment_hints sc; hints !! log_id) as [[|p]|]; cbn [hinted_start]; try (by exists None).
  destruct Hok as (i & -> & Hlast). set (end_ := upper_bound override_end position) in *.
  set (p := Z.of_nat (HEADER_BLOCK_SIZE_BYTES + i * FIXED_BLOCK_SIZE_BYTES)) in *.
  destruct (_ && _) eqn:Ein; [|by exists None].
  assert (He : p + Z.of_nat FIXED_BLOCK_SIZE_BYTES <= end_).
  { apply andb_true_iff in Ein as [_ Ein]. destruct (checked_add 64 p _) eqn:Ea; [|done].
    apply checked_add_Some in Ea as [-> _]. lia. }
  apply entries_below_upto in He as Hi. assert (Hend : end_ <= mp seg) by (unfold end_, upper_bound; lia).
  pose proof (entries_below_length end_ Hend). destruct (lookup_lt_is_Some_2 log i) as [e Hlk]; [lia|].
  destruct (sh_entry _ _ _ Hlog _ _ Hlk) as (Hp & _ & Hwf & Hb & _). fold p in Hp.
  pose proof (dp_bounds seg (sh_ok _ _ _ Hlog)).
  unfold read_at. rewrite Hreads by (cbn [dma_file df_contents]; lia). cbn [mbind option_bind dma_file df_contents].
  rewrite Nat2Z.id, <- Hp, Hb, length_metablock_block by done.
  rewrite decide_False by lia.
  replace (slice (metablock_block (le_metablock e)) 0 FIXED_BLOCK_SIZE_BYTES) with (metablock_block (le_metablock e))
    by (rewrite <- (length_metablock_block _ Hwf); symmetry; apply slice_full).
  rewrite (chain_key_read _ Hwf). cbn [or_panic mbind outcome_bind]. case_bool_decide as Hk; [|by eexists].
  eexists. split; [done|]. cbn [true_window]. rewrite length_metablock_block by done. split; [split; [lia|done]|].
  exists e. split; [|done]. apply Hlast; [|done]. by rewrite lookup_take_lt.
Qed.

(** The segment is open, and its cursor inside the written part. *)
Definition segment_open : Prop :=
  lc_get cache log_id = Some seg /\ lc_lock cache log_id = true /\ lc_handle cache log_id = true /\
  (forall position, cursor_position sc seg = Some position -> position <= mp seg).

(** The part of a scan in one segment: its visible entries from the newest, or
    nothing because none of them is wanted. *)
Definition segment_visit (override_end : option Z) (v : list LogEntry) : Prop :=
  v = reverse (selected (visible override_end)) \/
  v = [] /\ Forall (fun e => ~ wanted e) (selected (visible override_end)).

Lemma nothing_below end_ : end_ <= Z.of_nat HEADER_BLOCK_SIZE_BYTES -> take (entries_below end_) log = [].
Proof.
  intros He. replace (entries_below end_) with 0%nat; [done|].
  destruct (entries_below end_) eqn:En; [done|]. pose proof (proj1 (entries_below_upto end_ 0) ltac:(lia)).
  assert (0 < Z.of_nat FIXED_BLOCK_SIZE_BYTES) by done. lia.
Qed.

Lemma selected_wanted es : Forall (fun e => ~ wanted e) es -> Forall (fun e => ~ wanted e) (selected es).
Proof.
  intros Hes. unfold selected. destruct (sc_chain_aggregate_key sc); [|done].
  apply Forall_forall. intros e [_ He]%list_elem_of_filter. rewrite Forall_forall in Hes. by apply Hes.
Qed.

Lemma visible_wanted override_end : Forall (fun e => ~ wanted e) log ->
  Forall (fun e => ~ wanted e) (selected (visible override_end)).
Proof.
  intros Hl. apply selected_wanted. unfold visible. destruct (cursor_position sc seg); [by apply Forall_take|done].
Qed.

Lemma scan_single_log_spec override_end : hashes_ok -> segment_open -> sc_chain_aggregate_key sc = None ->
  exists v, segment_visit override_end v /\
  forall s, scan_single_log visitor cache sc log_id override_end s = effect_map_err Visitor (visit_entries (pair log_id <$> v)) s.
Proof.
  intros Hh (Hget & Hlock & Hhandle & Hpos) Hkey. destruct (scan_gate_spec Hh) as (gate & Eg & Hg).
  assert (Hdo : forall s, scan_single_log visitor cache sc log_id override_end s =
    match gate with None => mret None | Some position =>
      if upper_bound override_end position <=? Z.of_nat HEADER_BLOCK_SIZE_BYTES then mret None
      else scan_records visitor log_id (dma_file cache log_id seg) (chunk_size sc) (Z.of_nat HEADER_BLOCK_SIZE_BYTES)
             (upper_bound override_end position) end s).
  { intros s. unfold scan_single_log, mbind, effect_bind, pure. rewrite Hget, Eg. cbn [or_panic].
    destruct gate; [|done]. unfold locked_file. by rewrite Hlock, Hhandle. }
  unfold segment_visit, selected. rewrite Hkey.
  destruct gate as [p|].
  - specialize (Hpos p Hg). unfold visible. rewrite Hg.
    destruct (Z.leb_spec (upper_bound override_end p) (Z.of_nat HEADER_BLOCK_SIZE_BYTES)) as [Hle|Hgt].
    + exists []. rewrite nothing_below by done. split; [by left|]. intros s. rewrite Hdo. cbn.
      replace (_ <=? _) with true by (symmetry; by apply Z.leb_le). done.
    + eexists. split; [by left|]. intros s. rewrite Hdo.
      replace (_ <=? _) with false by (symmetry; by apply Z.leb_gt).
      apply scan_records_spec. unfold upper_bound in *. lia.
  - exists []. split; [|intros s; by rewrite Hdo]. right. split; [done|].
    destruct Hg as [Hg|Hg]; [unfold visible; rewrite Hg; by constructor|].
    pose proof (visible_wanted override_end Hg) as Hv. unfold selected in Hv. by rewrite Hkey in Hv.
Qed.

Lemma chain_walk override_end position key win s :
  cursor_position sc seg = Some position -> position <= mp seg ->
  Z.of_nat HEADER_BLOCK_SIZE_BYTES < upper_bound override_end position ->
  Z.of_nat FIXED_BLOCK_SIZE_BYTES <= chain_follow_window sc -> true_window win ->
  match win with
  | Some (p, _) => exists e, last (keyed key (visible override_end)) = Some e /\ p = le_pos e
  | None => True
  end ->
  (resolved ← (match win with
               | Some (hint_pos, _) => mret (Some hint_pos)
               | None => pure (find_first_chain_member log_id (dma_file cache log_id seg) (chunk_size sc)
                   (Z.of_nat HEADER_BLOCK_SIZE_BYTES) (upper_bound override_end position) key)
               end);
   match resolved with
   | None => mret None
   | Some p => follow_chain visitor (Datatypes.S (Z.to_nat p)) log_id (dma_file cache log_id seg)
       (chain_follow_window sc) (Z.of_nat HEADER_BLOCK_SIZE_BYTES) key win p
   end) s = effect_map_err Visitor (visit_entries (pair log_id <$> reverse (keyed key (visible override_end)))) s.
Proof.
  intros Hc Hp Hb Hw Ht Hwin.
  assert (Hres : forall s, (match win with
               | Some (hint_pos, _) => mret (Some hint_pos)
               | None => pure (find_first_chain_member log_id (dma_file cache log_id seg) (chunk_size sc)
                   (Z.of_nat HEADER_BLOCK_SIZE_BYTES) (upper_bound override_end position) key)
               end : effect S (ScanError E) (option Z)) s = (s, Done (le_pos <$> last (keyed key (visible override_end))))).
  { intros s'. destruct win as [[p buf]|]; [by destruct Hwin as (e & -> & ->)|]. unfold pure.
    rewrite find_first_spec by (unfold upper_bound in *; lia). unfold visible. by rewrite Hc. }
  unfold mbind, effect_bind. rewrite Hres.
  destruct (last (keyed key (visible override_end))) as [e|] eqn:El; cbn [fmap option_fmap option_map];
    [|apply last_None in El; by rewrite El].
  destruct (keyed_last _ _ _ El) as (i & Hi & Hk & ->). unfold visible in *. rewrite Hc in *.
  pose proof (lookup_lt_Some _ _ _ Hi) as Hlt. rewrite length_take in Hlt.
  rewrite lookup_take_lt in Hi by lia. rewrite take_take, Nat.min_l by lia.
  apply follow_chain_spec; (done || lia).
Qed.

Lemma scan_chain_spec override_end key : hashes_ok -> segment_open -> sc_chain_aggregate_key sc = Some key ->
  Z.of_nat FIXED_BLOCK_SIZE_BYTES <= chain_follow_window sc -> hint_ok override_end key ->
  exists v, segment_visit override_end v /\
  forall s, scan_chain_single_log visitor cache sc log_id override_end key s =
    effect_map_err Visitor (visit_entries (pair log_id <$> v)) s.
Proof.
  intros Hh (Hget & Hlock & Hhandle & Hpos) Hkey Hw Hhint. destruct (scan_gate_spec Hh) as (gate & Eg & Hg).
  assert (Hsel : forall es, selected es = keyed key es) by (intros es; unfold selected; by rewrite Hkey).
  unfold segment_visit. unfold scan_chain_single_log. rewrite Hsel.
  destruct gate as [p|].
  2:{ exists []. split.
      - right. split; [done|]. destruct Hg as [Hg|Hg]; [unfold visible; rewrite Hg; by constructor|].
        rewrite <- Hsel. by apply visible_wanted.
      - intros s. unfold mbind, effect_bind, pure. by rewrite Hget, Eg. }
  specialize (Hpos p Hg).
  destruct (Z.leb_spec (upper_bound override_end p) (Z.of_nat HEADER_BLOCK_SIZE_BYTES)) as [Hle|Hgt].
  { exists []. split.
    - left. unfold visible. by rewrite Hg, nothing_below.
    - intros s. unfold mbind, effect_bind, pure. rewrite Hget, Eg. cbn [or_panic]. fold (upper_bound override_end p).
      by replace (_ <=? _) with true by (symmetry; by apply Z.leb_le). }
  destruct (hints ← segment_hints sc; hints !! log_id) as [[|hp]|] eqn:Ehint.
  { exists []. split.
    - right. split; [done|]. unfold hint_ok in Hhint. by rewrite Ehint in Hhint.
    - intros s. unfold mbind at 1 2, effect_bind at 1 2, pure. rewrite Hget, Eg. cbn [or_panic]. fold (upper_bound override_end p).
      replace (_ <=? _) with false by (symmetry; by apply Z.leb_gt). done. }
  all: destruct (hinted_start_spec override_end key p Hg Hpos Hhint) as (win & Ewin & Ht & Hwin); rewrite Ehint in Ewin;
    eexists; (split; [by left|]); intros s;
    rewrite <- (chain_walk override_end p key win s Hg Hpos Hgt Hw Ht Hwin);
    unfold mbind at 1 2, effect_bind at 1 2, pure at 1 2; rewrite Hget, Eg; cbn [or_panic]; fold (upper_bound override_end p);
    replace (_ <=? _) with false by (symmetry; by apply Z.leb_gt);
    unfold locked_file; rewrite Hlock, Hhandle; unfold mbind at 1 2, effect_bind at 1 2, pure at 1 2; cbn [negb];
    by rewrite Ewin.
Qed.
End segment.

(** ** All segments *)

(** The segments of a scan, from the newest. *)
Fixpoint scan_ids (n : nat) (log_id : Z) : list Z :=
  match n with O => [] | Datatypes.S n => log_id :: scan_ids n (log_id - 1) end.

Definition in_order (visits : list (Z * list LogEntry)) : list (Z * LogEntry) :=
  flat_map (fun p : Z * list LogEntry => pair p.1 <$> p.2) visits.

Definition scanned_segments (sc : ReverseMetablockScanner) : list Z :=
  scan_ids (Z.to_nat (current_log_id sc - min_log_id sc + 1)) (current_log_id sc).

(** The starting position only applies to the first. *)
Definition override_of (sc : ReverseMetablockScanner) (log_id : Z) : option Z :=
  if log_id =? current_log_id sc then start_from_position sc else None.

Record scanner_ok (cache : LogSegmentsCache) (sc : ReverseMetablockScanner) : Prop := {
  sk_alignment : 0 < lc_alignment cache /\ Z.of_nat FIXED_BLOCK_SIZE_BYTES mod lc_alignment cache = 0;
  sk_chunk : Z.of_nat FIXED_BLOCK_SIZE_BYTES <= chunk_size sc /\ chunk_size sc mod Z.of_nat FIXED_BLOCK_SIZE_BYTES = 0;
  sk_window : Z.of_nat FIXED_BLOCK_SIZE_BYTES <= chain_follow_window sc;
  sk_hashes : hashes_ok sc;
}.

(** A segment of the cache that holds a log, with its storage working. *)
Record segment_scannable (cache : LogSegmentsCache) (sc : ReverseMetablockScanner) (log_id : Z)
    (seg : LogSegmentFile) (log : list LogEntry) : Prop := {
  ss_holds : exists tip0, segment_holds seg tip0 log;
  ss_reads : complete_reads (dma_file cache log_id seg);
  ss_open : segment_open cache sc log_id seg;
  ss_hint key : sc_chain_aggregate_key sc = Some key -> hint_ok sc log_id seg log (override_of sc log_id) key;
}.

Section log_scan.
Context (cache : LogSegmentsCache) (sc : ReverseMetablockScanner) (Hsc : scanner_ok cache sc).
Context (segs : Z -> LogSegmentFile) (logs : Z -> list LogEntry).

Lemma scan_segment_spec log_id : segment_scannable cache sc log_id (segs log_id) (logs log_id) ->
  exists v, segment_visit sc (segs log_id) (logs log_id) (override_of sc log_id) v /\
  forall s, (match sc_chain_aggregate_key sc with
             | Some key => scan_chain_single_log visitor cache sc log_id (override_of sc log_id) key
             | None => scan_single_log visitor cache sc log_id (override_of sc log_id)
             end) s = effect_map_err Visitor (visit_entries (pair log_id <$> v)) s.
Proof.
  intros [(tip0 & Hlog) Hreads Hopen Hhint]. destruct Hsc.
  destruct (sc_chain_aggregate_key sc) as [key|] eqn:Ek.
  - eapply scan_chain_spec; eauto.
  - eapply scan_single_log_spec; eauto.
Qed.

Lemma scan_from_spec n log_id :
  log_id <= current_log_id sc ->
  (forall id, id ∈ scan_ids n log_id -> segment_scannable cache sc id (segs id) (logs id)) ->
  exists visits : list (Z * list LogEntry), visits.*1 = scan_ids n log_id /\
    Forall (fun '(id, v) => segment_visit sc (segs id) (logs id) (override_of sc id) v) visits /\
    forall s, scan_from visitor cache n sc log_id (override_of sc log_id) s =
      effect_map_err Visitor (visit_entries (in_order visits)) s.
Proof.
  revert log_id. induction n as [|n IH]; intros log_id Hle Hall; [by exists []|].
  cbn [scan_ids scan_from] in *. destruct (scan_segment_spec log_id) as (v & Hv & Ev); [apply Hall; by left|].
  destruct (IH (log_id - 1)) as (visits & Hids & Hvs & Es); [lia|intros id Hid; apply Hall; by right|].
  exists ((log_id, v) :: visits). split_and!; [by rewrite <- Hids|by constructor|]. intros s.
  change (in_order ((log_id, v) :: visits)) with ((pair log_id <$> v) ++ in_order visits).
  unfold mbind, effect_bind. rewrite Ev. unfold effect_map_err.
  rewrite visit_entries_app. unfold mbind, effect_bind.
  destruct (visit_entries (pair log_id <$> v) s) as [s' [[x|]|e|]]; [done| |done|done].
  replace (override_of sc (log_id - 1)) with (@None Z) in Es
    by (unfold override_of; case_bool; [lia|done]).
  apply Es.
Qed.

Lemma scan_spec :
  (forall id, id ∈ scanned_segments sc -> segment_scannable cache sc id (segs id) (logs id)) ->
  exists visits : list (Z * list LogEntry), visits.*1 = scanned_segments sc /\
    Forall (fun '(id, v) => segment_visit sc (segs id) (logs id) (override_of sc id) v) visits /\
    forall s, scan visitor cache sc s =
      effect_map_err Visitor (visit_entries (in_order visits)) s.
Proof.
  intros Hall. unfold scan. replace (start_from_position sc) with (override_of sc (current_log_id sc))
    by (unfold override_of; by rewrite Z.eqb_refl).
  apply scan_from_spec; [lia|exact Hall].
Qed.

(** Without a client filter every entry of the chain is wanted: nothing is left
    out. *)
Lemma chain_visit_exact key id ov v : sc_chain_aggregate_key sc = Some key ->
  bloom_filter_hash sc = Some (AggregateKey_bloom_hash key) -> client_bloom_filter_hash sc = None ->
  segment_visit sc (segs id) (logs id) ov v -> v = reverse (keyed key (visible sc (segs id) (logs id) ov)).
Proof.
  intros Hk Hb Hc [->|[-> Hno]]; unfold selected in *; rewrite Hk in *; [done|].
  destruct (keyed key _) as [|e es] eqn:Ee; [done|]. inversion Hno as [|? ? Hw _]; subst. destruct Hw.
  assert (He : e ∈ keyed key (visible sc (segs id) (logs id) ov)) by (rewrite Ee; by left).
  apply list_elem_of_filter in He as [He _]. unfold wanted, bloom_keys. unfold chain_aggregate_key in He.
  rewrite Hb, Hc. destruct (wal_metablock_type (le_metablock e)); naive_solver.
Qed.

(** A scan without filters leaves nothing out. *)
Lemma plain_visit_exact id ov v : sc_chain_aggregate_key sc = None ->
  bloom_filter_hash sc = None -> client_bloom_filter_hash sc = None ->
  segment_visit sc (segs id) (logs id) ov v -> v = reverse (visible sc (segs id) (logs id) ov).
Proof.
  intros Hk Hb Hc [->|[-> Hno]]; unfold selected in *; rewrite Hk in *; [done|].
  destruct (visible _ _ _ _) as [|e es]; [done|]. inversion Hno as [|? ? Hw _]; subst. destruct Hw. by left.
Qed.
End log_scan.
End visits.

(** ** On arbitrary bytes *)

Lemma read_u64_total b off : (off + 8 <= length b)%nat -> is_Some (read_u64_le b off).
Proof. intros Ho. unfold read_u64_le, get_slice. rewrite decide_True by done. by eexists. Qed.

Lemma read_u128_total b off : (off + 16 <= length b)%nat -> exists v, read_u128_le b off = Some v.
Proof. intros Ho. unfold read_u128_le, get_slice. rewrite decide_True by done. by eexists. Qed.

Lemma read_chain_key_total b : length b = FIXED_BLOCK_SIZE_BYTES -> exists k, read_chain_aggregate_key b = Some k.
Proof.
  intros Hb. unfold read_chain_aggregate_key, read_metablock_kind_discriminant.
  destruct (lookup_lt_is_Some_2 b (HEADER_SIZE + MetablockLayout.OFFSET_WAL_METABLOCK_TYPE)) as [d ->].
  { rewrite Hb. apply Nat.ltb_lt. by vm_compute. }
  assert (Hread : forall off, (off + 16 <=? FIXED_BLOCK_SIZE_BYTES)%nat = true -> exists v, read_u128_le b off = Some v).
  { intros off Ho. apply read_u128_total. rewrite Hb. by apply Nat.leb_le. }
  cbn [mbind option_bind]. repeat case_bool; [| | |by eexists];
    unfold read_event_batch_aggregate_key, read_event_batch_org_id, read_event_batch_aggregate_type_id,
      read_event_batch_aggregate_id, read_soft_delete_aggregate_key, read_soft_delete_org_id,
      read_soft_delete_aggregate_type_id, read_soft_delete_aggregate_id, read_soft_trim_aggregate_key,
      read_soft_trim_org_id, read_soft_trim_aggregate_type_id, read_soft_trim_aggregate_id;
    repeat match goal with |- context [read_u128_le b ?off] =>
      let v := fresh "v" in destruct (Hread off) as [v ->]; [by vm_compute|]; cbn [mbind option_bind] end;
    by eexists.
Qed.

Definition never_panics {S E A} (m : effect S E A) : Prop := forall s, (m s).2 <> Panicked.

Lemma never_panics_bind {S E A B} (m : effect S E A) (f : A -> effect S E B) :
  never_panics m -> (forall a, never_panics (f a)) -> never_panics (m ≫= f).
Proof.
  intros Hm Hf s. unfold mbind, effect_bind. specialize (Hm s). destruct (m s) as [s' [a|e|]]; [apply Hf|done|done].
Qed.

Lemma never_panics_map {S E F A} (g : E -> F) (m : effect S E A) : never_panics m -> never_panics (effect_map_err g m).
Proof. intros Hm s. unfold effect_map_err. specialize (Hm s). by destruct (m s) as [s' [a|e|]]. Qed.

Lemma never_panics_ret {S E A} (a : A) : never_panics (mret a : effect S E A).
Proof. done. Qed.

Section robust.
Context {S E : Type} (v : Z -> bytes -> effect S E bool) (n : nat) (f : DmaFile).
Context (Hn : (0 < n)%nat) (Hv : forall pos b, length b = n -> never_panics (v pos b)).

Lemma length_records start chunk : Forall (fun r => length r.2 = n) (records_of n start chunk).
Proof.
  unfold records_of. apply Forall_fmap, Forall_forall. intros i Hi. cbn.
  apply elem_of_seq in Hi. pose proof (Nat.Div0.mul_div_le (length chunk) n).
  pose proof (Nat.mul_le_mono_r (Datatypes.S i) (length chunk / n) n). rewrite length_slice. lia.
Qed.

Lemma visit_records_robust rs records : Forall (fun r => length r.2 = n) rs -> never_panics (visit_records v rs records).
Proof.
  intros Hrs. revert records. induction Hrs as [|[p b] rs Hb _ IH]; intros records; cbn [visit_records]; [done|].
  apply never_panics_bind; [by apply never_panics_map, Hv|]. intros [|]; [done|apply IH].
Qed.

Lemma read_chunk_robust pos len : never_panics (read_chunk (S := S) (E := E) f pos len).
Proof. intros s. unfold read_chunk. destruct (read_at f pos len); [|done]. by case_bool. Qed.

Lemma read_reverse_robust fuel start pos chunk_size records :
  0 < chunk_size -> 0 <= start -> (Z.to_nat (pos - start) <= fuel)%nat ->
  never_panics (read_reverse_aligned v fuel n f start pos chunk_size records).
Proof.
  intros Hc Hs. revert pos records. induction fuel as [|fuel IH]; intros pos records Hf; cbn [read_reverse_aligned];
    (destruct (Z.ltb_spec start pos); cbn [negb]; [|done]); [lia|].
  apply never_panics_bind; [apply read_chunk_robust|]. intros chunk.
  apply never_panics_bind; [apply visit_records_robust; rewrite reverse_Permutation; apply length_records|].
  intros [[|] r]; [done|]. apply IH. unfold saturating_sub. lia.
Qed.
End robust.

Section robust_scan.
Context `{Xxh3} {S E T : Type} (visitor : Z -> Z -> bytes -> effect S E (option T)) (cache : LogSegmentsCache).
Context (Hv : forall log_id pos b, length b = FIXED_BLOCK_SIZE_BYTES -> never_panics (visitor log_id pos b)).
Context (sc : ReverseMetablockScanner) (Hsc : scanner_ok cache sc).

Lemma read_fixed_robust {S' E'} (v : Z -> bytes -> effect S' E' bool) f end_ :
  (forall pos b, length b = FIXED_BLOCK_SIZE_BYTES -> never_panics (v pos b)) ->
  df_alignment f = lc_alignment cache -> Z.of_nat HEADER_BLOCK_SIZE_BYTES < end_ ->
  never_panics (read_fixed_records_visit_const v FIXED_BLOCK_SIZE_BYTES f true (Z.of_nat HEADER_BLOCK_SIZE_BYTES)
                  end_ (chunk_size sc)).
Proof.
  intros Hvv Ha He. destruct Hsc as [[Ha1 Ha2] [Hc1 Hc2] _ _]. unfold read_fixed_records_visit_const. rewrite Ha.
  assert (0 < Z.of_nat FIXED_BLOCK_SIZE_BYTES) by done.
  assert (Hh : Z.of_nat HEADER_BLOCK_SIZE_BYTES mod Z.of_nat FIXED_BLOCK_SIZE_BYTES = 0) by done.
  assert (lc_alignment cache <= Z.of_nat FIXED_BLOCK_SIZE_BYTES)
    by (apply Z.divide_pos_le; [done|]; apply Z.mod_divide; [lia|done]).
  replace (negb _) with false
    by (symmetry; apply negb_false_iff; rewrite !andb_true_iff, !Z.ltb_lt, !Z.leb_le, !Z.eqb_eq; naive_solver lia).
  apply read_reverse_robust; (done || lia).
Qed.

Lemma scan_records_robust log_id seg end_ : Z.of_nat HEADER_BLOCK_SIZE_BYTES < end_ ->
  never_panics (scan_records visitor log_id (dma_file cache log_id seg) (chunk_size sc)
                  (Z.of_nat HEADER_BLOCK_SIZE_BYTES) end_).
Proof.
  intros He s. unfold scan_records.
  pose proof (never_panics_map (map_read_error log_id) _ (read_fixed_robust (found_record visitor log_id)
    (dma_file cache log_id seg) end_
    ltac:(intros pos b Hb [s' found]; unfold found_record; specialize (Hv log_id pos b Hb s');
          by destruct (visitor log_id pos b s') as [s'' [[?|]|?|]]) eq_refl He) (s, None)) as Hno.
  by destruct (effect_map_err _ _ _) as [[s' found] [r|e|]].
Qed.

Lemma find_first_robust log_id seg end_ key : Z.of_nat HEADER_BLOCK_SIZE_BYTES < end_ ->
  find_first_chain_member (E := E) log_id (dma_file cache log_id seg) (chunk_size sc)
    (Z.of_nat HEADER_BLOCK_SIZE_BYTES) end_ key <> Panicked.
Proof.
  intros He. unfold find_first_chain_member.
  pose proof (read_fixed_robust (chain_member key) (dma_file cache log_id seg) end_
    ltac:(intros pos b Hb s; unfold chain_member; destruct (read_chain_key_total b Hb) as [k ->]; by case_bool_decide)
    eq_refl He None) as Hno.
  by destruct (read_fixed_records_visit_const _ _ _ _ _ _ _ _) as [found [r|[]|]].
Qed.

Lemma block_at_length log_id pos off buf b : block_at (E := E) log_id pos off buf = Done b -> length b = FIXED_BLOCK_SIZE_BYTES.
Proof. unfold block_at. case_decide; [|done]. intros [= <-]. rewrite length_slice. lia. Qed.

Lemma window_robust log_id f window start win pos : window_for (E := E) log_id f window start win pos <> Panicked.
Proof.
  assert (Hf : fresh_window (E := E) log_id f window start pos <> Panicked)
    by (unfold fresh_window; destruct (read_at _ _ _); [by case_bool|done]).
  unfold window_for. destruct win; [|done]. by destruct (covered_by _ _).
Qed.

Lemma follow_chain_robust fuel log_id f window start key win pos : 0 <= start -> (Z.to_nat pos < fuel)%nat ->
  never_panics (follow_chain visitor fuel log_id f window start key win pos).
Proof.
  intros Hs. revert win pos. induction fuel as [|fuel IH]; intros win pos Hf; [lia|]. cbn [follow_chain].
  apply never_panics_bind; [intros s; apply window_robust|]. intros w s. unfold mbind, effect_bind, pure.
  destruct (block_at log_id pos _ w.2) as [b|e|] eqn:Eb; [|done|unfold block_at in Eb; by case_decide].
  apply block_at_length in Eb. destruct (read_chain_key_total b Eb) as [k ->]. cbn [or_panic].
  destruct (bool_decide (k = Some key)); [|done]. cbn [negb].
  pose proof (never_panics_map Visitor _ (Hv log_id pos b Eb) s) as Hno.
  destruct (effect_map_err Visitor (visitor log_id pos b) s) as [s' [[x|]|e|]]; [done| |done|done].
  destruct (read_u64_total b (HEADER_SIZE + MetablockLayout.OFFSET_PREVIOUS_AGGREGATE_METABLOCK_POS)) as [p Ep];
    [rewrite Eb; apply Nat.leb_le; by vm_compute|].
  unfold read_previous_aggregate_metablock_pos. rewrite Ep. cbn [or_panic].
  destruct (Z.ltb_spec p start); [done|]. destruct (Z.leb_spec pos p); [done|]. cbn [orb]. apply IH. lia.
Qed.

Lemma hinted_start_robust log_id f start end_ key hint : hinted_start (E := E) log_id f start end_ key hint <> Panicked.
Proof.
  unfold hinted_start. destruct hint as [[|p]|]; [done| |done]. destruct (_ && _); [|done].
  destruct (read_at f p _) as [buf|]; [|done]. case_decide as Hl; [done|].
  destruct (read_chain_key_total (slice buf 0 FIXED_BLOCK_SIZE_BYTES)) as [k ->]; [rewrite length_slice; lia|done].
Qed.

(** The blooms of every segment that opens are whole or absent. *)
Definition blooms_whole : Prop := forall log_id seg, lc_get cache log_id = Some seg ->
  segment_bloom_ok (aggregate_key_bloom seg) /\ segment_bloom_ok (client_id_bloom seg).

Lemma gate_robust log_id seg : blooms_whole -> lc_get cache log_id = Some seg -> is_Some (scan_gate sc seg).
Proof.
  intros Hb Hget. destruct (Hb _ _ Hget) as [H1 H2]. destruct (sk_hashes _ _ Hsc) as [Hh1 Hh2]. unfold scan_gate.
  destruct (cursor_position sc seg) as [p|]; [|by eexists].
  assert (Hc : is_Some (client_skip ← match client_bloom_filter_hash sc with
        | None => Some false | Some hash => negb <$> bloom_may_contain_hash (client_id_bloom seg) hash end;
      Some (if client_skip : bool then None else Some p))).
  { destruct (client_bloom_filter_hash sc) as [h|]; [|by eexists].
    destruct (may_contain_total _ h H2 (Hh2 h eq_refl)) as [r ->]. by eexists. }
  destruct (bloom_filter_hash sc) as [h|]; [|exact Hc]. destruct (is_absent _); [exact Hc|].
  destruct (may_contain_total _ h H1 (Hh1 h eq_refl)) as [[|] ->]; [exact Hc|by eexists].
Qed.

Lemma scan_single_robust log_id ov : blooms_whole -> never_panics (scan_single_log visitor cache sc log_id ov).
Proof.
  intros Hb s. unfold scan_single_log, mbind, effect_bind, pure. destruct (lc_get cache log_id) as [seg|] eqn:Eg; [|done].
  destruct (gate_robust log_id seg Hb Eg) as [[p|] ->]; cbn [or_panic]; [|done].
  unfold locked_file. destruct (lc_lock cache log_id), (lc_handle cache log_id); cbn [negb]; try done.
  destruct (Z.leb_spec (Z.min (default p ov) p) (Z.of_nat HEADER_BLOCK_SIZE_BYTES)); [done|].
  by apply scan_records_robust.
Qed.

Lemma scan_chain_robust log_id ov key : blooms_whole ->
  never_panics (scan_chain_single_log visitor cache sc log_id ov key).
Proof.
  intros Hb s. unfold scan_chain_single_log. unfold mbind at 1 2, effect_bind at 1 2, pure at 1 2.
  destruct (lc_get cache log_id) as [seg|] eqn:Eg; [|done].
  destruct (gate_robust log_id seg Hb Eg) as [[p|] ->]; cbn [or_panic]; [|done].
  destruct (Z.leb_spec (Z.min (default p ov) p) (Z.of_nat HEADER_BLOCK_SIZE_BYTES)) as [|Hlt]; [done|].
  set (hint := mbind _ _). assert (Hgo : never_panics (f ← pure (locked_file cache log_id seg);
      win ← pure (hinted_start (E := E) log_id f (Z.of_nat HEADER_BLOCK_SIZE_BYTES) (Z.min (default p ov) p) key hint);
      resolved ← (match win with
                  | Some (hint_pos, _) => mret (Some hint_pos)
                  | None => pure (find_first_chain_member log_id f (chunk_size sc) (Z.of_nat HEADER_BLOCK_SIZE_BYTES)
                                    (Z.min (default p ov) p) key)
                  end);
      match resolved with
      | None => mret None
      | Some p => follow_chain visitor (Datatypes.S (Z.to_nat p)) log_id f (chain_follow_window sc)
                    (Z.of_nat HEADER_BLOCK_SIZE_BYTES) key win p
      end)).
  { intros s'. unfold locked_file. destruct (lc_lock cache log_id), (lc_handle cache log_id); cbn [negb]; try done.
    unfold mbind at 1, effect_bind at 1, pure at 1. apply never_panics_bind; [intros ?; apply hinted_start_robust|].
    intros win. apply never_panics_bind.
    - destruct win as [[hp ?]|]; [done|]. intros ?. by apply find_first_robust.
    - intros [q|]; [|done]. apply follow_chain_robust; lia. }
  destruct hint as [[|]|]; [done|apply Hgo..].
Qed.

Lemma scan_robust : blooms_whole -> never_panics (scan visitor cache sc).
Proof.
  intros Hb. unfold scan. generalize (Z.to_nat (current_log_id sc - min_log_id sc + 1)) as n.
  generalize (current_log_id sc) as log_id, (start_from_position sc) as ov.
  intros log_id ov n. revert log_id ov. induction n as [|n IH]; intros log_id ov; [done|]. cbn [scan_from].
  apply never_panics_bind; [|by intros [x|]; [|apply IH]].
  destruct (sc_chain_aggregate_key sc); [by apply scan_chain_robust|by apply scan_single_robust].
Qed.
End robust_scan.

(** ** Theorems *)

Section theorems.
Context `{Bincode, Crc32c, Blake3, Xxh3} {S E T : Type} (visitor : Z -> Z -> bytes -> effect S E (option T)).

(** C16: a reverse scan is a walk over the log. On segments that hold their
    logs the visitor is called on the entries of the log, newest segment and
    newest entry first, up to the cursor and the starting position, until it
    finds something; its effects are those of that walk. In each segment it
    sees every entry (every entry of the aggregate's chain, when backlinks
    are followed), or none because the filters ask for none of them. Neither
    the chunk size nor the read window matters. *)
Theorem scan_visits_log cache sc segs logs : scanner_ok cache sc ->
  (forall id, id ∈ scanned_segments sc -> segment_scannable cache sc id (segs id) (logs id)) ->
  exists visits : list (Z * list LogEntry), visits.*1 = scanned_segments sc /\
    Forall (fun '(id, v) => segment_visit sc (segs id) (logs id) (override_of sc id) v) visits /\
    forall s, scan visitor cache sc s = effect_map_err Visitor (visit_entries visitor (in_order visits)) s.
Proof. intros Hsc Hall. by apply scan_spec. Qed.

(** The walk along backlinks, in the order of the log. *)
Lemma chain_scan_spec cache sc segs logs key window : scanner_ok cache sc ->
  client_bloom_filter_hash sc = None ->
  let chain := with_aggregate_chain sc key window in
  (forall id, id ∈ scanned_segments chain -> segment_scannable cache chain id (segs id) (logs id)) ->
  forall s, scan visitor cache chain s = effect_map_err Visitor (visit_entries visitor
    (in_order ((fun id => (id, reverse (keyed key (visible chain (segs id) (logs id) (override_of chain id)))))
                 <$> scanned_segments chain))) s.
Proof.
  intros Hsc Hc chain Hall s.
  assert (Hok : scanner_ok cache chain).
  { destruct Hsc as [Ha Hch _ [_ Hh]]. split; [done..| |].
    - cbn. assert (0 < Z.of_nat FIXED_BLOCK_SIZE_BYTES) by done. nia.
    - split; [intros h [= <-]; apply xxh3_64_u64|done]. }
  destruct (scan_spec visitor cache chain Hok segs logs Hall) as (visits & Hids & Hvs & ->).
  do 3 f_equal. rewrite <- Hids. clear Hids. induction Hvs as [|[id v] visits Hv _ IH]; [done|].
  cbn [fmap list_fmap]. rewrite <- IH. do 2 f_equal. by eapply chain_visit_exact.
Qed.

(** C17: following the backlinks of an aggregate is exact: without a client
    filter the scan visits all and only the entries of the aggregate, newest
    first, whatever the blooms answer and wherever the caller's hints point,
    as long as a hint does not lead past the newest entry. *)
Theorem chain_scan_exact cache sc segs logs key window : scanner_ok cache sc ->
  client_bloom_filter_hash sc = None ->
  let chain := with_aggregate_chain sc key window in
  (forall id, id ∈ scanned_segments chain -> segment_scannable cache chain id (segs id) (logs id)) ->
  forall s, scan visitor cache chain s = effect_map_err Visitor (visit_entries visitor
    (in_order ((fun id => (id, reverse (keyed key (visible chain (segs id) (logs id) (override_of chain id)))))
                 <$> scanned_segments chain))) s.
Proof. intros Hsc Hc chain Hall. by apply chain_scan_spec. Qed.

(** C40: a scan of arbitrary bytes ends and never panics. Whatever the
    segment files contain, whatever the storage answers and wherever a hint
    points, a scan whose visitor does not panic on a whole block returns a
    result or an error: damaged backlinks cannot make it loop or read out of
    range. *)
Theorem scan_total cache sc : scanner_ok cache sc -> blooms_whole cache ->
  (forall log_id pos b, length b = FIXED_BLOCK_SIZE_BYTES -> never_panics (visitor log_id pos b)) ->
  never_panics (scan visitor cache sc).
Proof. intros Hsc Hb Hv. by apply scan_robust. Qed.
End theorems.

(** ** Scanning the first batch back *)

Module ScanRun.
#[local] Existing Instance xxh_low.

Definition key : AggregateKey := eb_aggregate_key sample_event_batch.

(** A visitor that notes the positions it is called on. *)
Definition noting (log_id pos : Z) (block : bytes) : effect (list Z) unit (option unit) := fun s => (s ++ [pos], Done None).

Definition cache_of (seg : LogSegmentFile) : LogSegmentsCache :=
  {| lc_get _ := Some seg; lc_lock _ := true; lc_handle _ := true; lc_alignment := 512; lc_reads _ _ len := Some len |}.

Definition scanner : ReverseMetablockScanner :=
  with_write_cursor_upper_bound (ReverseMetablockScanner_new 1 None 2048).

(** The segment after [SyncRun.batch]. *)
Lemma synced : exists seg e1 e2,
  @segment_holds bincode_le crc_sum blake_pad xxh_low seg GENESIS_HASH [e1; e2] /\
  le_pos e1 = 4096 /\ le_pos e2 = 5120 /\
  chain_aggregate_key (le_metablock e1) = Some key /\ chain_aggregate_key (le_metablock e2) = Some key.
Proof.
  destruct (@sync_refines_append bincode_le crc_sum blake_pad xxh_low (fun _ => zeros 1024) 512 (zeros 4096)
    SyncRun.segment SyncRun.batch FullCommit GENESIS_HASH [] (fun _ => eq_refl) eq_refl ltac:(done)
    SyncRun.segment_empty SyncRun.batch_fits) as (plan & _ & Hio).
  destruct (Hio (SyncRun.io_of plan) (SyncRun.io_of_complete plan)) as (snapshot & md & file & _ & Hh & Hf & _).
  set (seg := install_batch file md (sps_queue snapshot)) in *. clearbody seg.
  remember (sps_queue snapshot) as queue eqn:Eq. clear Eq.
  cbn [sps_queue SyncRun.batch app] in *. inversion Hf as [|? i1 ? l1 H1 Hf1]; subst.
  inversion Hf1 as [|? i2 ? l2 H2 Hf2]; subst. inversion Hf2; subst.
  exists seg, (entry_of i1), (entry_of i2). split; [exact Hh|].
  destruct (@sh_entry bincode_le crc_sum blake_pad xxh_low _ _ _ Hh 0%nat _ eq_refl) as [P1 _].
  destruct (@sh_entry bincode_le crc_sum blake_pad xxh_low _ _ _ Hh 1%nat _ eq_refl) as [P2 _].
  rewrite P1, P2. split_and!; [done..| |];
    cbn [entry_of le_metablock]; unfold chain_aggregate_key; [destruct H1 as ((? & ? & ? & ? & ->) & _)|destruct H2 as ((? & ? & ? & ? & ->) & _)]; done.
Qed.

Lemma scanner_is_ok seg : scanner_ok (cache_of seg) scanner.
Proof. split; [by split|by split|done|by split]. Qed.

Lemma cache_scannable seg log sc : @segment_holds bincode_le crc_sum blake_pad xxh_low seg GENESIS_HASH log ->
  use_write_cursor sc = true -> segment_hints sc = None ->
  @segment_scannable bincode_le crc_sum blake_pad xxh_low (cache_of seg) sc 1 seg log.
Proof.
  intros Hh Hw Hhint. split; [by exists GENESIS_HASH|done| |].
  - split_and!; try done. unfold cursor_position. rewrite Hw. by intros p [= <-].
  - intros k _. unfold hint_ok. by rewrite Hhint.
Qed.

Lemma all_visible seg log sc : @segment_holds bincode_le crc_sum blake_pad xxh_low seg GENESIS_HASH log ->
  use_write_cursor sc = true -> visible sc seg log None = log.
Proof.
  intros Hh Hw. unfold visible, cursor_position. rewrite Hw. cbn [upper_bound default].
  unfold upper_bound, entries_below. cbn [default]. rewrite Z.min_id. fold (wcur seg) (mp seg).
  rewrite (sh_end _ _ _ Hh). rewrite take_ge; [done|].
  rewrite Nat2Z.inj_add, Nat2Z.inj_mul, Z.add_simpl_l, Z.div_mul by done. lia.
Qed.
End ScanRun.

Lemma scan_visits_log_witness : exists seg,
  scan ScanRun.noting (ScanRun.cache_of seg) ScanRun.scanner [] = ([5120; 4096], Done None).
Proof.
  destruct ScanRun.synced as (seg & e1 & e2 & Hh & P1 & P2 & K1 & _). exists seg.
  destruct (@scan_visits_log bincode_le crc_sum blake_pad xxh_low _ _ _ ScanRun.noting (ScanRun.cache_of seg) ScanRun.scanner
    (fun _ => seg) (fun _ => [e1; e2]) (ScanRun.scanner_is_ok seg)) as (visits & Hids & Hvs & E).
  { intros id Hid. change (id ∈ [1]) in Hid. apply list_elem_of_singleton in Hid as ->. by apply ScanRun.cache_scannable. }
  rewrite E. clear E. destruct visits as [|[i v] [|? ?]]; try done. injection Hids as ->.
  inversion Hvs as [|? ? Hv _]; subst. unfold segment_visit in Hv.
  change (override_of ScanRun.scanner 1) with (@None Z) in Hv. rewrite (ScanRun.all_visible seg _ _ Hh) in Hv by done.
  destruct Hv as [->|[-> Hno]].
  - cbn. by rewrite P1, P2.
  - inversion Hno as [|? ? Hw _]; subst. destruct Hw. unfold wanted, bloom_keys. unfold chain_aggregate_key in K1.
    destruct (wal_metablock_type (le_metablock e1)); naive_solver.
Defined.

Lemma chain_scan_exact_witness : exists seg,
  scan ScanRun.noting (ScanRun.cache_of seg)
    (@with_aggregate_chain xxh_low ScanRun.scanner ScanRun.key 4096) [] = ([5120; 4096], Done None).
Proof.
  destruct ScanRun.synced as (seg & e1 & e2 & Hh & P1 & P2 & K1 & K2). exists seg.
  rewrite (@chain_scan_exact bincode_le crc_sum blake_pad xxh_low _ _ _ ScanRun.noting (ScanRun.cache_of seg) ScanRun.scanner
    (fun _ => seg) (fun _ => [e1; e2]) ScanRun.key 4096 (ScanRun.scanner_is_ok seg) eq_refl).
  - change (scanned_segments _) with [1]. cbn [fmap list_fmap]. change (override_of _ 1) with (@None Z).
    rewrite (ScanRun.all_visible seg _ _ Hh) by done. unfold keyed.
    rewrite !filter_cons_True by done. cbn. by rewrite P1, P2.
  - intros id Hid. change (id ∈ [1]) in Hid. apply list_elem_of_singleton in Hid as ->. by apply ScanRun.cache_scannable.
Defined.

(** A segment of garbage whose backlinks lead nowhere. *)
Lemma scan_total_witness :
  (scan ScanRun.noting
    (ScanRun.cache_of {| metadata := sample_metadata; aggregate_chain_tips := ∅; aggregate_key_bloom := bloom_absent;
                         client_id_bloom := bloom_absent; contents := replicate 5000 255 |})
    (@with_aggregate_chain xxh_low ScanRun.scanner ScanRun.key 4096) []).2 <> Panicked.
Proof.
  apply (scan_total ScanRun.noting).
  - split; [by split|by split|done|split; [|done]]. intros h Eh. apply Some_inj in Eh as <-. apply xxh3_64_u64.
  - intros id seg Eg. injection Eg as <-. by split; left.
  - done.
Defined.
