(* ===== verification/WritePath.v ===== *)
(** * Accepting writes, trims and deletes

    The handlers of [celeriant_shard/src/shard_wal.rs] that change an
    aggregate, cut at the points where they wait: what is checked and queued
    between two awaits is one function here.  [validate_and_prepare_write]
    and [append_prepared_writes_to_queue] run without an await between them,
    and so do [validate_and_prepare_deletes] and the queueing of the deletes.
    Loading an aggregate into the cache is a scan of the log with a visitor. *)

From S2P Require Import Prelude Lease WalConstants Codec WalTypes WalCodec DiskFormat HashChain Sbbf Datablock LogSegment MemCache LogSync ReadFilter ReverseScan.

(** ** Requests and errors *)

Record SingleAggregateWrite := {
  sw_events : list DatablockAggregateEvent;
  allow_create : bool;
  sw_expected_version : option Z;
  enforce_client_idempotency : bool;
}.

Record SingleAggregateDelete := {
  del_allow_recreate : bool;
  del_allow_sequence_continuation : bool;
  del_expected_version : option Z;
}.

Inductive ReplicateToS3Error :=
  | S3NotConfigured
  | S3Unavailable
  | S3PutFailed
  | SidecarUnavailable
  | SerializationFailed
  | BatchNotContiguous (at_index : nat) (expected_wal_seq actual_wal_seq : Z)
  | LeaseIndexInconsistent (at_index : nat) (first found : Z)
  | S3IntraBatchChainBreak (b : IntraBatchChainBreak).

(** The payloads of a failed rollback and of a failed catch-up are not kept:
    nothing depends on them. *)
Inductive ReplicationError :=
  | RollbackInProgress
  | RollbackFailed
  | ReplicationClientLockTimeoutError
  | ReplicationS3Error (e : ReplicateToS3Error)
  | ExtendedCatchupFailure
  | LeaderFenced
  | ReplicationBudgetExhausted
  | GateTimeout
  | LeaseUnconfirmed.

Inductive ShardCacheLoadError :=
  | AggregateLoadingLockTimeout
  | FileScanningError (e : ScanError unit)
  | DatablockReadError.

Inductive ShardWriteError :=
  | EmptyEventsList
  | ZeroEventType (client_seq : Z)
  | ClientIdempotencyViolation (last_client_seq attempted_client_seq : Z)
  | InflightDuplicateWrite (last_client_seq attempted_client_seq : Z)
  | OptimisticConcurrencyViolation (expected_version current_aggregate_version : Z)
  | FailedToSerialiseDatablocks (e : CodecError)
  | AggregateNotExists
  | AggregateRecreateNotAllowed
  | WriteReplicationError (e : ReplicationError)
  | WriteFsyncError (e : ShardFsyncError)
  | CacheAggregateClientError (e : ShardCacheLoadError)
  | AggregateExistsAndCacheError (e : ShardCacheLoadError)
  | ShardCannotAcceptWrites
  | ReplicationBackpressure
  | SchemaValidationFailed (event_type_major event_type_minor client_seq : Z) (validation_error : bytes)
  | SchemaCompilationFailed (event_type_major event_type_minor client_seq : Z) (compilation_error : bytes).

Inductive ShardTrimError :=
  | TrimAggregateNotExists
  | TrimExistsAndCacheError (e : ShardCacheLoadError)
  | TrimReplicationError (e : ReplicationError)
  | TrimFsyncError (e : ShardFsyncError)
  | TrimIndexOutOfRange (requested max_aggregate_version : Z)
  | TrimShardCannotAcceptWrites
  | TrimReplicationBackpressure.

Inductive ShardDeleteError :=
  | DeleteAggregateNotExists
  | EmptyDeleteList
  | DeleteOptimisticConcurrencyViolation (expected_version current_aggregate_version : Z)
  | DeleteExistsAndCacheError (e : ShardCacheLoadError)
  | DeleteReplicationError (e : ReplicationError)
  | DeleteFsyncError (e : ShardFsyncError)
  | DeleteShardCannotAcceptWrites
  | DeleteReplicationBackpressure.

(** A rejection that is retried once, after a replication round. *)
Definition is_visibility_gap_rejection (e : ShardWriteError) : bool :=
  match e with
  | ClientIdempotencyViolation _ _ | OptimisticConcurrencyViolation _ _ | AggregateRecreateNotAllowed => true
  | _ => false
  end.

(** ** Admission *)

(** [Iterator::find_map]. *)
Definition find_map {A B} (f : A -> option B) (l : list A) : option B := head (omap f l).

(** The lease epoch the entries are stamped with; [None] when the node may not
    write. *)
Definition writable_epoch (status : NodeStatus) : option Z :=
  match status with
  | Leader lease_epoch => Some lease_epoch
  | Standalone => Some 0
  | _ => None
  end.

(** The checks of one aggregate that no retry changes. *)
Definition input_error (w : SingleAggregateWrite) : option ShardWriteError :=
  match sw_events w with
  | [] => Some EmptyEventsList
  | events =>
      match list_find (fun e => event_type_major e = 0) events with
      | Some (_, ev) => Some (ZeroEventType (client_seq ev))
      | None => None
      end
  end.

(** What [write] checks before its first await. *)
Definition admit_write (status : NodeStatus) (backpressure : bool) (writes : list (AggregateKey * SingleAggregateWrite))
    : result ShardWriteError Z :=
  lease_epoch ← ok_or (writable_epoch status) ShardCannotAcceptWrites;
  if backpressure then Err ReplicationBackpressure
  else match writes with
       | [] => Err EmptyEventsList
       | _ => match find_map (fun w => input_error w.2) writes with Some e => Err e | None => Ok lease_epoch end
       end.

Definition admit_trim (status : NodeStatus) (backpressure : bool) : result ShardTrimError Z :=
  lease_epoch ← ok_or (writable_epoch status) TrimShardCannotAcceptWrites;
  if backpressure then Err TrimReplicationBackpressure else Ok lease_epoch.

Definition admit_delete (status : NodeStatus) (backpressure : bool)
    (deletes : list (AggregateKey * SingleAggregateDelete)) : result ShardDeleteError Z :=
  lease_epoch ← ok_or (writable_epoch status) DeleteShardCannotAcceptWrites;
  if backpressure then Err DeleteReplicationBackpressure
  else match deletes with [] => Err EmptyDeleteList | _ => Ok lease_epoch end.

(** What a handler answers after its two waits: the queue generation it read
    when it queued, the result of each wait and the generation after it. *)
Definition await_durable {E} (of_fsync : ShardFsyncError -> E) (of_replication : ReplicationError -> E)
    (gen_at_submit : Z) (fsync : result ShardFsyncError unit) (gen_after_fsync : Z)
    (replication : result ReplicationError unit) (gen_after_replication : Z) : result E unit :=
  _ ← map_err of_fsync fsync;
  if negb (gen_after_fsync =? gen_at_submit) then Err (of_replication RollbackInProgress)
  else
    _ ← map_err of_replication replication;
    if negb (gen_after_replication =? gen_at_submit) then Err (of_replication RollbackInProgress) else Ok tt.

(** ** Loading an aggregate *)

Section write_path.
Context `{Bincode, Crc32c, Xxh3, DictCodec} {V : Type} `{Validate V}.
Implicit Types (m : MemCache V) (key : AggregateKey).

(** The capacity of the snapshot caches. *)
Context (snapshot_cap : nat).

Definition is_aggregate_snapshot_full_or_contains m key (path : CachePath) : bool :=
  bool_decide (size (snapshots m path) = snapshot_cap) || bool_decide (is_Some (snapshots m path !! key)).

(** The visitor of [aggregate_exists_and_cache]: [Some true] the aggregate
    exists, [Some false] it was deleted. *)
Definition exists_visitor (searching_for : AggregateKey) (path : CachePath) (log_id pos : Z) (block : bytes)
    : effect (MemCache V) unit (option bool) := fun m =>
  match is_soft_delete_for_aggregate block searching_for, is_soft_trim_for_aggregate block searching_for,
        is_metablock_kind_event_batch_metadata block with
  | Some true, _, _ =>
      match deserialise_metablock block with
      | Err _ => (m, Failed tt)
      | Ok mb =>
          (match wal_metablock_type mb with
           | SoftDelete d =>
               put_aggregate_into_cache_as_deleted m searching_for log_id pos (sd_event_seq d)
                 (sd_aggregate_version d) (allow_recreate d) (allow_sequence_continuation d) path
           | _ => m
           end, Done (Some false))
      end
  | Some false, Some true, _ =>
      match deserialise_metablock block with
      | Err _ => (m, Failed tt)
      | Ok mb =>
          (match wal_metablock_type mb with
           | SoftTrim t =>
               put_aggregate_snapshot_only m searching_for
                 (snapshot_found log_id pos (st_event_seq t) (st_aggregate_version t) (keep_from_aggregate_version t)) path
           | _ => m
           end, Done (Some true))
      end
  | Some false, Some false, Some false => (m, Done None)
  | Some false, Some false, Some true =>
      match read_event_batch_aggregate_key block, read_event_batch_min_aggregate_version block,
            read_event_batch_max_event_seq block, read_event_batch_aggregate_version block,
            read_event_batch_client_id block, read_event_batch_max_client_seq block with
      | Some key, Some min_version, Some event_seq, Some version, Some client_id, Some client_seq =>
          let low_priority := negb (bool_decide (searching_for = key)) in
          if low_priority && is_aggregate_snapshot_full_or_contains m key path then (m, Done None)
          else (put_aggregate_into_cache m key (snapshot_found log_id pos event_seq version min_version)
                  client_id client_seq path,
                Done (if low_priority then None else Some true))
      | _, _, _, _, _, _ => (m, Panicked)
      end
  | _, _, _ => (m, Panicked)
  end.

(** Where a scan starts: the newest segment to visit, and a position in it. *)
Definition exists_scanner key (path : CachePath) (active_log_id : Z) (read_cursor : Z * Z) (chunk_size : Z)
    : ReverseMetablockScanner :=
  match path with
  | CacheRead => with_bloom_filter (ReverseMetablockScanner_new read_cursor.1 (Some read_cursor.2) chunk_size) key
  | CacheWrite => with_write_cursor_upper_bound (with_bloom_filter (ReverseMetablockScanner_new active_log_id None chunk_size) key)
  end.

Definition aggregate_exists_and_cache (cache : LogSegmentsCache) (active_log_id : Z) (read_cursor : Z * Z)
    (chunk_size : Z) key (path : CachePath) : effect (MemCache V) (ScanError unit) bool := fun m =>
  match aggregate_load_status m key path with
  | (true, status) => (m, Done (bool_decide (status = Found)))
  | (false, _) =>
      match scan (exists_visitor key path) cache (exists_scanner key path active_log_id read_cursor chunk_size) m with
      | (m, Done None) => (put_aggregate_into_cache_as_not_found m key path, Done false)
      | (m, Done (Some found)) => (m, Done found)
      | (m, Failed e) => (m, Failed e)
      | (m, Panicked) => (m, Panicked)
      end
  end.

(** ** validate_single_write and validate_and_prepare_write *)

(** The smallest client sequence of the batch, 0 for none. *)
Definition attempted_client_seq (events : list DatablockAggregateEvent) : Z :=
  match events with [] => 0 | e :: es => foldl (fun a e => Z.min a (client_seq e)) (client_seq e) es end.

Definition check_client_seq m key (client_id read_cursor_wal_seq : Z) (w : SingleAggregateWrite)
    : result ShardWriteError unit :=
  if enforce_client_idempotency w then
    match get_client_seq_entry m key client_id with
    | Some status =>
        let last := status_client_seq status in
        let attempted := attempted_client_seq (sw_events w) in
        if attempted <=? last then
          let inflight :=
            match status with
            | InflightInQueue _ => true
            | Fsynced _ wal_seq => (0 <? wal_seq) && (read_cursor_wal_seq <? wal_seq)
            end in
          Err ((if inflight then InflightDuplicateWrite else ClientIdempotencyViolation) last attempted)
        else Ok tt
    | None => Ok tt
    end
  else Ok tt.

Definition event_schema_key key (e : DatablockAggregateEvent) : SchemaKey :=
  {| sk_org_id := org_id key; sk_aggregate_type_id := aggregate_type_id key;
     sk_event_type_major := event_type_major e; sk_event_type_minor := event_type_minor e |}.

Definition check_event_schema m key (e : DatablockAggregateEvent) : result ShardWriteError unit :=
  match iv e with
  | Some _ => Ok tt
  | None =>
      match schema_cache_get m (event_schema_key key e) with
      | Some (Validated v) =>
          map_err (SchemaValidationFailed (event_type_major e) (event_type_minor e) (client_seq e))
            (validate v (event_value e))
      | Some (CompilationFailed err) =>
          Err (SchemaCompilationFailed (event_type_major e) (event_type_minor e) (client_seq e) err)
      | _ => Ok tt
      end
  end.

Fixpoint check_schemas m key (es : list DatablockAggregateEvent) : result ShardWriteError unit :=
  match es with [] => Ok tt | e :: es => _ ← check_event_schema m key e; check_schemas m key es end.

(** The checks both functions make on the cached state, in their order. *)
Definition check_cached m key (client_id read_cursor_wal_seq : Z) (w : SingleAggregateWrite)
    : result ShardWriteError unit :=
  let ix := get_write_event_seqes m key in
  if pending_delete_or_deleted ix && negb (ix_allow_recreate ix) then Err AggregateRecreateNotAllowed
  else
    _ ← match sw_expected_version w with
        | Some expected =>
            if expected =? ix_aggregate_version ix then Ok tt
            else Err (OptimisticConcurrencyViolation expected (ix_aggregate_version ix))
        | None => Ok tt
        end;
    _ ← check_client_seq m key client_id read_cursor_wal_seq w;
    check_schemas m key (sw_events w).

(** [validate_single_write] once the aggregate was looked up. *)
Definition check_existence m key (aggregate_exists : bool) (w : SingleAggregateWrite) : result ShardWriteError unit :=
  if aggregate_exists then Ok tt
  else
    match aggregate_load_status m key CacheWrite with
    | (true, Deleted) =>
        if ix_allow_recreate (get_write_event_seqes m key) then Ok tt else Err AggregateRecreateNotAllowed
    | _ => if allow_create w then Ok tt else Err AggregateNotExists
    end.

(** Where a batch starts: its first event sequence minus one, its version and
    the oldest version kept. *)
Definition next_indexes (ix : EventIndexes) : Z * Z * Z :=
  let is_recreate := pending_delete_or_deleted ix || (ix_aggregate_version ix =? 0) in
  let '(event_seq, version, min_version) :=
    if is_recreate && ix_allow_sequence_continuation ix
    then (ix_event_seq ix, saturating_add 64 (ix_aggregate_version ix) 1, ix_min_aggregate_version ix)
    else if is_recreate then (0, FIRST_AGGREGATE_VERSION, FIRST_AGGREGATE_VERSION)
    else (ix_event_seq ix, saturating_add 64 (ix_aggregate_version ix) 1, ix_min_aggregate_version ix) in
  (event_seq, version, if min_version =? 0 then FIRST_AGGREGATE_VERSION else min_version).

Definition with_event_seq (e : DatablockAggregateEvent) (seq : Z) : DatablockAggregateEvent :=
  {| client_seq := client_seq e; event_seq := seq; event_id := event_id e; event_timestamp := event_timestamp e;
     event_type_major := event_type_major e; event_type_minor := event_type_minor e;
     event_value := event_value e; iv := iv e |}.

Fixpoint number_events (seq : Z) (es : list DatablockAggregateEvent) : list DatablockAggregateEvent * Z :=
  match es with
  | [] => ([], seq)
  | e :: es =>
      let seq := saturating_add 64 seq 1 in
      let '(es, last) := number_events seq es in (with_event_seq e seq :: es, last)
  end.

Record PreparedWrite := {
  pw_aggregate_key : AggregateKey;
  pw_client_id : Z;
  pw_event_seq : Z;
  pw_aggregate_version : Z;
  pw_latest_client_seq : Z;
  pw_min_aggregate_version : Z;
  pw_item : ShardLogQueueItem;
}.

(** A metablock as it is queued: not yet stamped by [sync]. *)
Definition queued_metablock (now lease_epoch node_id : Z) (sdb : option SerialisedDatablock) (kind : MetablockKind)
    : Metablock :=
  {| wal_seq := 0; server_timestamp := now; lease_epoch := lease_epoch; node_id := node_id;
     uncompressed_size := from_option sdb_uncompressed_size 0 sdb;
     compressed_size := from_option sdb_compressed_size 0 sdb;
     datablock_version := from_option sdb_datablock_version 0 sdb;
     datablock_compression_type := from_option sdb_compression_type 0 sdb;
     previous_tip_hash := GENESIS_HASH; datablock_position := 0; previous_aggregate_metablock_pos := 0;
     wal_metablock_type := kind; datablock := from_option storage_kind StorageNone sdb |}.

Definition validate_and_prepare_write m (lease_epoch node_id now read_cursor_wal_seq : Z) key
    (client_id : Z) (user_id : option Z) (w : SingleAggregateWrite) : outcome ShardWriteError PreparedWrite :=
  _ ← from_result id (check_cached m key client_id read_cursor_wal_seq w);
  let '(event_seq, version, min_version) := next_indexes (get_write_event_seqes m key) in
  let '(es, event_seq) := number_events event_seq (sw_events w) in
  types ← or_panic (event_types_of es);
  let batch := {| aggregate_version := version; events := es |} in
  let meta := from_batch_item client_id user_id key min_version batch types in
  let has_encrypted_events := existsb (fun e => bool_decide (is_Some (iv e))) es in
  sdb ← from_result FailedToSerialiseDatablocks
          (SerialisedDatablock_new (EventBatchItem batch) (Auto (negb has_encrypted_events)));
  mret {| pw_aggregate_key := key; pw_client_id := client_id; pw_event_seq := event_seq;
          pw_aggregate_version := version; pw_latest_client_seq := max_client_seq meta;
          pw_min_aggregate_version := min_version;
          pw_item := ShardLogQueueItem_new (Some (EventBatchItem batch)) (external_data sdb)
                       (queued_metablock now lease_epoch node_id (Some sdb) (EventBatchMetadata meta)) |}.

Definition append_prepared_write m (p : PreparedWrite) : MemCache V :=
  add_to_pending_append_queue m (pw_aggregate_key p) (pw_event_seq p) (pw_aggregate_version p)
    (pw_min_aggregate_version p) (pw_client_id p) (pw_latest_client_seq p) (pw_item p).

Definition append_prepared_writes_to_queue m (prepared_writes : list PreparedWrite) : MemCache V :=
  foldl append_prepared_write m prepared_writes.

(** What a handler takes from its request and its surroundings.  The clock is
    read once for each aggregate of the request. *)
Record RequestContext := {
  rc_lease_epoch : Z;
  rc_node_id : Z;
  rc_now : AggregateKey -> Z;
  rc_read_cursor_wal_seq : Z;
  rc_client_id : Z;
  rc_user_id : option Z;
}.

Fixpoint prepare_writes m (rc : RequestContext) (writes : list (AggregateKey * SingleAggregateWrite))
    : outcome ShardWriteError (list PreparedWrite) :=
  match writes with
  | [] => mret []
  | (key, w) :: writes =>
      p ← validate_and_prepare_write m (rc_lease_epoch rc) (rc_node_id rc) (rc_now rc key) (rc_read_cursor_wal_seq rc)
            key (rc_client_id rc) (rc_user_id rc) w;
      ps ← prepare_writes m rc writes;
      mret (p :: ps)
  end.

(** The part of [write] from the last validation to the queue: the new state,
    the queue generation and the version it will answer. *)
Definition submit_writes m (rc : RequestContext) (writes : list (AggregateKey * SingleAggregateWrite))
    : outcome ShardWriteError (MemCache V * Z * option Z) :=
  prepared ← prepare_writes m rc writes;
  let max_aggregate_version := match prepared with [p] => Some (pw_aggregate_version p) | _ => None end in
  mret (append_prepared_writes_to_queue m prepared, rollback_generation m, max_aggregate_version).

(** ** trim_start: from the cached indexes to the queue; [None] when there is
    nothing left to trim. *)
Definition submit_trim m (rc : RequestContext) key (keep_from : Z)
    : result ShardTrimError (option (MemCache V * Z)) :=
  let ix := get_write_event_seqes m key in
  if keep_from <=? ix_min_aggregate_version ix then Ok None
  else if ix_aggregate_version ix <? keep_from then Err (TrimIndexOutOfRange keep_from (ix_aggregate_version ix))
  else
    let trim := {| st_aggregate_key := key; keep_from_aggregate_version := keep_from;
                   st_aggregate_version := ix_aggregate_version ix; st_event_seq := ix_event_seq ix;
                   st_client_id := rc_client_id rc; st_user_id := rc_user_id rc |} in
    let item := ShardLogQueueItem_new None None
                  (queued_metablock (rc_now rc key) (rc_lease_epoch rc) (rc_node_id rc) None (SoftTrim trim)) in
    Ok (Some (add_pending_trim_to_queue m key keep_from (ix_aggregate_version ix) (ix_event_seq ix) item,
              rollback_generation m)).

(** ** delete *)

Definition prepare_delete m (rc : RequestContext) key (d : SingleAggregateDelete)
    : result ShardDeleteError (AggregateKey * MetablockSoftDelete * ShardLogQueueItem) :=
  let ix := get_write_event_seqes m key in
  if pending_delete_or_deleted ix || (ix_aggregate_version ix =? 0) then Err DeleteAggregateNotExists
  else
    _ ← match del_expected_version d with
        | Some expected =>
            if expected =? ix_aggregate_version ix then Ok tt
            else Err (DeleteOptimisticConcurrencyViolation expected (ix_aggregate_version ix))
        | None => Ok tt
        end;
    let tombstone := {| sd_aggregate_key := key; sd_aggregate_version := ix_aggregate_version ix;
                        sd_event_seq := ix_event_seq ix; sd_client_id := rc_client_id rc;
                        sd_user_id := rc_user_id rc; allow_recreate := del_allow_recreate d;
                        allow_sequence_continuation := del_allow_sequence_continuation d |} in
    Ok (key, tombstone,
        ShardLogQueueItem_new None None
          (queued_metablock (rc_now rc key) (rc_lease_epoch rc) (rc_node_id rc) None (SoftDelete tombstone))).

Fixpoint validate_and_prepare_deletes m (rc : RequestContext) (deletes : list (AggregateKey * SingleAggregateDelete))
    : result ShardDeleteError (list (AggregateKey * MetablockSoftDelete * ShardLogQueueItem)) :=
  match deletes with
  | [] => Ok []
  | (key, d) :: deletes =>
      p ← prepare_delete m rc key d;
      ps ← validate_and_prepare_deletes m rc deletes;
      Ok (p :: ps)
  end.

Definition append_prepared_delete m (p : AggregateKey * MetablockSoftDelete * ShardLogQueueItem) : MemCache V :=
  let '(key, d, item) := p in
  add_pending_delete_to_queue m key (sd_event_seq d) (sd_aggregate_version d) (allow_recreate d)
    (allow_sequence_continuation d) item.

Definition submit_deletes m (rc : RequestContext) (deletes : list (AggregateKey * SingleAggregateDelete))
    : result ShardDeleteError (MemCache V * Z) :=
  prepared ← validate_and_prepare_deletes m rc deletes;
  Ok (foldl append_prepared_delete m prepared, rollback_generation m).
End write_path.
