(* ===== verification/FsyncCommit.v ===== *)
(** * Committing an fsync

    The two phases of an fsync cycle ([celeriant_shard/src/shard_wal_sync.rs]):
    taking the queue ([capture_fsync_snapshot]) and, around the [sync] of
    [LogSync.v], rotating the segment when the batch does not fit, committing
    the batch to the caches ([commit_sync]) or rolling it back.  With it the
    watch events a commit collects
    ([celeriant_shard/src/watch_event_collector.rs]). *)

From S2P Require Import Prelude WalConstants Codec WalTypes WalCodec DiskFormat HashChain Sbbf Datablock Lease MemCache LogSegment LogSync.

(** ** watch_event_collector.rs *)

Inductive AggregateWatchEventOperation :=
  | WatchDelete
  | WatchWrite (from_aggregate_version to_aggregate_version : Z)
  | WatchRead (from_aggregate_version : Z) (to_aggregate_version : option Z)
  | WatchTrimStart (keep_from_aggregate_version : Z)
  | WatchAggregateDetails
  | WatchCreate.

Record WatchEventCollector := {
  create_events : gmap AggregateKey AggregateWatchEventOperation;
  write_events : gmap AggregateKey AggregateWatchEventOperation;
  delete_events : gmap AggregateKey AggregateWatchEventOperation;
  trim_events : gmap AggregateKey AggregateWatchEventOperation;
}.

Definition WatchEventCollector_new : WatchEventCollector :=
  {| create_events := ∅; write_events := ∅; delete_events := ∅; trim_events := ∅ |}.

(** [entry().and_modify().or_insert()]. *)
Definition upsert {A} (key : AggregateKey) (modify : A -> A) (fresh : A) (m : gmap AggregateKey A) : gmap AggregateKey A :=
  <[key := match m !! key with Some a => modify a | None => fresh end]> m.

Definition add_write_event (c : WatchEventCollector) (eb : MetablockEventBatch) : WatchEventCollector :=
  let v := eb_aggregate_version eb in
  {| create_events := create_events c; delete_events := delete_events c; trim_events := trim_events c;
     write_events :=
       upsert (eb_aggregate_key eb)
         (fun event =>
            match event with
            | WatchWrite from to => WatchWrite (if v <? from then v else from) (if to <? v then v else to)
            | event => event
            end) (WatchWrite v v) (write_events c) |}.

Definition add_create_event (c : WatchEventCollector) (key : AggregateKey) : WatchEventCollector :=
  {| create_events := upsert key id WatchCreate (create_events c); write_events := write_events c;
     delete_events := delete_events c; trim_events := trim_events c |}.

Definition add_delete_event (c : WatchEventCollector) (key : AggregateKey) : WatchEventCollector :=
  {| create_events := create_events c; write_events := write_events c;
     delete_events := upsert key id WatchDelete (delete_events c); trim_events := trim_events c |}.

Definition add_trim_event (c : WatchEventCollector) (key : AggregateKey) (keep_from : Z) : WatchEventCollector :=
  {| create_events := create_events c; write_events := write_events c; delete_events := delete_events c;
     trim_events :=
       upsert key
         (fun event => match event with WatchTrimStart floor => WatchTrimStart (Z.max floor keep_from) | event => event end)
         (WatchTrimStart keep_from) (trim_events c) |}.

(** The events in the order they are sent; within a map in an arbitrary one. *)
Definition broadcast_all (c : WatchEventCollector) : list (AggregateKey * AggregateWatchEventOperation) :=
  map_to_list (create_events c) ++ map_to_list (write_events c) ++
  map_to_list (delete_events c) ++ map_to_list (trim_events c).

(** ** Capture *)

Inductive CaptureResult (T E : Type) :=
  | Captured (data : T)
  | CaptureFailed (e : E)
  | NoCaptureRaceButOk.
Arguments Captured {T E} data.
Arguments CaptureFailed {T E} e.
Arguments NoCaptureRaceButOk {T E}.

Record FsyncCapturedData := {
  fc_required_disk_space : Z;
  fc_snapshot : SyncPositionsSnapshot;
}.

Section capture.
Context {V : Type}.
Implicit Types m : MemCache V.

Definition clear_rollback_flag m : MemCache V :=
  {| write_snapshots := write_snapshots m; read_snapshots := read_snapshots m;
     client_snapshots := client_snapshots m; queue_positions := queue_positions m;
     pending_append_queue := pending_append_queue m; pending_append_bytes := pending_append_bytes m;
     schema_cache := schema_cache m; no_schema_cache := no_schema_cache m;
     pending_schema_registrations := pending_schema_registrations m;
     fsync_rollback_occurred := false; rollback_generation := rollback_generation m |}.

Definition take_fsync_rollback_flag m : MemCache V * bool := (clear_rollback_flag m, fsync_rollback_occurred m).

Definition capture_fsync_snapshot m : MemCache V * CaptureResult FsyncCapturedData ShardFsyncError :=
  let '(m, rolled_back) := take_fsync_rollback_flag m in
  if rolled_back then (m, CaptureFailed RollbackInvalidatedWrites)
  else match pending_append_queue m with
       | [] => (m, NoCaptureRaceButOk)
       | queue =>
           let '(m, s) := take_sync_positions_snapshot m in
           (m, Captured {| fc_required_disk_space := required_disk_space queue; fc_snapshot := s |})
       end.
End capture.

(** ** commit_sync *)

Record PendingCacheItem := {
  pci_metablock : Metablock;
  pci_datablock : option DatablockKind;
  pci_metablock_absolute_pos : Z;
  pci_size_bytes : Z;
}.

Definition PendingCacheItem_new (item : ShardLogQueueItem) : PendingCacheItem :=
  {| pci_metablock := qi_metablock item; pci_datablock := qi_datablock item;
     pci_metablock_absolute_pos := qi_metablock_absolute_pos item; pci_size_bytes := size_bytes item |}.

(** What a commit hands to other components: the blocks noted in the segment
    summary, the recent writes cached, the items whose read-side commit is
    deferred, and the watch events. *)
Record CommitEffects := {
  ce_summary : list (Metablock * Z);
  ce_recent : list ShardLogQueueItem;
  ce_deferred : list PendingCacheItem;
  ce_events : WatchEventCollector;
}.

Definition no_effects : CommitEffects :=
  {| ce_summary := []; ce_recent := []; ce_deferred := []; ce_events := WatchEventCollector_new |}.

Definition note_summary (fx : CommitEffects) (item : ShardLogQueueItem) : CommitEffects :=
  {| ce_summary := ce_summary fx ++ [(qi_metablock item, qi_metablock_absolute_pos item)];
     ce_recent := ce_recent fx; ce_deferred := ce_deferred fx; ce_events := ce_events fx |}.

Definition cache_recent_write (fx : CommitEffects) (item : ShardLogQueueItem) : CommitEffects :=
  {| ce_summary := ce_summary fx; ce_recent := ce_recent fx ++ [item]; ce_deferred := ce_deferred fx;
     ce_events := ce_events fx |}.

Definition defer (fx : CommitEffects) (item : ShardLogQueueItem) : CommitEffects :=
  {| ce_summary := ce_summary fx; ce_recent := ce_recent fx;
     ce_deferred := ce_deferred fx ++ [PendingCacheItem_new item]; ce_events := ce_events fx |}.

Definition collect (f : WatchEventCollector -> WatchEventCollector) (fx : CommitEffects) : CommitEffects :=
  {| ce_summary := ce_summary fx; ce_recent := ce_recent fx; ce_deferred := ce_deferred fx;
     ce_events := f (ce_events fx) |}.

(** [CompiledValidator::compile] of the schema crates. *)
Class SchemaCompiler (V : Type) := compile_schema : SchemaType -> bytes -> result bytes V.

Section commit_sync.
Context `{Bincode, Crc32c, DictCodec} {V : Type} `{SchemaCompiler V}.
Implicit Types m : MemCache V.

Definition compile_and_cache_schema m (key : SchemaKey) (d : DatablockKind) : MemCache V :=
  match d with
  | DatablockSchema s =>
      schema_cache_insert m key
        (match compile_schema (schema_type s) (schema s) with
         | Ok v => Validated v
         | Err e => CompilationFailed e
         end)
  | EventBatchItem _ => m
  end.

(** The arm of an event batch. *)
Definition commit_event_batch (commit_target : CommitTarget) (log_id : Z) m (fx : CommitEffects)
    (item : ShardLogQueueItem) (eb : MetablockEventBatch) : MemCache V * CommitEffects :=
  let key := eb_aggregate_key eb in
  let m :=
    if negb (bool_decide (commit_target = DeferToReplicationAck)) && (0 <? max_client_seq eb) then
      merge_aggregate_client_seq_max m {| ack_aggregate_key := key; ack_client_id := eb_client_id eb |}
        (max_client_seq eb) (wal_seq (qi_metablock item))
    else m in
  match commit_target with
  | FullCommit =>
      let fx := collect (fun c => add_write_event c eb) fx in
      let fx := if eb_aggregate_version eb =? FIRST_AGGREGATE_VERSION
                then collect (fun c => add_create_event c key) fx else fx in
      let m := commit_position_snapshot m eb log_id (qi_metablock_absolute_pos item) CacheRead in
      let m := commit_position_snapshot m eb log_id (qi_metablock_absolute_pos item) CacheWrite in
      (m, cache_recent_write fx item)
  | DeferToLeaderConfirmed =>
      (commit_position_snapshot m eb log_id (qi_metablock_absolute_pos item) CacheWrite, defer fx item)
  | DeferToReplicationAck => (m, defer fx item)
  end.

Definition commit_soft_trim (commit_target : CommitTarget) (log_id : Z) m (fx : CommitEffects)
    (item : ShardLogQueueItem) (t : MetablockSoftTrim) : MemCache V * CommitEffects :=
  let commit m path :=
    commit_trim_snapshot m (st_aggregate_key t) (keep_from_aggregate_version t) (st_aggregate_version t)
      (st_event_seq t) log_id (qi_metablock_absolute_pos item) path in
  let m := commit m CacheWrite in
  if bool_decide (commit_target = FullCommit)
  then (commit m CacheRead, collect (fun c => add_trim_event c (st_aggregate_key t) (keep_from_aggregate_version t)) fx)
  else (m, defer fx item).

Definition commit_soft_delete (commit_target : CommitTarget) (log_id : Z)
    (deleted_positions : gmap AggregateKey (Z * Z)) m (fx : CommitEffects)
    (item : ShardLogQueueItem) (d : MetablockSoftDelete) : MemCache V * CommitEffects :=
  let '(del_log_id, del_pos) :=
    default (log_id, qi_metablock_absolute_pos item) (deleted_positions !! sd_aggregate_key d) in
  let put m path :=
    put_aggregate_into_cache_as_deleted m (sd_aggregate_key d) del_log_id del_pos (sd_event_seq d)
      (sd_aggregate_version d) (allow_recreate d) (allow_sequence_continuation d) path in
  let m := put m CacheWrite in
  if bool_decide (commit_target = FullCommit)
  then (put m CacheRead, collect (fun c => add_delete_event c (sd_aggregate_key d)) fx)
  else (m, defer fx item).

Definition commit_schema (commit_target : CommitTarget) m (fx : CommitEffects)
    (item : ShardLogQueueItem) (sr : MetablockSchemaRegistration) : option (MemCache V * CommitEffects) :=
  if bool_decide (commit_target = FullCommit) then
    match qi_datablock item with
    | Some d => Some (compile_and_cache_schema m (msr_schema_key sr) d, fx)
    | None =>
        let mb := qi_metablock item in
        r ← deserialise_datablock (uncompressed_size mb) (compressed_size mb) (datablock_version mb)
              (datablock_compression_type mb) (datablock mb) None;
        Some (match r with Ok d => compile_and_cache_schema m (msr_schema_key sr) d | Err _ => m end, fx)
    end
  else Some (m, defer fx item).

(** One pass of the loop over the queue; [None] is the panic of an inline
    datablock that is too long. *)
Definition commit_item (commit_target : CommitTarget) (log_id : Z) (deleted_positions : gmap AggregateKey (Z * Z))
    (acc : MemCache V * CommitEffects) (item : ShardLogQueueItem) : option (MemCache V * CommitEffects) :=
  let '(m, fx) := acc in
  let fx := if bool_decide (commit_target = FullCommit) then note_summary fx item else fx in
  match wal_metablock_type (qi_metablock item) with
  | EventBatchMetadata eb => Some (commit_event_batch commit_target log_id m fx item eb)
  | SoftTrim t => Some (commit_soft_trim commit_target log_id m fx item t)
  | SoftDelete d => Some (commit_soft_delete commit_target log_id deleted_positions m fx item d)
  | SchemaRegistration sr => commit_schema commit_target m fx item sr
  end.

Fixpoint commit_items (commit_target : CommitTarget) (log_id : Z) (deleted_positions : gmap AggregateKey (Z * Z))
    (acc : MemCache V * CommitEffects) (queue : list ShardLogQueueItem) : option (MemCache V * CommitEffects) :=
  match queue with
  | [] => Some acc
  | item :: queue =>
      acc ← commit_item commit_target log_id deleted_positions acc item;
      commit_items commit_target log_id deleted_positions acc queue
  end.

Definition deleted_positions (s : SyncPositionsSnapshot) : gmap AggregateKey (Z * Z) :=
  (fun q => (q_log_id q, q_metablock_absolute_pos q)) <$> filter (fun p => pending_delete p.2 = true) (sps_positions s).

(** The caches after a commit; the segment is that of [install_batch]. *)
Definition commit_sync (node_status : NodeStatus) (commit_target : CommitTarget) (log_id : Z) m
    (s : SyncPositionsSnapshot) : option (MemCache V * CommitEffects) :=
  commit_items commit_target log_id (deleted_positions s) (commit_sync_positions_snapshot node_status m s, no_effects)
    (sps_queue s).

(** ** commit_fsync_with_rollback *)

Context `{Blake3, Xxh3} (recycled : nat -> bytes).

(** What storage answers to a rotation: whether the summary sidecar of the
    sealed segment was written, and the new segment. *)
Record RotationIo := {
  rio_sidecar : bool;
  rio_rotate : option LogSegmentFile;
}.

(** The segment the batch goes to. *)
Definition rotate_if_needed (commit_target : CommitTarget) (preallocate_bytes : Z) (active : LogSegmentFile)
    (captured : FsyncCapturedData) (rio : RotationIo) : result ShardFsyncError LogSegmentFile :=
  let total := fc_required_disk_space captured
               + write_padding (buffer_size_metablocks (sps_queue (fc_snapshot captured))) + MIN_WRITE_ALIGNMENT - 1 in
  if md_available_space (metadata active) <? total then
    if saturating_sub (saturating_sub preallocate_bytes total) (Z.of_nat HEADER_BLOCK_SIZE_BYTES * 2) =? 0
    then Err (BatchesTooLarge preallocate_bytes)
    else if bool_decide (commit_target = FullCommit) && negb (rio_sidecar rio)
    then Err SegmentSummarySidecarWriteError
    else ok_or (rio_rotate rio) UnableToRotateToNewLogSegmentFile
  else Ok active.

Definition torn_segment (seg : LogSegmentFile) (torn : bytes * (AggregateKeyBloom * AggregateKeyBloom)) : LogSegmentFile :=
  {| metadata := metadata seg; aggregate_chain_tips := aggregate_chain_tips seg;
     aggregate_key_bloom := torn.2.1; client_id_bloom := torn.2.2; contents := torn.1 |}.

(** The caches, the active segment, what the commit hands on, and the answer;
    [torn] is the file with its blooms as a failed [sync] left them. *)
Definition commit_fsync_with_rollback (node_status : NodeStatus) (commit_target : CommitTarget)
    (preallocate_bytes dma_alignment : Z) (header_buffer : bytes) m (active : LogSegmentFile)
    (captured : FsyncCapturedData) (rio : RotationIo) (io : SyncIo)
    (torn : bytes * (AggregateKeyBloom * AggregateKeyBloom))
    : option (MemCache V * LogSegmentFile * CommitEffects * result ShardFsyncError unit) :=
  match rotate_if_needed commit_target preallocate_bytes active captured rio with
  | Err e => Some (m, active, no_effects, Err e)
  | Ok seg =>
      match sync recycled dma_alignment header_buffer seg (fc_snapshot captured) commit_target io with
      | Done (snapshot, md, file) =>
          let md := if bool_decide (commit_target = FullCommit) then advance_visible_position md else md in
          '(m, fx) ← commit_sync node_status commit_target (md_log_id md) m snapshot;
          Some (m, install_batch file md (sps_queue snapshot), fx, Ok tt)
      | Failed e => Some (execute_fsync_rollback m, torn_segment seg torn, no_effects, Err e)
      | Panicked => None
      end
  end.
End commit_sync.

(** ** What the commit of the blocks leaves alone *)

Section frame.
Context `{Bincode, Crc32c, DictCodec} {V : Type} `{SchemaCompiler V}.
Implicit Types m : MemCache V.

Definition blocks_frame m m' : Prop :=
  queue_positions m' = queue_positions m /\ pending_append_queue m' = pending_append_queue m /\
  rollback_generation m' = rollback_generation m.

Lemma merge_client_blocks m ck cs w : blocks_frame m (merge_aggregate_client_seq_max m ck cs w).
Proof. unfold merge_aggregate_client_seq_max. by repeat case_match. Qed.

Lemma compile_blocks m key d : blocks_frame m (compile_and_cache_schema m key d).
Proof. by destruct d. Qed.

Lemma commit_item_frame ct lid del m fx item m' fx' : commit_item ct lid del (m, fx) item = Some (m', fx') -> blocks_frame m m'.
Proof.
  unfold commit_item, commit_event_batch, commit_soft_trim, commit_soft_delete, commit_schema.
  set (fx0 := if bool_decide (ct = FullCommit) then note_summary fx item else fx). clearbody fx0.
  destruct (wal_metablock_type (qi_metablock item)) as [eb|sr|d|t].
  - set (m1 := if negb (bool_decide (ct = DeferToReplicationAck)) && _ then merge_aggregate_client_seq_max _ _ _ _ else m).
    assert (Hm1 : blocks_frame m m1) by (unfold m1; case_match; [apply merge_client_blocks|done]). clearbody m1.
    intros Hc. by destruct ct; injection Hc as <- _.
  - intros Hc. case_bool_decide; [|by injection Hc as <- _]. destruct (qi_datablock item).
    + injection Hc as <- _. apply compile_blocks.
    + destruct (deserialise_datablock _ _ _ _ _ _) as [[]|]; [| |done]; injection Hc as <- _; [apply compile_blocks|done].
  - destruct (default _ _) as [dl dp]. intros Hc. case_bool_decide; by injection Hc as <- _.
  - intros Hc. case_bool_decide; by injection Hc as <- _.
Qed.

Lemma commit_items_frame ct lid del queue m fx m' fx' :
  commit_items ct lid del (m, fx) queue = Some (m', fx') -> blocks_frame m m'.
Proof.
  revert m fx. induction queue as [|item queue IH]; intros m fx; cbn [commit_items]; [by intros [= <- _]|].
  intros ([m1 fx1] & Hi & Hq)%bind_Some. destruct (commit_item_frame _ _ _ _ _ _ _ _ Hi) as (? & ? & ?).
  destruct (IH _ _ Hq) as (? & ? & ?). unfold blocks_frame. intuition congruence.
Qed.
End frame.

(** ** A rotation that fails *)

(** C32: a batch that cannot be rotated into a segment is lost without a
    rollback.  When the batch is larger than a segment, when the summary
    sidecar cannot be written or when the new segment cannot be made, the
    cycle answers the error and its blocks are gone from the queue; but unlike
    after a failed sync, the rollback generation does not change and the cache
    still answers with the lost versions and client sequences: the version a
    write is checked against, and the next one it gets, are those after the
    lost batch, and the retry of a lost write is a duplicate in flight. *)
Theorem failed_rotation_keeps_lost_versions `{Bincode, Crc32c, DictCodec, Blake3, Xxh3} {V} `{SchemaCompiler V}
    (recycled : nat -> bytes) (node_status : NodeStatus) (commit_target : CommitTarget) (preallocate_bytes dma_alignment : Z)
    (header_buffer : bytes) (m m1 : MemCache V) (active : LogSegmentFile) (captured : FsyncCapturedData) (rio : RotationIo)
    (io : SyncIo) (torn : bytes * (AggregateKeyBloom * AggregateKeyBloom)) (e : ShardFsyncError) :
  capture_fsync_snapshot m = (m1, Captured captured) ->
  rotate_if_needed commit_target preallocate_bytes active captured rio = Err e ->
  exists m2,
    commit_fsync_with_rollback recycled node_status commit_target preallocate_bytes dma_alignment header_buffer m1 active
      captured rio io torn = Some (m2, active, no_effects, Err e) /\
    pending_append_queue m <> [] /\ pending_append_queue m2 = [] /\ rollback_generation m2 = rollback_generation m /\
    (forall key, get_write_event_seqes m2 key = get_write_event_seqes m key) /\
    (forall key client_id, get_client_seq_entry m2 key client_id = get_client_seq_entry m key client_id) /\
    (forall key, get_write_event_seqes (execute_fsync_rollback m1) key =
       get_write_event_seqes (set_positions m ∅) key).
Proof.
  intros Hcap Hrot. exists m1. unfold commit_fsync_with_rollback. rewrite Hrot. split; [done|].
  unfold capture_fsync_snapshot, take_fsync_rollback_flag in Hcap. destruct (fsync_rollback_occurred m); [done|].
  cbn [clear_rollback_flag pending_append_queue] in Hcap. destruct (pending_append_queue m); [done|].
  injection Hcap as <- <-. by split_and!.
Qed.

Module LostBatch.
Definition key : AggregateKey := eb_aggregate_key sample_event_batch.

(** Twelve blocks for a segment with room for eleven. *)
Definition queued : MemCache unit :=
  Nat.iter 12 (fun m => add_to_pending_append_queue m key 1 1 1 42 7 SyncRun.item) MemCache_new.
Definition taken : MemCache unit := (take_sync_positions_snapshot queued).1.
Definition captured : FsyncCapturedData :=
  {| fc_required_disk_space := required_disk_space (pending_append_queue queued);
     fc_snapshot := (take_sync_positions_snapshot queued).2 |}.
End LostBatch.

Lemma failed_rotation_keeps_lost_versions_witness : exists m2 : MemCache unit,
  pending_append_queue m2 = [] /\ ix_aggregate_version (get_write_event_seqes m2 LostBatch.key) = 1 /\
  get_client_seq_entry m2 LostBatch.key 42 = Some (InflightInQueue 7).
Proof.
  destruct (@failed_rotation_keeps_lost_versions bincode_le crc_sum codec_id blake_pad xxh_low unit (fun _ _ => Ok tt)
    (fun _ => zeros 1024) (Leader 1) DeferToReplicationAck (5 * 4096) 512 (zeros 4096) LostBatch.queued LostBatch.taken
    SyncRun.segment LostBatch.captured {| rio_sidecar := true; rio_rotate := None |}
    {| io_lock := true; io_writer := true; io_datablocks := None; io_metablocks := None; io_header := true; io_fdatasync := true |}
    ([], (bloom_absent, bloom_absent)) (BatchesTooLarge (5 * 4096))) as (m2 & _ & _ & Hq & _ & Hix & Hc & _).
  - reflexivity.
  - vm_compute. reflexivity.
  - exists m2. rewrite Hix, Hc. split; [exact Hq|]. split; reflexivity.
Defined.
