(* ===== verification/Coordinator.v ===== *)
(** * Sharing an fsync between requests

    The coordinator of [celeriant_shard/src/amortisation/coordinator.rs] and
    its event ([local_event.rs]).  Requests run as tasks of one executor: a
    step of the model is what one task does between two awaits, and a lock
    that cannot be taken at once may be granted or time out later.  The first
    request in the slot becomes the leader of a cycle, the others follow its
    event. *)

From stdpp Require Import relations.
From S2P Require Import Prelude FsyncCommit.

(** ** local_event.rs *)

Record ListenerState (R : Type) := {
  ls_waker : bool;
  ls_result : option R;
}.
Arguments ls_waker {R} _.
Arguments ls_result {R} _.

Record LocalEvent (R : Type) := {
  listeners : gmap Z (ListenerState R);
  last_id : Z;
}.
Arguments listeners {R} _.
Arguments last_id {R} _.

Section local_event.
Context {R : Type}.

Definition LocalEvent_new : LocalEvent R := {| listeners := ∅; last_id := 0 |}.

Definition listen (ev : LocalEvent R) : LocalEvent R * Z :=
  ({| listeners := <[last_id ev := {| ls_waker := false; ls_result := None |}]> (listeners ev);
      last_id := wrapping_add 64 (last_id ev) 1 |}, last_id ev).

Definition listener_count (ev : LocalEvent R) : nat := size (listeners ev).

Definition notify (ev : LocalEvent R) (r : R) : LocalEvent R :=
  {| listeners := (fun _ => {| ls_waker := false; ls_result := Some r |}) <$> listeners ev; last_id := last_id ev |}.

(** [poll]: the listener's result, or the listener waits. *)
Definition poll (ev : LocalEvent R) (id : Z) : LocalEvent R * option R :=
  match listeners ev !! id ≫= ls_result with
  | Some r => ({| listeners := delete id (listeners ev); last_id := last_id ev |}, Some r)
  | None =>
      ({| listeners := <[id := {| ls_waker := true; ls_result := None |}]> (listeners ev); last_id := last_id ev |}, None)
  end.
End local_event.

(** ** coordinator.rs *)

Definition MAX_RIDES : nat := 3.

(** Where a task is: in [request_sync_two_phase], in [request_sync], in
    [request_sync_until], holding the rollback lock, or back with an answer. *)
Inductive Task (T E : Type) :=
  | TwoPhase
  | TwoSleeping (e : nat)
  | TwoAwaitGate (e : nat)
  | TwoClearing (e : nat)
  | TwoAwaitSlot (e : nat)
  | TwoSyncing (e : nat) (data : T)
  | TwoFollowing (e : nat) (id : Z)
  | TwoReturned (r : result E unit)
  | Single
  | SingleSleeping (e : nat)
  | SingleClearing (e : nat)
  | SingleAwaitGate (e : nat)
  | SingleSyncing (e : nat)
  | SingleFollowing (e : nat) (id : Z)
  | Until (rides : nat)
  | UntilRiding (rides : nat) (e : nat) (id : Z)
  | UntilAwaitGate
  | UntilSyncing
  | RollbackAwaitGate
  | RollbackHolding
  | OtherReturned (r : result E unit).
Arguments TwoPhase {T E}.
Arguments TwoSleeping {T E} e.
Arguments TwoAwaitGate {T E} e.
Arguments TwoClearing {T E} e.
Arguments TwoAwaitSlot {T E} e.
Arguments TwoSyncing {T E} e data.
Arguments TwoFollowing {T E} e id.
Arguments TwoReturned {T E} r.
Arguments Single {T E}.
Arguments SingleSleeping {T E} e.
Arguments SingleClearing {T E} e.
Arguments SingleAwaitGate {T E} e.
Arguments SingleSyncing {T E} e.
Arguments SingleFollowing {T E} e id.
Arguments Until {T E} rides.
Arguments UntilRiding {T E} rides e id.
Arguments UntilAwaitGate {T E}.
Arguments UntilSyncing {T E}.
Arguments RollbackAwaitGate {T E}.
Arguments RollbackHolding {T E}.
Arguments OtherReturned {T E} r.

(** The coordinator with its tasks, and the world its callbacks act on.  The
    gate names the task that holds it. *)
Record Coordinator (W T E : Type) := {
  lock_orchestrator : option nat;
  lock_orchestrator_single : option nat;
  sync_gate : option nat;
  last_two_phase_batched : bool;
  events_two : gmap nat (LocalEvent (result E unit));
  events_single : gmap nat (LocalEvent (result E unit));
  tasks : gmap nat (Task T E);
  world : W;
}.
Arguments lock_orchestrator {W T E} _.
Arguments lock_orchestrator_single {W T E} _.
Arguments sync_gate {W T E} _.
Arguments last_two_phase_batched {W T E} _.
Arguments events_two {W T E} _.
Arguments events_single {W T E} _.
Arguments tasks {W T E} _.
Arguments world {W T E} _.

Section coordinator.
Context {W T E : Type}.
Implicit Types (c : Coordinator W T E) (t e : nat).

Definition Coordinator_new (w : W) : Coordinator W T E :=
  {| lock_orchestrator := None; lock_orchestrator_single := None; sync_gate := None; last_two_phase_batched := false;
     events_two := ∅; events_single := ∅; tasks := ∅; world := w |}.

(** Field updates. *)
Definition set_task c t (k : Task T E) : Coordinator W T E :=
  {| lock_orchestrator := lock_orchestrator c; lock_orchestrator_single := lock_orchestrator_single c;
     sync_gate := sync_gate c; last_two_phase_batched := last_two_phase_batched c; events_two := events_two c;
     events_single := events_single c; tasks := <[t := k]> (tasks c); world := world c |}.
Definition set_slot c (s : option nat) : Coordinator W T E :=
  {| lock_orchestrator := s; lock_orchestrator_single := lock_orchestrator_single c;
     sync_gate := sync_gate c; last_two_phase_batched := last_two_phase_batched c; events_two := events_two c;
     events_single := events_single c; tasks := tasks c; world := world c |}.
Definition set_slot_single c (s : option nat) : Coordinator W T E :=
  {| lock_orchestrator := lock_orchestrator c; lock_orchestrator_single := s;
     sync_gate := sync_gate c; last_two_phase_batched := last_two_phase_batched c; events_two := events_two c;
     events_single := events_single c; tasks := tasks c; world := world c |}.
Definition set_gate c (g : option nat) : Coordinator W T E :=
  {| lock_orchestrator := lock_orchestrator c; lock_orchestrator_single := lock_orchestrator_single c;
     sync_gate := g; last_two_phase_batched := last_two_phase_batched c; events_two := events_two c;
     events_single := events_single c; tasks := tasks c; world := world c |}.
Definition set_batched c (b : bool) : Coordinator W T E :=
  {| lock_orchestrator := lock_orchestrator c; lock_orchestrator_single := lock_orchestrator_single c;
     sync_gate := sync_gate c; last_two_phase_batched := b; events_two := events_two c;
     events_single := events_single c; tasks := tasks c; world := world c |}.
Definition set_events c (evs : gmap nat (LocalEvent (result E unit))) : Coordinator W T E :=
  {| lock_orchestrator := lock_orchestrator c; lock_orchestrator_single := lock_orchestrator_single c;
     sync_gate := sync_gate c; last_two_phase_batched := last_two_phase_batched c; events_two := evs;
     events_single := events_single c; tasks := tasks c; world := world c |}.
Definition set_events_single c (evs : gmap nat (LocalEvent (result E unit))) : Coordinator W T E :=
  {| lock_orchestrator := lock_orchestrator c; lock_orchestrator_single := lock_orchestrator_single c;
     sync_gate := sync_gate c; last_two_phase_batched := last_two_phase_batched c; events_two := events_two c;
     events_single := evs; tasks := tasks c; world := world c |}.
Definition set_world c (w : W) : Coordinator W T E :=
  {| lock_orchestrator := lock_orchestrator c; lock_orchestrator_single := lock_orchestrator_single c;
     sync_gate := sync_gate c; last_two_phase_batched := last_two_phase_batched c; events_two := events_two c;
     events_single := events_single c; tasks := tasks c; world := w |}.
End coordinator.

(** ** The steps *)

Section protocol.
Context {W T E : Type}.
Implicit Types (c : Coordinator W T E) (t e : nat).

(** The callbacks: the capture of the first phase, the outcomes of the second,
    those of a header-only sync, when a ride is enough, and what a request and
    everything else do to the world. *)
Context (capture_fn : W -> W * CaptureResult T E).
Context (commit : W -> T -> result E unit -> W -> Prop).
Context (header : W -> result E unit -> W -> Prop).
Context (satisfied : nat -> W -> bool).
Context (submit : nat -> W -> W -> Prop) (other : W -> W -> Prop).
Context (gate_timeout_err : E).

(** A listener registered on the event in the slot. *)
Definition attach c e (k : Z -> Task T E) t : Coordinator W T E :=
  match events_two c !! e with
  | Some ev => let '(ev, id) := listen ev in set_task (set_events c (<[e := ev]> (events_two c))) t (k id)
  | None => c
  end.

Definition attach_single c e t : Coordinator W T E :=
  match events_single c !! e with
  | Some ev =>
      let '(ev, id) := listen ev in
      set_task (set_events_single c (<[e := ev]> (events_single c))) t (SingleFollowing e id)
  | None => c
  end.

Definition notify_two c e (r : result E unit) : Coordinator W T E :=
  set_events c (alter (fun ev => notify ev r) e (events_two c)).
Definition notify_single c e (r : result E unit) : Coordinator W T E :=
  set_events_single c (alter (fun ev => notify ev r) e (events_single c)).

(** A new event in the slot. *)
Definition open_cycle c e : Coordinator W T E :=
  set_slot (set_events c (<[e := LocalEvent_new]> (events_two c))) (Some e).
Definition open_single c e : Coordinator W T E :=
  set_slot_single (set_events_single c (<[e := LocalEvent_new]> (events_single c))) (Some e).

(** The end of a cycle that got as far as its capture. *)
Definition finish_two c t e (r : result E unit) : Coordinator W T E :=
  let c := set_gate c None in
  let c := set_batched c (match events_two c !! e with Some ev => (0 <? listener_count ev)%nat | None => false end) in
  set_task (notify_two c e r) t (TwoReturned r).

(** Capture and clearing the slot, under the slot's lock. *)
Definition capture_and_clear c t e : Coordinator W T E :=
  let '(w, captured) := capture_fn (world c) in
  let c := set_slot (set_world c w) None in
  match captured with
  | Captured data => set_task c t (TwoSyncing e data)
  | CaptureFailed x => finish_two c t e (Err x)
  | NoCaptureRaceButOk => finish_two c t e (Ok tt)
  end.

(** The result of a listener, removed once it is delivered. *)
Definition deliver c e (id : Z) (k : result E unit -> Task T E) t : Coordinator W T E :=
  match events_two c !! e with
  | Some ev =>
      let '(ev, r) := poll ev id in
      let c := set_events c (<[e := ev]> (events_two c)) in
      match r with Some r => set_task c t (k r) | None => c end
  | None => c
  end.

Definition deliver_single c e (id : Z) t : Coordinator W T E :=
  match events_single c !! e with
  | Some ev =>
      let '(ev, r) := poll ev id in
      let c := set_events_single c (<[e := ev]> (events_single c)) in
      match r with Some r => set_task c t (OtherReturned r) | None => c end
  | None => c
  end.

(** The label says whether the lock of the two-phase slot timed out for a
    leader. *)
Inductive step : bool -> Coordinator W T E -> Coordinator W T E -> Prop :=
  (* request_sync_two_phase *)
  | step_submit c t w : tasks c !! t = None -> submit t (world c) w ->
      step false c (set_task (set_world c w) t TwoPhase)
  | step_two_retry c t : tasks c !! t = Some TwoPhase -> step false c c
  | step_two_follow c t e : tasks c !! t = Some TwoPhase -> lock_orchestrator c = Some e ->
      step false c (attach c e (TwoFollowing e) t)
  | step_two_lead_fast c t e : tasks c !! t = Some TwoPhase -> lock_orchestrator c = None -> events_two c !! e = None ->
      last_two_phase_batched c = false -> sync_gate c = None ->
      step false c (set_task (set_gate (open_cycle c e) (Some t)) t (TwoAwaitSlot e))
  | step_two_lead c t e : tasks c !! t = Some TwoPhase -> lock_orchestrator c = None -> events_two c !! e = None ->
      last_two_phase_batched c = true \/ is_Some (sync_gate c) ->
      step false c (set_task (open_cycle c e) t (TwoSleeping e))
  | step_two_woken c t e : tasks c !! t = Some (TwoSleeping e) -> step false c (set_task c t (TwoAwaitGate e))
  | step_two_gate c t e : tasks c !! t = Some (TwoAwaitGate e) -> sync_gate c = None ->
      step false c (set_task (set_gate c (Some t)) t (TwoAwaitSlot e))
  | step_two_gate_timeout c t e : tasks c !! t = Some (TwoAwaitGate e) -> step false c (set_task c t (TwoClearing e))
  | step_two_clear c t e : tasks c !! t = Some (TwoClearing e) ->
      step false c (set_task (notify_two (set_slot c None) e (Err gate_timeout_err)) t (TwoReturned (Err gate_timeout_err)))
  | step_two_clear_timeout c t e : tasks c !! t = Some (TwoClearing e) ->
      step true c (set_task (notify_two c e (Err gate_timeout_err)) t (TwoReturned (Err gate_timeout_err)))
  | step_two_capture c t e : tasks c !! t = Some (TwoAwaitSlot e) -> step false c (capture_and_clear c t e)
  | step_two_capture_timeout c t e : tasks c !! t = Some (TwoAwaitSlot e) ->
      step true c (set_task (notify_two (set_gate c None) e (Err gate_timeout_err)) t (TwoReturned (Err gate_timeout_err)))
  | step_two_synced c t e data r w : tasks c !! t = Some (TwoSyncing e data) -> commit (world c) data r w ->
      step false c (finish_two (set_world c w) t e r)
  | step_two_poll c t e id : tasks c !! t = Some (TwoFollowing e id) ->
      step false c (deliver c e id TwoReturned t)
  (* request_sync *)
  | step_single_start c t : tasks c !! t = None -> step false c (set_task c t Single)
  | step_single_retry c t : tasks c !! t = Some Single -> step false c c
  | step_single_follow c t e : tasks c !! t = Some Single -> lock_orchestrator_single c = Some e ->
      step false c (attach_single c e t)
  | step_single_lead c t e : tasks c !! t = Some Single -> lock_orchestrator_single c = None -> events_single c !! e = None ->
      step false c (set_task (open_single c e) t (SingleSleeping e))
  | step_single_woken c t e : tasks c !! t = Some (SingleSleeping e) -> step false c (set_task c t (SingleClearing e))
  | step_single_clear c t e : tasks c !! t = Some (SingleClearing e) ->
      step false c (set_task (set_slot_single c None) t (SingleAwaitGate e))
  | step_single_clear_timeout c t e : tasks c !! t = Some (SingleClearing e) ->
      step false c (set_task c t (SingleAwaitGate e))
  | step_single_gate c t e : tasks c !! t = Some (SingleAwaitGate e) -> sync_gate c = None ->
      step false c (set_task (set_gate c (Some t)) t (SingleSyncing e))
  | step_single_gate_timeout c t e : tasks c !! t = Some (SingleAwaitGate e) ->
      step false c (set_task (notify_single c e (Err gate_timeout_err)) t (OtherReturned (Err gate_timeout_err)))
  | step_single_synced c t e r w : tasks c !! t = Some (SingleSyncing e) -> header (world c) r w ->
      step false c (set_task (notify_single (set_gate (set_world c w) None) e r) t (OtherReturned r))
  | step_single_poll c t e id : tasks c !! t = Some (SingleFollowing e id) -> step false c (deliver_single c e id t)
  (* request_sync_until *)
  | step_until_start c t : tasks c !! t = None -> step false c (set_task c t (Until 0))
  | step_until_satisfied c t rides : tasks c !! t = Some (Until rides) -> satisfied t (world c) = true ->
      step false c (set_task c t (OtherReturned (Ok tt)))
  | step_until_ride c t rides e : tasks c !! t = Some (Until rides) -> satisfied t (world c) = false ->
      (rides < MAX_RIDES)%nat -> lock_orchestrator c = Some e ->
      step false c (attach c e (UntilRiding (S rides) e) t)
  | step_until_alone c t rides : tasks c !! t = Some (Until rides) -> satisfied t (world c) = false ->
      step false c (set_task c t UntilAwaitGate)
  | step_until_poll c t rides e id : tasks c !! t = Some (UntilRiding rides e id) ->
      step false c (deliver c e id (fun _ => Until rides) t)
  | step_until_gate c t : tasks c !! t = Some UntilAwaitGate -> sync_gate c = None ->
      step false c (if satisfied t (world c) then set_task c t (OtherReturned (Ok tt))
                    else set_task (set_gate c (Some t)) t UntilSyncing)
  | step_until_gate_timeout c t : tasks c !! t = Some UntilAwaitGate ->
      step false c (set_task c t (OtherReturned (Err gate_timeout_err)))
  | step_until_synced c t r w : tasks c !! t = Some UntilSyncing -> header (world c) r w ->
      step false c (set_task (set_gate (set_world c w) None) t (OtherReturned r))
  (* acquire_rollback_lock *)
  | step_rollback_start c t : tasks c !! t = None -> step false c (set_task c t RollbackAwaitGate)
  | step_rollback_gate c t : tasks c !! t = Some RollbackAwaitGate -> sync_gate c = None ->
      step false c (set_task (set_gate c (Some t)) t RollbackHolding)
  | step_rollback_gate_timeout c t : tasks c !! t = Some RollbackAwaitGate ->
      step false c (set_task c t (OtherReturned (Err gate_timeout_err)))
  | step_rollback_release c t : tasks c !! t = Some RollbackHolding ->
      step false c (set_task (set_gate c None) t (OtherReturned (Ok tt)))
  (* everything else *)
  | step_other c w : other (world c) w -> step false c (set_world c w).

Definition any_step c c' : Prop := exists timed_out, step timed_out c c'.
End protocol.

(** ** What an answer promises

    The interface to the callbacks: each request has a piece of work.  It is
    pending until a capture takes it, and settled once a sync has dealt with
    it.  The world and what is captured may have invariants of their own. *)
Class Tickets (W T E : Type) (capture_fn : W -> W * CaptureResult T E)
    (commit : W -> T -> result E unit -> W -> Prop) (header : W -> result E unit -> W -> Prop)
    (submit : nat -> W -> W -> Prop) (other : W -> W -> Prop) := {
  valid : W -> Prop;
  sound : T -> Prop;
  pending : nat -> W -> Prop;
  carries : nat -> T -> Prop;
  settled : nat -> W -> Prop;
  keeps (own : nat -> Prop) (w w' : W) : Prop :=
    valid w' /\ forall t, ~ own t -> (settled t w -> settled t w') /\ (pending t w -> pending t w' \/ settled t w');
  ticket_submit t w w' : valid w -> submit t w w' -> keeps (eq t) w w' /\ pending t w';
  ticket_other w w' : valid w -> other w w' -> keeps (fun _ => False) w w';
  ticket_header w r w' : valid w -> header w r w' -> keeps (fun _ => False) w w';
  ticket_capture w w' x : valid w -> capture_fn w = (w', x) -> valid w' /\
    match x with Captured data => sound data | _ => True end /\
    forall t, (settled t w -> settled t w') /\
      (pending t w ->
       match x with
       | Captured data => carries t data
       | CaptureFailed _ => pending t w' \/ settled t w'
       | NoCaptureRaceButOk => settled t w'
       end);
  ticket_commit w data r w' : valid w -> sound data -> commit w data r w' ->
    keeps (fun _ => False) w w' /\ forall t, carries t data -> settled t w';
}.

Section promises.
Context {W T E : Type} {capture_fn : W -> W * CaptureResult T E}
  {commit : W -> T -> result E unit -> W -> Prop} {header : W -> result E unit -> W -> Prop}
  {submit : nat -> W -> W -> Prop} {other : W -> W -> Prop}.
Context `{!Tickets W T E capture_fn commit header submit other}.
Context (satisfied : nat -> W -> bool) (gate_timeout_err : E).
Implicit Types (c : Coordinator W T E) (t e : nat).

Notation step := (step capture_fn commit header satisfied submit other gate_timeout_err).

(** The cycle a leader has open, before its capture. *)
Definition opened (k : Task T E) : option nat :=
  match k with TwoSleeping e | TwoAwaitGate e | TwoClearing e | TwoAwaitSlot e => Some e | _ => None end.

Definition holds_gate (k : Task T E) : bool :=
  match k with TwoAwaitSlot _ | TwoSyncing _ _ | SingleSyncing _ | UntilSyncing | RollbackHolding => true | _ => false end.

Definition syncing c t e (data : T) : Prop := tasks c !! t = Some (TwoSyncing e data).

(** The work is still to be captured, in the batch being synced, or settled. *)
Definition covered c t : Prop :=
  pending t (world c) \/ settled t (world c) \/ exists t' e data, syncing c t' e data /\ carries t data.

Definition said_ok c e : Prop :=
  exists ev id, events_two c !! e = Some ev /\ (listeners ev !! id ≫= ls_result) = Some (Ok tt).

(** A follower's cycle is open, or being synced, or over. *)
Definition followed c t e : Prop :=
  is_Some (events_two c !! e) /\
  ((lock_orchestrator c = Some e /\ covered c t) \/
   (exists t' data, syncing c t' e data /\ (carries t data \/ settled t (world c))) \/
   (lock_orchestrator c <> Some e /\ (forall t' data, ~ syncing c t' e data) /\
    (said_ok c e -> settled t (world c)))).

Definition promise c t (k : Task T E) : Prop :=
  match k with
  | TwoPhase => covered c t
  | TwoSleeping _ | TwoAwaitGate _ | TwoClearing _ | TwoAwaitSlot _ => covered c t
  | TwoSyncing e data =>
      is_Some (events_two c !! e) /\ lock_orchestrator c <> Some e /\ ~ said_ok c e /\
      (carries t data \/ settled t (world c)) /\ sound data
  | TwoFollowing e _ => followed c t e
  | TwoReturned (Ok _) => settled t (world c)
  | _ => True
  end.

Record coordinated c : Prop := {
  co_promise t k : tasks c !! t = Some k -> promise c t k;
  co_gate t k : tasks c !! t = Some k -> holds_gate k = true -> sync_gate c = Some t;
  co_opened t k e : tasks c !! t = Some k -> opened k = Some e -> lock_orchestrator c = Some e;
  co_leader t t' k k' e e' : tasks c !! t = Some k -> tasks c !! t' = Some k' ->
    opened k = Some e -> opened k' = Some e' -> t = t';
  co_slot e : lock_orchestrator c = Some e -> is_Some (events_two c !! e) /\ ~ said_ok c e;
  co_valid : valid (world c);
}.

Lemma one_holder c t t' k k' : coordinated c -> tasks c !! t = Some k -> tasks c !! t' = Some k' ->
  holds_gate k = true -> holds_gate k' = true -> t = t'.
Proof. intros Hc Hk Hk' Hg Hg'. pose proof (co_gate c Hc t k Hk Hg). pose proof (co_gate c Hc t' k' Hk' Hg'). congruence. Qed.

(** Steps that neither open nor end a cycle. *)
Record quiet c c' t : Prop := {
  qu_world : keeps (eq t) (world c) (world c');
  qu_gate t' : t' <> t -> sync_gate c = Some t' -> sync_gate c' = Some t';
  qu_events e : is_Some (events_two c !! e) -> is_Some (events_two c' !! e);
  qu_said e : is_Some (events_two c !! e) -> said_ok c' e -> said_ok c e;
  qu_slot e : is_Some (events_two c !! e) -> lock_orchestrator c' = Some e <-> lock_orchestrator c = Some e;
  qu_sync t' e data : syncing c' t' e data <-> syncing c t' e data;
}.

Lemma quiet_kept c c' t0 t : quiet c c' t0 -> t <> t0 \/ world c' = world c ->
  (settled t (world c) -> settled t (world c')) /\
  (pending t (world c) -> pending t (world c') \/ settled t (world c')).
Proof. intros [[_ Hw] _ _ _ _ _] [Hne| ->]; [apply Hw; congruence|auto]. Qed.

Lemma quiet_covered c c' t0 t : quiet c c' t0 -> t <> t0 \/ world c' = world c -> covered c t -> covered c' t.
Proof.
  intros Hq Ht Hcov. destruct (quiet_kept c c' t0 t Hq Ht) as [H1 H2].
  destruct Hcov as [Hp|[Hd|(t' & e & d & Hy & Hc)]].
  - destruct (H2 Hp); [by left|right; by left].
  - right. left. auto.
  - right. right. exists t', e, d. by rewrite (qu_sync _ _ _ Hq).
Qed.

Lemma quiet_promise c c' t0 t k : coordinated c -> quiet c c' t0 -> t <> t0 -> promise c t k -> promise c' t k.
Proof.
  intros Hc Hq Hne. pose proof (quiet_covered c c' t0 t Hq (or_introl Hne)) as Hcov.
  pose proof (proj1 (quiet_kept c c' t0 t Hq (or_introl Hne))) as Hset. destruct Hq as [_ _ He Hsaid Hs Hy].
  destruct k as [| | | | |e d|e id|[]| | | | | | | | | | | | |]; cbn; auto.
  - intros (Hev & Hslot & Hno & Hcar & Hd). split_and!; [auto|by rewrite Hs|auto|naive_solver|done].
  - intros (Hev & Hcase). split; [auto|]. destruct Hcase as [(? & ?)|[(t' & d & ? & ?)|(? & Hn & Hok)]].
    + left. split; [by rewrite Hs|auto].
    + right. left. exists t', d. rewrite Hy. naive_solver.
    + right. right. split_and!; [by rewrite Hs|intros t' d; rewrite Hy; auto|auto].
Qed.

(** One task moves, the others keep their promises. *)
Lemma quiet_step c c' t k : coordinated c -> quiet c c' t ->
  (forall t', t' <> t -> tasks c' !! t' = tasks c !! t') -> tasks c' !! t = Some k ->
  promise c' t k -> (holds_gate k = true -> sync_gate c' = Some t) ->
  (forall e, opened k = Some e -> lock_orchestrator c' = Some e /\
     forall t' k', t' <> t -> tasks c !! t' = Some k' -> opened k' = None) ->
  (forall e, lock_orchestrator c' = Some e -> is_Some (events_two c' !! e) /\ ~ said_ok c' e) ->
  coordinated c'.
Proof.
  intros Hc Hq Hother Hk Hp Hg Hop Hslot. split; [| | | |exact Hslot|apply (qu_world _ _ _ Hq)].
  - intros t' k' Ht'. destruct (decide (t' = t)) as [->|Hne]; [congruence|].
    rewrite Hother in Ht' by done. apply (quiet_promise c c' t); [done..|]. by apply (co_promise c Hc).
  - intros t' k' Ht' Hg'. destruct (decide (t' = t)) as [->|Hne]; [rewrite Hk in Ht'; naive_solver|].
    rewrite Hother in Ht' by done. apply (qu_gate _ _ _ Hq); [done|]. by apply (co_gate c Hc t' k').
  - intros t' k' e Ht' Ho. destruct (decide (t' = t)) as [->|Hne]; [rewrite Hk in Ht'; naive_solver|].
    rewrite Hother in Ht' by done. pose proof (co_opened c Hc t' k' e Ht' Ho) as Hl.
    apply (qu_slot _ _ _ Hq); [|done]. by apply (co_slot c Hc).
  - intros t1 t2 k1 k2 e1 e2 H1 H2 O1 O2.
    destruct (decide (t1 = t)) as [->|Hn1], (decide (t2 = t)) as [->|Hn2]; [done| | |].
    + rewrite Hother in H2 by done. assert (k1 = k) as -> by congruence. destruct (Hop _ O1) as [_ Hn].
      by rewrite (Hn t2 k2) in O2.
    + rewrite Hother in H1 by done. assert (k2 = k) as -> by congruence. destruct (Hop _ O2) as [_ Hn].
      by rewrite (Hn t1 k1) in O1.
    + rewrite Hother in H1, H2 by done. by eapply (co_leader c Hc).
Qed.

Lemma keeps_refl own c : coordinated c -> keeps own (world c) (world c).
Proof. intros Hc. split; [apply Hc|auto]. Qed.

Lemma keeps_all own w w' : keeps (fun _ => False) w w' -> keeps own w w'.
Proof. intros [Hv Hk]. split; [done|]. intros t _. apply Hk. tauto. Qed.

(** Events that say no more than before. *)
Definition event_result (ev : LocalEvent (result E unit)) (id : Z) : option (result E unit) :=
  listeners ev !! id ≫= ls_result.

Definition events_le (evs evs' : gmap nat (LocalEvent (result E unit))) : Prop :=
  forall e ev, evs !! e = Some ev -> exists ev', evs' !! e = Some ev' /\
    forall id, event_result ev' id = Some (Ok tt) -> event_result ev id = Some (Ok tt).

Lemma events_le_refl evs : events_le evs evs.
Proof. intros e ev He. by exists ev. Qed.

Lemma events_le_insert evs e ev ev' : evs !! e = Some ev ->
  (forall id, event_result ev' id = Some (Ok tt) -> event_result ev id = Some (Ok tt)) ->
  events_le evs (<[e := ev']> evs).
Proof.
  intros He Hr e0 ev0 H0. destruct (decide (e0 = e)) as [->|Hne].
  - exists ev'. rewrite lookup_insert_eq. split; [done|]. naive_solver.
  - exists ev0. by rewrite lookup_insert_ne.
Qed.

Lemma events_le_new evs e ev : evs !! e = None -> events_le evs (<[e := ev]> evs).
Proof.
  intros He e0 ev0 H0. exists ev0. split; [|done]. rewrite lookup_insert_ne; [done|congruence].
Qed.

Lemma notify_result ev (r : result E unit) id : event_result (notify ev r) id =
  match listeners ev !! id with Some _ => Some r | None => None end.
Proof. unfold event_result, notify. cbn. rewrite lookup_fmap. by destruct (listeners ev !! id). Qed.

Lemma events_le_notify evs e x : events_le evs (alter (fun ev => notify ev (Err x)) e evs).
Proof.
  intros e0 ev0 H0. destruct (decide (e0 = e)) as [->|Hne].
  - exists (notify ev0 (Err x)). rewrite lookup_alter_eq, H0. split; [done|]. intros id. rewrite notify_result.
    by case_match.
  - exists ev0. by rewrite lookup_alter_ne.
Qed.

Lemma listen_result ev id : event_result (listen ev).1 id = Some (Ok tt) -> event_result ev id = Some (Ok tt).
Proof.
  unfold event_result, listen. cbn. destruct (decide (id = last_id ev)) as [->|Hne];
    by rewrite ?lookup_insert_eq, ?lookup_insert_ne.
Qed.

Lemma poll_result ev id0 id : event_result (poll ev id0).1 id = Some (Ok tt) -> event_result ev id = Some (Ok tt).
Proof.
  unfold event_result, poll. destruct (listeners ev !! id0 ≫= ls_result); cbn.
  - destruct (decide (id = id0)) as [->|Hne]; by rewrite ?lookup_delete_eq, ?lookup_delete_ne.
  - destruct (decide (id = id0)) as [->|Hne]; by rewrite ?lookup_insert_eq, ?lookup_insert_ne.
Qed.

Lemma events_le_said c c' e : events_le (events_two c) (events_two c') ->
  is_Some (events_two c !! e) -> is_Some (events_two c' !! e) /\ (said_ok c' e -> said_ok c e).
Proof.
  intros Hle [ev Hev]. destruct (Hle e ev Hev) as (ev' & Hev' & Hr). split; [by eexists|].
  intros (ev1 & id & He1 & Hok). assert (ev1 = ev') as -> by congruence. exists ev, id. split; [done|]. by apply Hr.
Qed.

Definition is_syncing (k : option (Task T E)) : bool := match k with Some (TwoSyncing _ _) => true | _ => false end.

(** A task that is not syncing moves; the slot does not. *)
Lemma quiet_move c c' t k : is_syncing (tasks c !! t) = false -> is_syncing (Some k) = false ->
  tasks c' = <[t := k]> (tasks c) -> keeps (eq t) (world c) (world c') ->
  (forall t', t' <> t -> sync_gate c = Some t' -> sync_gate c' = Some t') ->
  events_le (events_two c) (events_two c') ->
  (forall e, is_Some (events_two c !! e) -> lock_orchestrator c' = Some e <-> lock_orchestrator c = Some e) ->
  quiet c c' t.
Proof.
  intros Hk0 Hk Ht Hw Hg He Hs. split; try done.
  - intros e Hs'. by apply (events_le_said c c' e).
  - intros e Hs'. by apply (events_le_said c c' e).
  - intros t' e d. unfold syncing. rewrite Ht. destruct (decide (t' = t)) as [->|Hne].
    + rewrite lookup_insert_eq. destruct (tasks c !! t) as [[]|]; naive_solver.
    + by rewrite lookup_insert_ne.
Qed.

(** The same task still leads, or did not and does not. *)
Lemma move_step c c' t k : coordinated c -> is_syncing (tasks c !! t) = false -> is_syncing (Some k) = false ->
  tasks c' = <[t := k]> (tasks c) -> keeps (eq t) (world c) (world c') ->
  (forall t', t' <> t -> sync_gate c = Some t' -> sync_gate c' = Some t') ->
  events_le (events_two c) (events_two c') -> lock_orchestrator c' = lock_orchestrator c ->
  (holds_gate k = true -> sync_gate c' = Some t) ->
  (opened k = None \/ exists k0, tasks c !! t = Some k0 /\ opened k = opened k0) ->
  (quiet c c' t -> promise c' t k) -> coordinated c'.
Proof.
  intros Hc Hk0 Hk Ht Hw Hg He Hs Hh Ho Hp.
  assert (Hq : quiet c c' t) by (eapply quiet_move; [done..|]; intros e _; by rewrite Hs).
  apply (quiet_step c c' t k); auto.
  - intros t' Hne. rewrite Ht. by apply lookup_insert_ne.
  - by rewrite Ht, lookup_insert_eq.
  - intros e Hop. destruct Ho as [Ho|(k0 & Hk0' & Ho)]; [congruence|]. rewrite Ho in Hop.
    split; [rewrite Hs; by apply (co_opened c Hc t k0)|]. intros t' k' Hne Ht'.
    destruct (opened k') as [e'|] eqn:Eo; [|done]. destruct Hne.
    by apply (co_leader c Hc t' t k' k0 e' e).
  - intros e Hl. rewrite Hs in Hl. destruct (co_slot c Hc e Hl) as [Hev Hno].
    destruct (events_le_said c c' e He Hev). naive_solver.
Qed.

(** Steps that change neither the slot nor what its events say. *)
Lemma world_step c w : coordinated c -> keeps (fun _ => False) (world c) w -> coordinated (set_world c w).
Proof.
  intros Hc Hw. assert (Hq : forall t, quiet c (set_world c w) t) by (intros; split; [by apply keeps_all|done..]).
  split; try apply Hc; [|apply Hw]. intros t k Ht. apply (quiet_promise c _ (S t)); [done..|lia|]. by apply (co_promise c Hc).
Qed.

Lemma follow_step c t e k : coordinated c -> is_syncing (tasks c !! t) = false ->
  (forall id, is_syncing (Some (k id)) = false /\ holds_gate (k id) = false /\ opened (k id) = None) ->
  (forall c' id, quiet c c' t -> world c' = world c -> promise c' t (k id)) -> coordinated (attach c e k t).
Proof.
  intros Hc Hk0 Hk Hp. unfold attach. destruct (events_two c !! e) as [ev|] eqn:Ee; [|done].
  destruct (listen ev) as [ev' id] eqn:El. destruct (Hk id) as (Hs & Hg & Ho).
  eapply (move_step c _ t (k id)); try done.
  - exact (keeps_refl _ c Hc).
  - cbn. eapply events_le_insert; [done|]. intros id'. replace ev' with (listen ev).1 by (by rewrite El).
    apply listen_result.
  - rewrite Hg. done.
  - by left.
  - intros Hq. by apply Hp.
Qed.

Lemma deliver_step c t e id k : coordinated c -> is_syncing (tasks c !! t) = false ->
  (forall r, is_syncing (Some (k r)) = false /\ holds_gate (k r) = false /\ opened (k r) = None) ->
  (forall c' ev r, events_two c !! e = Some ev -> event_result ev id = Some r -> quiet c c' t -> world c' = world c ->
     promise c' t (k r)) ->
  coordinated (deliver c e id k t).
Proof.
  intros Hc Hk0 Hk Hp. unfold deliver. destruct (events_two c !! e) as [ev|] eqn:Ee; [|done].
  destruct (poll ev id) as [ev' r] eqn:Epoll.
  assert (Hle : events_le (events_two c) (<[e := ev']> (events_two c))).
  { eapply events_le_insert; [done|]. intros id'. replace ev' with (poll ev id).1 by (by rewrite Epoll).
    apply poll_result. }
  destruct r as [r|].
  - destruct (Hk r) as (Hs & Hg & Ho). eapply (move_step c _ t (k r)); try done.
    + exact (keeps_refl _ c Hc).
    + rewrite Hg. done.
    + by left.
    + intros Hq. apply (Hp _ ev); [done| |done..]. unfold event_result. revert Epoll. unfold poll.
      destruct (listeners ev !! id ≫= ls_result); naive_solver.
  - assert (Hq : forall t', quiet c (set_events c (<[e := ev']> (events_two c))) t').
    { intros t'. split; try done; [exact (keeps_refl _ c Hc)|..]; intros e' He'; by apply (events_le_said c _ e'). }
    split; try apply Hc.
    + intros t' k' Ht'. apply (quiet_promise c _ (S t')); [done..|lia|]. by apply (co_promise c Hc).
    + intros e' He'. destruct (co_slot c Hc e' He') as [Hev Hno].
      destruct (events_le_said c (set_events c (<[e := ev']> (events_two c))) e' Hle Hev). naive_solver.
Qed.

(** ** Opening and ending a cycle *)

Lemma open_step c t e k g : coordinated c -> tasks c !! t = Some TwoPhase -> lock_orchestrator c = None ->
  events_two c !! e = None -> opened k = Some e ->
  (forall t', t' <> t -> sync_gate c = Some t' -> g = Some t') -> (holds_gate k = true -> g = Some t) ->
  coordinated (set_task (set_gate (open_cycle c e) g) t k).
Proof.
  intros Hc Ht Hl He Hk Hg Hh.
  assert (Hq : quiet c (set_task (set_gate (open_cycle c e) g) t k) t).
  { apply (quiet_move c _ t k); try done.
    - by rewrite Ht.
    - by destruct k.
    - exact (keeps_refl _ c Hc).
    - by apply events_le_new.
    - intros e' [ev Hev]. cbn. rewrite Hl. split; [|done]. congruence. }
  apply (quiet_step c _ t k); auto.
  - intros t' Hne. by apply lookup_insert_ne.
  - apply lookup_insert_eq.
  - assert (Hcov := quiet_covered _ _ _ t Hq (or_intror eq_refl) (co_promise c Hc t TwoPhase Ht)). by destruct k.
  - intros e' Ho. assert (e' = e) as -> by congruence. split; [done|]. intros t' k' Hne Hk'.
    destruct (opened k') eqn:Eo; [|done]. pose proof (co_opened c Hc t' k' _ Hk' Eo). congruence.
  - cbn. intros e' [= <-]. rewrite lookup_insert_eq. split; [by eexists|]. intros (ev & id & Hev & Hr).
    cbn in Hev. rewrite lookup_insert_eq in Hev. injection Hev as <-. cbn in Hr. by rewrite lookup_empty in Hr.
Qed.

(** The leader [t] of the cycle [e] answers [r]. *)
Record ends c c' t e (r : result E unit) : Prop := {
  en_tasks : tasks c' = <[t := TwoReturned r]> (tasks c);
  en_events : events_two c' = alter (fun ev => notify ev r) e (events_two c);
  en_gate t' : t' <> t -> sync_gate c = Some t' -> sync_gate c' = Some t';
  en_valid : valid (world c');
  en_settled t' : settled t' (world c) -> settled t' (world c');
  en_covered t' : covered c t' -> covered c' t';
  en_followed t' : followed c t' e -> r = Ok tt -> settled t' (world c');
  en_leader : r = Ok tt -> settled t (world c');
  en_slot : lock_orchestrator c' <> Some e;
  en_slots e' : e' <> e -> lock_orchestrator c' = Some e' <-> lock_orchestrator c = Some e';
  en_own e' data : syncing c t e' data -> e' = e;
  en_only t' data : t' <> t -> ~ syncing c t' e data;
  en_opened t' k' : t' <> t -> tasks c !! t' = Some k' -> opened k' <> Some e;
}.

Section ended.
Context c c' t e r (Hc : coordinated c) (Hend : ends c c' t e r).

Lemma ended_sync t' e' data : syncing c' t' e' data <-> syncing c t' e' data /\ t' <> t.
Proof.
  unfold syncing. rewrite (en_tasks _ _ _ _ _ Hend). destruct (decide (t' = t)) as [->|Hne].
  - rewrite lookup_insert_eq. naive_solver.
  - rewrite lookup_insert_ne by done. naive_solver.
Qed.

Lemma ended_said e' : said_ok c' e' -> e' <> e /\ said_ok c e' \/ e' = e /\ r = Ok tt.
Proof.
  intros (ev & id & Hev & Hr). rewrite (en_events _ _ _ _ _ Hend) in Hev. destruct (decide (e' = e)) as [->|Hne].
  - right. split; [done|]. rewrite lookup_alter_eq in Hev. destruct (events_two c !! e) as [ev0|]; [|done].
    injection Hev as <-. fold (event_result (notify ev0 r) id) in Hr. rewrite notify_result in Hr. case_match; congruence.
  - left. rewrite lookup_alter_ne in Hev by done. split; [done|]. by exists ev, id.
Qed.

Lemma ended_event e' : is_Some (events_two c !! e') -> is_Some (events_two c' !! e').
Proof. rewrite (en_events _ _ _ _ _ Hend). by rewrite lookup_alter_is_Some. Qed.

Lemma ended_followed t' e' : followed c t' e' -> followed c' t' e'.
Proof.
  intros Hf. assert (Hf' := Hf). destruct Hf' as [Hev Hcase]. split; [by apply ended_event|].
  destruct (decide (e' = e)) as [->|Hne].
  - right. right. split_and!; [apply Hend| |].
    + intros t2 d [Hs Ht2]%ended_sync. by apply (en_only _ _ _ _ _ Hend t2 d).
    + intros [[? _]|[_ Hr]]%ended_said; [done|]. by apply (en_followed _ _ _ _ _ Hend).
  - destruct Hcase as [[Hl Hcov]|[(t2 & d & Hs & Hcar)|(Hl & Hn & Hok)]].
    + left. split; [by apply (en_slots _ _ _ _ _ Hend)|by apply Hend].
    + right. left. exists t2, d. split; [|destruct Hcar; [by left|right; by apply Hend]]. apply ended_sync.
      split; [done|]. intros ->. destruct Hne. by apply (en_own _ _ _ _ _ Hend e' d).
    + right. right. split_and!; [by rewrite (en_slots _ _ _ _ _ Hend)| |].
      * intros t2 d [Hs _]%ended_sync. by apply (Hn t2 d).
      * intros [[_ Hs]|[? _]]%ended_said; [|done]. apply Hend. auto.
Qed.

Lemma ended_promise t' k : t' <> t -> tasks c !! t' = Some k -> promise c' t' k.
Proof.
  intros Hne Hk. pose proof (co_promise c Hc t' k Hk) as Hp. pose proof (en_settled _ _ _ _ _ Hend t') as Hset.
  destruct k as [| | | | |e' d|e' id|[]| | | | | | | | | | | | |]; cbn in *; try done; try (by apply Hend).
  - destruct Hp as (Hev & Hl & Hno & Hcar & Hd). assert (e' <> e) by (intros ->; by apply (en_only _ _ _ _ _ Hend t' d)).
    split_and!; [by apply ended_event|by rewrite (en_slots _ _ _ _ _ Hend)| |naive_solver|done].
    intros [[_ ?]|[? _]]%ended_said; done.
  - by apply ended_followed.
Qed.

Lemma end_step : coordinated c'.
Proof.
  assert (Hother : forall t', t' <> t -> tasks c' !! t' = tasks c !! t')
    by (intros; rewrite (en_tasks _ _ _ _ _ Hend); by apply lookup_insert_ne).
  assert (Hself : tasks c' !! t = Some (TwoReturned r)) by (rewrite (en_tasks _ _ _ _ _ Hend); apply lookup_insert_eq).
  split.
  - intros t' k Ht'. destruct (decide (t' = t)) as [->|Hne].
    + assert (k = TwoReturned r) as -> by congruence. destruct r as [[]|] eqn:Er; cbn; [|done].
      by apply (en_leader _ _ _ _ _ Hend).
    + apply ended_promise; [done|]. by rewrite <- Hother.
  - intros t' k Ht' Hg. destruct (decide (t' = t)) as [->|Hne]; [rewrite Hself in Ht'; by injection Ht' as <-|].
    apply (en_gate _ _ _ _ _ Hend); [done|]. rewrite Hother in Ht' by done. by apply (co_gate c Hc t' k).
  - intros t' k e' Ht' Ho. destruct (decide (t' = t)) as [->|Hne]; [rewrite Hself in Ht'; by injection Ht' as <-|].
    rewrite Hother in Ht' by done. pose proof (en_opened _ _ _ _ _ Hend t' k Hne Ht').
    apply (en_slots _ _ _ _ _ Hend); [congruence|]. by apply (co_opened c Hc t' k).
  - intros t1 t2 k1 k2 e1 e2 H1 H2 O1 O2.
    destruct (decide (t1 = t)) as [->|]; [rewrite Hself in H1; by injection H1 as <-|].
    destruct (decide (t2 = t)) as [->|]; [rewrite Hself in H2; by injection H2 as <-|].
    rewrite Hother in H1, H2 by done. by eapply (co_leader c Hc).
  - intros e' Hl. assert (e' <> e) as Hne by (intros ->; by apply (en_slot _ _ _ _ _ Hend)).
    apply (en_slots _ _ _ _ _ Hend) in Hl; [|done]. destruct (co_slot c Hc e' Hl) as [Hev Hno].
    split; [by apply ended_event|]. intros [[_ ?]|[? _]]%ended_said; done.
  - apply Hend.
Qed.
End ended.

Lemma clear_step c t e : coordinated c -> tasks c !! t = Some (TwoClearing e) ->
  coordinated (set_task (notify_two (set_slot c None) e (Err gate_timeout_err)) t (TwoReturned (Err gate_timeout_err))).
Proof.
  intros Hc Ht. assert (Hl : lock_orchestrator c = Some e) by by apply (co_opened c Hc t (TwoClearing e)).
  apply (end_step c _ t e (Err gate_timeout_err) Hc). split; try done; [apply Hc|..].
  - intros t' [Hp|[Hs|(t2 & e2 & d & Hs & Hcar)]]; [by left|right; by left|]. right. right. exists t2, e2, d.
    split; [|done]. unfold syncing in *. cbn. rewrite lookup_insert_ne; [done|congruence].
  - cbn. rewrite Hl. intros e' Hne. split; congruence.
  - unfold syncing. intros e' d. congruence.
  - intros t' d _ Hs. by destruct (co_promise c Hc t' _ Hs) as (_ & Hno & _).
  - intros t' k' Hne Hk' Ho. destruct Hne. by apply (co_leader c Hc t' t k' (TwoClearing e) e e).
Qed.

Section capture_step.
Context c t e (Hc : coordinated c) (Ht : tasks c !! t = Some (TwoAwaitSlot e)).

Lemma capturing_slot : lock_orchestrator c = Some e.
Proof. by apply (co_opened c Hc t (TwoAwaitSlot e)). Qed.

Lemma capturing_alone t' e' data : ~ syncing c t' e' data.
Proof.
  intros Hs. assert (t' = t) as ->; [|unfold syncing in Hs; congruence].
  by apply (one_holder c t' t (TwoSyncing e' data) (TwoAwaitSlot e) Hc).
Qed.

Lemma capturing_covered t' : covered c t' -> pending t' (world c) \/ settled t' (world c).
Proof. intros [?|[?|(t2 & e2 & d & Hs & _)]]; [by left|by right|by apply capturing_alone in Hs]. Qed.

Lemma capturing_others t' k : t' <> t -> tasks c !! t' = Some k -> opened k = None.
Proof.
  intros Hne Hk. destruct (opened k) as [e'|] eqn:Eo; [|done]. destruct Hne.
  by apply (co_leader c Hc t' t k (TwoAwaitSlot e) e' e).
Qed.

Lemma captured_step w data : capture_fn (world c) = (w, Captured data) ->
  coordinated (set_task (set_slot (set_world c w) None) t (TwoSyncing e data)).
Proof.
  intros Hcap. destruct (ticket_capture _ _ _ (co_valid c Hc) Hcap) as (Hvalid & Hsound & Hlaw). set (c' := set_task _ _ _).
  assert (Hsync : syncing c' t e data) by apply lookup_insert_eq.
  assert (Hcov : forall t', covered c t' -> carries t' data \/ settled t' (world c')).
  { intros t' Hv. destruct (Hlaw t'). destruct (capturing_covered t' Hv); auto. }
  assert (Hcov' : forall t', covered c t' -> covered c' t').
  { intros t' [?|?]%Hcov; [right; right; by exists t, e, data|right; by left]. }
  destruct (co_slot c Hc e capturing_slot) as [Hev Hno].
  split; try done.
  - intros t' k Ht'. destruct (decide (t' = t)) as [->|Hne].
    { cbn in Ht'. rewrite lookup_insert_eq in Ht'. injection Ht' as <-. cbn. split_and!; try done.
      apply Hcov. apply (co_promise c Hc t _ Ht). }
    cbn in Ht'. rewrite lookup_insert_ne in Ht' by done. pose proof (co_promise c Hc t' k Ht') as Hp.
    pose proof (capturing_others t' k Hne Ht') as Ho. pose proof (proj1 (Hlaw t')) as Hset.
    destruct k as [| | | | |e' d|e' id|[]| | | | | | | | | | | | |]; cbn in Ho, Hp |- *; auto; try done.
    + by apply capturing_alone in Ht'.
    + destruct Hp as (Hev' & Hcase). split; [done|].
      destruct Hcase as [(Hl & Hv)|[(t2 & d & Hs & _)|(Hl & _ & Hok)]]; [| |].
      * right. left. assert (e' = e) as -> by (rewrite capturing_slot in Hl; congruence). exists t, data. auto.
      * by apply capturing_alone in Hs.
      * right. right. split_and!; [done| |auto]. intros t2 d Hs. unfold syncing in Hs. cbn in Hs.
        destruct (decide (t2 = t)) as [->|Hn2].
        -- rewrite lookup_insert_eq in Hs. injection Hs as <- <-. by rewrite capturing_slot in Hl.
        -- rewrite lookup_insert_ne in Hs by done. by apply capturing_alone in Hs.
  - intros t' k Ht' Hg. destruct (decide (t' = t)) as [->|Hne]; [by apply (co_gate c Hc t _ Ht)|].
    cbn in Ht'. rewrite lookup_insert_ne in Ht' by done. by apply (co_gate c Hc t' k).
  - intros t' k e' Ht' Ho. cbn in Ht'. destruct (decide (t' = t)) as [->|Hne].
    + rewrite lookup_insert_eq in Ht'. by injection Ht' as <-.
    + rewrite lookup_insert_ne in Ht' by done. by rewrite (capturing_others t' k Hne Ht') in Ho.
  - intros t1 t2 k1 k2 e1 e2 H1 H2 O1 O2. cbn in H1. destruct (decide (t1 = t)) as [->|Hn1].
    + rewrite lookup_insert_eq in H1. by injection H1 as <-.
    + rewrite lookup_insert_ne in H1 by done. by rewrite (capturing_others t1 k1 Hn1 H1) in O1.
Qed.

Lemma uncaptured_step w r : valid w -> (forall t', settled t' (world c) -> settled t' w) ->
  (forall t', pending t' (world c) -> match r with Ok _ => settled t' w | Err _ => pending t' w \/ settled t' w end) ->
  coordinated (finish_two (set_slot (set_world c w) None) t e r).
Proof.
  intros Hvalid Hset Hpend.
  assert (Hcov : forall t', covered c t' -> (pending t' w \/ settled t' w) /\ (r = Ok tt -> settled t' w)).
  { intros t' [Hp|Hs]%capturing_covered; [specialize (Hpend t' Hp)|]; destruct r as [[]|]; naive_solver. }
  apply (end_step c _ t e r Hc). split; try done.
  - intros t' Hne Hg. by rewrite (co_gate c Hc t _ Ht) in Hg; [congruence|].
  - intros t' Hv. destruct (Hcov t' Hv) as [[?|?] _]; [by left|right; by left].
  - intros t' (_ & [(_ & Hv)|[(t2 & d & Hs & _)|(Hl & _)]]) Hr.
    + by apply Hcov.
    + by apply capturing_alone in Hs.
    + by rewrite capturing_slot in Hl.
  - intros Hr. apply Hcov; [apply (co_promise c Hc t _ Ht)|done].
  - intros e' Hne. cbn. rewrite capturing_slot. split; congruence.
  - intros e' d Hs. by apply capturing_alone in Hs.
  - intros t' d _ Hs. by apply capturing_alone in Hs.
  - intros t' k' Hne Hk'. by rewrite (capturing_others t' k' Hne Hk').
Qed.

Lemma capture_step : coordinated (capture_and_clear capture_fn c t e).
Proof.
  unfold capture_and_clear. destruct (capture_fn (world c)) as [w x] eqn:Ex.
  destruct (ticket_capture _ _ _ (co_valid c Hc) Ex) as (Hvalid & _ & Hlaw). destruct x.
  - by apply captured_step.
  - apply uncaptured_step; [done|intros t'; apply Hlaw..].
  - apply uncaptured_step; [done|intros t'; apply Hlaw..].
Qed.
End capture_step.

Lemma synced_step c t e data r w : coordinated c -> syncing c t e data -> commit (world c) data r w ->
  coordinated (finish_two (set_world c w) t e r).
Proof.
  intros Hc Ht Hcommit. destruct (co_promise c Hc t _ Ht) as (Hev & Hl & Hno & Hown & Hsound).
  destruct (ticket_commit _ _ _ _ (co_valid c Hc) Hsound Hcommit) as [[Hvalid Hkeep0] Hcar].
  assert (Hkeep : forall t', (settled t' (world c) -> settled t' w) /\ (pending t' (world c) -> pending t' w \/ settled t' w))
    by (intros t'; apply Hkeep0; tauto).
  assert (Honly : forall t' e' d, syncing c t' e' d -> t' = t /\ e' = e /\ d = data).
  { intros t' e' d Hs. assert (t' = t) as -> by by apply (one_holder c t' t (TwoSyncing e' d) (TwoSyncing e data) Hc).
    unfold syncing in *. naive_solver. }
  apply (end_step c _ t e r Hc). split; try done.
  - intros t' Hne Hg. by rewrite (co_gate c Hc t _ Ht) in Hg; [congruence|].
  - intros t'. apply Hkeep.
  - intros t' [Hp|[Hs|(t2 & e2 & d & (-> & -> & ->)%Honly & Hd)]].
    + destruct (proj2 (Hkeep t') Hp); [by left|right; by left].
    + right. left. by apply Hkeep.
    + right. left. by apply Hcar.
  - intros t' (_ & [(Hl' & _)|[(t2 & d & (-> & _ & ->)%Honly & [Hd|Hd])|(_ & Hn & _)]]) _.
    + done.
    + by apply Hcar.
    + by apply Hkeep.
    + by destruct (Hn t data).
  - intros _. destruct Hown; [by apply Hcar|by apply Hkeep].
  - intros e' d (_ & -> & _)%Honly. done.
  - intros t' d Hne (-> & _)%Honly. done.
  - intros t' k' Hne Hk' Ho. by rewrite (co_opened c Hc t' k' e Hk' Ho) in Hl.
Qed.

(** The steps of the other requests move one task that promises nothing. *)
Definition bystander (k : Task T E) : Prop :=
  opened k = None /\ is_syncing (Some k) = false /\ forall c t, promise c t k.

Lemma bystander_step c c' t k : coordinated c -> is_syncing (tasks c !! t) = false -> bystander k ->
  tasks c' = <[t := k]> (tasks c) -> keeps (eq t) (world c) (world c') ->
  (forall t', t' <> t -> sync_gate c = Some t' -> sync_gate c' = Some t') ->
  events_two c' = events_two c -> lock_orchestrator c' = lock_orchestrator c ->
  (holds_gate k = true -> sync_gate c' = Some t) -> coordinated c'.
Proof.
  intros Hc Hk0 (Ho & Hk & Hp) Ht Hw Hg He Hs Hh. apply (move_step c c' t k); auto.
  rewrite He. apply events_le_refl.
Qed.

Lemma lead_move_step c c' t k0 k e : coordinated c -> tasks c !! t = Some k0 -> opened k0 = Some e -> opened k = Some e ->
  tasks c' = <[t := k]> (tasks c) -> world c' = world c ->
  (forall t', t' <> t -> sync_gate c = Some t' -> sync_gate c' = Some t') ->
  events_two c' = events_two c -> lock_orchestrator c' = lock_orchestrator c ->
  (holds_gate k = true -> sync_gate c' = Some t) -> coordinated c'.
Proof.
  intros Hc Ht Ho0 Ho Htasks Hw Hg He Hs Hh. apply (move_step c c' t k); auto.
  - rewrite Ht. by destruct k0.
  - by destruct k.
  - rewrite Hw. exact (keeps_refl _ c Hc).
  - rewrite He. apply events_le_refl.
  - right. exists k0. split; [done|]. congruence.
  - intros Hq. assert (Hcov : covered c t) by (pose proof (co_promise c Hc t k0 Ht); by destruct k0).
    apply (quiet_covered _ _ _ t Hq (or_intror Hw)) in Hcov. by destruct k.
Qed.

(** A leader that gives up without the lock of the slot leaves its event in it. *)
Lemma abandon_step c c' t k0 e : coordinated c -> tasks c !! t = Some k0 -> opened k0 = Some e ->
  tasks c' = <[t := TwoReturned (Err gate_timeout_err)]> (tasks c) -> world c' = world c ->
  (forall t', t' <> t -> sync_gate c = Some t' -> sync_gate c' = Some t') ->
  events_two c' = alter (fun ev => notify ev (Err gate_timeout_err)) e (events_two c) ->
  lock_orchestrator c' = lock_orchestrator c -> coordinated c'.
Proof.
  intros Hc Ht Ho Htasks Hw Hg He Hs. apply (move_step c c' t (TwoReturned (Err gate_timeout_err))); auto; try done.
  - rewrite Ht. by destruct k0.
  - rewrite Hw. exact (keeps_refl _ c Hc).
  - rewrite He. apply events_le_notify.
Qed.

Ltac bystand t := eapply (bystander_step _ _ t); try done;
  try (match goal with H : coordinated ?c |- _ => exact (keeps_refl _ c H) end);
  try (match goal with H : tasks _ !! t = _ |- _ => by rewrite H end); try (by repeat split).

(** Each step keeps the promises. *)
Lemma step_coordinated b c c' : coordinated c -> step b c c' -> coordinated c'.
Proof.
  intros Hc Hstep.
  assert (Hrelease : forall t k, tasks c !! t = Some k -> holds_gate k = true ->
    forall t', t' <> t -> sync_gate c = Some t' -> (None : option nat) = Some t').
  { intros t k Hk Hg t' Hne Hg'. rewrite (co_gate c Hc t k Hk Hg) in Hg'. congruence. }
  inversion Hstep as
    [c0 t w Ht Hsub|c0 t Ht|c0 t e Ht Hl|c0 t e Ht Hl He Hb Hg|c0 t e Ht Hl He|c0 t e Ht|c0 t e Ht Hg|c0 t e Ht
    |c0 t e Ht|c0 t e Ht|c0 t e Ht|c0 t e Ht|c0 t e d r w Ht Hcom|c0 t e id Ht
    |c0 t Ht|c0 t Ht|c0 t e Ht Hl|c0 t e Ht Hl He|c0 t e Ht|c0 t e Ht|c0 t e Ht|c0 t e Ht Hg|c0 t e Ht|c0 t e r w Ht Hcom
    |c0 t e id Ht
    |c0 t Ht|c0 t n Ht Hs|c0 t n e Ht Hs Hn Hl|c0 t n Ht Hs|c0 t n e id Ht|c0 t Ht Hg|c0 t Ht|c0 t r w Ht Hcom
    |c0 t Ht|c0 t Ht Hg|c0 t Ht|c0 t Ht|c0 w Ho]; subst b c0 c'; try done.
  - destruct (ticket_submit _ _ _ (co_valid c Hc) Hsub) as [Hk Hp]. eapply (move_step _ _ t TwoPhase); try done.
    + by rewrite Ht.
    + apply events_le_refl.
    + by left.
    + intros _. by left.
  - apply follow_step; [done|by rewrite Ht|done|]. intros c2 id Hq Hw. split.
    + apply (qu_events _ _ _ Hq). by apply (co_slot c Hc).
    + left. split; [apply (qu_slot _ _ _ Hq); [|done]; by apply (co_slot c Hc)|].
      apply (quiet_covered _ _ _ t Hq (or_intror Hw)). exact (co_promise c Hc t _ Ht).
  - apply open_step; try done. intros t' _ Hg'. congruence.
  - apply (open_step c t e (TwoSleeping e) (sync_gate c)); done.
  - by apply (lead_move_step c _ t (TwoSleeping e) (TwoAwaitGate e) e).
  - apply (lead_move_step c _ t (TwoAwaitGate e) (TwoAwaitSlot e) e); try done. intros t' _ Hg'. congruence.
  - by apply (lead_move_step c _ t (TwoAwaitGate e) (TwoClearing e) e).
  - by apply clear_step.
  - by eapply (abandon_step c _ t (TwoClearing e) e).
  - by apply capture_step.
  - eapply (abandon_step c _ t (TwoAwaitSlot e) e); try done. by apply (Hrelease t _ Ht).
  - by eapply synced_step.
  - apply deliver_step; [done|by rewrite Ht|done|]. intros c2 ev r Hev Hr Hq Hw. destruct r as [[]|]; [|done].
    cbn. assert (Hsaid : said_ok c e) by by exists ev, id.
    rewrite Hw. destruct (co_promise c Hc t _ Ht) as (_ & [(Hl & _)|[(t2 & d & Hs & _)|(_ & _ & Hok)]]); auto.
    + by destruct (co_slot c Hc e Hl).
    + by destruct (co_promise c Hc t2 _ Hs) as (_ & _ & Hno & _ & _).
  - bystand t.
  - unfold attach_single. destruct (events_single c !! e); [|done]. destruct (listen _). bystand t.
  - bystand t.
  - bystand t.
  - bystand t.
  - bystand t.
  - bystand t. intros t' _ Hg'. congruence.
  - bystand t.
  - bystand t; [by eapply keeps_all, (ticket_header _ _ _ (co_valid c Hc))|by apply (Hrelease t _ Ht)].
  - unfold deliver_single. destruct (events_single c !! e); [|done]. destruct (poll _ _) as [ev' [r|]]; [bystand t|].
    destruct Hc. by split.
  - bystand t.
  - bystand t.
  - apply follow_step; try done. by rewrite Ht.
  - bystand t.
  - apply deliver_step; try done. by rewrite Ht.
  - destruct (satisfied t (world c)); bystand t. intros t' _ Hg'. congruence.
  - bystand t.
  - bystand t; [by eapply keeps_all, (ticket_header _ _ _ (co_valid c Hc))|by apply (Hrelease t _ Ht)].
  - bystand t.
  - bystand t. intros t' _ Hg'. congruence.
  - bystand t.
  - bystand t. by apply (Hrelease t _ Ht).
  - apply world_step; [done|]. by apply (ticket_other _ _ (co_valid c Hc)).
Qed.

Lemma new_coordinated w : valid w -> coordinated (Coordinator_new w).
Proof. intros Hw. split; cbn; try done; intros *; rewrite lookup_empty; done. Qed.

Lemma run_coordinated w c : valid w ->
  steps (any_step capture_fn commit header satisfied submit other gate_timeout_err) (Coordinator_new w) c ->
  coordinated c.
Proof.
  intros Hw. apply (steps_invariant _ coordinated); [|by apply new_coordinated]. intros a b Ha [l Hl]. by eapply step_coordinated.
Qed.
End promises.

(** ** No request waits for nobody *)

Section progress.
Context {W T E : Type} (capture_fn : W -> W * CaptureResult T E)
  (commit : W -> T -> result E unit -> W -> Prop) (header : W -> result E unit -> W -> Prop)
  (satisfied : nat -> W -> bool) (submit : nat -> W -> W -> Prop) (other : W -> W -> Prop) (gate_timeout_err : E).
Implicit Types (c : Coordinator W T E) (t e : nat).

Notation step := (step capture_fn commit header satisfied submit other gate_timeout_err).

(** The structure of the tasks does not depend on what they promise. *)
#[local] Instance nothing_promised : Tickets W T E capture_fn commit header submit other.
Proof.
  refine {| valid _ := True; sound _ := True; pending _ _ := True; carries _ _ := True; settled _ _ := True |}; try by intros; repeat split; auto.
  intros w w' x _ _. split_and!; [done|by destruct x|]. intros t. split; [done|]. destruct x; auto.
Defined.

Definition leader_of (k : Task T E) : option nat :=
  match k with TwoSyncing e _ => Some e | k => opened k end.

Definition waiting (k : Task T E) : option (nat * Z) :=
  match k with TwoFollowing e id | UntilRiding _ e id => Some (e, id) | _ => None end.

Definition led c e : Prop := exists t k, tasks c !! t = Some k /\ leader_of k = Some e.

(** The listener [id] of [e] has its result, or its cycle has a leader. *)
Definition attended c e (id : Z) : Prop :=
  exists ev ls, events_two c !! e = Some ev /\ listeners ev !! id = Some ls /\ id < last_id ev /\
    (is_Some (ls_result ls) \/ led c e).

Record attentive (n : nat) c : Prop := {
  at_waiting t k e id : tasks c !! t = Some k -> waiting k = Some (e, id) -> attended c e id;
  at_distinct t t' k k' w : tasks c !! t = Some k -> tasks c !! t' = Some k' ->
    waiting k = Some w -> waiting k' = Some w -> t = t';
  at_slot e : lock_orchestrator c = Some e -> led c e;
  at_ids e ev : events_two c !! e = Some ev -> 0 <= last_id ev <= Z.of_nat n;
}.

(** Listeners stay, with their results, but for the one that is delivered. *)
Definition events_keep (delivered : option (nat * Z)) (evs evs' : gmap nat (LocalEvent (result E unit))) : Prop :=
  forall e ev, evs !! e = Some ev -> exists ev', evs' !! e = Some ev' /\ last_id ev <= last_id ev' /\
    forall id ls, listeners ev !! id = Some ls -> id < last_id ev -> delivered <> Some (e, id) ->
      exists ls', listeners ev' !! id = Some ls' /\ (is_Some (ls_result ls) -> is_Some (ls_result ls')).

Lemma events_keep_refl w evs : events_keep w evs evs.
Proof. intros e ev He. exists ev. split_and!; [done|lia|]. intros id ls Hl _ _. by exists ls. Qed.

Lemma events_keep_insert w evs e ev ev' : evs !! e = Some ev -> last_id ev <= last_id ev' ->
  (forall id ls, listeners ev !! id = Some ls -> id < last_id ev -> w <> Some (e, id) ->
     exists ls', listeners ev' !! id = Some ls' /\ (is_Some (ls_result ls) -> is_Some (ls_result ls'))) ->
  events_keep w evs (<[e := ev']> evs).
Proof.
  intros He Hid Hl e0 ev0 H0. destruct (decide (e0 = e)) as [->|Hne].
  - exists ev'. rewrite lookup_insert_eq. assert (ev0 = ev) as -> by congruence. done.
  - rewrite lookup_insert_ne by done. apply (events_keep_refl w evs e0 ev0 H0).
Qed.

Lemma events_keep_new w evs e ev : evs !! e = None -> events_keep w evs (<[e := ev]> evs).
Proof.
  intros He e0 ev0 H0. rewrite lookup_insert_ne by congruence. apply (events_keep_refl w evs e0 ev0 H0).
Qed.

Lemma events_keep_notify w evs e r : events_keep w evs (alter (fun ev => notify ev r) e evs).
Proof.
  intros e0 ev0 H0. destruct (decide (e0 = e)) as [->|Hne].
  - exists (notify ev0 r). rewrite lookup_alter_eq, H0. split_and!; [done|cbn; lia|]. intros id ls Hl _ _.
    cbn. rewrite lookup_fmap, Hl. by eexists.
  - rewrite lookup_alter_ne by done. apply (events_keep_refl w evs e0 ev0 H0).
Qed.

(** One task moves: it goes on leading, or its cycle has told everyone. *)
Record attends (n : nat) c c' t (k0 : option (Task T E)) (k : Task T E) : Prop := {
  ad_old : tasks c !! t = k0;
  ad_tasks : tasks c' = <[t := k]> (tasks c);
  ad_keep : events_keep (k0 ≫= waiting) (events_two c) (events_two c');
  ad_lead e : k0 ≫= leader_of = Some e -> leader_of k = Some e \/
    lock_orchestrator c' <> Some e /\
    forall ev id ls, events_two c' !! e = Some ev -> listeners ev !! id = Some ls -> is_Some (ls_result ls);
  ad_wait e id : waiting k = Some (e, id) -> attended c' e id /\
    forall t' k', t' <> t -> tasks c !! t' = Some k' -> waiting k' <> Some (e, id);
  ad_slot e : lock_orchestrator c' = Some e -> lock_orchestrator c = Some e \/ leader_of k = Some e;
  ad_ids e ev : events_two c' !! e = Some ev -> 0 <= last_id ev <= Z.of_nat (S n);
}.

Lemma attend_led n c c' t k0 k e : attends n c c' t k0 k -> led c e ->
  led c' e \/ lock_orchestrator c' <> Some e /\
    forall ev id ls, events_two c' !! e = Some ev -> listeners ev !! id = Some ls -> is_Some (ls_result ls).
Proof.
  intros [Hold Ht _ Hlead _ _ _] (t' & k' & Ht' & Hk'). destruct (decide (t' = t)) as [->|Hne].
  - destruct (Hlead e) as [Hk|Hall]; [rewrite <- Hold, Ht'; done| |by right].
    left. exists t, k. by rewrite Ht, lookup_insert_eq.
  - left. exists t', k'. by rewrite Ht, lookup_insert_ne.
Qed.

Lemma attend_step n c c' t k0 k : attentive n c -> attends n c c' t k0 k -> attentive (S n) c'.
Proof.
  intros Hc Ha. assert (Hmove := Ha). destruct Hmove as [Hold Ht Hkeep _ Hwait Hslot Hids]. split; [| | |exact Hids].
  - intros t' k' e id Ht' Hk'. rewrite Ht in Ht'. destruct (decide (t' = t)) as [->|Hne].
    { rewrite lookup_insert_eq in Ht'. injection Ht' as ->. by apply Hwait. }
    rewrite lookup_insert_ne in Ht' by done.
    destruct (at_waiting n c Hc t' k' e id Ht' Hk') as (ev & ls & Hev & Hls & Hid & Hcase).
    destruct (Hkeep e ev Hev) as (ev' & Hev' & Hle & Hl).
    destruct (Hl id ls Hls Hid) as (ls' & Hls' & Hr).
    { intros Hd. destruct k0 as [k0|]; [|done]. destruct Hne.
      by apply (at_distinct n c Hc t' t k' k0 (e, id)). }
    exists ev', ls'. split_and!; [done..|lia|]. destruct Hcase as [Hr'|Hled]; [left; auto|].
    destruct (attend_led n c c' t k0 k e Ha Hled) as [?|[_ Hall]]; [by right|]. left. by eapply Hall.
  - intros t1 t2 k1 k2 w H1 H2 W1 W2. rewrite Ht in H1, H2.
    destruct (decide (t1 = t)) as [->|Hn1], (decide (t2 = t)) as [->|Hn2]; [done| | |].
    + rewrite lookup_insert_eq in H1. rewrite lookup_insert_ne in H2 by done. injection H1 as ->. destruct w as [e id].
      by destruct (proj2 (Hwait e id W1) t2 k2 Hn2 H2).
    + rewrite lookup_insert_eq in H2. rewrite lookup_insert_ne in H1 by done. injection H2 as ->. destruct w as [e id].
      by destruct (proj2 (Hwait e id W2) t1 k1 Hn1 H1).
    + rewrite lookup_insert_ne in H1, H2 by done. by apply (at_distinct n c Hc t1 t2 k1 k2 w).
  - intros e Hl. destruct (Hslot e Hl) as [Hl'|Hk].
    + destruct (attend_led n c c' t k0 k e Ha (at_slot n c Hc e Hl')) as [?|[Hno _]]; [done|]. by destruct Hno.
    + exists t, k. by rewrite Ht, lookup_insert_eq.
Qed.

Lemma attentive_S n c : attentive n c -> attentive (S n) c.
Proof. intros [? ? ? Hids]. split; try done. intros e ev He. specialize (Hids e ev He). lia. Qed.

(** A task that waits for no listener moves, leading what it led. *)
Lemma attend_move n c c' t k0 k : attentive n c -> tasks c !! t = k0 -> tasks c' = <[t := k]> (tasks c) ->
  waiting k = None -> leader_of k = (k0 ≫= leader_of) ->
  events_two c' = events_two c -> lock_orchestrator c' = lock_orchestrator c -> attentive (S n) c'.
Proof.
  intros Hc Hold Ht Hw Hl He Hs. apply (attend_step n c c' t k0 k Hc). split; try done.
  - rewrite He. apply events_keep_refl.
  - intros e Hk. left. congruence.
  - rewrite Hw. done.
  - rewrite Hs. by left.
  - intros e ev. rewrite He. intros Hev. pose proof (at_ids n c Hc e ev Hev). lia.
Qed.

Lemma attend_open n c t e k g : attentive n c -> tasks c !! t = Some TwoPhase -> events_two c !! e = None ->
  opened k = Some e -> attentive (S n) (set_task (set_gate (open_cycle c e) g) t k).
Proof.
  intros Hc Ht He Hk. assert (Hl : leader_of k = Some e) by by destruct k.
  apply (attend_step n c _ t (Some TwoPhase) k Hc). split; try done.
  - by apply events_keep_new.
  - destruct k; done.
  - cbn. intros e' [= <-]. by right.
  - cbn. intros e' ev. destruct (decide (e' = e)) as [->|Hne].
    + rewrite lookup_insert_eq. intros [= <-]. cbn. lia.
    + rewrite lookup_insert_ne by done. intros Hev. pose proof (at_ids n c Hc e' ev Hev). lia.
Qed.

Lemma attend_attach n c t k0 k e : attentive n c -> Z.of_nat n + 1 < 2 ^ 64 -> tasks c !! t = Some k0 ->
  leader_of k0 = None -> waiting k0 = None -> lock_orchestrator c = Some e ->
  (forall id, waiting (k id) = Some (e, id) /\ leader_of (k id) = None) -> attentive (S n) (attach c e k t).
Proof.
  intros Hc Hn Ht Hl0 Hw0 Hl Hk. unfold attach. destruct (events_two c !! e) as [ev|] eqn:Ee; [|by apply attentive_S].
  pose proof (at_ids n c Hc e ev Ee) as Hid. cbn [listen]. set (id := last_id ev).
  assert (Hnext : wrapping_add 64 id 1 = id + 1) by (unfold wrapping_add, wrap, id; rewrite Z.mod_small; lia).
  destruct (Hk id) as [Hw Hlead]. apply (attend_step n c _ t (Some k0) (k id) Hc). split; try done.
  - cbn. eapply events_keep_insert; [done|cbn; unfold id in *; lia|]. intros id' ls Hls Hlt _. cbn.
    exists ls. rewrite lookup_insert_ne by (unfold id; lia). done.
  - cbn. rewrite Hl0. done.
  - rewrite Hw. intros e' id' [= <- <-]. split.
    + eexists _, _. cbn. rewrite !lookup_insert_eq. split_and!; [done|apply lookup_insert_eq|cbn; lia|]. right.
      destruct (at_slot n c Hc e Hl) as (t' & k' & Ht' & Hk'). exists t', k'. split; [|done]. cbn.
      rewrite lookup_insert_ne; [done|]. intros <-. congruence.
    + intros t' k' _ Ht' Hk'. destruct (at_waiting n c Hc t' k' e id Ht' Hk') as (ev' & ls & Hev' & _ & Hlt & _).
      assert (ev' = ev) as -> by congruence. unfold id in Hlt. lia.
  - cbn. by left.
  - cbn. intros e' ev'. destruct (decide (e' = e)) as [->|Hne].
    + rewrite lookup_insert_eq. intros [= <-]. cbn. unfold id in *. lia.
    + rewrite lookup_insert_ne by done. intros Hev. pose proof (at_ids n c Hc e' ev' Hev). lia.
Qed.

Lemma attend_deliver n c t k0 e id k : attentive n c -> tasks c !! t = Some k0 -> leader_of k0 = None ->
  waiting k0 = Some (e, id) -> (forall r, waiting (k r) = None /\ leader_of (k r) = None) ->
  attentive (S n) (deliver c e id k t).
Proof.
  intros Hc Ht Hl0 Hw0 Hk. unfold deliver.
  destruct (at_waiting n c Hc t k0 e id Ht Hw0) as (ev & ls & Hev & Hls & Hlt & Hcase). rewrite Hev.
  pose proof (at_ids n c Hc e ev Hev) as Hid. unfold poll. rewrite Hls. cbn [mbind option_bind].
  assert (Hids : forall ev', last_id ev' = last_id ev -> forall e' ev0, <[e := ev']> (events_two c) !! e' = Some ev0 ->
    0 <= last_id ev0 <= Z.of_nat (S n)).
  { intros ev' El e' ev0. destruct (decide (e' = e)) as [->|Hne].
    - rewrite lookup_insert_eq. intros [= <-]. lia.
    - rewrite lookup_insert_ne by done. intros H0. pose proof (at_ids n c Hc e' ev0 H0). lia. }
  destruct (ls_result ls) as [r|] eqn:Er.
  - destruct (Hk r) as [Hw Hl]. apply (attend_step n c _ t (Some k0) (k r) Hc). split; try done.
    + cbn. eapply events_keep_insert; [done|done|]. intros id' ls' Hls' _ Hne. rewrite Hw0 in Hne. cbn.
      exists ls'. rewrite lookup_delete_ne by congruence. done.
    + cbn. by rewrite Hl0.
    + by rewrite Hw.
    + by left.
    + by apply Hids.
  - set (c' := set_events _ _). assert (Hkeep : events_keep None (events_two c) (events_two c')).
    { eapply events_keep_insert; [done|done|]. intros id' ls' Hls' _ _. cbn.
      destruct (decide (id' = id)) as [->|Hne].
      - eexists. rewrite lookup_insert_eq. split; [done|]. assert (ls' = ls) as -> by congruence. by rewrite Er.
      - exists ls'. by rewrite lookup_insert_ne. }
    split; try apply Hc; [|by apply Hids].
    intros t' k' e' id' Ht' Hk'. destruct (at_waiting n c Hc t' k' e' id' Ht' Hk') as (ev1 & ls1 & H1 & H2 & H3 & H4).
    destruct (Hkeep e' ev1 H1) as (ev2 & H5 & H6 & H7). destruct (H7 id' ls1 H2 H3) as (ls2 & H8 & H9); [done|].
    exists ev2, ls2. split_and!; [done..|lia|]. naive_solver.
Qed.

(** The leader answers: its event is out of the slot and told to everyone. *)
Lemma attend_end n c c' t k0 e r : attentive n c -> tasks c !! t = Some k0 -> leader_of k0 = Some e ->
  tasks c' = <[t := TwoReturned r]> (tasks c) ->
  events_two c' = alter (fun ev => notify ev r) e (events_two c) ->
  lock_orchestrator c' <> Some e -> (forall e', lock_orchestrator c' = Some e' -> lock_orchestrator c = Some e') ->
  attentive (S n) c'.
Proof.
  intros Hc Ht Hk Ht' He Hl Hs. apply (attend_step n c c' t (Some k0) (TwoReturned r) Hc). split; try done.
  - rewrite He. apply events_keep_notify.
  - cbn. intros e' Hk'. assert (e' = e) as -> by congruence. right. split; [done|]. intros ev id ls Hev Hls.
    rewrite He, lookup_alter_eq in Hev. destruct (events_two c !! e); [|done]. injection Hev as <-. cbn in Hls.
    rewrite lookup_fmap in Hls. destruct (_ !! id); [|done]. injection Hls as <-. by eexists.
  - intros e' Hl'. left. auto.
  - intros e' ev Hev. rewrite He in Hev. destruct (decide (e' = e)) as [->|Hne].
    + rewrite lookup_alter_eq in Hev. destruct (events_two c !! e) as [ev0|] eqn:E0; [|done]. injection Hev as <-.
      pose proof (at_ids n c Hc e ev0 E0). cbn. lia.
    + rewrite lookup_alter_ne in Hev by done. pose proof (at_ids n c Hc e' ev Hev). lia.
Qed.

Lemma attend_capture n c t e : attentive n c -> tasks c !! t = Some (TwoAwaitSlot e) ->
  attentive (S n) (capture_and_clear capture_fn c t e).
Proof.
  intros Hc Ht. unfold capture_and_clear. destruct (capture_fn (world c)) as [w [d|x|]].
  - apply (attend_step n c _ t (Some (TwoAwaitSlot e)) (TwoSyncing e d) Hc). split; try done.
    + apply events_keep_refl.
    + intros e' Hk. by left.
    + intros e' ev Hev. pose proof (at_ids n c Hc e' ev Hev). lia.
  - by apply (attend_end n c _ t (TwoAwaitSlot e) e (Err x)).
  - by apply (attend_end n c _ t (TwoAwaitSlot e) e (Ok tt)).
Qed.

Lemma attend_world n c w : attentive n c -> attentive (S n) (set_world c w).
Proof. intros Hc. apply attentive_S in Hc. destruct Hc. by split. Qed.

Lemma step_attentive n c c' : coordinated c -> attentive n c -> Z.of_nat n + 1 < 2 ^ 64 -> step false c c' ->
  attentive (S n) c'.
Proof.
  intros Hco Hc Hn Hstep. remember false as b eqn:Hb. revert Hb.
  destruct Hstep as
    [c t w Ht Hsub|c t Ht|c t e Ht Hl|c t e Ht Hl He Hb Hg|c t e Ht Hl He|c t e Ht|c t e Ht Hg|c t e Ht
    |c t e Ht|c t e Ht|c t e Ht|c t e Ht|c t e d r w Ht Hcom|c t e id Ht
    |c t Ht|c t Ht|c t e Ht Hl|c t e Ht Hl He|c t e Ht|c t e Ht|c t e Ht|c t e Ht Hg|c t e Ht|c t e r w Ht Hcom
    |c t e id Ht
    |c t Ht|c t m Ht Hs|c t m e Ht Hs Hm Hl|c t m Ht Hs|c t m e id Ht|c t Ht Hg|c t Ht|c t r w Ht Hcom
    |c t Ht|c t Ht Hg|c t Ht|c t Ht|c w Ho]; intros Hb'; try done;
    try (by apply attentive_S); try (by eapply (attend_move n c _ t)).
  - by apply (attend_attach n c t TwoPhase).
  - by apply attend_open.
  - by apply (attend_open n c t e (TwoSleeping e) (sync_gate c)).
  - by apply (attend_end n c _ t (TwoClearing e) e (Err gate_timeout_err)).
  - by apply attend_capture.
  - destruct (co_promise c Hco t _ Ht) as (_ & Hl & _). by apply (attend_end n c _ t (TwoSyncing e d) e r).
  - by apply (attend_deliver n c t (TwoFollowing e id)).
  - unfold attach_single. destruct (events_single c !! e); [|by apply attentive_S]. destruct (listen _).
    by eapply (attend_move n c _ t).
  - unfold deliver_single. destruct (events_single c !! e); [|by apply attentive_S].
    destruct (poll _ _) as [ev' [r|]]; [by eapply (attend_move n c _ t)|]. apply attentive_S in Hc. destruct Hc. by split.
  - by apply (attend_attach n c t (Until m)).
  - by apply (attend_deliver n c t (UntilRiding m e id)).
  - destruct (satisfied t (world c)); by eapply (attend_move n c _ t).
  - by apply attend_world.
Qed.

Lemma new_attentive w : attentive 0 (Coordinator_new w).
Proof. split; cbn; try done; intros *; rewrite lookup_empty; done. Qed.

Lemma run_attentive w c n : nsteps (step false) n (Coordinator_new w) c -> Z.of_nat n < 2 ^ 64 ->
  coordinated c /\ attentive n c.
Proof.
  revert c. induction n as [|n IH]; intros c Hrun Hn.
  - inversion Hrun; subst. split; [by apply new_coordinated|apply new_attentive].
  - apply nsteps_inv_r in Hrun as (c1 & Hrun & Hlast). destruct (IH c1 Hrun) as [Hco Hat]; [lia|].
    split; [by eapply step_coordinated|eapply step_attentive; [done..|lia|done]].
Qed.
End progress.

(** ** An event nobody will notify *)

Section stranded.
Context {W T E : Type} (capture_fn : W -> W * CaptureResult T E)
  (commit : W -> T -> result E unit -> W -> Prop) (header : W -> result E unit -> W -> Prop)
  (satisfied : nat -> W -> bool) (submit : nat -> W -> W -> Prop) (other : W -> W -> Prop) (gate_timeout_err : E).
Implicit Types (c : Coordinator W T E) (t e : nat).

Notation step := (step capture_fn commit header satisfied submit other gate_timeout_err).
#[local] Instance nothing_settled : Tickets W T E capture_fn commit header submit other :=
  nothing_promised capture_fn commit header submit other.

(** What can become of a task that comes after the slot was left with [e]. *)
Definition unanswered c e (k : Task T E) : Prop :=
  match k with
  | TwoFollowing e' id => e' = e /\ exists ev ls, events_two c !! e = Some ev /\ listeners ev !! id = Some ls /\ ls_result ls = None
  | TwoReturned _ => False
  | k => leader_of k = None
  end.

Record abandoned c e t : Prop := {
  ab_slot : lock_orchestrator c = Some e;
  ab_event : is_Some (events_two c !! e);
  ab_leader t' k : tasks c !! t' = Some k -> leader_of k <> Some e;
  ab_task k : tasks c !! t = Some k -> unanswered c e k;
}.

(** No one leads while the event is in the slot. *)
Lemma abandoned_opened c e t t' k : coordinated c -> abandoned c e t -> tasks c !! t' = Some k -> opened k = None.
Proof.
  intros Hco Hab Ht'. destruct (opened k) as [e'|] eqn:Eo; [|done].
  pose proof (co_opened c Hco t' k e' Ht' Eo) as Hl. rewrite (ab_slot _ _ _ Hab) in Hl. injection Hl as <-.
  destruct (ab_leader _ _ _ Hab t' k Ht'). by destruct k.
Qed.

(** The listeners of [e] without a result stay without. *)
Definition silent (evs evs' : gmap nat (LocalEvent (result E unit))) e : Prop :=
  is_Some (evs !! e) -> exists ev', evs' !! e = Some ev' /\
    forall ev id ls, evs !! e = Some ev -> listeners ev !! id = Some ls -> ls_result ls = None ->
      exists ls', listeners ev' !! id = Some ls' /\ ls_result ls' = None.

Lemma silent_refl evs e : silent evs evs e.
Proof. intros [ev Hev]. exists ev. split; [done|]. intros ev0 id ls H0 Hl Hr. exists ls. naive_solver. Qed.

Lemma silent_other evs e e' ev : e' <> e -> silent evs (<[e' := ev]> evs) e.
Proof. intros Hne. unfold silent. rewrite lookup_insert_ne by done. apply silent_refl. Qed.

Lemma silent_alter evs e e' f : e' <> e -> silent evs (alter f e' evs) e.
Proof. intros Hne. unfold silent. rewrite lookup_alter_ne by done. apply silent_refl. Qed.

(** One task moves and leads no more than it did. *)
Lemma abandoned_move c c' e t t' k : coordinated c -> abandoned c e t -> tasks c' = <[t' := k]> (tasks c) ->
  lock_orchestrator c' = lock_orchestrator c -> silent (events_two c) (events_two c') e ->
  leader_of k <> Some e -> (t' = t -> unanswered c' e k) -> abandoned c' e t.
Proof.
  intros Hco Hab Ht Hl Hs Hk Hu. destruct (Hs (ab_event _ _ _ Hab)) as (ev' & Hev' & Hsil). split.
  - rewrite Hl. apply Hab.
  - by eexists.
  - intros t2 k2. rewrite Ht. destruct (decide (t2 = t')) as [->|Hne].
    + rewrite lookup_insert_eq. by intros [= <-].
    + rewrite lookup_insert_ne by done. apply (ab_leader _ _ _ Hab).
  - intros k2. rewrite Ht. destruct (decide (t = t')) as [<-|Hne].
    + rewrite lookup_insert_eq. intros [= <-]. auto.
    + rewrite lookup_insert_ne by done. intros Hk2. pose proof (ab_task _ _ _ Hab k2 Hk2) as Hun.
      destruct k2; try done. destruct Hun as (-> & ev & ls & Hev & Hls & Hr). split; [done|].
      destruct (Hsil ev id ls Hev Hls Hr) as (ls' & ? & ?). by exists ev', ls'.
Qed.

Lemma abandoned_world c e t w : abandoned c e t -> abandoned (set_world c w) e t.
Proof. intros []. by split. Qed.

Lemma abandoned_attach c e t t' k0 e' k : coordinated c -> abandoned c e t -> tasks c !! t' = Some k0 ->
  lock_orchestrator c = Some e' -> (forall id, leader_of (k id) = None) ->
  ((forall id, k id = TwoFollowing e' id) \/ forall c id, unanswered c e (k id)) -> abandoned (attach c e' k t') e t.
Proof.
  intros Hco Hab Ht' Hl Hk Hu. pose proof (ab_slot _ _ _ Hab). assert (e' = e) as -> by congruence.
  unfold attach. destruct (events_two c !! e) as [ev|] eqn:Ee; [|done]. cbn [listen].
  apply (abandoned_move c _ e t t' (k (last_id ev))); try done.
  - intros _. eexists. cbn. rewrite lookup_insert_eq. split; [done|]. intros ev0 id ls H0 Hls Hr. cbn.
    assert (ev0 = ev) as -> by congruence. destruct (decide (id = last_id ev)) as [->|Hne].
    + eexists. by rewrite lookup_insert_eq.
    + exists ls. by rewrite lookup_insert_ne.
  - by rewrite Hk.
  - intros _. destruct Hu as [Hu|Hu]; [|done]. rewrite Hu. split; [done|]. eexists _, _. cbn.
    rewrite lookup_insert_eq. split_and!; [done|apply lookup_insert_eq|done].
Qed.

Lemma abandoned_deliver c e t t' e' id k : coordinated c -> abandoned c e t ->
  (exists k0, tasks c !! t' = Some k0 /\ (k0 = TwoFollowing e' id \/ forall c r, unanswered c e (k r))) ->
  (forall r, leader_of (k r) = None) -> abandoned (deliver c e' id k t') e t.
Proof.
  intros Hco Hab (k0 & Ht' & Hk0) Hk. unfold deliver. destruct (events_two c !! e') as [ev|] eqn:Ee; [|done].
  assert (Hs : silent (events_two c) (<[e' := (poll ev id).1]> (events_two c)) e).
  { destruct (decide (e' = e)) as [->|Hne]; [|by apply silent_other]. intros _. eexists. rewrite lookup_insert_eq.
    split; [done|]. intros ev0 id0 ls H0 Hls Hr. assert (ev0 = ev) as -> by congruence. unfold poll.
    destruct (decide (id0 = id)) as [->|Hne].
    - rewrite Hls. cbn [mbind option_bind]. rewrite Hr. eexists. cbn. by rewrite lookup_insert_eq.
    - exists ls. destruct (_ ≫= _); cbn; [by rewrite lookup_delete_ne|by rewrite lookup_insert_ne]. }
  destruct (poll ev id) as [ev' [r|]] eqn:Ep; cbn [fst] in Hs.
  - apply (abandoned_move c _ e t t' (k r)); try done; [by rewrite Hk|]. intros ->.
    destruct Hk0 as [->|Hk0]; [|done]. destruct (ab_task _ _ _ Hab _ Ht') as (-> & ev0 & ls & Hev0 & Hls & Hr).
    assert (ev0 = ev) as -> by congruence. unfold poll in Ep. rewrite Hls in Ep. cbn in Ep. by rewrite Hr in Ep.
  - destruct (Hs (ab_event _ _ _ Hab)) as (ev2 & Hev2 & Hsil). split; try apply Hab; [by eexists|].
    intros k2 Hk2. pose proof (ab_task _ _ _ Hab k2 Hk2) as Hun. destruct k2; try done.
    destruct Hun as (-> & ev0 & ls & Hev & Hls & Hr). split; [done|].
    destruct (Hsil ev0 id0 ls Hev Hls Hr) as (ls' & ? & ?). by exists ev2, ls'.
Qed.

Lemma step_abandoned b c c' e t : coordinated c -> abandoned c e t -> step b c c' -> abandoned c' e t.
Proof.
  intros Hco Hab Hstep. pose proof (abandoned_opened c e t) as Hno. pose proof (ab_slot _ _ _ Hab) as Hslot.
  destruct Hstep as
    [c t' w Ht Hsub|c t' Ht|c t' e' Ht Hl|c t' e' Ht Hl He Hb Hg|c t' e' Ht Hl He|c t' e' Ht|c t' e' Ht Hg|c t' e' Ht
    |c t' e' Ht|c t' e' Ht|c t' e' Ht|c t' e' Ht|c t' e' d r w Ht Hcom|c t' e' id Ht
    |c t' Ht|c t' Ht|c t' e' Ht Hl|c t' e' Ht Hl He|c t' e' Ht|c t' e' Ht|c t' e' Ht|c t' e' Ht Hg|c t' e' Ht|c t' e' r w Ht Hcom
    |c t' e' id Ht
    |c t' Ht|c t' m Ht Hs|c t' m e' Ht Hs Hm Hl|c t' m Ht Hs|c t' m e' id Ht|c t' Ht Hg|c t' Ht|c t' r w Ht Hcom
    |c t' Ht|c t' Ht Hg|c t' Ht|c t' Ht|c w Ho]; try done;
    try (by specialize (Hno t' _ Hco Hab Ht)); try congruence;
    try (by eapply (abandoned_move c _ e t t'); first [done|apply silent_refl]).
  - eapply (abandoned_attach c e t t'); try done. by left.
  - assert (e' <> e) by (intros ->; by apply (ab_leader _ _ _ Hab t' _ Ht)).
    eapply (abandoned_move c _ e t t'); try done; [by apply silent_alter|]. intros ->.
    by pose proof (ab_task _ _ _ Hab _ Ht).
  - eapply abandoned_deliver; try done. eexists. split; [done|by left].
  - unfold attach_single. destruct (events_single c !! e'); [|done]. destruct (listen _).
    by eapply (abandoned_move c _ e t t'); first [done|apply silent_refl].
  - unfold deliver_single. destruct (events_single c !! e'); [|done]. destruct (poll _ _) as [ev' [r|]].
    + by eapply (abandoned_move c _ e t t'); first [done|apply silent_refl].
    + destruct Hab. by split.
  - eapply (abandoned_attach c e t t'); try done. by right.
  - eapply abandoned_deliver; try done. eexists. split; [done|by right].
  - destruct (satisfied t' (world c)); by eapply (abandoned_move c _ e t t'); first [done|apply silent_refl].
  - by apply abandoned_world.
Qed.

Lemma timeout_abandons c c' t : coordinated c -> step true c c' -> tasks c' !! t = None -> exists e, abandoned c' e t.
Proof.
  intros Hco Hstep Hnone. remember true as b eqn:Hb. revert Hb Hnone.
  assert (Hgoal : forall c' t' k0 e, tasks c !! t' = Some k0 -> opened k0 = Some e ->
    tasks c' = <[t' := TwoReturned (Err gate_timeout_err)]> (tasks c) -> lock_orchestrator c' = lock_orchestrator c ->
    is_Some (events_two c' !! e) -> tasks c' !! t = None -> abandoned c' e t).
  { intros c1 t' k0 e Ht' Hk0 Ht1 Hl1 Hev1 Hnone1. pose proof (co_opened c Hco t' k0 e Ht' Hk0) as Hl. split; [congruence|done| |congruence].
    - intros t2 k2. rewrite Ht1. destruct (decide (t2 = t')) as [->|Hne].
      + rewrite lookup_insert_eq. by intros [= <-].
      + rewrite lookup_insert_ne by done. intros Ht2 Hk2. destruct (opened k2) as [e2|] eqn:Eo.
        * destruct Hne. by apply (co_leader c Hco t2 t' k2 k0 e2 e).
        * destruct k2; try done. injection Hk2 as ->. by destruct (co_promise c Hco t2 _ Ht2) as (_ & Hno & _). }
  destruct Hstep; intros Hb' Hnone; try done; eexists; eapply Hgoal; try done;
    (cbn; rewrite lookup_alter_is_Some; apply (co_slot c Hco); by eapply (co_opened c Hco)).
Qed.

Lemma abandoned_forever c c' e t : coordinated c -> abandoned c e t ->
  steps (any_step capture_fn commit header satisfied submit other gate_timeout_err) c c' -> abandoned c' e t.
Proof.
  intros Hco Hab Hrun. assert (Hboth : coordinated c' /\ abandoned c' e t); [|apply Hboth].
  revert Hrun. apply (steps_invariant _ (fun c => coordinated c /\ abandoned c e t)); [|done].
  intros a b [Ha1 Ha2] [l Hl]. split; [by eapply step_coordinated|by eapply step_abandoned].
Qed.
End stranded.

(** ** The theorems *)

(** C4: an [Ok] from the two-phase coordinator is never about somebody else's
    cycle.  In every interleaving of two-phase requests, header-only syncs,
    rides and rollback locks, with gates and locks that may time out, a request
    that returned [Ok] has had its own work settled: a capture that ran after
    it was submitted took it and its sync ended, or found it already settled.
    At most one task holds the sync gate. *)
Theorem two_phase_answer_settled {W T E} (capture_fn : W -> W * CaptureResult T E)
    (commit : W -> T -> result E unit -> W -> Prop) (header : W -> result E unit -> W -> Prop)
    (satisfied : nat -> W -> bool) (submit : nat -> W -> W -> Prop) (other : W -> W -> Prop) (gate_timeout_err : E)
    (tickets : Tickets W T E capture_fn commit header submit other) (w : W) (c : Coordinator W T E) :
  valid w -> steps (any_step capture_fn commit header satisfied submit other gate_timeout_err) (Coordinator_new w) c ->
  (forall t, tasks c !! t = Some (TwoReturned (Ok tt)) -> settled t (world c)) /\
  (forall t t' k k', tasks c !! t = Some k -> tasks c !! t' = Some k' ->
     holds_gate k = true -> holds_gate k' = true -> t = t').
Proof.
  intros Hw Hrun. apply run_coordinated in Hrun as Hc; [|done]. split.
  - intros t Ht. exact (co_promise c Hc t _ Ht).
  - intros t t' k k'. by apply one_holder.
Qed.

(** How far a leader is from its answer. *)
Definition leader_rank {T E} (k : Task T E) : nat :=
  match k with
  | TwoSleeping _ => 4
  | TwoAwaitGate _ => 3
  | TwoClearing _ | TwoAwaitSlot _ => 2
  | TwoSyncing _ _ => 1
  | _ => 0
  end%nat.

(** C18: no request waits for nobody.  As long as no leader times out on the
    lock of the slot, a follower either has its answer ready, or its cycle has
    a leader that can take a step which brings it closer to its own answer,
    whatever the other tasks are doing; a leader is at most four such steps
    away from it. *)
Theorem followers_are_answered {W T E} (capture_fn : W -> W * CaptureResult T E)
    (commit : W -> T -> result E unit -> W -> Prop) (header : W -> result E unit -> W -> Prop)
    (satisfied : nat -> W -> bool) (submit : nat -> W -> W -> Prop) (other : W -> W -> Prop) (gate_timeout_err : E)
    (w : W) (c : Coordinator W T E) (n : nat) (t e : nat) (id : Z) :
  (forall w data, exists r w', commit w data r w') ->
  nsteps (step capture_fn commit header satisfied submit other gate_timeout_err false) n (Coordinator_new w) c ->
  Z.of_nat n < 2 ^ 64 -> tasks c !! t = Some (TwoFollowing e id) ->
  (exists r, tasks (deliver c e id TwoReturned t) !! t = Some (TwoReturned r)) \/
  (exists t' k' c' k, tasks c !! t' = Some k' /\ leader_of k' = Some e /\ (leader_rank k' <= 4)%nat /\
     step capture_fn commit header satisfied submit other gate_timeout_err false c c' /\
     tasks c' !! t' = Some k /\ (leader_rank k < leader_rank k')%nat).
Proof.
  intros Htotal Hrun Hn Ht. apply run_attentive in Hrun as [Hco Hat]; [|done].
  destruct (at_waiting n c Hat t _ e id Ht eq_refl) as (ev & ls & Hev & Hls & _ & [[r Hr]|(t' & k' & Ht' & Hk')]).
  - left. exists r. unfold deliver, poll. rewrite Hev, Hls. cbn [mbind option_bind]. rewrite Hr. apply lookup_insert_eq.
  - right. exists t', k'. destruct k' as [|e'|e'|e'|e'|e' d| | | | | | | | | | | | | | |]; try done; injection Hk' as ->.
    + eexists _, _. split_and!; [done..|cbn; lia|by eapply step_two_woken|apply lookup_insert_eq|cbn; lia].
    + eexists _, _. split_and!; [done..|cbn; lia|by eapply step_two_gate_timeout|apply lookup_insert_eq|cbn; lia].
    + eexists _, _. split_and!; [done..|cbn; lia|by eapply step_two_clear|apply lookup_insert_eq|cbn; lia].
    + assert (Hcap : exists k, tasks (capture_and_clear capture_fn c t' e) !! t' = Some k /\ (leader_rank k < 2)%nat).
      { unfold capture_and_clear. destruct (capture_fn (world c)) as [w' [d|x|]]; eexists;
          (split; [apply lookup_insert_eq|cbn; lia]). }
      destruct Hcap as (k & Hk & Hr). exists (capture_and_clear capture_fn c t' e), k.
      split_and!; [done..|cbn; lia|by apply step_two_capture|done|done].
    + destruct (Htotal (world c) d) as (r & w' & Hcom).
      eexists _, _. split_and!; [done..|cbn; lia|by eapply step_two_synced|apply lookup_insert_eq|cbn; lia].
Qed.

(** C19: giving up on the lock of the slot stops the shard.  When a leader
    times out on it, the leader answers with an error but its event stays in
    the slot; from then on every request joins that event, which nobody will
    notify again, and no request submitted afterwards is ever answered. *)
Theorem slot_timeout_strands_requests {W T E} (capture_fn : W -> W * CaptureResult T E)
    (commit : W -> T -> result E unit -> W -> Prop) (header : W -> result E unit -> W -> Prop)
    (satisfied : nat -> W -> bool) (submit : nat -> W -> W -> Prop) (other : W -> W -> Prop) (gate_timeout_err : E)
    (w : W) (c c' c'' : Coordinator W T E) (t : nat) (r : result E unit) :
  steps (any_step capture_fn commit header satisfied submit other gate_timeout_err) (Coordinator_new w) c ->
  step capture_fn commit header satisfied submit other gate_timeout_err true c c' -> tasks c' !! t = None ->
  steps (any_step capture_fn commit header satisfied submit other gate_timeout_err) c' c'' ->
  tasks c'' !! t <> Some (TwoReturned r).
Proof.
  intros Hrun Hstep Hnone Hlater Ht.
  pose (tickets := nothing_promised capture_fn commit header submit other).
  apply (run_coordinated (Tickets0 := tickets)) in Hrun as Hco; [|done].
  destruct (timeout_abandons _ _ _ _ _ _ _ _ _ _ Hco Hstep Hnone) as [e Hab].
  apply (step_coordinated (Tickets0 := tickets)) in Hstep; [|done].
  pose proof (abandoned_forever _ _ _ _ _ _ _ _ _ _ _ Hstep Hab Hlater) as Hend.
  exact (ab_task _ _ _ Hend _ Ht).
Qed.

(** ** A run *)

Module CoordinatorRun.

(** Requests that queue their number; a sync moves the numbers it took. *)
Definition queue_capture (w : list nat * list nat) : (list nat * list nat) * CaptureResult (list nat) unit :=
  match w.1 with [] => (w, NoCaptureRaceButOk) | q => (([], w.2), Captured q) end.
Definition queue_commit (w : list nat * list nat) (data : list nat) (r : result unit unit) (w' : list nat * list nat) : Prop :=
  r = Ok tt /\ w' = (w.1, w.2 ++ data).
Definition queue_header (w : list nat * list nat) (r : result unit unit) (w' : list nat * list nat) : Prop := w' = w.
Definition queue_submit (t : nat) (w w' : list nat * list nat) : Prop := w' = (w.1 ++ [t], w.2).
Definition queue_other (w w' : list nat * list nat) : Prop := w' = w.
Definition never (t : nat) (w : list nat * list nat) : bool := false.

#[export] Instance queue_tickets : Tickets (list nat * list nat) (list nat) unit queue_capture queue_commit queue_header queue_submit queue_other.
Proof.
  refine {| valid _ := True; sound _ := True; pending t w := t ∈ w.1; carries t d := t ∈ d; settled t w := t ∈ w.2 |}.
  - intros t w w' _ ->. split; [split; [done|intros t' _]|]; cbn; set_solver.
  - intros w w' _ ->. split; auto.
  - intros w r w' _ ->. split; auto.
  - intros [[|q p] d] w' x _ [= <- <-]; (split_and!; [done|done|intros t]); cbn; set_solver.
  - intros w data r w' _ _ [_ ->]. split; [split; [done|intros t _]|]; cbn; set_solver.
Defined.

Notation run_step b := (step queue_capture queue_commit queue_header never queue_submit queue_other tt b).
Notation state := (Coordinator (list nat * list nat) (list nat) unit).

(** Request 1 leads at once, request 2 follows it. *)
Definition submitted (t : nat) (c : state) : state := set_task (set_world c ((world c).1 ++ [t], (world c).2)) t TwoPhase.
Definition one_leads : state :=
  let c := submitted 1 (Coordinator_new ([], [])) in set_task (set_gate (open_cycle c 0) (Some 1%nat)) 1 (TwoAwaitSlot 0).
Definition two_follows : state := attach (submitted 2 one_leads) 0 (TwoFollowing 0) 2.
Definition one_captured : state := capture_and_clear queue_capture two_follows 1 0.
Definition one_synced : state := finish_two (set_world one_captured ([], [1%nat; 2%nat])) 1 0 (Ok tt).
Definition two_answered : state := deliver one_synced 0 0 TwoReturned 2.

Lemma lead_steps : nsteps (run_step false) 4 (Coordinator_new ([], [])) two_follows.
Proof.
  eapply (nsteps_l _ _ _ (submitted 1 (Coordinator_new ([], [])))); [by apply step_submit|].
  eapply (nsteps_l _ _ _ one_leads); [by apply step_two_lead_fast|].
  eapply (nsteps_l _ _ _ (submitted 2 one_leads)); [by apply step_submit|].
  eapply (nsteps_l _ _ _ two_follows); [by apply step_two_follow|apply nsteps_O].
Qed.

Lemma nsteps_any n a b : nsteps (run_step false) n a b ->
  steps (any_step queue_capture queue_commit queue_header never queue_submit queue_other tt) a b.
Proof. induction 1; [constructor|]. eapply steps_cons; [by exists false|done]. Qed.

Lemma answer_steps : nsteps (run_step false) 3 two_follows two_answered.
Proof.
  eapply (nsteps_l _ _ _ one_captured); [by apply step_two_capture|].
  eapply (nsteps_l _ _ _ one_synced); [by eapply (step_two_synced _ _ _ _ _ _ _ one_captured 1 0 [1%nat; 2%nat])|].
  eapply (nsteps_l _ _ _ two_answered); [by apply step_two_poll|apply nsteps_O].
Qed.

Lemma two_phase_answer_settled_witness : tasks two_answered !! 2%nat = Some (TwoReturned (Ok tt)) /\
  settled (Tickets := queue_tickets) 2 (world two_answered).
Proof.
  split; [reflexivity|].
  assert (Hrun := steps_trans _ _ _ _ (nsteps_any _ _ _ lead_steps) (nsteps_any _ _ _ answer_steps)).
  apply (proj1 (two_phase_answer_settled _ _ _ _ _ _ _ queue_tickets _ _ I Hrun)). reflexivity.
Defined.

Lemma followers_are_answered_witness : tasks two_follows !! 2%nat = Some (TwoFollowing 0 0) /\
  ((exists r, tasks (deliver two_follows 0 0 TwoReturned 2) !! 2%nat = Some (TwoReturned r)) \/
   (exists t' k' c' k, tasks two_follows !! t' = Some k' /\ leader_of k' = Some 0%nat /\ (leader_rank k' <= 4)%nat /\
     run_step false two_follows c' /\ tasks c' !! t' = Some k /\ (leader_rank k < leader_rank k')%nat)).
Proof.
  split; [reflexivity|]. refine (followers_are_answered _ _ _ _ _ _ _ _ _ 4 2 0 0 _ lead_steps _ _).
  - intros w data. by exists (Ok tt), (w.1, w.2 ++ data).
  - vm_compute. reflexivity.
  - reflexivity.
Defined.

(** Request 1 gives up on the lock of the slot, request 2 comes after it. *)
Definition one_gave_up : state := set_task (notify_two (set_gate one_leads None) 0 (Err tt)) 1 (TwoReturned (Err tt)).
Definition two_stranded : state := attach (submitted 2 one_gave_up) 0 (TwoFollowing 0) 2.

Lemma slot_timeout_strands_requests_witness : tasks two_stranded !! 2%nat = Some (TwoFollowing 0 0) /\
  tasks two_stranded !! 2%nat <> Some (TwoReturned (Ok tt)).
Proof.
  split; [reflexivity|].
  refine (slot_timeout_strands_requests queue_capture queue_commit queue_header never queue_submit queue_other tt ([], [])
    one_leads one_gave_up two_stranded 2 (Ok tt) _ _ _ _).
  - apply (nsteps_any 2). eapply (nsteps_l _ _ _ (submitted 1 (Coordinator_new ([], [])))); [by apply step_submit|].
    eapply (nsteps_l _ _ _ one_leads); [by apply step_two_lead_fast|apply nsteps_O].
  - by apply step_two_capture_timeout.
  - reflexivity.
  - apply (nsteps_any 2). eapply (nsteps_l _ _ _ (submitted 2 one_gave_up)); [by apply step_submit|].
    eapply (nsteps_l _ _ _ two_stranded); [by apply step_two_follow|apply nsteps_O].
Defined.
End CoordinatorRun.
