(* ===== verification/AggregateLoad.v ===== *)
(** * Looking an aggregate up in the log

    What [aggregate_exists_and_cache] of [celeriant_shard/src/shard_wal.rs]
    leaves in the snapshot caches.  For the aggregate it looks for the answer
    is exact; for the others it meets on the way it caches the newest event
    batch it sees, which is not always the newest thing the log says. *)

From S2P Require Import Prelude Lease WalConstants Codec WalTypes WalCodec DiskFormat HashChain Sbbf Datablock LogSegment MemCache LogSync ReadFilter ReverseScan WritePath.

(** ** What one entry says of its aggregate *)

Definition snapshot_of (log_id : Z) (e : LogEntry) : option MemSnapshotAggregate :=
  match wal_metablock_type (le_metablock e) with
  | EventBatchMetadata b =>
      Some (snapshot_found log_id (le_pos e) (max_event_seq b) (eb_aggregate_version b) (trimmed_below_version b))
  | SoftTrim t =>
      Some (snapshot_found log_id (le_pos e) (st_event_seq t) (st_aggregate_version t) (keep_from_aggregate_version t))
  | SoftDelete d =>
      Some (snapshot_deleted log_id (le_pos e) (sd_event_seq d) (sd_aggregate_version d) (allow_recreate d)
              (allow_sequence_continuation d))
  | SchemaRegistration _ => None
  end.

Definition is_batch_of (key : AggregateKey) (e : LogEntry) : bool :=
  match wal_metablock_type (le_metablock e) with
  | EventBatchMetadata b => bool_decide (eb_aggregate_key b = key)
  | _ => false
  end.

Definition entry_of_key (key : AggregateKey) (p : Z * LogEntry) : Prop := chain_aggregate_key (le_metablock p.2) = Some key.

#[global] Instance entry_of_key_dec key p : Decision (entry_of_key key p).
Proof. unfold entry_of_key. apply _. Defined.

(** From a list of entries, newest first: the newest of the aggregate, and
    what is newer than it. *)
Definition newest (key : AggregateKey) (es : list (Z * LogEntry)) : option (Z * LogEntry) := head (filter (entry_of_key key) es).

Fixpoint newer_than (key : AggregateKey) (es : list (Z * LogEntry)) : list (Z * LogEntry) :=
  match es with
  | [] => []
  | p :: es => if decide (entry_of_key key p) then [] else p :: newer_than key es
  end.

Definition newest_batch (key : AggregateKey) (es : list (Z * LogEntry)) : option (Z * LogEntry) :=
  head (filter (fun p => is_batch_of key p.2 = true) es).

Definition is_deleted (s : MemSnapshotAggregate) : bool := bool_decide (ms_status s = Deleted).

Section load.
Context `{Bincode, Crc32c, Xxh3, DictCodec} {V : Type} `{Validate V}.
Context (snapshot_cap : nat) (key : AggregateKey) (path : CachePath).
Implicit Types m : MemCache V.

Notation visitor := (exists_visitor snapshot_cap key path).

(** Everything but the snapshots of this path and the clients is left alone. *)
Record load_frame m m' : Prop := {
  lf_positions : queue_positions m' = queue_positions m;
  lf_queue : pending_append_queue m' = pending_append_queue m;
  lf_generation : rollback_generation m' = rollback_generation m;
  lf_flag : fsync_rollback_occurred m' = fsync_rollback_occurred m;
  lf_other p : p <> path -> snapshots m' p = snapshots m p;
}.

Lemma load_frame_refl m : load_frame m m.
Proof. by split. Qed.

Lemma load_frame_trans m1 m2 m3 : load_frame m1 m2 -> load_frame m2 m3 -> load_frame m1 m3.
Proof. intros [? ? ? ? H12] [? ? ? ? H23]. split; try congruence. intros p Hp. by rewrite H23, H12. Qed.

Lemma set_snapshots_frame m s : load_frame m (set_snapshots m path s).
Proof. split; try done. by intros []; destruct path. Qed.

Lemma snapshots_set m s : snapshots (set_snapshots m path s) path = s.
Proof. by destruct path. Qed.

Lemma put_into_cache_spec m k s c cs :
  load_frame m (put_aggregate_into_cache m k s c cs path) /\
  snapshots (put_aggregate_into_cache m k s c cs path) path = <[k := s]> (snapshots m path).
Proof.
  unfold put_aggregate_into_cache. split; [|by destruct path].
  split; try by destruct path. by intros []; destruct path.
Qed.

(** The visitor on the block of an entry. *)
Definition visit_entry (log_id : Z) (e : LogEntry) m : MemCache V * option bool :=
  match wal_metablock_type (le_metablock e), snapshot_of log_id e with
  | EventBatchMetadata b, Some s =>
      if bool_decide (eb_aggregate_key b = key)
      then (put_aggregate_into_cache m key s (eb_client_id b) (max_client_seq b) path, Some true)
      else if is_aggregate_snapshot_full_or_contains snapshot_cap m (eb_aggregate_key b) path then (m, None)
      else (put_aggregate_into_cache m (eb_aggregate_key b) s (eb_client_id b) (max_client_seq b) path, None)
  | _, Some s =>
      if decide (entry_of_key key (log_id, e))
      then (set_snapshots m path (<[key := s]> (snapshots m path)), Some (negb (is_deleted s)))
      else (m, None)
  | _, None => (m, None)
  end.

Lemma visit_block log_id e m : wf_metablock (le_metablock e) ->
  visitor log_id (le_pos e) (metablock_block (le_metablock e)) m =
    (fst (visit_entry log_id e m), Done (snd (visit_entry log_id e m))).
Proof.
  intros Hwf. unfold exists_visitor, visit_entry, snapshot_of.
  assert (Hc : entry_of_key key (log_id, e) <-> chain_aggregate_key (le_metablock e) = Some key) by done.
  unfold chain_aggregate_key in Hc.
  destruct (key_predicates _ Hwf key) as (_ & Hd & Ht). rewrite Hd, Ht.
  unfold is_metablock_kind_event_batch_metadata. rewrite read_discriminant by done.
  rewrite deserialise_metablock_block by done.
  destruct (wal_metablock_type (le_metablock e)) as [b|r|d|t] eqn:E; cbn [kind_tag].
  - destruct (read_event_batch _ Hwf b E) as (-> & -> & -> & -> & _ & _ & _ & -> & ->). cbn.
    destruct (decide (eb_aggregate_key b = key)) as [<-|Hne].
    + rewrite !bool_decide_true by done. done.
    + rewrite !(bool_decide_false (eb_aggregate_key b = key)), (bool_decide_false (key = eb_aggregate_key b)) by congruence. cbn.
      by destruct (is_aggregate_snapshot_full_or_contains _ _ _ _).
  - done.
  - destruct (decide (sd_aggregate_key d = key)) as [<-|Hne].
    + rewrite bool_decide_true, decide_True by (done || by apply Hc). done.
    + rewrite bool_decide_false, decide_False by (done || rewrite Hc; congruence). done.
  - destruct (decide (st_aggregate_key t = key)) as [<-|Hne].
    + rewrite bool_decide_true, decide_True by (done || by apply Hc). done.
    + rewrite bool_decide_false, decide_False by (done || rewrite Hc; congruence). done.
Qed.

Fixpoint visit_all (es : list (Z * LogEntry)) m : MemCache V * option bool :=
  match es with
  | [] => (m, None)
  | (log_id, e) :: es =>
      match visit_entry log_id e m with
      | (m, Some found) => (m, Some found)
      | (m, None) => visit_all es m
      end
  end.

Lemma visit_entries_all es m : Forall (fun p => wf_metablock (le_metablock p.2)) es ->
  visit_entries visitor es m = (fst (visit_all es m), Done (snd (visit_all es m))).
Proof.
  revert m. induction es as [|[log_id e] es IH]; intros m Hwf; [done|]. inversion Hwf as [|? ? He Hes]; subst.
  cbn [visit_entries visit_all]. unfold mbind, effect_bind. rewrite visit_block by done.
  destruct (visit_entry log_id e m) as [m' [found|]]; [done|]. by apply IH.
Qed.

Lemma visit_entry_own log_id e m : entry_of_key key (log_id, e) ->
  exists s, snapshot_of log_id e = Some s /\ load_frame m (visit_entry log_id e m).1 /\
    (visit_entry log_id e m).2 = Some (negb (is_deleted s)) /\
    snapshots (visit_entry log_id e m).1 path = <[key := s]> (snapshots m path).
Proof.
  intros Hk. unfold visit_entry, snapshot_of. pose proof Hk as Hk'.
  unfold entry_of_key, chain_aggregate_key in Hk'. cbn [snd] in Hk'.
  destruct (wal_metablock_type (le_metablock e)) as [b|r|d|t]; [|done|..]; injection Hk' as Hk'; eexists; (split; [done|]).
  - rewrite bool_decide_true by done.
    destruct (put_into_cache_spec m key (snapshot_found log_id (le_pos e) (max_event_seq b) (eb_aggregate_version b)
      (trimmed_below_version b)) (eb_client_id b) (max_client_seq b)). done.
  - rewrite decide_True by done. split; [apply set_snapshots_frame|]. split; [done|apply snapshots_set].
  - rewrite decide_True by done. split; [apply set_snapshots_frame|]. split; [done|apply snapshots_set].
Qed.

Lemma visit_entry_other log_id e m : ~ entry_of_key key (log_id, e) ->
  load_frame m (visit_entry log_id e m).1 /\ (visit_entry log_id e m).2 = None /\
  (snapshots (visit_entry log_id e m).1 path = snapshots m path /\
     (forall j, is_batch_of j e = true -> size (snapshots m path) = snapshot_cap \/ is_Some (snapshots m path !! j)) \/
   exists j s, size (snapshots m path) <> snapshot_cap /\ is_batch_of j e = true /\ j <> key /\ snapshots m path !! j = None /\ snapshot_of log_id e = Some s /\
     snapshots (visit_entry log_id e m).1 path = <[j := s]> (snapshots m path)).
Proof.
  intros Hk. unfold visit_entry, snapshot_of, is_batch_of. pose proof Hk as Hk'.
  unfold entry_of_key, chain_aggregate_key in Hk'. cbn [snd] in Hk'.
  destruct (wal_metablock_type (le_metablock e)) as [b|r|d|t]; rewrite ?bool_decide_false, ?decide_False by congruence;
    try (by split; [apply load_frame_refl|split; [done|left]]).
  unfold is_aggregate_snapshot_full_or_contains. case_bool_decide as Hfull; cbn [orb].
  { split; [apply load_frame_refl|]. split; [done|]. left. split; [done|]. by left. }
  destruct (snapshots m path !! eb_aggregate_key b) as [s0|] eqn:E0.
  - rewrite bool_decide_true by eauto. split; [apply load_frame_refl|]. split; [done|]. left. split; [done|].
    intros j Hj%bool_decide_eq_true. right. by rewrite <- Hj, E0.
  - rewrite bool_decide_false by (by intros [? ?]).
    destruct (put_into_cache_spec m (eb_aggregate_key b) (snapshot_found log_id (le_pos e) (max_event_seq b)
      (eb_aggregate_version b) (trimmed_below_version b)) (eb_client_id b) (max_client_seq b)) as [Hf Hs].
    split; [done|]. split; [done|]. right. eexists _, _. rewrite bool_decide_true by done. split_and!; try done. congruence.
Qed.

Lemma visit_all_full es m j : size (snapshots m path) = snapshot_cap -> j <> key ->
  snapshots (visit_all es m).1 path !! j = snapshots m path !! j.
Proof.
  intros Hfull Hj. revert m Hfull. induction es as [|[log_id e] es IH]; intros m Hfull; [done|]. cbn [visit_all].
  destruct (decide (entry_of_key key (log_id, e))) as [Hk|Hk].
  - destruct (visit_entry_own log_id e m Hk) as (s & Hs & Hf & Hr & Hsn).
    destruct (visit_entry log_id e m) as [m' r]. cbn [fst snd] in *. subst r. cbn. by rewrite Hsn, lookup_insert_ne.
  - destruct (visit_entry_other log_id e m Hk) as (Hf & Hr & [[Hsn _]|(? & ? & ? & _)]); [|done].
    destruct (visit_entry log_id e m) as [m' r]. cbn [fst snd] in *. subst r. rewrite IH, Hsn; [done|]. by rewrite Hsn.
Qed.

(** What a walk over entries leaves: the newest entry decides for the
    aggregate searched for, the others have what they had, or the newest batch
    met on the way. *)
Lemma visit_all_spec es m :
  load_frame m (visit_all es m).1 /\
  match newest key es with
  | Some (log_id, e) => exists s, snapshot_of log_id e = Some s /\
      (visit_all es m).2 = Some (negb (is_deleted s)) /\ snapshots (visit_all es m).1 path !! key = Some s
  | None => (visit_all es m).2 = None /\ snapshots (visit_all es m).1 path !! key = snapshots m path !! key
  end /\
  forall j, j <> key ->
    snapshots (visit_all es m).1 path !! j = snapshots m path !! j \/
    snapshots m path !! j = None /\
      exists log_id e, newest_batch j (newer_than key es) = Some (log_id, e) /\
        snapshots (visit_all es m).1 path !! j = snapshot_of log_id e.
Proof.
  revert m. induction es as [|[log_id e] es IH]; intros m.
  { split; [apply load_frame_refl|]. split; [done|]. by left. }
  unfold newest, newest_batch. cbn [visit_all newer_than]. destruct (decide (entry_of_key key (log_id, e))) as [Hk|Hk].
  - destruct (visit_entry_own log_id e m Hk) as (s & Hs & Hf & Hr & Hsn).
    rewrite filter_cons_True by done. destruct (visit_entry log_id e m) as [m' r]. cbn [fst snd] in *. subst r.
    split; [done|]. split.
    + exists s. split; [done|]. split; [done|]. cbn [fst]. by rewrite Hsn, lookup_insert_eq.
    + intros j Hj. left. cbn [fst]. by rewrite Hsn, lookup_insert_ne.
  - destruct (visit_entry_other log_id e m Hk) as (Hf & Hr & Hsn).
    rewrite filter_cons_False by done. pose proof (visit_all_full es (visit_entry log_id e m).1) as Hfull.
    destruct (visit_entry log_id e m) as [m' r]. cbn [fst snd] in *. subst r.
    destruct (IH m') as (Hf' & Hown & Hoth). split; [by eapply load_frame_trans|]. split.
    + fold (newest key es). destruct (newest key es) as [[id' e']|]; [exact Hown|]. destruct Hown as [Hr' Hs']. split; [done|].
      rewrite Hs'. destruct Hsn as [[-> _]|(j & s & _ & _ & Hj & _ & _ & ->)]; [done|]. by rewrite lookup_insert_ne.
    + intros j Hj. specialize (Hoth j Hj). specialize (Hfull j).
      destruct Hsn as [[Heq Hb]|(j' & s & Hsz & Hb & Hj' & Hnone & Hs & Heq)]; rewrite Heq in *.
      * destruct (is_batch_of j e) eqn:Eb.
        -- left. destruct (Hb j Eb) as [Hsz|[s Hs]]; [by apply Hfull|]. destruct Hoth as [->|[Hn _]]; [done|congruence].
        -- rewrite filter_cons_False by (cbn; congruence). exact Hoth.
      * destruct (decide (j = j')) as [->|Hne].
        -- right. split; [done|]. exists log_id, e. rewrite filter_cons_True by done. split; [done|].
           rewrite Hs. destruct Hoth as [->|[Hn _]]; rewrite ?lookup_insert_eq in *; [done|congruence].
        -- rewrite lookup_insert_ne in Hoth by done. rewrite filter_cons_False; [exact Hoth|]. cbn. intros Hb'.
           unfold is_batch_of in *. destruct (wal_metablock_type (le_metablock e)); [|done..].
           apply bool_decide_eq_true in Hb, Hb'. congruence.
Qed.
(** With room in the cache, the newest batch met on the way is what is cached. *)
Lemma visit_all_eager es m j log_id e : j <> key -> snapshots m path !! j = None ->
  (size (snapshots m path) + length es < snapshot_cap)%nat ->
  newest_batch j (newer_than key es) = Some (log_id, e) -> snapshots (visit_all es m).1 path !! j = snapshot_of log_id e.
Proof.
  intros Hj. revert m. induction es as [|[id0 e0] es IH]; intros m Hnone Hroom Hnb; [done|].
  unfold newest_batch in Hnb. cbn [visit_all newer_than length] in *.
  destruct (decide (entry_of_key key (id0, e0))) as [Hk|Hk]; [done|].
  destruct (visit_entry_other id0 e0 m Hk) as (_ & Hr & Hsn).
  destruct (visit_entry id0 e0 m) as [m' r]. cbn [fst snd] in *. subst r.
  destruct (is_batch_of j e0) eqn:Eb.
  - rewrite filter_cons_True in Hnb by done. injection Hnb as <- <-.
    destruct Hsn as [[_ Hb]|(j' & s & _ & Hb & _ & _ & Hs & Heq)].
    { destruct (Hb j Eb) as [?|[s Hs]]; [lia|congruence]. }
    assert (j' = j) as ->.
    { unfold is_batch_of in *. destruct (wal_metablock_type (le_metablock e0)); [|done..].
      apply bool_decide_eq_true in Hb, Eb. congruence. }
    destruct (visit_all_spec es m') as (_ & _ & Hoth). destruct (Hoth j Hj) as [->|[Hn _]];
      rewrite Heq, lookup_insert_eq in *; [done|congruence].
  - rewrite filter_cons_False in Hnb by (cbn; congruence). apply IH; [| |exact Hnb].
    + destruct Hsn as [[-> _]|(j' & s & _ & Hb & _ & _ & _ & ->)]; [done|]. rewrite lookup_insert_ne; [done|]. congruence.
    + destruct Hsn as [[-> _]|(j' & s & _ & _ & _ & Hn & _ & ->)]; [lia|]. rewrite map_size_insert_None by done. lia.
Qed.

End load.

(** ** The lookup *)

Section lookup.
Context `{Bincode, Crc32c, Blake3, Xxh3, DictCodec} {V : Type} `{Validate V}.
Context (snapshot_cap : nat) (cache : LogSegmentsCache) (active_log_id : Z) (read_cursor : Z * Z) (chunk : Z).
Context (key : AggregateKey) (path : CachePath).
Context (segs : Z -> LogSegmentFile) (logs : Z -> list LogEntry).
Implicit Types m : MemCache V.

Notation sc := (exists_scanner key path active_log_id read_cursor chunk).

Context (Hsc : scanner_ok cache sc).
Context (Hsegs : forall id, id ∈ scanned_segments sc -> segment_scannable cache sc id (segs id) (logs id)).

(** The log the path may see, newest entry first: up to the write cursor, or
    up to the read cursor. *)
Definition segment_view (id : Z) : list LogEntry := visible sc (segs id) (logs id) (override_of sc id).
Definition log_view : list (Z * LogEntry) := in_order ((fun id => (id, reverse (segment_view id))) <$> scanned_segments sc).

Lemma scanner_filters : sc_chain_aggregate_key sc = None /\ bloom_filter_hash sc = Some (AggregateKey_bloom_hash key) /\
  client_bloom_filter_hash sc = None.
Proof. by destruct path. Qed.

(** A segment that is skipped has no entry of the aggregate. *)
Definition visit_of (id : Z) (v : list LogEntry) : Prop :=
  v = reverse (segment_view id) \/ v = [] /\ Forall (fun e => chain_aggregate_key (le_metablock e) <> Some key) (segment_view id).

Lemma visit_of_visit id v : segment_visit sc (segs id) (logs id) (override_of sc id) v -> visit_of id v.
Proof.
  destruct scanner_filters as (Hch & Hb & Hc). unfold segment_visit, selected, visit_of, segment_view. rewrite Hch.
  intros [->|[-> Hno]]; [by left|right; split; [done|]]. eapply Forall_impl; [exact Hno|]. intros e Hw Hk. apply Hw.
  unfold wanted, bloom_keys. rewrite Hb, Hc. unfold chain_aggregate_key in Hk.
  destruct (wal_metablock_type (le_metablock e)); naive_solver.
Qed.

Lemma newest_skips visits : Forall (fun '(id, v) => visit_of id v) visits ->
  newest key (in_order visits) = newest key (in_order ((fun id => (id, reverse (segment_view id))) <$> visits.*1)).
Proof.
  intros Hv. unfold newest. f_equal. induction Hv as [|[id v] visits Hv _ IH]; [done|].
  unfold in_order in *. cbn [flat_map fmap list_fmap fst snd]. rewrite !filter_app, <- IH. f_equal.
  destruct Hv as [->|[-> Hno]]; [done|]. symmetry. apply Forall_reverse in Hno. revert Hno.
  generalize (reverse (segment_view id)). intros l Hno. induction Hno as [|e es He _ IHl]; [done|].
  rewrite fmap_cons. by rewrite filter_cons_False.
Qed.

Lemma view_wf id : id ∈ scanned_segments sc -> Forall (fun e => wf_metablock (le_metablock e)) (segment_view id).
Proof.
  intros Hid. destruct (ss_holds _ _ _ _ _ (Hsegs id Hid)) as [tip0 Hh]. unfold segment_view, visible.
  destruct (cursor_position sc (segs id)); [|done]. by eapply entries_wf.
Qed.

(** The lookup is a walk over the entries of the segments that are not
    skipped. *)
Lemma lookup_walk m status : aggregate_load_status m key path = (false, status) ->
  exists visits : list (Z * list LogEntry), visits.*1 = scanned_segments sc /\ Forall (fun '(id, v) => visit_of id v) visits /\
    aggregate_exists_and_cache snapshot_cap cache active_log_id read_cursor chunk key path m =
      match visit_all snapshot_cap key path (in_order visits) m with
      | (m', Some found) => (m', Done found)
      | (m', None) => (put_aggregate_into_cache_as_not_found m' key path, Done false)
      end.
Proof.
  intros Hload. destruct (scan_spec (exists_visitor (V := V) snapshot_cap key path) cache sc Hsc segs logs Hsegs) as (visits & Hids & Hvs & Hscan).
  exists visits. split; [done|].
  assert (Hvis : Forall (fun '(id, v) => visit_of id v) visits)
    by (eapply Forall_impl; [exact Hvs|]; intros [id v]; apply visit_of_visit).
  split; [done|]. unfold aggregate_exists_and_cache. rewrite Hload, Hscan. unfold effect_map_err.
  rewrite visit_entries_all.
  { by destruct (visit_all _ _ _ _ _) as [m' [found|]]. }
  assert (Hsub : Forall (fun p : Z * list LogEntry => p.1 ∈ scanned_segments sc) visits).
  { rewrite <- Hids. apply Forall_forall. intros p Hp. apply list_elem_of_fmap. by exists p. }
  clear - Hvis Hsub Hsegs. induction Hvis as [|[id v] visits Hv _ IH]; [constructor|].
  inversion Hsub as [|? ? Hid Hsub']; subst. cbn. apply Forall_app. split; [|by apply IH].
  apply Forall_fmap. destruct Hv as [->|[-> _]]; [|done]. apply Forall_reverse, view_wf, Hid.
Qed.

Lemma not_found_spec m : load_frame path m (put_aggregate_into_cache_as_not_found m key path) /\
  snapshots (put_aggregate_into_cache_as_not_found m key path) path = <[key := snapshot_not_found]> (snapshots m path).
Proof. split; [apply set_snapshots_frame|apply snapshots_set]. Qed.

(** C28: looking an aggregate up finds what the log says last about it.  On
    segments that hold their logs, with filters that may skip some of them and
    reads in chunks, the lookup of an aggregate that is not cached ends with
    the newest entry of the aggregate the path may see: a batch or a trim gives
    its version, sequence and floor, a tombstone a deleted aggregate with its
    options, no entry an aggregate that is known not to exist; the answer is
    whether it exists, and it is cached from then on.  The queue and the other
    path's cache are left alone. *)
Theorem aggregate_load_exact m status : aggregate_load_status m key path = (false, status) ->
  exists m' found s,
    aggregate_exists_and_cache snapshot_cap cache active_log_id read_cursor chunk key path m = (m', Done found) /\
    load_frame path m m' /\ aggregate_load_status m' key path = (true, ms_status s) /\
    snapshots m' path !! key = Some s /\
    match newest key log_view with
    | Some (log_id, e) => snapshot_of log_id e = Some s /\ found = negb (is_deleted s)
    | None => s = snapshot_not_found /\ found = false
    end.
Proof.
  intros Hload. destruct (lookup_walk m status Hload) as (visits & Hids & Hvis & ->).
  destruct (visit_all_spec snapshot_cap key path (in_order visits) m) as (Hf & Hown & _).
  rewrite (newest_skips visits Hvis), Hids in Hown. fold log_view in Hown.
  assert (Hq : match path with CacheWrite => queue_positions m !! key | CacheRead => None end = None).
  { unfold aggregate_load_status in Hload. destruct path; [done|]. by destruct (queue_positions m !! key). }
  assert (Hst : forall m' s, load_frame path m m' -> snapshots m' path !! key = Some s ->
    aggregate_load_status m' key path = (true, ms_status s)).
  { intros m' s [Hp _ _ _ _] Hs. unfold aggregate_load_status. rewrite Hp, Hq. by rewrite Hs. }
  destruct (visit_all _ _ _ _ _) as [m' r]. cbn [fst snd] in *. destruct (newest key log_view) as [[id e]|].
  - destruct Hown as (s & Hs & -> & Hsn). exists m', (negb (is_deleted s)), s. split_and!; try done; by apply Hst.
  - destruct Hown as [-> _]. destruct (not_found_spec m') as [Hf' Hs'].
    pose proof (load_frame_trans _ _ _ _ Hf Hf') as Hff.
    eexists _, false, snapshot_not_found. split; [done|]. split; [done|].
    assert (Hl : snapshots (put_aggregate_into_cache_as_not_found m' key path) path !! key = Some snapshot_not_found)
      by by rewrite Hs', lookup_insert_eq.
    split; [by apply Hst|]. done.
Qed.

End lookup.

(** ** A segment with a deleted aggregate *)

Module LookupRun.
#[local] Existing Instance bincode_le.
#[local] Existing Instance crc_sum.
#[local] Existing Instance blake_pad.
#[local] Existing Instance xxh_low.
#[local] Existing Instance codec_id.

Definition key : AggregateKey := eb_aggregate_key sample_event_batch.
Definition other : AggregateKey := {| org_id := 1; aggregate_type_id := 2; aggregate_id := 4 |}.

Definition batch_for (k : AggregateKey) : MetablockEventBatch :=
  {| eb_aggregate_key := k; eb_aggregate_version := 7; trimmed_below_version := 0;
     min_client_seq := 4; max_client_seq := 5; min_event_timestamp := 10; max_event_timestamp := 20;
     min_event_seq := 8; max_event_seq := 9; eb_client_id := 42; eb_user_id := None;
     event_types_data := EventTypesDirect [1; U64_MAX; U64_MAX; U64_MAX] |}.

Definition tombstone : MetablockSoftDelete :=
  {| sd_aggregate_key := other; sd_aggregate_version := 7; sd_event_seq := 9; sd_client_id := 42; sd_user_id := None;
     allow_recreate := false; allow_sequence_continuation := false |}.

Definition item_for (kind : MetablockKind) : ShardLogQueueItem := ShardLogQueueItem_new None None (queued_metablock 100 1 9 None kind).

Definition kinds : list MetablockKind :=
  [EventBatchMetadata (batch_for key); EventBatchMetadata (batch_for other); SoftDelete tombstone].

Definition batch : SyncPositionsSnapshot := {| sps_queue := item_for <$> kinds; sps_positions := ∅; sps_schemas := ∅ |}.

Lemma lookup_batch_fits : batch_ok SyncRun.segment (sps_queue batch).
Proof.
  split; [done| |by vm_compute|by vm_compute]. repeat constructor; try done.
  all: unfold wf_byte_array, wf_event_batch, wf_soft_delete, wf_aggregate_key, wf_option_u128, wf_event_types; cbn -[Z.pow];
    unfold wf_words, fits, U64_MAX; repeat constructor; try done; try lia.
Qed.

Lemma log_synced : exists seg log, segment_holds seg GENESIS_HASH log /\ wal_metablock_type <$> (le_metablock <$> log) = kinds.
Proof.
  destruct (@sync_refines_append bincode_le crc_sum blake_pad xxh_low (fun _ => zeros 1024) 512 (zeros 4096)
    SyncRun.segment batch FullCommit GENESIS_HASH [] (fun _ => eq_refl) eq_refl ltac:(done)
    SyncRun.segment_empty lookup_batch_fits) as (plan & _ & Hio).
  destruct (Hio (SyncRun.io_of plan) (SyncRun.io_of_complete plan)) as (snapshot & md & file & _ & Hh & Hf & _).
  eexists _, _. split; [exact Hh|]. clear Hh Hio. cbn [app]. change (sps_queue batch) with (item_for <$> kinds) in Hf.
  revert Hf. generalize (sps_queue snapshot) kinds. intros queue ks. revert queue.
  induction ks as [|k ks IH]; intros queue Hf; inversion Hf as [|? item ? queue' Hi Hq]; subst; [done|].
  rewrite !fmap_cons. f_equal; [|by apply IH]. destruct Hi as ((? & ? & ? & ? & Hm) & _). cbn. by rewrite Hm.
Qed.

Definition sc : ReverseMetablockScanner := exists_scanner key CacheWrite 1 (0, 0) 2048.

Lemma lookup_scanner_ok seg : scanner_ok (ScanRun.cache_of seg) sc.
Proof. split; [by split|by split|done|split; [|done]]. intros h Eh. apply Some_inj in Eh as <-. apply xxh3_64_u64. Qed.

Lemma scannable seg log : segment_holds seg GENESIS_HASH log -> forall id, id ∈ scanned_segments sc ->
  segment_scannable (ScanRun.cache_of seg) sc id seg log.
Proof.
  intros Hh id Hid. change (id ∈ [1]) in Hid. apply list_elem_of_singleton in Hid as ->. by apply ScanRun.cache_scannable.
Qed.

Lemma view seg log : segment_holds seg GENESIS_HASH log ->
  log_view 1 (0, 0) 2048 key CacheWrite (fun _ => seg) (fun _ => log) = pair 1 <$> reverse log.
Proof.
  intros Hh. unfold log_view, segment_view. change (scanned_segments _) with [1]. cbn [fmap list_fmap in_order flat_map].
  change (override_of _ 1) with (@None Z). rewrite (ScanRun.all_visible seg log) by done. by rewrite app_nil_r.
Qed.
End LookupRun.

(** The cache is empty and has room for ten aggregates. *)
Lemma aggregate_load_exact_witness : exists seg m' s,
  aggregate_exists_and_cache (V := unit) (H := bincode_le) (H0 := crc_sum) (H1 := xxh_low) 10 (ScanRun.cache_of seg) 1 (0, 0) 2048
    LookupRun.key CacheWrite MemCache_new = (m', Done true) /\
  write_snapshots m' !! LookupRun.key = Some s /\ ms_aggregate_version s = 7.
Proof.
  destruct LookupRun.log_synced as (seg & log & Hh & Hk). exists seg.
  destruct (@aggregate_load_exact bincode_le crc_sum blake_pad xxh_low unit 10 (ScanRun.cache_of seg) 1 (0, 0) 2048 LookupRun.key
    CacheWrite (fun _ => seg) (fun _ => log) (LookupRun.lookup_scanner_ok seg) (LookupRun.scannable seg log Hh) MemCache_new NotFound
    eq_refl) as (m' & found & s & E & _ & _ & Hs & Hn).
  exists m', s. rewrite (LookupRun.view seg log Hh) in Hn.
  destruct log as [|e1 [|e2 [|e3 [|? ?]]]]; try done. injection Hk as K1 K2 K3.
  cbn [reverse rev_append fmap list_fmap] in Hn. unfold newest in Hn.
  rewrite !filter_cons_False, filter_cons_True in Hn
    by (unfold entry_of_key, chain_aggregate_key; cbn; rewrite ?K1, ?K2, ?K3; done).
  cbn [head] in Hn. unfold snapshot_of in Hn. rewrite K1 in Hn. destruct Hn as [[= <-] ->]. done.
Defined.

