(* ===== verification/Versions.v ===== *)
(** * The versions of an aggregate

    The write path as a system: requests queue blocks, an fsync moves them to
    the log or a failure drops them, aggregates are looked up in the log and
    evicted from the cache at any time.  The ledger is everything that was
    accepted, in order: the log, the batch in flight and the queue.  What the
    caches answer for an aggregate is what the ledger says last about it, so
    the versions of its batches are consecutive and a version check compares
    with the newest one.  Deletes are left out: they break this
    ([Deletes.v]). *)

From S2P Require Import Prelude Lease WalConstants Codec WalTypes WalCodec DiskFormat HashChain Sbbf Datablock LogSegment MemCache LogSync ReadFilter ReverseScan WritePath FsyncCommit AggregateLoad.

(** ** Ledgers *)

(** The aggregate of a block, with the version and sequence it states. *)
Definition mark (m : Metablock) : option (AggregateKey * (Z * Z)) :=
  match wal_metablock_type m with
  | EventBatchMetadata b => Some (eb_aggregate_key b, (eb_aggregate_version b, max_event_seq b))
  | SoftTrim t => Some (st_aggregate_key t, (st_aggregate_version t, st_event_seq t))
  | SoftDelete d => Some (sd_aggregate_key d, (sd_aggregate_version d, sd_event_seq d))
  | SchemaRegistration _ => None
  end.

Definition batch_key (m : Metablock) : option AggregateKey :=
  match wal_metablock_type m with EventBatchMetadata b => Some (eb_aggregate_key b) | _ => None end.

Definition mark_of (key : AggregateKey) (m : Metablock) : option (Z * Z) :=
  match mark m with Some (k, p) => if decide (k = key) then Some p else None | None => None end.

Definition latest (key : AggregateKey) (ledger : list Metablock) : Z * Z := default (0, 0) (last (omap (mark_of key) ledger)).

(** How a block of an aggregate continues it: a batch has the next version and
    the next sequences, a trim states where the aggregate is. *)
Definition follows (prev : Z * Z) (m : Metablock) : Prop :=
  match wal_metablock_type m with
  | EventBatchMetadata b =>
      eb_aggregate_version b = prev.1 + 1 /\ min_event_seq b = prev.2 + 1 /\ prev.2 < max_event_seq b
  | SoftTrim t => (st_aggregate_version t, st_event_seq t) = prev
  | SoftDelete _ => False
  | SchemaRegistration _ => True
  end.

Inductive numbered : list Metablock -> Prop :=
  | numbered_nil : numbered []
  | numbered_snoc ledger m : numbered ledger ->
      (forall key p, mark m = Some (key, p) -> follows (latest key ledger) m) -> numbered (ledger ++ [m]).

Definition has_batch (key : AggregateKey) (ledger : list Metablock) : Prop := Exists (fun m => batch_key m = Some key) ledger.

Lemma batch_mark m key : batch_key m = Some key -> exists p, mark m = Some (key, p).
Proof. unfold batch_key, mark. destruct (wal_metablock_type m); try done. intros [= <-]. by eexists. Qed.

Lemma latest_snoc key ledger m : latest key (ledger ++ [m]) = default (latest key ledger) (mark_of key m).
Proof.
  unfold latest. rewrite omap_app. cbn. destruct (mark_of key m) as [p|]; cbn; [by rewrite last_snoc|by rewrite app_nil_r].
Qed.

Lemma numbered_inv ledger m : numbered (ledger ++ [m]) ->
  numbered ledger /\ forall key p, mark m = Some (key, p) -> follows (latest key ledger) m.
Proof. inversion 1 as [E|l m' Hn Hm E]; [by destruct ledger|]. apply app_inj_tail in E as [-> ->]. done. Qed.

Lemma numbered_app_l a b : numbered (a ++ b) -> numbered a.
Proof.
  induction b as [|m b IH] using rev_ind; [by rewrite app_nil_r|]. rewrite app_assoc. intros [Hn _]%numbered_inv. auto.
Qed.

(** The last block of an aggregate against the one before. *)
Lemma numbered_latest_snoc key ledger m : numbered (ledger ++ [m]) ->
  (batch_key m = Some key /\ (latest key (ledger ++ [m])).1 = (latest key ledger).1 + 1 /\
     (latest key ledger).2 < (latest key (ledger ++ [m])).2) \/
  (batch_key m <> Some key /\ latest key (ledger ++ [m]) = latest key ledger).
Proof.
  intros [_ Hm]%numbered_inv. rewrite latest_snoc. unfold mark_of.
  destruct (mark m) as [[k p]|] eqn:Em.
  - specialize (Hm k p eq_refl). unfold mark, follows, batch_key in *.
    destruct (decide (k = key)) as [->|Hne]; destruct (wal_metablock_type m); naive_solver.
  - right. unfold mark, batch_key in *. by destruct (wal_metablock_type m).
Qed.

Lemma latest_app key a b : numbered (a ++ b) ->
  (has_batch key b /\ (latest key a).1 < (latest key (a ++ b)).1 /\ (latest key a).2 < (latest key (a ++ b)).2) \/
  (~ has_batch key b /\ latest key (a ++ b) = latest key a).
Proof.
  induction b as [|m b IH] using rev_ind.
  { right. rewrite app_nil_r. split; [|done]. by intros ?%Exists_nil. }
  rewrite app_assoc. intros Hn. pose proof (proj1 (numbered_inv _ _ Hn)) as Hn'.
  unfold has_batch in *. rewrite Exists_app, Exists_cons, Exists_nil.
  destruct (numbered_latest_snoc key _ _ Hn) as [(Hb & H1 & H2)|(Hb & ->)], (IH Hn') as [(Hc & H3 & H4)|(Hc & Heq)];
    try rewrite Heq in *; intuition lia.
Qed.

Lemma latest_zero key ledger : numbered ledger -> 0 <= (latest key ledger).1 /\ 0 <= (latest key ledger).2 /\
  ((latest key ledger).1 = 0 -> (latest key ledger).2 = 0).
Proof.
  induction ledger as [|m ledger IH] using rev_ind; intros Hn; [done|]. pose proof (proj1 (numbered_inv _ _ Hn)) as Hn'.
  specialize (IH Hn'). destruct (numbered_latest_snoc key _ _ Hn) as [(_ & H1 & H2)|(_ & ->)]; lia.
Qed.

(** Stamping a block does not change what it says of its aggregate. *)
Lemma stamped_mark item item' : stamped_from item item' ->
  mark (qi_metablock item') = mark (qi_metablock item) /\ batch_key (qi_metablock item') = batch_key (qi_metablock item) /\
  forall prev, follows prev (qi_metablock item') <-> follows prev (qi_metablock item).
Proof. by intros ((d & p & w & t & ->) & _). Qed.

(** ** Ledgers that say the same *)

Definition same_marks (m m' : Metablock) : Prop :=
  mark m' = mark m /\ batch_key m' = batch_key m /\ forall prev, follows prev m' <-> follows prev m.

Lemma same_latest key a b : Forall2 same_marks a b -> latest key b = latest key a.
Proof.
  intros Hs. unfold latest. do 2 f_equal. induction Hs as [|m m' a b (Hm & _) _ IH]; [done|].
  assert (Hk : mark_of key m' = mark_of key m) by (unfold mark_of; by rewrite Hm). cbn. by rewrite Hk, IH.
Qed.

Lemma same_numbered a b : Forall2 same_marks a b -> numbered a -> numbered b.
Proof.
  intros Hs. revert b Hs. induction a as [|m a IH] using rev_ind; intros b Hs Hn.
  { apply Forall2_nil_inv_l in Hs as ->. constructor. }
  apply Forall2_app_inv_l in Hs as (b1 & b2 & H1 & H2 & ->). inversion H2 as [|? m' ? ? (Hm & _ & Hf) H2']; subst.
  inversion H2'; subst. apply numbered_inv in Hn as [Hn Hfol]. constructor; [by apply IH|].
  intros key p Hp. rewrite (same_latest key _ _ H1), Hf. rewrite Hm in Hp. by apply (Hfol key p).
Qed.

Lemma same_has_batch key a b : Forall2 same_marks a b -> has_batch key b -> has_batch key a.
Proof.
  intros Hs. unfold has_batch. induction Hs as [|m m' a b (_ & Hm & _) _ IH]; [done|].
  rewrite !Exists_cons, Hm. intuition.
Qed.

#[global] Instance same_marks_refl : Reflexive same_marks.
Proof. by intros m. Qed.

(** ** Numbering a batch *)

Lemma number_events_bounds es seq acc : 0 <= seq -> seq + Z.of_nat (length es) <= U64_MAX ->
  (number_events seq es).2 = seq + Z.of_nat (length es) /\
  (foldl batch_bounds_step acc (number_events seq es).1).2 =
    match es with [] => acc.2 | _ => (Z.min acc.2.1 (seq + 1), Z.max acc.2.2 (seq + Z.of_nat (length es))) end.
Proof.
  revert seq acc. induction es as [|e es IH]; intros seq acc H0 Hmax; [cbn [number_events fst snd foldl length]; split; [lia|done]|].
  cbn [number_events length] in *.
  assert (Hs : saturating_add 64 seq 1 = seq + 1) by (unfold saturating_add, U64_MAX in *; lia).
  rewrite Hs. destruct (number_events (seq + 1) es) as [es' last] eqn:En.
  specialize (IH (seq + 1) (batch_bounds_step acc (with_event_seq e (seq + 1))) ltac:(lia) ltac:(lia)).
  rewrite En in IH. cbn [fst snd foldl] in *. destruct IH as [-> ->]. split; [lia|].
  destruct acc as [[[? ?] [? ?]] [a b]]. destruct es; cbn; f_equal; lia.
Qed.

Lemma numbered_batch c u key tb version es seq types : es <> [] -> 0 <= seq -> seq + Z.of_nat (length es) < U64_MAX ->
  let meta := from_batch_item c u key tb {| aggregate_version := version; events := (number_events seq es).1 |} types in
  eb_aggregate_key meta = key /\ eb_aggregate_version meta = version /\ min_event_seq meta = seq + 1 /\
  max_event_seq meta = seq + Z.of_nat (length es).
Proof.
  intros Hne H0 Hmax. unfold from_batch_item. cbn [events aggregate_version].
  destruct (number_events_bounds es seq ((U64_MAX, 0), (U64_MAX, 0), (U64_MAX, 0)) H0 ltac:(lia)) as [_ Hb].
  destruct (foldl _ _ _) as [[[mc xc] [mt xt]] [me xe]]. cbn [snd fst] in Hb. destruct es as [|e es]; [done|].
  injection Hb as -> ->. cbn [min_event_seq max_event_seq eb_aggregate_key eb_aggregate_version length] in *.
  destruct (Z.eqb_spec (Z.min U64_MAX (seq + 1)) U64_MAX); split_and!; lia || done.
Qed.

(** ** The system *)

Record VState (V : Type) := {
  vs_mem : MemCache V;
  vs_log : list Metablock;
  vs_flight : option SyncPositionsSnapshot;
}.
Arguments vs_mem {V} _.
Arguments vs_log {V} _.
Arguments vs_flight {V} _.

Definition in_flight {V} (st : VState V) : list Metablock :=
  match vs_flight st with Some s => qi_metablock <$> sps_queue s | None => [] end.
Definition in_queue {V} (m : MemCache V) : list Metablock := qi_metablock <$> pending_append_queue m.
Definition ledger {V} (st : VState V) : list Metablock := vs_log st ++ in_flight st ++ in_queue (vs_mem st).

(** What is in memory about an aggregate. *)
Definition resident {V} (m : MemCache V) (key : AggregateKey) : Prop :=
  is_Some (queue_positions m !! key) \/ is_Some (write_snapshots m !! key).

Definition indexes_of (q : QueueAggregatePositions) : Z * Z := (q_aggregate_version q, q_event_seq q).

Record tracked {V} (st : VState V) : Prop := {
  tr_numbered : numbered (ledger st);
  tr_queue key q : queue_positions (vs_mem st) !! key = Some q ->
    pending_delete q = false /\ indexes_of q = latest key (ledger st);
  tr_had key : has_batch key (in_flight st ++ in_queue (vs_mem st)) ->
    exists q, queue_positions (vs_mem st) !! key = Some q /\ had_event_batch q = true;
  tr_snapshot key s : write_snapshots (vs_mem st) !! key = Some s ->
    ms_status s <> Deleted /\ (ms_aggregate_version s, ms_event_seq s) = latest key (vs_log st);
  tr_flight s key : vs_flight st = Some s ->
    (forall q, sps_positions s !! key = Some q ->
       pending_delete q = false /\ indexes_of q = latest key (vs_log st ++ in_flight st)) /\
    (has_batch key (in_flight st) -> exists q, sps_positions s !! key = Some q /\ had_event_batch q = true);
}.

Section view.
Context {V : Type} (st : VState V) (Hst : tracked st).

Lemma not_queued key : queue_positions (vs_mem st) !! key = None -> latest key (ledger st) = latest key (vs_log st).
Proof.
  intros Hq. destruct (latest_app key (vs_log st) (in_flight st ++ in_queue (vs_mem st)) (tr_numbered st Hst)) as [(Hb & _)|(_ & Hl)]; [|exact Hl].
  destruct (tr_had st Hst key Hb) as (q & Hq' & _). congruence.
Qed.

(** The caches answer with the end of the ledger. *)
Lemma cached_indexes key : resident (vs_mem st) key ->
  let ix := get_write_event_seqes (vs_mem st) key in
  pending_delete_or_deleted ix = false /\ (ix_aggregate_version ix, ix_event_seq ix) = latest key (ledger st).
Proof.
  intros Hres. unfold get_write_event_seqes. destruct (queue_positions (vs_mem st) !! key) as [q|] eqn:Eq.
  - destruct (tr_queue st Hst key q Eq) as [Hd Hl]. done.
  - destruct Hres as [[? ?]|[s Hs]]; [congruence|]. rewrite Hs. destruct (tr_snapshot st Hst key s Hs) as [Hd Hl].
    cbn. rewrite bool_decide_false, (not_queued key Eq) by done. done.
Qed.
End view.

(** One block at the end of the queue, with its aggregate's positions. *)
Section queue_one.
Context {V : Type} (st : VState V) (Hst : tracked st) (key : AggregateKey) (item : ShardLogQueueItem) (m' : MemCache V).
Context (q' : QueueAggregatePositions).
Context (Hqueue : pending_append_queue m' = pending_append_queue (vs_mem st) ++ [item]).
Context (Hpos : queue_positions m' = <[key := q']> (queue_positions (vs_mem st))).
Context (Hsnap : write_snapshots m' = write_snapshots (vs_mem st)).
Context (Hmark : mark (qi_metablock item) = Some (key, indexes_of q')).
Context (Hfollows : follows (latest key (ledger st)) (qi_metablock item)).
Context (Hdel : pending_delete q' = false).
Context (Hhad : had_event_batch q' = true \/ batch_key (qi_metablock item) = None /\
  forall q, queue_positions (vs_mem st) !! key = Some q -> had_event_batch q = true -> had_event_batch q' = true).

Let st' : VState V := {| vs_mem := m'; vs_log := vs_log st; vs_flight := vs_flight st |}.

Lemma queue_one_ledger : ledger st' = ledger st ++ [qi_metablock item].
Proof.
  unfold ledger, in_queue. cbn [vs_mem vs_log st']. rewrite Hqueue, fmap_app. unfold in_flight. cbn [vs_flight st']. by rewrite !app_assoc.
Qed.

Lemma queue_one_tracked : tracked st'.
Proof.
  destruct Hst as [Hn Hq Hb Hs Hf]. split.
  - rewrite queue_one_ledger. constructor; [done|]. intros k p Hp. rewrite Hmark in Hp. by injection Hp as <- _.
  - intros k q Hk. cbn [vs_mem st'] in Hk. rewrite queue_one_ledger, latest_snoc. unfold mark_of. rewrite Hmark.
    rewrite Hpos in Hk. destruct (decide (k = key)) as [->|Hne].
    + rewrite lookup_insert_eq in Hk. injection Hk as <-. by rewrite decide_True.
    + rewrite lookup_insert_ne in Hk by done. rewrite decide_False by done. by apply Hq.
  - intros k Hk. cbn [vs_mem st'] in *. unfold in_queue in Hk. rewrite Hqueue, fmap_app, fmap_cons, fmap_nil, app_assoc in Hk.
    unfold has_batch in Hk. rewrite Exists_app, Exists_cons, Exists_nil in Hk. rewrite Hpos.
    destruct (decide (k = key)) as [->|Hne].
    + rewrite lookup_insert_eq. exists q'. split; [done|]. destruct Hhad as [?|[Hnb Hkeep]]; [done|].
      destruct Hk as [Hk|[Hk|[]]]; [|cbn in Hk; congruence]. destruct (Hb key Hk) as (q & Eq & Hq1). by apply (Hkeep q).
    + rewrite lookup_insert_ne by done. destruct Hk as [Hk|[Hk|[]]]; [by apply Hb|].
      destruct (batch_mark _ _ Hk) as [p Hp]. cbn in Hp. rewrite Hmark in Hp. congruence.
  - intros k s Hk. cbn [vs_mem vs_log st'] in *. rewrite Hsnap in Hk. by apply Hs.
  - intros s k Hk. by apply Hf.
Qed.
End queue_one.

(** ** Requests *)

Section requests.
Context `{Bincode, Crc32c, Xxh3, DictCodec} {V : Type} `{Validate V}.
Implicit Types st : VState V.

Definition with_mem st (m : MemCache V) : VState V := {| vs_mem := m; vs_log := vs_log st; vs_flight := vs_flight st |}.

(** A prepared write that continues its aggregate. *)
Record continues st (p : PreparedWrite) : Prop := {
  cn_version : pw_aggregate_version p = (latest (pw_aggregate_key p) (ledger st)).1 + 1;
  cn_seq : (latest (pw_aggregate_key p) (ledger st)).2 < pw_event_seq p;
  cn_mark : mark (qi_metablock (pw_item p)) = Some (pw_aggregate_key p, (pw_aggregate_version p, pw_event_seq p));
  cn_follows : follows (latest (pw_aggregate_key p) (ledger st)) (qi_metablock (pw_item p));
}.

(** What a write needs so that its numbers fit their width. *)
Definition has_room st (key : AggregateKey) (w : SingleAggregateWrite) : Prop :=
  (latest key (ledger st)).1 < U64_MAX /\ (latest key (ledger st)).2 + Z.of_nat (length (sw_events w)) < U64_MAX.

Lemma next_indexes_latest st key : tracked st -> resident (vs_mem st) key -> (latest key (ledger st)).1 < U64_MAX ->
  exists min_version, next_indexes (get_write_event_seqes (vs_mem st) key) =
    ((latest key (ledger st)).2, (latest key (ledger st)).1 + 1, min_version).
Proof.
  intros Hst Hres Hroom. destruct (cached_indexes st Hst key Hres) as [Hd Hl]. cbv zeta in Hl.
  destruct (latest_zero key (ledger st) (tr_numbered st Hst)) as (Hv0 & _ & Hz). rewrite <- Hl in *. cbn [fst snd] in *.
  unfold next_indexes. rewrite Hd. cbn [orb].
  destruct (Z.eqb_spec (ix_aggregate_version (get_write_event_seqes (vs_mem st) key)) 0) as [E|E].
  - rewrite (Hz E), E. destruct (ix_allow_sequence_continuation _); by eexists.
  - cbn [andb]. eexists. f_equal. f_equal. unfold saturating_add, U64_MAX in *. lia.
Qed.

Lemma prepared_continues st rc key w p : tracked st -> resident (vs_mem st) key -> sw_events w <> [] -> has_room st key w ->
  validate_and_prepare_write (vs_mem st) (rc_lease_epoch rc) (rc_node_id rc) (rc_now rc key) (rc_read_cursor_wal_seq rc)
    key (rc_client_id rc) (rc_user_id rc) w = Done p ->
  pw_aggregate_key p = key /\ continues st p /\
  forall expected, sw_expected_version w = Some expected -> expected = (latest key (ledger st)).1.
Proof.
  intros Hst Hres Hne [Hv Hs] Hp. unfold validate_and_prepare_write in Hp.
  destruct (check_cached _ _ _ _ _) as [[]|] eqn:Ec; [|done]. cbn [from_result mbind outcome_bind] in Hp.
  assert (Hocc : forall expected, sw_expected_version w = Some expected -> expected = (latest key (ledger st)).1).
  { intros v Ev. destruct (cached_indexes st Hst key Hres) as [Hd Hl]. cbv zeta in Hl. unfold check_cached in Ec.
    rewrite Hd, Ev in Ec. cbn [andb] in Ec. rewrite <- Hl. cbn [fst].
    destruct (Z.eqb_spec v (ix_aggregate_version (get_write_event_seqes (vs_mem st) key))); [done|done]. }
  destruct (next_indexes_latest st key Hst Hres Hv) as [min_version Hn]. rewrite Hn in Hp.
  destruct (latest_zero key (ledger st) (tr_numbered st Hst)) as (Hv0 & Hs0 & _).
  pose proof (numbered_batch (rc_client_id rc) (rc_user_id rc) key min_version ((latest key (ledger st)).1 + 1) (sw_events w)
    (latest key (ledger st)).2) as Hmeta.
  destruct (number_events_bounds (sw_events w) (latest key (ledger st)).2 ((0, 0), (0, 0), (0, 0)) Hs0 ltac:(lia)) as [Hlast _].
  destruct (number_events _ _) as [es last]. cbn [fst snd] in *.
  destruct (event_types_of es) as [types|]; [|done]. cbn [or_panic mbind outcome_bind] in Hp.
  destruct (SerialisedDatablock_new _ _) as [sdb|]; [|done]. cbn in Hp. injection Hp as <-.
  destruct (Hmeta types Hne Hs0 Hs) as (Hk & Hver & Hmin & Hmax). cbn [pw_aggregate_key]. split; [done|].
  assert (Hlen : (0 < length (sw_events w))%nat) by (destruct (sw_events w); [done|cbn; lia]).
  split; [|done]. split; cbn [pw_aggregate_version pw_event_seq pw_item pw_aggregate_key].
  - done.
  - lia.
  - unfold mark. cbn [qi_metablock ShardLogQueueItem_new queued_metablock wal_metablock_type]. by rewrite Hk, Hver, Hmax, Hlast.
  - unfold follows. cbn [qi_metablock ShardLogQueueItem_new queued_metablock wal_metablock_type]. rewrite Hver, Hmin, Hmax.
    split_and!; lia.
Qed.

Lemma append_write_tracked st p : tracked st -> continues st p -> tracked (with_mem st (append_prepared_write (vs_mem st) p)).
Proof.
  intros Hst [Hv Hs Hm Hf]. unfold append_prepared_write, add_to_pending_append_queue.
  assert (Hmax : Z.max (q_event_seq (queue_entry (vs_mem st) (pw_aggregate_key p))) (pw_event_seq p) = pw_event_seq p /\
    Z.max (q_aggregate_version (queue_entry (vs_mem st) (pw_aggregate_key p))) (pw_aggregate_version p) = pw_aggregate_version p).
  { destruct (latest_zero (pw_aggregate_key p) (ledger st) (tr_numbered st Hst)) as (Hv0 & Hs0 & _). unfold queue_entry.
    destruct (queue_positions (vs_mem st) !! pw_aggregate_key p) as [q|] eqn:Eq; cbn [from_option id queue_positions_default].
    - destruct (tr_queue st Hst _ q Eq) as [_ Hl]. pose proof (f_equal fst Hl) as E1. pose proof (f_equal snd Hl) as E2.
      cbn [indexes_of fst snd] in E1, E2. lia.
    - cbn. lia. }
  eapply (queue_one_tracked st Hst (pw_aggregate_key p) (pw_item p)); [done|reflexivity|done| |done|done|by left].
  unfold indexes_of. cbn [q_aggregate_version q_event_seq]. by rewrite (proj1 Hmax), (proj2 Hmax).
Qed.

Lemma append_write_ledger st p key : continues st p -> key <> pw_aggregate_key p ->
  latest key (ledger (with_mem st (append_prepared_write (vs_mem st) p))) = latest key (ledger st).
Proof.
  intros [_ _ Hm _] Hne. unfold with_mem. rewrite (queue_one_ledger st (pw_item p)) by done.
  rewrite latest_snoc. unfold mark_of. by rewrite Hm, decide_False.
Qed.

Lemma append_writes_tracked ps st : tracked st -> NoDup (pw_aggregate_key <$> ps) -> Forall (continues st) ps ->
  tracked (with_mem st (append_prepared_writes_to_queue (vs_mem st) ps)).
Proof.
  revert st. induction ps as [|p ps IH]; intros st Hst Hnd Hps; [by destruct st|].
  inversion Hps as [|? ? Hp Hps']; subst. apply NoDup_cons in Hnd as [Hk Hnd]. unfold append_prepared_writes_to_queue. cbn [foldl].
  apply (IH (with_mem st (append_prepared_write (vs_mem st) p))); [by apply append_write_tracked|done|].
  rewrite Forall_forall in Hps' |- *. intros p' Hp'. destruct (Hps' p' Hp') as [Hv Hs Hm Hf].
  assert (Hne : pw_aggregate_key p' <> pw_aggregate_key p) by (intros E; apply Hk; rewrite <- E; by apply list_elem_of_fmap_2).
  by split; rewrite ?append_write_ledger.
Qed.

(** The aggregates of a request are distinct, in memory, and their numbers fit. *)
Definition writable st (writes : list (AggregateKey * SingleAggregateWrite)) : Prop :=
  NoDup writes.*1 /\
  Forall (fun p => resident (vs_mem st) p.1 /\ sw_events p.2 <> [] /\ has_room st p.1 p.2) writes.

Lemma prepare_writes_continue st rc writes ps : tracked st ->
  Forall (fun p => resident (vs_mem st) p.1 /\ sw_events p.2 <> [] /\ has_room st p.1 p.2) writes ->
  prepare_writes (vs_mem st) rc writes = Done ps -> pw_aggregate_key <$> ps = writes.*1 /\ Forall (continues st) ps /\
    Forall (fun p => forall expected, sw_expected_version p.2 = Some expected -> expected = (latest p.1 (ledger st)).1) writes.
Proof.
  intros Hst. revert ps. induction writes as [|[key w] writes IH]; intros ps Hw Hps; [by injection Hps as <-|].
  inversion Hw as [|? ? (Hres & Hne & Hroom) Hw']; subst. cbn [prepare_writes] in Hps.
  destruct (validate_and_prepare_write _ _ _ _ _ _ _ _ _) as [p| |] eqn:Ep; [|done..]. cbn in Hps.
  destruct (prepare_writes _ _ _) as [ps'| |]; [|done..]. cbn in Hps. injection Hps as <-.
  destruct (prepared_continues st rc key w p Hst Hres Hne Hroom Ep) as (Hk & Hc & He).
  destruct (IH ps' Hw' eq_refl) as (Hks & Hcs & Hes). split; [cbn; by rewrite Hk, Hks|split; by constructor].
Qed.

Lemma submit_writes_tracked st rc writes m' gen v : tracked st -> writable st writes ->
  submit_writes (vs_mem st) rc writes = Done (m', gen, v) -> tracked (with_mem st m').
Proof.
  intros Hst [Hnd Hw] Hs. unfold submit_writes in Hs.
  destruct (prepare_writes (vs_mem st) rc writes) as [ps| |] eqn:Ep; [|done..]. cbn in Hs. injection Hs as <- _ _.
  destruct (prepare_writes_continue st rc writes ps Hst Hw Ep) as (Hks & Hcs & _).
  apply append_writes_tracked; [done|by rewrite Hks|done].
Qed.

Lemma append_writes_latest ps st p : tracked st -> NoDup (pw_aggregate_key <$> ps) -> Forall (continues st) ps -> p ∈ ps ->
  latest (pw_aggregate_key p) (ledger (with_mem st (append_prepared_writes_to_queue (vs_mem st) ps))) =
    (pw_aggregate_version p, pw_event_seq p).
Proof.
  intros _ Hnd Hps Hp.
  assert (Hl : ledger (with_mem st (append_prepared_writes_to_queue (vs_mem st) ps)) =
    ledger st ++ ((fun p => qi_metablock (pw_item p)) <$> ps)).
  { unfold ledger, in_queue, in_flight. cbn [with_mem vs_mem vs_log vs_flight]. rewrite <- !app_assoc. do 2 f_equal.
    clear. generalize (vs_mem st). unfold append_prepared_writes_to_queue. induction ps as [|q ps IH]; intros m; [by rewrite app_nil_r|].
    cbn [foldl]. rewrite IH. cbn. by rewrite fmap_app, <- app_assoc. }
  rewrite Hl. clear Hl. apply list_elem_of_split in Hp as (ps1 & ps2 & ->).
  rewrite fmap_app, fmap_cons in Hnd. rewrite fmap_app, fmap_cons, cons_middle, !app_assoc.
  apply NoDup_app in Hnd as (_ & _ & Hnd). apply NoDup_cons in Hnd as [Hk _].
  apply Forall_app in Hps as [_ Hps]. inversion Hps as [|? ? [_ _ Hm _] Hps2]; subst. clear Hps. revert Hk Hps2.
  generalize (ledger st ++ ((fun p => qi_metablock (pw_item p)) <$> ps1)). intros l. induction ps2 as [|q ps2 IH] using rev_ind; intros Hk Hps2.
  - cbn. rewrite app_nil_r, latest_snoc. unfold mark_of. by rewrite Hm, decide_True.
  - rewrite fmap_app in *. cbn in *. rewrite app_assoc, latest_snoc. apply Forall_app in Hps2 as [Hps2 Hq].
    inversion Hq as [|? ? [_ _ Hmq _] _]; subst. unfold mark_of. rewrite Hmq, decide_False; [|set_solver]. apply IH; [set_solver|done].
Qed.

(** What an accepted request leaves: each of its batches has the version after
    the newest one, which is the one the request may have expected. *)
Lemma submit_writes_versions st rc writes m' gen v key w : tracked st -> writable st writes ->
  submit_writes (vs_mem st) rc writes = Done (m', gen, v) -> (key, w) ∈ writes ->
  (latest key (ledger (with_mem st m'))).1 = (latest key (ledger st)).1 + 1 /\
  (forall expected, sw_expected_version w = Some expected -> expected = (latest key (ledger st)).1) /\
  (writes = [(key, w)] -> v = Some ((latest key (ledger st)).1 + 1)).
Proof.
  intros Hst [Hnd Hw] Hs Hin. unfold submit_writes in Hs.
  destruct (prepare_writes (vs_mem st) rc writes) as [ps| |] eqn:Ep; [|done..]. cbn in Hs. injection Hs as <- _ <-.
  destruct (prepare_writes_continue st rc writes ps Hst Hw Ep) as (Hks & Hcs & Hes).
  assert (Hp : exists p, key = pw_aggregate_key p /\ p ∈ ps).
  { apply list_elem_of_fmap. rewrite Hks. by apply (list_elem_of_fmap_2 fst _ (key, w)). }
  destruct Hp as (p & -> & Hp). pose proof (append_writes_latest ps st p Hst ltac:(by rewrite Hks) Hcs Hp) as Hl.
  rewrite Forall_forall in Hcs. rewrite Forall_forall in Hes. pose proof (cn_version st p (Hcs p Hp)) as Hv. split; [by rewrite Hl|].
  split; [apply (Hes _ Hin)|]. intros ->. destruct ps as [|p1 [|? ?]]; [done| |done]. apply list_elem_of_singleton in Hp as ->. by rewrite Hv.
Qed.

Lemma submit_trim_tracked st rc key keep_from m' gen : tracked st -> resident (vs_mem st) key ->
  submit_trim (vs_mem st) rc key keep_from = Ok (Some (m', gen)) -> tracked (with_mem st m').
Proof.
  intros Hst Hres Hs. unfold submit_trim in Hs. destruct (_ <=? _); [done|]. destruct (_ <? _); [done|]. injection Hs as <- _.
  destruct (cached_indexes st Hst key Hres) as [_ Hl]. cbv zeta in Hl.
  set (ix := get_write_event_seqes (vs_mem st) key) in *.
  destruct (latest_zero key (ledger st) (tr_numbered st Hst)) as (Hv0 & Hs0 & _).
  assert (Hmax : Z.max (q_event_seq (queue_entry (vs_mem st) key)) (ix_event_seq ix) = ix_event_seq ix /\
    Z.max (q_aggregate_version (queue_entry (vs_mem st) key)) (ix_aggregate_version ix) = ix_aggregate_version ix).
  { pose proof (f_equal fst Hl) as F1. pose proof (f_equal snd Hl) as F2. cbn [fst snd] in F1, F2.
    unfold queue_entry. destruct (queue_positions (vs_mem st) !! key) as [q|] eqn:Eq; cbn [from_option id].
    - destruct (tr_queue st Hst _ q Eq) as [_ Hl']. rewrite <- Hl in Hl'. injection Hl' as -> ->. lia.
    - cbn. lia. }
  unfold add_pending_trim_to_queue.
  eapply (queue_one_tracked st Hst key); [reflexivity|reflexivity|reflexivity| | | |].
  - unfold indexes_of, mark. cbn [q_aggregate_version q_event_seq qi_metablock ShardLogQueueItem_new queued_metablock
      wal_metablock_type st_aggregate_key st_aggregate_version st_event_seq]. by rewrite (proj1 Hmax), (proj2 Hmax).
  - unfold follows. cbn [qi_metablock ShardLogQueueItem_new queued_metablock wal_metablock_type st_aggregate_version st_event_seq].
    exact Hl.
  - cbn [pending_delete]. unfold queue_entry. destruct (queue_positions (vs_mem st) !! key) as [q|] eqn:Eq; [|done].
    by destruct (tr_queue st Hst _ q Eq).
  - right. split; [done|]. intros q Eq Hh. cbn [had_event_batch]. unfold queue_entry. by rewrite Eq.
Qed.
End requests.

(** ** An fsync *)

Definition same_indexes (q q' : QueueAggregatePositions) : Prop :=
  pending_delete q' = pending_delete q /\ had_event_batch q' = had_event_batch q /\ indexes_of q' = indexes_of q.

(** The batch as [sync] returns it: stamped with positions. *)
Record restamped (s s' : SyncPositionsSnapshot) : Prop := {
  rs_queue : Forall2 stamped_from (sps_queue s) (sps_queue s');
  rs_positions key : option_Forall2 same_indexes (sps_positions s !! key) (sps_positions s' !! key);
}.

Section commit_items.
Context `{Bincode, Crc32c, DictCodec} {V : Type} `{SchemaCompiler V}.
Context (log flight : list Metablock) (Hnum : numbered (log ++ flight)).
Implicit Types m : MemCache V.

(** The snapshots while the blocks of the batch are committed one by one. *)
Record committing m : Prop := {
  cm_exact key s : write_snapshots m !! key = Some s ->
    ms_status s <> Deleted /\ (ms_aggregate_version s, ms_event_seq s) = latest key (log ++ flight);
  cm_batch key : has_batch key flight -> exists s, write_snapshots m !! key = Some s /\ ms_status s = Found;
}.

(** A block of the batch says no more than the whole batch. *)
Lemma block_bounds mb key p : mb ∈ flight -> mark mb = Some (key, p) ->
  p.1 <= (latest key (log ++ flight)).1 /\ p.2 <= (latest key (log ++ flight)).2 /\
  (has_batch key flight \/ p = latest key (log ++ flight)).
Proof.
  intros Hin Hp. apply list_elem_of_split in Hin as (f1 & f2 & ->).
  assert (Hl : latest key (log ++ f1 ++ [mb]) = p).
  { rewrite app_assoc, latest_snoc. unfold mark_of. by rewrite Hp, decide_True. }
  replace (log ++ f1 ++ mb :: f2) with ((log ++ f1 ++ [mb]) ++ f2) in * by (by rewrite <- !app_assoc).
  destruct (latest_app key _ _ Hnum) as [(Hb & H1' & H2')|(Hb & Heq)].
  - rewrite Hl in *. split_and!; [lia..|]. left. unfold has_batch in *. rewrite Exists_app, Exists_cons. auto.
  - rewrite Heq, Hl. split_and!; [lia..|by right].
Qed.

Lemma committing_insert m m' key s : committing m -> write_snapshots m' = <[key := s]> (write_snapshots m) ->
  ms_status s <> Deleted -> (ms_aggregate_version s, ms_event_seq s) = latest key (log ++ flight) ->
  (has_batch key flight -> ms_status s = Found) -> committing m'.
Proof.
  intros [He Hb] Hw Hs Hl Hf. split.
  - intros k s' Hk. rewrite Hw in Hk. destruct (decide (k = key)) as [->|Hne].
    + rewrite lookup_insert_eq in Hk. injection Hk as <-. done.
    + rewrite lookup_insert_ne in Hk by done. by apply He.
  - intros k Hk. rewrite Hw. destruct (decide (k = key)) as [->|Hne].
    + rewrite lookup_insert_eq. eauto.
    + rewrite lookup_insert_ne by done. by apply Hb.
Qed.

Lemma committing_same m m' : committing m -> write_snapshots m' = write_snapshots m -> committing m'.
Proof. intros [He Hb] Hw. split; rewrite Hw; done. Qed.

Lemma position_committing m mb b pos log_id : committing m -> mb ∈ flight -> wal_metablock_type mb = EventBatchMetadata b ->
  committing (commit_position_snapshot m b log_id pos CacheWrite).
Proof.
  intros Hc Hin Hm. assert (Hk : has_batch (eb_aggregate_key b) flight).
  { apply Exists_exists. exists mb. split; [done|]. unfold batch_key. by rewrite Hm. }
  destruct (block_bounds mb (eb_aggregate_key b) (eb_aggregate_version b, max_event_seq b) Hin) as (H1' & H2' & _);
    [unfold mark; by rewrite Hm|]. cbn [fst snd] in *.
  destruct (cm_batch m Hc _ Hk) as (s & Hs & Hf). destruct (cm_exact m Hc _ s Hs) as [_ Hl].
  pose proof (f_equal fst Hl) as E1. pose proof (f_equal snd Hl) as E2. cbn [fst snd] in E1, E2.
  eapply (committing_insert m _ (eb_aggregate_key b)); [done|reflexivity|..]; cbn [snapshots]; rewrite Hs, Hf;
    cbn [bool_decide ms_status ms_aggregate_version ms_event_seq]; [done| |done].
  rewrite E1, E2. rewrite !Z.max_l by lia. by destruct (latest _ _).
Qed.

Lemma trim_committing m mb t pos log_id : committing m -> mb ∈ flight -> wal_metablock_type mb = SoftTrim t ->
  committing (commit_trim_snapshot m (st_aggregate_key t) (keep_from_aggregate_version t) (st_aggregate_version t)
    (st_event_seq t) log_id pos CacheWrite).
Proof.
  intros Hc Hin Hm.
  destruct (block_bounds mb (st_aggregate_key t) (st_aggregate_version t, st_event_seq t) Hin) as (H1' & H2' & Hlast);
    [unfold mark; by rewrite Hm|]. cbn [fst snd] in *.
  unfold commit_trim_snapshot. cbn [snapshots].
  destruct (write_snapshots m !! st_aggregate_key t) as [s|] eqn:Hs.
  - destruct (cm_exact m Hc _ s Hs) as [Hd Hl]. pose proof (f_equal fst Hl) as E1. pose proof (f_equal snd Hl) as E2. cbn [fst snd] in E1, E2.
    eapply (committing_insert m _ (st_aggregate_key t)); [done|reflexivity|done| |];
      cbn [ms_status ms_aggregate_version ms_event_seq].
    + rewrite E1, E2. rewrite !Z.max_l by lia. by destruct (latest _ _).
    + intros Hb. destruct (cm_batch m Hc _ Hb) as (s' & Hs' & Hf). congruence.
  - eapply (committing_insert m _ (st_aggregate_key t)); [done|reflexivity|done| |done].
    cbn [snapshot_found ms_aggregate_version ms_event_seq]. destruct Hlast as [Hb|Heq]; [|done].
    destruct (cm_batch m Hc _ Hb) as (s' & Hs' & _). congruence.
Qed.

Lemma merge_client_snapshots m ck cs w : write_snapshots (merge_aggregate_client_seq_max m ck cs w) = write_snapshots m.
Proof. by destruct (merge_client_frame m ck cs w). Qed.

Lemma item_committing ct lid del m fx item m' fx' mb : committing m -> mb ∈ flight ->
  wal_metablock_type (qi_metablock item) = wal_metablock_type mb -> (forall d, wal_metablock_type mb <> SoftDelete d) ->
  commit_item ct lid del (m, fx) item = Some (m', fx') -> committing m'.
Proof.
  intros Hc Hin Hty Hnd. unfold commit_item, commit_event_batch, commit_soft_trim, commit_schema. rewrite Hty.
  set (fx0 := if bool_decide (ct = FullCommit) then note_summary fx item else fx). clearbody fx0.
  destruct (wal_metablock_type mb) as [b|r|d|t] eqn:Em; [| |by destruct (Hnd d)|].
  - set (m1 := if negb (bool_decide (ct = DeferToReplicationAck)) && _ then merge_aggregate_client_seq_max _ _ _ _ else m).
    assert (Hm1 : committing m1).
    { eapply committing_same; [exact Hc|]. unfold m1. case_match; [apply merge_client_snapshots|done]. }
    clearbody m1. intros Hi. destruct ct; injection Hi as <- _; [|done|by eapply position_committing].
    eapply position_committing; [|done|done]. by eapply committing_same.
  - intros Hi. assert (Hw : write_snapshots m' = write_snapshots m); [|by eapply committing_same].
    case_bool_decide; [|by injection Hi as <- _]. destruct (qi_datablock item) as [db|].
    + injection Hi as <- _. by destruct db.
    + destruct (deserialise_datablock _ _ _ _ _ _) as [[db|]|]; [| |done]; injection Hi as <- _; [by destruct db|done].
  - intros Hi. pose proof (trim_committing m mb t (qi_metablock_absolute_pos item) lid Hc Hin Em) as Ht.
    case_bool_decide; injection Hi as <- _; [|done]. by eapply committing_same.
Qed.

Lemma numbered_no_delete mb d : mb ∈ flight -> wal_metablock_type mb <> SoftDelete d.
Proof.
  intros Hin Hd. apply list_elem_of_split in Hin as (f1 & f2 & ->). rewrite cons_middle, !app_assoc in Hnum.
  apply numbered_app_l, numbered_inv in Hnum as [_ Hf]. unfold mark, follows in Hf. rewrite Hd in Hf. by eapply Hf.
Qed.

Lemma items_committing ct lid del queue queue0 m fx m' fx' : committing m -> (qi_metablock <$> queue0) ⊆ flight ->
  Forall2 stamped_from queue0 queue -> commit_items ct lid del (m, fx) queue = Some (m', fx') -> committing m'.
Proof.
  intros Hc Hsub Hst. revert m fx Hc. induction Hst as [|item0 item queue0 queue Hi Hq IH]; intros m fx Hc; cbn [commit_items].
  { by intros [= <- _]. }
  intros ([m1 fx1] & Hci & Hcq)%bind_Some.
  assert (Hin : qi_metablock item0 ∈ flight) by (apply Hsub; by left).
  eapply IH; [by intros mb Hmb; apply Hsub; right| |exact Hcq].
  eapply item_committing; [exact Hc|exact Hin| |intros d; by apply numbered_no_delete|exact Hci].
  destruct Hi as ((? & ? & ? & ? & ->) & _). done.
Qed.
End commit_items.

Section fsync.
Context `{Bincode, Crc32c, DictCodec} {V : Type} `{SchemaCompiler V}.
Implicit Types st : VState V.

(** The snapshots once the queue positions of the batch are committed. *)
Lemma positions_committing st s s' ns : tracked st -> vs_flight st = Some s -> restamped s s' ->
  committing (vs_log st) (in_flight st) (commit_sync_positions_snapshot ns (vs_mem st) s').
Proof.
  intros Hst Hfl Hrs. set (m1 := commit_sync_positions_snapshot ns (vs_mem st) s').
  assert (Hview : forall key, write_snapshots m1 !! key =
    match sps_positions s' !! key with
    | Some q => committed_snapshot q (write_snapshots (vs_mem st) !! key)
    | None => write_snapshots (vs_mem st) !! key
    end).
  { intros key. pose proof (f_equal (fun v => v.1.1) (commit_sync_view 0 ns (vs_mem st) s' key)) as Hv.
    cbn in Hv. unfold m1. rewrite Hv. by destruct (sps_positions s' !! key). }
  assert (Hnum : numbered (vs_log st ++ in_flight st)).
  { apply (numbered_app_l _ (in_queue (vs_mem st))). rewrite <- app_assoc. apply (tr_numbered st Hst). }
  assert (Hq : forall key q', sps_positions s' !! key = Some q' -> exists q, sps_positions s !! key = Some q /\ same_indexes q q').
  { intros key q' Hq'. pose proof (rs_positions s s' Hrs key) as Ho. rewrite Hq' in Ho. inversion Ho; subst. eauto. }
  assert (Hnone : forall key, sps_positions s' !! key = None -> ~ has_batch key (in_flight st)).
  { intros key Hn Hb. destruct (tr_flight st Hst s key Hfl) as [_ Hh]. destruct (Hh Hb) as (q & Hq' & _).
    pose proof (rs_positions s s' Hrs key) as Ho. rewrite Hn, Hq' in Ho. inversion Ho. }
  assert (Hlog : forall key, ~ has_batch key (in_flight st) -> latest key (vs_log st ++ in_flight st) = latest key (vs_log st)).
  { intros key Hn. by destruct (latest_app key _ _ Hnum) as [[? _]|[_ ->]]. }
  assert (Hhad : forall key q q', sps_positions s !! key = Some q -> same_indexes q q' -> had_event_batch q' = false ->
    ~ has_batch key (in_flight st)).
  { intros key q q' Hk (_ & Hh & _) Hf Hb. destruct (tr_flight st Hst s key Hfl) as [_ Hx]. destruct (Hx Hb) as (q0 & Hq0 & Ht). congruence. }
  split.
  - intros key sn Hsn. rewrite Hview in Hsn. destruct (sps_positions s' !! key) as [q'|] eqn:Eq'.
    + destruct (Hq key q' Eq') as (q & Eq & Hsame). pose proof Hsame as (Hdel & Hh & Hix).
      destruct (tr_flight st Hst s key Hfl) as [Hx _]. destruct (Hx q Eq) as [Hd Hl]. rewrite <- Hix in Hl.
      unfold committed_snapshot in Hsn. rewrite Hdel, Hd in Hsn. destruct (had_event_batch q') eqn:Eh.
      * injection Hsn as <-. unfold queue_snapshot. destruct (write_snapshots (vs_mem st) !! key) as [s0|] eqn:E0; [|by split].
        case_bool_decide; [by split|]. destruct (tr_snapshot st Hst key s0 E0) as [_ Hl0]. split; [done|].
        cbn [ms_aggregate_version ms_event_seq]. rewrite <- Hl. unfold indexes_of in *.
        pose proof (f_equal fst Hl0) as E1. pose proof (f_equal snd Hl0) as E2. cbn [fst snd] in E1, E2. rewrite E1, E2.
        pose proof (f_equal fst Hl) as F1. pose proof (f_equal snd Hl) as F2. cbn [fst snd] in F1, F2. rewrite F1, F2.
        destruct (latest_app key _ _ Hnum) as [(_ & ? & ?)|(_ & ->)]; f_equal; lia.
      * destruct (tr_snapshot st Hst key sn Hsn) as [? ->]. rewrite Hlog; [done|]. by eapply Hhad.
    + destruct (tr_snapshot st Hst key sn Hsn) as [? ->]. rewrite Hlog; [done|]. by apply Hnone.
  - intros key Hb. destruct (tr_flight st Hst s key Hfl) as [_ Hx]. destruct (Hx Hb) as (q & Eq & Ht).
    pose proof (rs_positions s s' Hrs key) as Ho. rewrite Eq in Ho. inversion Ho as [? q' (Hdel & Hh & _) E1 E2|]; subst.
    destruct (tr_flight st Hst s key Hfl) as [Hy _]. destruct (Hy q Eq) as [Hd _].
    rewrite Hview, <- E2. unfold committed_snapshot. rewrite Hdel, Hd, Hh, Ht. eexists. split; [done|].
    unfold queue_snapshot. by repeat case_match.
Qed.

Lemma restamped_marks s s' : restamped s s' -> Forall2 same_marks (qi_metablock <$> sps_queue s) (qi_metablock <$> sps_queue s').
Proof. intros [Hq _]. rewrite Forall2_fmap. eapply Forall2_impl; [exact Hq|]. intros. by apply stamped_mark. Qed.

(** What the commit leaves in the queue positions. *)
Lemma positions_view ns (m : MemCache V) s key :
  queue_positions (commit_sync_positions_snapshot ns m s) !! key =
    match sps_positions s !! key with
    | Some q => committed_position q (queue_positions m !! key)
    | None => queue_positions m !! key
    end.
Proof.
  pose proof (f_equal (fun v => v.1.2) (commit_sync_view 0 ns m s key)) as Hv. cbn in Hv. rewrite Hv. by destruct (sps_positions s !! key).
Qed.

Lemma commit_tracked st s s' ns ct lid m' fx : tracked st -> vs_flight st = Some s -> restamped s s' ->
  commit_sync ns ct lid (vs_mem st) s' = Some (m', fx) ->
  tracked {| vs_mem := m'; vs_log := vs_log st ++ (qi_metablock <$> sps_queue s'); vs_flight := None |}.
Proof.
  intros Hst Hfl Hrs Hc. pose proof (positions_committing st s s' ns Hst Hfl Hrs) as Hp. unfold commit_sync in Hc.
  assert (Hin : in_flight st = qi_metablock <$> sps_queue s) by (unfold in_flight; by rewrite Hfl).
  pose proof (restamped_marks s s' Hrs) as Hm. rewrite <- Hin in Hm.
  assert (Hlog : Forall2 same_marks (vs_log st ++ in_flight st) (vs_log st ++ (qi_metablock <$> sps_queue s')))
    by (apply Forall2_app; [reflexivity|done]).
  assert (Hnum : numbered (vs_log st ++ in_flight st)).
  { apply (numbered_app_l _ (in_queue (vs_mem st))). rewrite <- app_assoc. apply (tr_numbered st Hst). }
  pose proof (items_committing _ _ Hnum ct lid (deleted_positions s') (sps_queue s') (sps_queue s) _ _ _ _ Hp
    ltac:(by rewrite Hin) (rs_queue s s' Hrs) Hc) as [Hex _].
  destruct (commit_items_frame _ _ _ _ _ _ _ _ Hc) as (Hqp & Hpq & _). rewrite commit_sync_queue in Hpq.
  set (st' := {| vs_mem := m'; vs_log := _; vs_flight := None |}).
  assert (Hq' : in_queue m' = in_queue (vs_mem st)) by (unfold in_queue; by rewrite Hpq).
  assert (Hsame : Forall2 same_marks (ledger st) (ledger st')).
  { unfold ledger, st'. cbn [vs_mem vs_log vs_flight in_flight app]. rewrite Hq', app_assoc. apply Forall2_app; [done|reflexivity]. }
  split.
  - by eapply same_numbered; [|apply (tr_numbered st Hst)].
  - intros key q Hq. cbn [vs_mem st'] in Hq. rewrite Hqp, positions_view in Hq. rewrite (same_latest key _ _ Hsame).
    apply (tr_queue st Hst). destruct (sps_positions s' !! key) as [q0|]; [|done]. unfold committed_position in Hq.
    destruct (pending_delete q0); [done|]. destruct (queue_positions (vs_mem st) !! key) as [c|]; [|done]. by case_match.
  - intros key Hb. cbn [vs_mem st' in_flight vs_flight app] in *. rewrite Hq' in Hb. rewrite Hqp, positions_view.
    destruct (tr_had st Hst key) as (c & Hc' & Hh); [unfold has_batch; rewrite Exists_app; by right|]. exists c. split; [|done].
    destruct (sps_positions s' !! key) as [q'|] eqn:Eq'; [|done].
    pose proof (rs_positions s s' Hrs key) as Ho. rewrite Eq' in Ho. inversion Ho as [q ? (Hd & _ & Hix) Eq E2|]; subst.
    destruct (tr_flight st Hst s key Hfl) as [Hx _]. destruct (Hx q (eq_sym Eq)) as [Hd0 Hl]. rewrite <- Hix in Hl.
    destruct (tr_queue st Hst key c Hc') as [_ Hlc]. pose proof (tr_numbered st Hst) as Hn. unfold ledger in *.
    rewrite app_assoc in Hn, Hlc. destruct (latest_app key _ _ Hn) as [(_ & Hlt & _)|[Hno _]]; [|done].
    rewrite <- Hl, <- Hlc in Hlt. unfold committed_position. rewrite Hd, Hd0, Hc'. cbn [indexes_of fst] in Hlt.
    by rewrite (proj2 (Z.eqb_neq _ _)) by lia.
  - intros key sn Hsn. cbn [vs_log st']. rewrite (same_latest key _ _ Hlog). by apply Hex.
  - by intros.
Qed.

(** The queue is taken for a batch; what it says is in flight from then on. *)
Lemma capture_tracked st m' captured : tracked st -> vs_flight st = None ->
  capture_fsync_snapshot (vs_mem st) = (m', Captured captured) ->
  tracked {| vs_mem := m'; vs_log := vs_log st; vs_flight := Some (fc_snapshot captured) |}.
Proof.
  intros [Hn Hq Hh Hs _] Hfl Hc. unfold capture_fsync_snapshot, take_fsync_rollback_flag in Hc.
  destruct (fsync_rollback_occurred (vs_mem st)); [done|].
  cbn [clear_rollback_flag pending_append_queue] in Hc. destruct (pending_append_queue (vs_mem st)) as [|i q] eqn:Eq; [done|].
  injection Hc as <- <-. unfold ledger, in_flight in *. rewrite Hfl in *. cbn [app] in *. unfold in_queue in *. rewrite Eq in *.
  split; unfold ledger, in_flight, in_queue in *; cbn in *; rewrite ?app_nil_r, ?Eq; try done.
  intros s key [= <-]. split; cbn; rewrite ?Eq; [apply Hq|apply Hh].
Qed.

(** A failed batch takes the queue with it; the log stays. *)
Lemma rollback_tracked st : tracked st ->
  tracked {| vs_mem := execute_fsync_rollback (vs_mem st); vs_log := vs_log st; vs_flight := None |}.
Proof.
  intros [Hn _ _ Hs _]. apply numbered_app_l in Hn. split; unfold ledger, in_flight, in_queue; cbn; rewrite ?app_nil_r; try done.
  by intros key Hb%Exists_nil.
Qed.

(** Only the snapshots of the write path matter. *)
Lemma same_view_tracked st (m' : MemCache V) : tracked st -> queue_positions m' = queue_positions (vs_mem st) ->
  pending_append_queue m' = pending_append_queue (vs_mem st) ->
  (forall key sn, write_snapshots m' !! key = Some sn -> ms_status sn <> Deleted /\
     (ms_aggregate_version sn, ms_event_seq sn) = latest key (vs_log st)) ->
  tracked {| vs_mem := m'; vs_log := vs_log st; vs_flight := vs_flight st |}.
Proof.
  intros [Hn Hq Hh Hs Hf] E1 E2 Hsn. split; unfold ledger, in_queue, in_flight in *; cbn [vs_mem vs_log vs_flight]; rewrite ?E1, ?E2; done.
Qed.
End fsync.

Lemma sync_restamps `{Bincode, Crc32c, Blake3, Xxh3} recycled dma_alignment header_buffer seg s ct io snapshot md file :
  sync recycled dma_alignment header_buffer seg s ct io = Done (snapshot, md, file) -> restamped s snapshot.
Proof.
  intros (Hs & Hr & _)%sync_returns. split; [done|]. intros key. specialize (Hr key).
  destruct Hr as [q q' Hq|]; constructor. by destruct Hq as [->|(? & ? & ? & ->)].
Qed.

(** ** Looking an aggregate up *)

(** The blocks of entries that are listed newest first. *)
Definition blocks_of (es : list (Z * LogEntry)) : list Metablock := reverse ((fun p => le_metablock p.2) <$> es).

Lemma blocks_of_cons p es : blocks_of (p :: es) = blocks_of es ++ [le_metablock p.2].
Proof. unfold blocks_of. by rewrite fmap_cons, reverse_cons. Qed.

Lemma chain_key_mark m : chain_aggregate_key m = fst <$> mark m.
Proof. unfold chain_aggregate_key, mark. by destruct (wal_metablock_type m). Qed.

Lemma newest_latest key es :
  match newest key es with
  | Some (_, e) => mark (le_metablock e) = Some (key, latest key (blocks_of es))
  | None => latest key (blocks_of es) = (0, 0)
  end.
Proof.
  unfold newest. induction es as [|[id e] es IH]; [done|]. rewrite blocks_of_cons, latest_snoc. unfold mark_of. cbn [snd].
  destruct (decide (entry_of_key key (id, e))) as [Hk|Hk].
  - rewrite filter_cons_True by done. cbn [head]. unfold entry_of_key in Hk. rewrite chain_key_mark in Hk. cbn [snd] in Hk.
    destruct (mark (le_metablock e)) as [[k p]|]; [|done]. injection Hk as ->. by rewrite decide_True.
  - rewrite filter_cons_False by done. unfold entry_of_key in Hk. rewrite chain_key_mark in Hk. cbn [snd] in Hk.
    destruct (mark (le_metablock e)) as [[k p]|]; [|exact IH]. rewrite decide_False; [exact IH|]. cbn in Hk. congruence.
Qed.

Lemma batch_of_key j e : is_batch_of j e = true <-> batch_key (le_metablock e) = Some j.
Proof.
  unfold is_batch_of, batch_key. destruct (wal_metablock_type (le_metablock e)); try done. rewrite bool_decide_eq_true. naive_solver.
Qed.

Lemma newest_batch_latest j es id e : numbered (blocks_of es) -> newest_batch j es = Some (id, e) ->
  mark (le_metablock e) = Some (j, latest j (blocks_of es)).
Proof.
  unfold newest_batch. induction es as [|[id0 e0] es IH]; [done|]. rewrite blocks_of_cons. intros Hn. cbn [snd] in *.
  pose proof (proj1 (numbered_inv _ _ Hn)) as Hn'. destruct (numbered_latest_snoc j _ _ Hn) as [(Hb & _)|(Hb & ->)].
  - rewrite filter_cons_True by (by apply batch_of_key). intros [= -> ->]. destruct (batch_mark _ _ Hb) as [p Hp].
    rewrite latest_snoc. unfold mark_of. rewrite Hp. by rewrite decide_True.
  - rewrite filter_cons_False by (by rewrite batch_of_key). by apply IH.
Qed.

Lemma newer_batch j key es p : newest_batch j (newer_than key es) = Some p -> newest_batch j es = Some p.
Proof.
  unfold newest_batch. induction es as [|q es IH]; [done|]. cbn [newer_than]. destruct (decide (entry_of_key key q)); [done|].
  destruct (decide (is_batch_of j q.2 = true)); [by rewrite !filter_cons_True|by rewrite !filter_cons_False].
Qed.

(** What an entry puts into the cache. *)
Lemma snapshot_of_mark id e s key p : snapshot_of id e = Some s -> mark (le_metablock e) = Some (key, p) ->
  (forall d, wal_metablock_type (le_metablock e) <> SoftDelete d) ->
  ms_status s <> Deleted /\ (ms_aggregate_version s, ms_event_seq s) = p.
Proof.
  unfold snapshot_of, mark. intros Hs Hm Hd. destruct (wal_metablock_type (le_metablock e)) as [b|r|d|t]; [|done|by destruct (Hd d)|];
    injection Hs as <-; injection Hm as _ <-; done.
Qed.

Section load.
Context `{Bincode, Crc32c, Blake3, Xxh3, DictCodec} {V : Type} `{Validate V}.
Context (snapshot_cap : nat) (cache : LogSegmentsCache) (active_log_id : Z) (read_cursor : Z * Z) (chunk : Z) (key : AggregateKey).
Context (segs : Z -> LogSegmentFile) (logs : Z -> list LogEntry).

Notation sc := (exists_scanner key CacheWrite active_log_id read_cursor chunk).
Notation view := (log_view active_log_id read_cursor chunk key CacheWrite segs logs).
Notation in_segment := (segment_view active_log_id read_cursor chunk key CacheWrite segs logs).

(** The segments hold the log, and a segment the filters may skip has only
    batches of aggregates that are cached. *)
Record lookup_ok (st : VState V) : Prop := {
  lk_scanner : scanner_ok cache sc;
  lk_segments id : id ∈ scanned_segments sc -> segment_scannable cache sc id (segs id) (logs id);
  lk_log : blocks_of view = vs_log st;
  lk_skipped id : id ∈ scanned_segments sc ->
    Exists (fun e => chain_aggregate_key (le_metablock e) = Some key) (in_segment id) \/
    Forall (fun e => forall j, is_batch_of j e = true -> is_Some (write_snapshots (vs_mem st) !! j)) (in_segment id);
}.

(** For an aggregate that is not cached the skipped segments do not matter. *)
Lemma newest_batch_skips st visits j : lookup_ok st -> visits.*1 = scanned_segments sc ->
  Forall (fun '(id, v) => visit_of active_log_id read_cursor chunk key CacheWrite segs logs id v) visits ->
  write_snapshots (vs_mem st) !! j = None -> newest_batch j (in_order visits) = newest_batch j view.
Proof.
  intros [_ _ _ Hskip] Hids Hv Hj. unfold newest_batch, log_view. f_equal. rewrite <- Hids in *. clear Hids. revert Hskip.
  induction Hv as [|[id v] visits Hv _ IH]; intros Hskip; [done|]. unfold in_order in *. cbn [flat_map fmap list_fmap fst snd].
  rewrite !filter_app, <- IH by (intros i Hi; apply Hskip; by right). f_equal.
  destruct Hv as [->|[-> Hno]]; [done|]. destruct (Hskip id) as [Hx|Hc]; [by left|..].
  { apply Exists_exists in Hx as (e & He & Hk). rewrite Forall_forall in Hno. by destruct (Hno e He). }
  symmetry. apply Forall_reverse in Hc. revert Hc. generalize (reverse (in_segment id)). intros l Hc.
  induction Hc as [|e es He _ IHl]; [done|]. rewrite fmap_cons. rewrite filter_cons_False; [done|]. cbn. intros Hb.
  destruct (He j Hb) as [s Hs]. congruence.
Qed.

Lemma head_filter_elem {A} (P : A -> Prop) `{!forall x, Decision (P x)} l x : head (filter P l) = Some x -> x ∈ l.
Proof. intros Hh. apply head_Some in Hh as [l' Hl]. assert (Hx : x ∈ filter P l) by (rewrite Hl; by left). by apply list_elem_of_filter in Hx as [_ ?]. Qed.

Lemma entry_exact st id e s j : tracked st -> lookup_ok st -> (id, e) ∈ view -> snapshot_of id e = Some s ->
  mark (le_metablock e) = Some (j, latest j (vs_log st)) ->
  ms_status s <> Deleted /\ (ms_aggregate_version s, ms_event_seq s) = latest j (vs_log st).
Proof.
  intros Hst Hok Hin Hs Hm. eapply snapshot_of_mark; [done..|]. intros d.
  pose proof (tr_numbered st Hst) as Hn. apply numbered_app_l in Hn. rewrite <- (lk_log st Hok) in Hn.
  apply (numbered_no_delete [] _ Hn). unfold blocks_of. apply elem_of_reverse.
  by apply (list_elem_of_fmap_2 (fun p : Z * LogEntry => le_metablock p.2) view (id, e)).
Qed.

(** A lookup keeps what is cached exact. *)
Lemma walk_exact st visits : tracked st -> lookup_ok st -> visits.*1 = scanned_segments sc ->
  Forall (fun '(id, v) => visit_of active_log_id read_cursor chunk key CacheWrite segs logs id v) visits ->
  write_snapshots (vs_mem st) !! key = None ->
  let '(m', r) := visit_all snapshot_cap key CacheWrite (in_order visits) (vs_mem st) in
  load_frame CacheWrite (vs_mem st) m' /\
  (forall j s, write_snapshots m' !! j = Some s ->
     ms_status s <> Deleted /\ (ms_aggregate_version s, ms_event_seq s) = latest j (vs_log st)) /\
  (r = None /\ latest key (vs_log st) = (0, 0) \/ (exists found, r = Some found) /\ is_Some (write_snapshots m' !! key)).
Proof.
  intros Hst Hok Hids Hvis Hnone.
  destruct (visit_all_spec snapshot_cap key CacheWrite (in_order visits) (vs_mem st)) as (Hf & Hown & Hoth).
  rewrite (newest_skips active_log_id read_cursor chunk key CacheWrite segs logs visits Hvis), Hids in Hown.
  fold view in Hown. pose proof (newest_latest key view) as Hnew. pose proof (lk_log st Hok) as Hlog. rewrite Hlog in Hnew.
  destruct (visit_all _ _ _ _ _) as [m' r]. cbn [fst snd snapshots] in *. split; [done|].
  assert (Hkey : match newest key view with
    | Some (id, e) => exists s, write_snapshots m' !! key = Some s /\ snapshot_of id e = Some s /\ exists found, r = Some found
    | None => r = None /\ write_snapshots m' !! key = None
    end).
  { destruct (newest key view) as [[id e]|]; [|destruct Hown; split; congruence].
    destruct Hown as (s & ? & ? & ?). eauto 6. }
  clear Hown. split.
  - intros j s Hs. destruct (decide (j = key)) as [->|Hj].
    + destruct (newest key view) as [[id e]|] eqn:En; [|destruct Hkey; congruence].
      destruct Hkey as (s' & Hs' & Hsn & _). eapply (entry_exact st id e); try done; [|congruence]. by eapply head_filter_elem.
    + destruct (Hoth j Hj) as [Heq|(Hn & id & e & Hb & Heq)]; [rewrite Heq in Hs; by apply (tr_snapshot st Hst)|].
      apply newer_batch in Hb. rewrite (newest_batch_skips st visits j Hok Hids Hvis Hn) in Hb.
      eapply (entry_exact st id e); [done..|by eapply head_filter_elem|congruence|]. rewrite <- Hlog.
      eapply newest_batch_latest; [|exact Hb]. rewrite Hlog. eapply numbered_app_l, (tr_numbered st Hst).
  - destruct (newest key view) as [[id e]|]; [right|left].
    + destruct Hkey as (s & Hs & _ & Hr). rewrite Hs. eauto.
    + destruct Hkey. by split.
Qed.

Lemma load_tracked (st : VState V) m' r : tracked st -> lookup_ok st ->
  aggregate_exists_and_cache snapshot_cap cache active_log_id read_cursor chunk key CacheWrite (vs_mem st) = (m', r) ->
  tracked (with_mem st m') /\ (exists found, r = Done found) /\ resident m' key.
Proof.
  intros Hst Hok Hl. unfold resident. destruct (aggregate_load_status (vs_mem st) key CacheWrite) as [[] status] eqn:Els.
  { unfold aggregate_exists_and_cache in Hl. rewrite Els in Hl. injection Hl as <- <-. split; [by destruct st|]. split; [eauto|].
    unfold aggregate_load_status, snapshots in Els. destruct (queue_positions (vs_mem st) !! key); [eauto|].
    destruct (write_snapshots (vs_mem st) !! key); [eauto|done]. }
  destruct (lookup_walk snapshot_cap cache active_log_id read_cursor chunk key CacheWrite segs logs
    (lk_scanner st Hok) (lk_segments st Hok) (vs_mem st) status Els) as (visits & Hids & Hvis & Hw).
  rewrite Hw in Hl. clear Hw.
  assert (Hnone : write_snapshots (vs_mem st) !! key = None).
  { unfold aggregate_load_status, snapshots in Els. destruct (queue_positions (vs_mem st) !! key); [done|].
    by destruct (write_snapshots (vs_mem st) !! key). }
  pose proof (walk_exact st visits Hst Hok Hids Hvis Hnone) as Hwalk.
  destruct (visit_all _ _ _ _ _) as [m1 r1]. destruct Hwalk as ([Hp Hq _ _ _] & Hex & [[-> Hz]|[[found ->] Hres]]);
    injection Hl as <- <-; (split; [|by split; [eauto|right; cbn [put_aggregate_into_cache_as_not_found snapshots set_snapshots write_snapshots];
      rewrite ?lookup_insert_eq]]).
  - apply same_view_tracked; [done..|]. intros j s. cbn [put_aggregate_into_cache_as_not_found snapshots set_snapshots write_snapshots].
    destruct (decide (j = key)) as [->|Hj]; [rewrite lookup_insert_eq|by rewrite lookup_insert_ne; auto].
    intros [= <-]. by rewrite Hz.
  - by apply same_view_tracked.
Qed.
End load.

(** ** The versions of the batches *)

Definition batch_of (key : AggregateKey) (m : Metablock) : option MetablockEventBatch :=
  match wal_metablock_type m with
  | EventBatchMetadata b => if decide (eb_aggregate_key b = key) then Some b else None
  | _ => None
  end.
Definition batches (key : AggregateKey) (ledger : list Metablock) : list MetablockEventBatch := omap (batch_of key) ledger.
Definition versions (key : AggregateKey) (ledger : list Metablock) : list Z := eb_aggregate_version <$> batches key ledger.
Definition event_seqs (key : AggregateKey) (ledger : list Metablock) : list Z :=
  batches key ledger ≫= fun b => seqZ (min_event_seq b) (max_event_seq b - min_event_seq b + 1).

Lemma numbered_consecutive key ledger : numbered ledger ->
  versions key ledger = seqZ 1 (latest key ledger).1 /\ event_seqs key ledger = seqZ 1 (latest key ledger).2.
Proof.
  unfold versions, event_seqs, batches. induction ledger as [|m ledger IH] using rev_ind; intros Hn; [done|].
  destruct (numbered_inv _ _ Hn) as [Hn' Hf]. destruct (IH Hn') as [IH1 IH2]. clear IH.
  destruct (latest_zero key ledger Hn') as (H1 & H2 & _). rewrite omap_app, fmap_app, bind_app, IH1, IH2. cbn.
  destruct (numbered_latest_snoc key _ _ Hn) as [(Hb & _)|(Hb & ->)].
  - unfold batch_key in Hb. unfold batch_of. rewrite latest_snoc. unfold mark_of, mark, follows in *.
    destruct (wal_metablock_type m) as [b| | |]; try done. injection Hb as Hb. rewrite Hb, !decide_True by done.
    cbn [from_option id fst snd fmap list_fmap mbind list_bind].
    destruct (Hf key (eb_aggregate_version b, max_event_seq b)) as (-> & Hmin & Hmax); [by rewrite Hb|]. rewrite app_nil_r. split.
    + rewrite seqZ_app by lia. f_equal. by rewrite (Z.add_comm 1), seqZ_cons by lia.
    + trans (seqZ 1 ((latest key ledger).2 + (max_event_seq b - min_event_seq b + 1))); [|f_equal; lia].
      rewrite (seqZ_app 1) by lia. do 2 f_equal. lia.
  - assert (Hn0 : batch_of key m = None).
    { unfold batch_of, batch_key in *. destruct (wal_metablock_type m); try done. rewrite decide_False by congruence. done. }
    rewrite Hn0. cbn. by rewrite !app_nil_r.
Qed.

(** ** Runs *)

Section runs.
Context `{Bincode, Crc32c, Blake3, Xxh3, DictCodec} {V : Type} `{Validate V, SchemaCompiler V}.
Context (recycled : nat -> bytes) (snapshot_cap : nat) (chunk dma_alignment : Z) (header_buffer : bytes).
Implicit Types st : VState V.

Inductive vstep : VState V -> VState V -> Prop :=
  | vstep_write st rc writes m' gen v : writable st writes ->
      submit_writes (vs_mem st) rc writes = Done (m', gen, v) -> vstep st (with_mem st m')
  | vstep_trim st rc key keep_from m' gen : resident (vs_mem st) key ->
      submit_trim (vs_mem st) rc key keep_from = Ok (Some (m', gen)) -> vstep st (with_mem st m')
  | vstep_lookup st cache active_log_id read_cursor key segs logs m' r :
      lookup_ok cache active_log_id read_cursor chunk key segs logs st ->
      aggregate_exists_and_cache snapshot_cap cache active_log_id read_cursor chunk key CacheWrite (vs_mem st) = (m', r) ->
      vstep st (with_mem st m')
  (** Eviction, and what only touches the other caches. *)
  | vstep_caches st m' : queue_positions m' = queue_positions (vs_mem st) ->
      pending_append_queue m' = pending_append_queue (vs_mem st) -> write_snapshots m' ⊆ write_snapshots (vs_mem st) ->
      vstep st (with_mem st m')
  | vstep_capture st m' captured : vs_flight st = None -> capture_fsync_snapshot (vs_mem st) = (m', Captured captured) ->
      vstep st {| vs_mem := m'; vs_log := vs_log st; vs_flight := Some (fc_snapshot captured) |}
  | vstep_commit st s seg ct io snapshot md file ns lid m' fx : vs_flight st = Some s ->
      sync recycled dma_alignment header_buffer seg s ct io = Done (snapshot, md, file) ->
      commit_sync ns ct lid (vs_mem st) snapshot = Some (m', fx) ->
      vstep st {| vs_mem := m'; vs_log := vs_log st ++ (qi_metablock <$> sps_queue snapshot); vs_flight := None |}
  | vstep_rollback st s seg ct io e : vs_flight st = Some s ->
      sync recycled dma_alignment header_buffer seg s ct io = Failed e ->
      vstep st {| vs_mem := execute_fsync_rollback (vs_mem st); vs_log := vs_log st; vs_flight := None |}.

Lemma vstep_tracked st st' : tracked st -> vstep st st' -> tracked st'.
Proof.
  intros Hst Hs. destruct Hs as [st rc writes m' gen v Hw Hs|st rc key keep m' gen Hr Hs|st cache lid cur key segs logs m' r Hok Hl|
    st m' E1 E2 E3|st m' captured Hf Hc|st s seg ct io sn md file ns lid m' fx Hf Hs Hc|st s seg ct io e Hf _].
  - by eapply submit_writes_tracked.
  - by eapply submit_trim_tracked.
  - by eapply load_tracked in Hl as [? _].
  - apply same_view_tracked; [done..|]. intros key sn Hsn. apply (tr_snapshot st Hst). by eapply lookup_weaken.
  - by eapply capture_tracked.
  - eapply commit_tracked; [done..| |exact Hc]. by eapply sync_restamps.
  - by apply rollback_tracked.
Qed.

End runs.

(** ** A run *)

Module VersionsRun.
#[local] Existing Instance bincode_le.
#[local] Existing Instance crc_sum.
#[local] Existing Instance blake_pad.
#[local] Existing Instance xxh_low.
#[local] Existing Instance codec_id.
#[local] Instance validate_all : Validate unit := fun _ _ => Ok tt.
#[local] Instance compile_all : SchemaCompiler unit := fun _ _ => Ok tt.

Definition key : AggregateKey := eb_aggregate_key sample_event_batch.
Definition rc : RequestContext :=
  {| rc_lease_epoch := 1; rc_node_id := 9; rc_now _ := 100; rc_read_cursor_wal_seq := 0; rc_client_id := 42; rc_user_id := None |}.

Definition event (client_seq : Z) : DatablockAggregateEvent :=
  {| client_seq := client_seq; event_seq := 0; event_id := None; event_timestamp := 50; event_type_major := 1;
     event_type_minor := 0; event_value := [7; 8]; iv := None |}.
Definition write_of (client_seq : Z) (expected : option Z) : SingleAggregateWrite :=
  {| sw_events := [event client_seq; event (client_seq + 1)]; allow_create := true; sw_expected_version := expected;
     enforce_client_idempotency := true |}.
Definition request (client_seq : Z) (expected : option Z) : list (AggregateKey * SingleAggregateWrite) :=
  [(key, write_of client_seq expected)].

Definition submit (m : MemCache unit) (writes : list (AggregateKey * SingleAggregateWrite)) : MemCache unit :=
  match submit_writes m rc writes with Done (m', _, _) => m' | _ => m end.

(** The aggregate is looked up in an empty log, written, its block taken for an
    fsync and written again, expecting version 1, while that runs. *)
Definition st0 : VState unit := {| vs_mem := MemCache_new; vs_log := []; vs_flight := None |}.
Definition st1 : VState unit := with_mem st0 (put_aggregate_into_cache_as_not_found MemCache_new key CacheWrite).
Definition st2 : VState unit := with_mem st1 (submit (vs_mem st1) (request 1 None)).
Definition st3 : VState unit :=
  {| vs_mem := (take_sync_positions_snapshot (clear_rollback_flag (vs_mem st2))).1; vs_log := [];
     vs_flight := Some (take_sync_positions_snapshot (vs_mem st2)).2 |}.
Definition st4 : VState unit := with_mem st3 (submit (vs_mem st3) (request 3 (Some 1))).

Lemma lookup_empty : lookup_ok (ScanRun.cache_of SyncRun.segment) 1 (0, 0) 2048 key (fun _ => SyncRun.segment) (fun _ => []) st0.
Proof.
  pose proof SyncRun.segment_empty as Hh. split; [apply LookupRun.lookup_scanner_ok|by apply LookupRun.scannable| |].
  - change key with LookupRun.key. by rewrite (LookupRun.view _ _ Hh).
  - intros id Hid. right. unfold segment_view. change (id ∈ [1]) in Hid. apply list_elem_of_singleton in Hid as ->.
    change (override_of _ 1) with (@None Z). by rewrite (ScanRun.all_visible _ [] _ Hh).
Qed.

Lemma looked_up : exists r, aggregate_exists_and_cache (V := unit) 10 (ScanRun.cache_of SyncRun.segment) 1 (0, 0) 2048 key CacheWrite
  MemCache_new = (vs_mem st1, r).
Proof.
  destruct (lookup_walk (V := unit) 10 (ScanRun.cache_of SyncRun.segment) 1 (0, 0) 2048 key CacheWrite (fun _ => SyncRun.segment) (fun _ => [])
    (lk_scanner _ _ _ _ _ _ _ _ lookup_empty) (lk_segments _ _ _ _ _ _ _ _ lookup_empty) MemCache_new NotFound eq_refl)
    as (visits & Hids & Hv & ->).
  assert (in_order visits = []) as ->; [|by eexists]. change (visits.*1 = [1]) in Hids.
  destruct visits as [|[id v] [|? ?]]; try done. injection Hids as ->. inversion Hv as [|? ? Hv1 _]; subst. cbn. rewrite app_nil_r.
  destruct Hv1 as [->|[-> _]]; [|done]. unfold segment_view. change (override_of _ 1) with (@None Z).
  by rewrite (ScanRun.all_visible _ [] _ SyncRun.segment_empty).
Qed.

Notation run := (steps (vstep (V := unit) (fun _ => zeros 1024) 10 2048 512 (zeros 4096))).

Lemma run4 : run st0 st4.
Proof.
  destruct looked_up as [r Hl].
  eapply steps_cons; [by eapply vstep_lookup; [apply lookup_empty|exact Hl]|].
  eapply steps_cons; [eapply (vstep_write _ _ _ _ _ st1 rc (request 1 None) (vs_mem st2) 0 (Some 1))|].
  { split; [by repeat constructor; set_solver|]. constructor; [|constructor]. split; [by right; eexists|]. by split. }
  { vm_compute. reflexivity. }
  eapply steps_cons; [eapply (vstep_capture _ _ _ _ _ st2 (vs_mem st3)
    {| fc_required_disk_space := required_disk_space (pending_append_queue (vs_mem st2)); fc_snapshot := (take_sync_positions_snapshot (vs_mem st2)).2 |})|].
  { done. }
  { vm_compute. reflexivity. }
  eapply steps_cons; [eapply (vstep_write _ _ _ _ _ st3 rc (request 3 (Some 1)) (vs_mem st4) 0 (Some 2))|].
  { split; [by repeat constructor; set_solver|]. constructor; [|constructor]. split; [left; by eexists|]. by split. }
  { vm_compute. reflexivity. }
  apply steps_refl.
Qed.

Lemma versions4 : versions key (ledger st4) = [1; 2].
Proof. vm_compute. reflexivity. Qed.

Lemma resident4 : resident (vs_mem st4) key.
Proof. left. apply (bool_decide_eq_true_1 _). vm_compute. reflexivity. Qed.
End VersionsRun.

