(* ===== verification/Deletes.v ===== *)
(** * Deletes

    Where a delete breaks what [Versions.v] shows of the other requests.  The
    queue position of an aggregate records a pending delete and its versions
    ([celeriant_memcache/src/shard_mem_cache.rs]): a commit that finds the same
    version drops it, and an append merges versions by their maximum, also
    after the delete that was to start them again. *)

From S2P Require Import Prelude Lease WalConstants Codec WalTypes WalCodec DiskFormat HashChain Sbbf Datablock LogSegment MemCache LogSync ReadFilter ReverseScan WritePath FsyncCommit AggregateLoad Versions.

Section deletes.
Context `{Bincode, Crc32c, Blake3, Xxh3, DictCodec} {V : Type} `{Validate V, SchemaCompiler V}.
Implicit Types m : MemCache V.

Definition write_status m (key : AggregateKey) : option AggregateStatus := ms_status <$> write_snapshots m !! key.
Definition deletes_key (key : AggregateKey) (mb : Metablock) : Prop :=
  exists t, wal_metablock_type mb = SoftDelete t /\ sd_aggregate_key t = key.

(** Only a tombstone makes a cached aggregate not found. *)
Lemma commit_item_status ct lid del m fx item m' fx' key : ~ deletes_key key (qi_metablock item) ->
  write_status m key = Some Found -> commit_item ct lid del (m, fx) item = Some (m', fx') -> write_status m' key = Some Found.
Proof.
  unfold deletes_key, commit_item, commit_event_batch, commit_soft_trim, commit_soft_delete, commit_schema, write_status. intros Hnd Hf.
  set (fx0 := if bool_decide (ct = FullCommit) then note_summary fx item else fx). clearbody fx0.
  destruct (wal_metablock_type (qi_metablock item)) as [b|r|d|t].
  - set (m1 := if negb (bool_decide (ct = DeferToReplicationAck)) && _ then merge_aggregate_client_seq_max _ _ _ _ else m).
    assert (Hm1 : write_snapshots m1 = write_snapshots m) by (unfold m1; case_match; [by destruct (merge_client_frame m
      {| ack_aggregate_key := eb_aggregate_key b; ack_client_id := eb_client_id b |} (max_client_seq b) (wal_seq (qi_metablock item)))|done]).
    clearbody m1. rewrite <- Hm1 in Hf. intros Hi.
    destruct ct; injection Hi as <- _; [|done|]; cbn [commit_position_snapshot set_snapshots write_snapshots snapshots];
      (destruct (decide (eb_aggregate_key b = key)) as [->|Hne]; [rewrite lookup_insert_eq|by rewrite lookup_insert_ne]); cbn; by repeat case_match.
  - intros Hi. case_bool_decide; [|by injection Hi as <- _]. destruct (qi_datablock item) as [db|].
    + injection Hi as <- _. by destruct db.
    + destruct (deserialise_datablock _ _ _ _ _ _) as [[db|]|]; [| |done]; injection Hi as <- _; [by destruct db|done].
  - assert (Hne : sd_aggregate_key d <> key) by (intros E; apply Hnd; eauto). destruct (default _ _) as [dl dp].
    intros Hi. by case_bool_decide; injection Hi as <- _;
      cbn [put_aggregate_into_cache_as_deleted set_snapshots write_snapshots snapshots]; rewrite lookup_insert_ne.
  - intros Hi. case_bool_decide; injection Hi as <- _; cbn [commit_trim_snapshot set_snapshots write_snapshots snapshots];
      (destruct (decide (st_aggregate_key t = key)) as [->|Hne]; [rewrite lookup_insert_eq|by rewrite lookup_insert_ne]);
      (destruct (write_snapshots m !! key); [exact Hf|done]).
Qed.

Lemma commit_items_status ct lid del queue m fx m' fx' key : Forall (fun item => ~ deletes_key key (qi_metablock item)) queue ->
  write_status m key = Some Found -> commit_items ct lid del (m, fx) queue = Some (m', fx') -> write_status m' key = Some Found.
Proof.
  intros Hq. revert m fx. induction Hq as [|item queue Hi _ IH]; intros m fx Hf; cbn [commit_items]; [by intros [= <- _]|].
  intros ([m1 fx1] & Hci & Hcq)%bind_Some. eapply IH; [|exact Hcq]. by eapply commit_item_status.
Qed.

Lemma stamped_deletes key item item' : stamped_from item item' -> ~ deletes_key key (qi_metablock item) -> ~ deletes_key key (qi_metablock item').
Proof. by intros ((d & p & w & t & ->) & _). Qed.

(** One delete is queued: the positions note it and keep the version. *)
Lemma submit_delete_spec m rc key d m' gen : submit_deletes m rc [(key, d)] = Ok (m', gen) ->
  exists t item q,
    pending_append_queue m' = pending_append_queue m ++ [item] /\ wal_metablock_type (qi_metablock item) = SoftDelete t /\
    sd_aggregate_key t = key /\ allow_recreate t = del_allow_recreate d /\
    write_snapshots m' = write_snapshots m /\ queue_positions m' !! key = Some q /\ pending_delete q = true /\
    q_allow_recreate q = del_allow_recreate d /\ q_allow_sequence_continuation q = del_allow_sequence_continuation d /\
    q_aggregate_version q = ix_aggregate_version (get_write_event_seqes m key).
Proof.
  unfold submit_deletes. cbn [validate_and_prepare_deletes]. unfold prepare_delete.
  destruct (pending_delete_or_deleted _ || _); [done|]. cbn [mbind result_bind].
  destruct (match del_expected_version d with Some _ => _ | None => _ end); [|done]. cbn. intros [= <- _].
  eexists _, _, _. cbn [add_pending_delete_to_queue push_item set_positions pending_append_queue write_snapshots queue_positions].
  split; [done|]. split; [done|]. rewrite lookup_insert_eq. by split_and!.
Qed.

(** The check that refuses to write a deleted aggregate. *)
Lemma check_recreate m key client_id cursor w :
  let ix := get_write_event_seqes m key in
  (pending_delete_or_deleted ix = true -> ix_allow_recreate ix = false ->
     check_cached m key client_id cursor w = Err AggregateRecreateNotAllowed) /\
  (pending_delete_or_deleted ix = false -> check_cached m key client_id cursor w <> Err AggregateRecreateNotAllowed).
Proof.
  cbv zeta. unfold check_cached. split; [by intros -> ->|]. intros ->. cbn [andb mbind result_bind].
  destruct (match sw_expected_version w with Some _ => _ | None => _ end) as [[]|e] eqn:Ee; cbn.
  2: { intros [= ->]. destruct (sw_expected_version w) as [v|]; [|done]. by destruct (v =? _). }
  destruct (check_client_seq _ _ _ _ _) as [[]|e] eqn:Ec; cbn.
  2: { intros [= ->]. unfold check_client_seq in Ec. destruct (enforce_client_idempotency w); [|done].
       destruct (get_client_seq_entry _ _ _); [|done]. case_match; [|done]. case_match; done. }
  induction (sw_events w) as [|ev es IH]; [done|]. cbn [check_schemas].
  destruct (check_event_schema m key ev) as [[]|e] eqn:Es; [exact IH|]. cbn. intros [= ->]. unfold check_event_schema in Es.
  destruct (iv ev); [done|]. destruct (schema_cache_get _ _) as [[]|]; try done. by destruct (validate _ _).
Qed.

(** The captured batch with its positions. *)
Lemma capture_spec m m1 captured : capture_fsync_snapshot m = (m1, Captured captured) ->
  queue_positions m1 = queue_positions m /\ write_snapshots m1 = write_snapshots m /\ pending_append_queue m1 = [] /\
  sps_queue (fc_snapshot captured) = pending_append_queue m /\ sps_positions (fc_snapshot captured) = queue_positions m.
Proof.
  unfold capture_fsync_snapshot, take_fsync_rollback_flag. destruct (fsync_rollback_occurred m); [done|].
  cbn [clear_rollback_flag pending_append_queue]. destruct (pending_append_queue m) eqn:E; [done|]. intros [= <- <-]. by cbn; rewrite ?E.
Qed.

Context (recycled : nat -> bytes) (dma_alignment : Z) (header_buffer : bytes).

(** What the commit of a captured position leaves, when no newer version was
    queued since. *)
Lemma commit_drops_position ns m s s' key q c : restamped s s' -> sps_positions s !! key = Some q -> pending_delete q = false ->
  had_event_batch q = true -> queue_positions m !! key = Some c -> q_aggregate_version c = q_aggregate_version q ->
  let m' := commit_sync_positions_snapshot ns m s' in
  queue_positions m' !! key = None /\
  exists q', indexes_of q' = indexes_of q /\ write_snapshots m' !! key = Some (queue_snapshot (write_snapshots m !! key) q').
Proof.
  intros Hrs Hq Hd Hh Hc Hv. cbv zeta. pose proof (rs_positions s s' Hrs key) as Ho. rewrite Hq in Ho.
  inversion Ho as [? q' (Hd' & Hh' & Hix) E1 E2|]; subst.
  pose proof (f_equal (fun v => (v.1.1, v.1.2)) (commit_sync_view 0 ns m s' key)) as Hview. cbn in Hview. rewrite <- E2 in Hview.
  pose proof (f_equal fst Hview) as W. pose proof (f_equal snd Hview) as P. cbn in W, P.
  unfold committed_snapshot in W. unfold committed_position in P. rewrite Hd', Hd, Hc in P. rewrite Hd', Hd, Hh', Hh in W.
  split; [|by exists q']. rewrite P. pose proof (f_equal fst Hix) as E. cbn in E. by rewrite (proj2 (Z.eqb_eq _ _)) by lia.
Qed.

(** C30: a delete that is accepted while the last batch of its aggregate is
    being written is forgotten when that batch commits.  Until the commit every
    write is refused, since the aggregate may not be created again; after it
    the tombstone is still queued and nothing refuses a write of the aggregate:
    the commit drops the queue position that noted the delete, because a delete
    keeps the version of the aggregate. *)
Theorem delete_in_flight_forgotten m0 m1 captured q rc key d m2 gen seg ct io snapshot md file ns lid m3 fx :
  capture_fsync_snapshot m0 = (m1, Captured captured) ->
  queue_positions m0 !! key = Some q -> pending_delete q = false -> had_event_batch q = true ->
  Forall (fun item => ~ deletes_key key (qi_metablock item)) (pending_append_queue m0) ->
  submit_deletes m1 rc [(key, d)] = Ok (m2, gen) -> del_allow_recreate d = false ->
  sync recycled dma_alignment header_buffer seg (fc_snapshot captured) ct io = Done (snapshot, md, file) ->
  commit_sync ns ct lid m2 snapshot = Some (m3, fx) ->
  (exists t item, pending_append_queue m3 = [item] /\ wal_metablock_type (qi_metablock item) = SoftDelete t /\
     sd_aggregate_key t = key /\ allow_recreate t = false) /\
  forall client_id cursor w,
    check_cached m2 key client_id cursor w = Err AggregateRecreateNotAllowed /\
    check_cached m3 key client_id cursor w <> Err AggregateRecreateNotAllowed.
Proof.
  intros Hcap Hq Hd Hh Hnd Hdel Har Hsync Hcommit. apply sync_restamps in Hsync as Hrs.
  destruct (capture_spec _ _ _ Hcap) as (Hp1 & Hw1 & Hq1 & Hsq & Hsp).
  destruct (submit_delete_spec _ _ _ _ _ _ Hdel) as (t & item & c & Hpq & Ht & Hk & Hta & Hw2 & Hc & Hcd & Hca & _ & Hcv).
  assert (Hver : q_aggregate_version c = q_aggregate_version q) by (rewrite Hcv; unfold get_write_event_seqes; by rewrite Hp1, Hq).
  unfold commit_sync in Hcommit. rewrite <- Hsp in Hq.
  destruct (commit_drops_position ns m2 _ _ key q c Hrs Hq Hd Hh Hc Hver) as (Hnone & q' & _ & Hsn).
  destruct (commit_items_frame _ _ _ _ _ _ _ _ Hcommit) as (Hqp & Hpa & _). rewrite commit_sync_queue in Hpa.
  assert (Hf : write_status m3 key = Some Found).
  { eapply commit_items_status; [|unfold write_status; rewrite Hsn|exact Hcommit].
    - pose proof (rs_queue _ _ Hrs) as Hst. rewrite Hsq in Hst. clear -Hst Hnd. induction Hst as [|i i' l l' Hi _ IH]; [constructor|].
      inversion Hnd; subst. constructor; [by eapply stamped_deletes|by apply IH].
    - cbn. f_equal. unfold queue_snapshot. by repeat case_match. }
  split.
  - exists t, item. rewrite Hpa, Hpq, Hq1. split_and!; try done. congruence.
  - intros client_id cursor w. split.
    + apply check_recreate; unfold get_write_event_seqes; rewrite Hc; cbn; congruence.
    + apply check_recreate. unfold get_write_event_seqes. rewrite Hqp, Hnone. unfold write_status in Hf.
      destruct (write_snapshots m3 !! key) as [sn|]; [|done]. injection Hf as Hf. cbn. by rewrite Hf.
Qed.

(** The version one request of one aggregate gets. *)
Lemma submit_one m rc key w m' gen v : submit_writes m rc [(key, w)] = Done (m', gen, v) ->
  exists p b, m' = append_prepared_write m p /\ v = Some (pw_aggregate_version p) /\ pw_aggregate_key p = key /\
    pw_aggregate_version p = (next_indexes (get_write_event_seqes m key)).1.2 /\
    wal_metablock_type (qi_metablock (pw_item p)) = EventBatchMetadata b /\
    eb_aggregate_key b = key /\ eb_aggregate_version b = pw_aggregate_version p.
Proof.
  unfold submit_writes. cbn [prepare_writes]. unfold validate_and_prepare_write.
  destruct (check_cached _ _ _ _ _); [|done]. cbn [from_result mbind outcome_bind].
  destruct (next_indexes (get_write_event_seqes m key)) as [[seq ver] minv]. destruct (number_events seq (sw_events w)) as [es last].
  destruct (event_types_of es) as [types|]; [|done]. cbn [or_panic mbind outcome_bind].
  destruct (SerialisedDatablock_new _ _) as [sdb|]; [|done]. cbn [from_result mbind outcome_bind]. intros Hd. apply Done_inj in Hd.
  eexists _, _. split; [symmetry; exact (f_equal (fun p => p.1.1) Hd)|].
  split; [symmetry; exact (f_equal (fun p => p.2) Hd)|]. split_and!; try done; cbn; unfold from_batch_item; by destruct (foldl _ _ _) as [[[] []] []].
Qed.

(** The block of an older version leaves the version of the snapshot. *)
Definition found_at m (key : AggregateKey) (n : Z) : Prop :=
  exists sn, write_snapshots m !! key = Some sn /\ ms_status sn = Found /\ ms_aggregate_version sn = n.

Lemma commit_batch_version ct lid del m fx item m' fx' b n : wal_metablock_type (qi_metablock item) = EventBatchMetadata b ->
  eb_aggregate_version b <= n -> found_at m (eb_aggregate_key b) n ->
  commit_item ct lid del (m, fx) item = Some (m', fx') -> found_at m' (eb_aggregate_key b) n.
Proof.
  intros Hb Hle (sn & Hs & Hf & Hn). unfold commit_item, commit_event_batch. rewrite Hb.
  set (m1 := if negb (bool_decide (ct = DeferToReplicationAck)) && _ then merge_aggregate_client_seq_max _ _ _ _ else m).
  assert (Hm1 : write_snapshots m1 = write_snapshots m) by (unfold m1; case_match; [apply merge_client_snapshots|done]).
  clearbody m1. intros Hi. unfold found_at.
  destruct ct; injection Hi as <- _; [|rewrite Hm1; eauto|];
    cbn [commit_position_snapshot set_snapshots write_snapshots snapshots]; rewrite lookup_insert_eq, Hm1, Hs, Hf, bool_decide_false by done;
    (eexists; split; [done|]); cbn [ms_status ms_aggregate_version]; (split; [done|lia]).
Qed.

(** A deleted aggregate without continuation is written from its first version. *)
Lemma recreate_first m key s rc w m' gen v : write_snapshots m !! key = Some s -> ms_status s = Deleted ->
  ms_allow_sequence_continuation s = false -> queue_positions m !! key = None ->
  submit_writes m rc [(key, w)] = Done (m', gen, v) ->
  exists p b q, v = Some FIRST_AGGREGATE_VERSION /\ wal_metablock_type (qi_metablock (pw_item p)) = EventBatchMetadata b /\
    eb_aggregate_key b = key /\ eb_aggregate_version b = FIRST_AGGREGATE_VERSION /\ write_snapshots m' = write_snapshots m /\
    pending_append_queue m' = pending_append_queue m ++ [pw_item p] /\ queue_positions m' !! key = Some q /\
    pending_delete q = false /\ had_event_batch q = true /\ q_aggregate_version q = FIRST_AGGREGATE_VERSION.
Proof.
  intros Hs Hsd Hcont Hnq Hsub. destruct (submit_one _ _ _ _ _ _ _ Hsub) as (p & b & -> & -> & Hk & Hv & Hb & Hbk & Hbv).
  assert (Hfirst : pw_aggregate_version p = FIRST_AGGREGATE_VERSION).
  { rewrite Hv. unfold get_write_event_seqes. rewrite Hnq, Hs. unfold next_indexes. cbn. by rewrite Hsd, Hcont. }
  exists p, b. eexists. split; [by rewrite Hfirst|]. split; [done|]. split; [done|]. split; [congruence|]. split; [done|]. split; [done|].
  cbn [append_prepared_write add_to_pending_append_queue push_item set_positions queue_positions].
  rewrite Hk, lookup_insert_eq. split; [done|]. cbn [pending_delete had_event_batch q_aggregate_version]. split; [done|]. split; [done|].
  unfold queue_entry. rewrite Hnq, Hfirst. done.
Qed.

(** C31: an aggregate that is created again without continuation skips versions.
    When it was deleted at version [n], its first batch has version 1; once that
    is committed, the cache answers with version [n] again, since it merges
    versions by their maximum: a write that expects the version 1 its client
    was told is refused, and the next batch, of whichever client, has the
    version [n + 1]. *)
Theorem recreated_aggregate_skips_versions m0 key s rc w1 m1 gen1 v1 m2 captured seg ct io snapshot md file ns lid m3 fx :
  write_snapshots m0 !! key = Some s -> ms_status s = Deleted -> ms_allow_sequence_continuation s = false ->
  1 < ms_aggregate_version s < U64_MAX -> queue_positions m0 !! key = None -> pending_append_queue m0 = [] ->
  submit_writes m0 rc [(key, w1)] = Done (m1, gen1, v1) ->
  capture_fsync_snapshot m1 = (m2, Captured captured) ->
  sync recycled dma_alignment header_buffer seg (fc_snapshot captured) ct io = Done (snapshot, md, file) ->
  commit_sync ns ct lid m2 snapshot = Some (m3, fx) ->
  v1 = Some FIRST_AGGREGATE_VERSION /\
  (forall client_id cursor w, sw_expected_version w = Some FIRST_AGGREGATE_VERSION ->
     check_cached m3 key client_id cursor w =
       Err (OptimisticConcurrencyViolation FIRST_AGGREGATE_VERSION (ms_aggregate_version s))) /\
  (forall rc w2 m4 gen2 v2, submit_writes m3 rc [(key, w2)] = Done (m4, gen2, v2) -> v2 = Some (ms_aggregate_version s + 1)).
Proof.
  intros Hs Hsd Hcont Hn Hnq Hemp Hsub Hcap Hsync Hcommit. apply sync_restamps in Hsync as Hrs.
  destruct (recreate_first _ _ _ _ _ _ _ _ Hs Hsd Hcont Hnq Hsub) as (p & b & q & -> & Hb & Hbk & Hbv & Hw & Hpq & Hq & Hqd & Hqh & Hqv).
  destruct (capture_spec _ _ _ Hcap) as (Hp1 & Hw1 & Hq1 & Hsq & Hsp). unfold commit_sync in Hcommit.
  destruct (commit_drops_position ns m2 _ _ key q q Hrs) as (Hnone & q' & Hix & Hsn); [by rewrite ?Hsp, ?Hp1..|].
  destruct (commit_items_frame _ _ _ _ _ _ _ _ Hcommit) as (Hqp & _ & _). rewrite Hw1, Hw, Hs in Hsn.
  assert (Hfound : found_at m3 key (ms_aggregate_version s)).
  { pose proof (rs_queue _ _ Hrs) as Hst. rewrite Hsq, Hpq, Hemp in Hst. cbn in Hst. inversion Hst as [|? i ? l Hi Hl E1 E2]; subst.
    inversion Hl; subst. rewrite <- E2 in Hcommit. cbn [commit_items] in Hcommit. apply bind_Some in Hcommit as ([m' fx'] & Hci & [= <- <-]).
    eapply commit_batch_version; [|rewrite Hbv; unfold FIRST_AGGREGATE_VERSION; lia| |exact Hci].
    - destruct Hi as ((? & ? & ? & ? & ->) & _). done.
    - eexists. split; [exact Hsn|]. unfold queue_snapshot. rewrite Hsd, bool_decide_false by done.
      cbn [ms_status ms_aggregate_version]. split; [done|].
      pose proof (f_equal fst Hix) as E. cbn in E. rewrite E, Hqv. unfold FIRST_AGGREGATE_VERSION. lia. }
  destruct Hfound as (sn & Hsn3 & Hf3 & Hv3).
  assert (Hget : pending_delete_or_deleted (get_write_event_seqes m3 key) = false /\
    ix_aggregate_version (get_write_event_seqes m3 key) = ms_aggregate_version s).
  { unfold get_write_event_seqes. rewrite Hqp, Hnone, Hsn3. cbn. by rewrite Hf3. }
  destruct Hget as [Hgd Hgv]. split; [done|]. split.
  - intros client_id cursor w He. unfold check_cached. rewrite Hgd, He, Hgv. cbn [andb mbind result_bind].
    by rewrite (proj2 (Z.eqb_neq _ _)) by (unfold FIRST_AGGREGATE_VERSION; lia).
  - intros rc2 w2 m4 gen2 v2 Hsub2. destruct (submit_one _ _ _ _ _ _ _ Hsub2) as (p2 & _ & _ & -> & _ & -> & _).
    unfold next_indexes. rewrite Hgd, Hgv. rewrite (proj2 (Z.eqb_neq _ _)) by lia. cbn. f_equal. unfold saturating_add, U64_MAX in *. lia.
Qed.
End deletes.

(** ** Runs *)

Module DeleteRun.
#[local] Existing Instance bincode_le.
#[local] Existing Instance crc_sum.
#[local] Existing Instance blake_pad.
#[local] Existing Instance xxh_low.
#[local] Existing Instance codec_id.
#[local] Existing Instance VersionsRun.validate_all.
#[local] Existing Instance VersionsRun.compile_all.

Definition key : AggregateKey := LookupRun.key.
Definition rc : RequestContext := VersionsRun.rc.
Definition delete_it (recreate : bool) : SingleAggregateDelete :=
  {| del_allow_recreate := recreate; del_allow_sequence_continuation := false; del_expected_version := None |}.

(** A batch that is queued, and its commit. *)
Definition capture_of (m : MemCache unit) : FsyncCapturedData :=
  {| fc_required_disk_space := required_disk_space (pending_append_queue m);
     fc_snapshot := (take_sync_positions_snapshot (clear_rollback_flag m)).2 |}.
Definition taken (m : MemCache unit) : MemCache unit := (take_sync_positions_snapshot (clear_rollback_flag m)).1.

Lemma batch_commits (m m2 : MemCache unit) item b : pending_append_queue m = [item] -> batch_ok SyncRun.segment [item] ->
  wal_metablock_type (qi_metablock item) = EventBatchMetadata b ->
  exists io snapshot md file m3 fx,
    sync (fun _ => zeros 1024) 512 (zeros 4096) SyncRun.segment (fc_snapshot (capture_of m)) FullCommit io = Done (snapshot, md, file) /\
    commit_sync Standalone FullCommit 1 m2 snapshot = Some (m3, fx).
Proof.
  intros Hq Hok Hb. rewrite <- Hq in Hok.
  destruct (sync_refines_append (fun _ => zeros 1024) 512 (zeros 4096) SyncRun.segment (fc_snapshot (capture_of m)) FullCommit GENESIS_HASH []
    (fun _ => eq_refl) eq_refl ltac:(done) SyncRun.segment_empty Hok) as (plan & _ & Hio).
  destruct (Hio _ (SyncRun.io_of_complete plan)) as (snapshot & md & file & Hs & _ & Hst & _).
  exists (SyncRun.io_of plan), snapshot, md, file. cbn [capture_of fc_snapshot take_sync_positions_snapshot snd sps_queue] in Hst.
  change (pending_append_queue (clear_rollback_flag m)) with (pending_append_queue m) in Hst. rewrite Hq in Hst.
  inversion Hst as [|? i ? l ((? & ? & ? & ? & Hi) & _) Hl E1 E2]; subst. inversion Hl; subst.
  unfold commit_sync. rewrite <- E2. cbn [commit_items]. unfold commit_item. rewrite Hi. cbn [stamp_metablock wal_metablock_type]. rewrite Hb.
  destruct (commit_event_batch _ _ _ _ _ _) as [m3 fx]. exists m3, fx. by split.
Qed.

Definition queued : MemCache unit :=
  add_to_pending_append_queue MemCache_new key 9 7 1 42 5 (LookupRun.item_for (EventBatchMetadata (LookupRun.batch_for key))).
Definition deleting : MemCache unit := match submit_deletes (taken queued) rc [(key, delete_it false)] with Ok (m, _) => m | Err _ => queued end.

Lemma queued_ok : batch_ok SyncRun.segment (pending_append_queue queued).
Proof.
  split; [done| |by vm_compute|by vm_compute]. constructor; [|constructor]. pose proof LookupRun.lookup_batch_fits as [_ Hf _ _].
  by apply Forall_cons in Hf as [Hf _].
Qed.

(** The aggregate was deleted at version 7. *)
Definition deleted : MemCache unit := set_snapshots MemCache_new CacheWrite {[ key := snapshot_deleted 1 0 9 7 true false ]}.
Definition recreated : MemCache unit := VersionsRun.submit deleted (VersionsRun.request 1 None).

Lemma byte_array_ok n b : (length b =? n)%nat && forallb (fun x => (0 <=? x) && (x <? 256)) b = true -> wf_byte_array n b.
Proof.
  intros [Hn Hb]%andb_true_iff. apply Nat.eqb_eq in Hn. split; [done|]. rewrite forallb_forall in Hb. apply Forall_forall. intros x Hx.
  apply list_elem_of_In in Hx. apply Hb in Hx. unfold fits. lia.
Qed.

Lemma recreated_ok : batch_ok SyncRun.segment (pending_append_queue recreated).
Proof.
  split; [done| |by vm_compute|by vm_compute].
  set (q := pending_append_queue recreated). vm_compute in q. subst q. constructor; [|constructor]. split; [|done].
  unfold wf_metablock. cbn -[Z.pow wf_byte_array]. unfold wf_event_batch, wf_aggregate_key, wf_option_u128, wf_event_types, wf_words. cbn -[Z.pow wf_byte_array].
  split_and!; try (apply byte_array_ok; vm_compute; reflexivity); unfold fits; try lia; try done; repeat constructor; lia.
Qed.
End DeleteRun.

Lemma delete_in_flight_forgotten_witness : exists m3 : MemCache unit,
  (exists item, pending_append_queue m3 = [item]) /\
  forall w, @check_cached unit VersionsRun.validate_all m3 DeleteRun.key 42 0 w <> Err AggregateRecreateNotAllowed.
Proof.
  destruct (DeleteRun.batch_commits DeleteRun.queued DeleteRun.deleting _ _ eq_refl DeleteRun.queued_ok eq_refl)
    as (io & snapshot & md & file & m3 & fx & Hs & Hc).
  destruct (@delete_in_flight_forgotten bincode_le crc_sum blake_pad xxh_low codec_id unit VersionsRun.validate_all VersionsRun.compile_all
    (fun _ => zeros 1024) 512 (zeros 4096) DeleteRun.queued (DeleteRun.taken DeleteRun.queued) (DeleteRun.capture_of DeleteRun.queued)
    (default queue_positions_default (queue_positions DeleteRun.queued !! DeleteRun.key)) DeleteRun.rc DeleteRun.key (DeleteRun.delete_it false) DeleteRun.deleting 0
    SyncRun.segment FullCommit io snapshot md file Standalone 1 m3 fx) as [(t & item & Hq & _) Hw]; try reflexivity; try done.
  - constructor; [|constructor]. by intros (? & ? & _).
  - exists m3. split; [by exists item|]. intros w. apply (Hw 42 0 w).
Defined.

Lemma recreated_aggregate_skips_versions_witness : exists m3 : MemCache unit,
  forall rc w2 m4 gen2 v2, @submit_writes bincode_le crc_sum xxh_low codec_id unit VersionsRun.validate_all m3 rc [(DeleteRun.key, w2)] =
    Done (m4, gen2, v2) -> v2 = Some 8.
Proof.
  destruct (DeleteRun.batch_commits DeleteRun.recreated (DeleteRun.taken DeleteRun.recreated) _ _ eq_refl DeleteRun.recreated_ok eq_refl)
    as (io & snapshot & md & file & m3 & fx & Hs & Hc).
  destruct (@recreated_aggregate_skips_versions bincode_le crc_sum blake_pad xxh_low codec_id unit VersionsRun.validate_all VersionsRun.compile_all
    (fun _ => zeros 1024) 512 (zeros 4096) DeleteRun.deleted DeleteRun.key (snapshot_deleted 1 0 9 7 true false) VersionsRun.rc
    (VersionsRun.write_of 1 None) DeleteRun.recreated 0 (Some 1) (DeleteRun.taken DeleteRun.recreated) (DeleteRun.capture_of DeleteRun.recreated)
    SyncRun.segment FullCommit io snapshot md file Standalone 1 m3 fx) as (_ & _ & Hw); try reflexivity; try done.
  exists m3. intros rc w2 m4 gen2 v2 Hsub. exact (Hw rc w2 m4 gen2 v2 Hsub).
Defined.
