(* ===== verification/Durability.v ===== *)
(** * From an accepted request to the log

    The handlers of [WritePath.v], the fsync of [FsyncCommit.v] and the
    coordinator of [Coordinator.v] put together: what an [Ok] means for the
    blocks a request queued.  The storage is as in [LogSync.v]: a write may
    fail, and then any part of its bytes may have landed. *)

From S2P Require Import Prelude Lease WalConstants Codec WalTypes WalCodec DiskFormat HashChain Sbbf Datablock LogSegment MemCache LogSync ReadFilter ReverseScan WritePath FsyncCommit Coordinator.

(** ** A sync that failed *)

Lemma done_inj {E A B C} (a a' : A) (b b' : B) (c c' : C) :
  Done (E := E) (a, b, c) = Done (a', b', c') -> a = a' /\ b = b' /\ c = c'.
Proof. intros Heq. by simplify_eq. Qed.

Section failed_sync.
Context `{Bincode, Crc32c, Blake3, Xxh3} (recycled : nat -> bytes).

(** [sync] only succeeds when every write was complete. *)
(** The bytes of the log: blocks below the metablock cursor, datablocks above
    the datablock cursor, without the headers. *)
Definition log_byte (seg : LogSegmentFile) (i : nat) : Prop :=
  (HEADER_BLOCK_SIZE_BYTES <= i < Z.to_nat (mp seg))%nat \/
  (Z.to_nat (dp seg) <= i < length (contents seg) - HEADER_BLOCK_SIZE_BYTES)%nat.

Lemma segment_holds_torn seg tip0 log file blooms : segment_holds seg tip0 log -> length file = length (contents seg) ->
  (forall i, log_byte seg i -> file !! i = contents seg !! i) ->
  blooms_ok blooms -> (forall m, LogSync.covered (aggregate_key_bloom seg, client_id_bloom seg) m -> LogSync.covered blooms m) ->
  segment_holds (torn_segment seg (file, blooms)) tip0 log.
Proof.
  intros Hlog Hlen Hext Hbok Hmono. pose proof (sh_ok _ _ _ Hlog) as Hseg. pose proof (dp_bounds seg Hseg).
  pose proof (sh_end _ _ _ Hlog) as Hend. pose proof (so_len _ Hseg).
  assert (Hd : forall off n, (Z.to_nat (dp seg) <= off)%nat -> (off + n <= length (contents seg) - HEADER_BLOCK_SIZE_BYTES)%nat ->
    slice file off n = slice (contents seg) off n)
    by (intros off n Ho Hn; apply slice_ext; intros i Hi; apply Hext; right; lia).
  destruct Hlog as [_ _ Hentry Hdata Hdesc Hchain Htips Hback]. split; try done.
  - pose proof (data_write_end seg Hseg) as Hwe. destruct Hseg as [Hl Ha Hs Hp Hmd Hc Ht Hb]. split; try done.
    + cbn [torn_segment contents metadata fst]. by rewrite Hlen.
    + intros Hlt. cbn [torn_segment contents metadata fst]. rewrite (Hc Hlt). f_equal. symmetry. apply Hd; [done|].
      unfold dp, wcur in *. cbn [torn_segment metadata] in *. lia.
  - intros i e Hi. destruct (Hentry i e Hi) as (Hp & Hw & Hwf & Hde & Hb). split_and!; [done..| |].
    + rewrite <- Hde. cbn [torn_segment contents fst]. apply slice_ext. intros j Hj. apply Hext. left.
      pose proof (lookup_lt_Some _ _ _ Hi). pose proof (Nat.mul_le_mono_r (S i) (length log) FIXED_BLOCK_SIZE_BYTES). lia.
    + apply (Hmono (le_metablock e)). exact Hb.
  - intros i e b Hi Hb. destruct (Hdata i e b Hi Hb) as (H1' & H2' & H3'). split_and!; [done..|].
    rewrite <- H3' at 2. cbn [torn_segment contents fst]. apply Hd; unfold dp, wcur in *; cbn [torn_segment metadata] in *; lia.
Qed.

Context (Hrecycled : forall i, length (recycled i) = FIXED_BLOCK_SIZE_BYTES).
Context (dma_alignment : Z) (Hdma : dma_alignment <= MIN_WRITE_ALIGNMENT).
Context (header_buffer : bytes) (Hheader : length header_buffer = HEADER_BLOCK_SIZE_BYTES).

(** What a failed [sync] may leave: any mixture of the bytes before and those
    a complete one would have left, and the blooms with or without the batch. *)
Definition left_by_sync (seg : LogSegmentFile) (s : SyncPositionsSnapshot) (commit_target : CommitTarget)
    (left : bytes * (AggregateKeyBloom * AggregateKeyBloom)) : Prop :=
  exists io snapshot md file,
    sync recycled dma_alignment header_buffer seg s commit_target io = Done (snapshot, md, file) /\
    torn (contents seg) (contents file) left.1 /\
    (left.2 = (aggregate_key_bloom seg, client_id_bloom seg) \/ left.2 = (aggregate_key_bloom file, client_id_bloom file)).

Lemma lookup_slice_1 {A} (a b : list A) i : slice a i 1 = slice b i 1 -> a !! i = b !! i.
Proof.
  unfold slice. intros Hs. apply (f_equal (fun l => l !! 0%nat)) in Hs.
  by rewrite !lookup_take_lt, !lookup_drop, !Nat.add_0_r in Hs by lia.
Qed.

Lemma left_holds seg s commit_target tip0 log left : segment_holds seg tip0 log -> batch_ok seg (sps_queue s) ->
  left_by_sync seg s commit_target left -> segment_holds (torn_segment seg left) tip0 log.
Proof.
  intros Hlog Hbatch (io & snapshot & md & file & Hs & [Hlen Htorn] & Hbl). destruct left as [now blooms]. cbn [fst snd] in *.
  pose proof (sh_ok _ _ _ Hlog) as Hseg.
  destruct (sync_completed _ _ _ _ _ _ _ _ _ _ Hs) as (plan & Hplan & Hio & _).
  destruct (sync_done recycled Hrecycled seg s dma_alignment header_buffer commit_target Hbatch Hdma Hheader Hseg)
    as (L & plan' & bl & Y & HL & Hplan' & _ & _ & Hbok & _ & Hmono & HY & Hsync).
  rewrite Hplan in Hplan'. injection Hplan' as <-. rewrite (Hsync io Hio) in Hs.
  destruct (appended_sizes seg s header_buffer commit_target Hbatch Hheader L Hseg HL Y HY) as (Hhd & Hm & Hd & Hfit & _).
  clear Hsync. generalize dependent (header_block (to_shard_log_header (new_metadata seg s commit_target L))). intros hdr Hs Hhd.
  apply done_inj in Hs as (_ & _ & <-). cbn [aggregate_key_bloom client_id_bloom] in Hbl.
  assert (Hb : blooms_ok blooms /\ forall m, LogSync.covered (aggregate_key_bloom seg, client_id_bloom seg) m -> LogSync.covered blooms m).
  { destruct Hbl as [-> | ->]; [split; [apply Hseg|done]|split; [done|]]; by destruct bl. }
  apply segment_holds_torn; [done|done| |apply Hb..].
  intros i Hi. destruct (Htorn i) as [->| ->]; [done|]. apply lookup_slice_1. cbn [contents]. cbv zeta.
  destruct Hi as [Hi|Hi]; [apply (shape_metablocks HEADER_BLOCK_SIZE_BYTES)|apply (shape_old_datablocks HEADER_BLOCK_SIZE_BYTES)];
    try done; lia.
Qed.

(** What a complete [sync] with its commit leaves. *)
Lemma sync_done_holds seg s commit_target tip0 log io snapshot md file : segment_holds seg tip0 log -> batch_ok seg (sps_queue s) ->
  sync recycled dma_alignment header_buffer seg s commit_target io = Done (snapshot, md, file) ->
  segment_holds (install_batch file md (sps_queue snapshot)) tip0 (log ++ (entry_of <$> sps_queue snapshot)) /\
  Forall2 stamped_from (sps_queue s) (sps_queue snapshot) /\
  (if bool_decide (commit_target = FullCommit) then advance_visible_position md else md) = md.
Proof.
  intros Hlog Hbatch Hs. destruct (sync_completed _ _ _ _ _ _ _ _ _ _ Hs) as (plan & Hplan & Hio & _).
  destruct (sync_refines_append recycled dma_alignment header_buffer seg s commit_target tip0 log)
    as (plan' & Hplan' & Happ); [done..|].
  rewrite Hplan in Hplan'. injection Hplan' as <-. destruct (Happ io Hio) as (sn & md' & f & E & Hh & Hst & _).
  rewrite Hs in E. injection E as <- <- <-. split_and!; [done..|]. case_bool_decide as Hfull; [|done]. subst.
  destruct (sync_done recycled Hrecycled seg s dma_alignment header_buffer FullCommit Hbatch Hdma Hheader (sh_ok _ _ _ Hlog))
    as (L & plan' & bl & Y & _ & Hplan' & _ & Hmd & _ & _ & _ & _ & Hsync).
  rewrite Hplan in Hplan'. injection Hplan' as <-. rewrite (Hsync io Hio), Hmd in Hs. by apply done_inj in Hs as (_ & <- & _).
Qed.
End failed_sync.

(** ** The queue under the operations of the cache *)

Section queue_frame.
Context {V : Type}.
Implicit Types m : MemCache V.

(** The queue, the generation and the flag of the fsync are left alone. *)
Definition same_queue m m' : Prop :=
  pending_append_queue m' = pending_append_queue m /\ rollback_generation m' = rollback_generation m.

Lemma same_queue_trans m1 m2 m3 : same_queue m1 m2 -> same_queue m2 m3 -> same_queue m1 m3.
Proof. unfold same_queue. intuition congruence. Qed.

Lemma merge_client_same m ck cs w : same_queue m (merge_aggregate_client_seq_max m ck cs w).
Proof. unfold merge_aggregate_client_seq_max. by repeat case_match. Qed.

Lemma merge_clients_same key w l m :
  same_queue m (foldl (fun m '(client_id, client_seq) =>
    merge_aggregate_client_seq_max m {| ack_aggregate_key := key; ack_client_id := client_id |} client_seq w) m l).
Proof.
  revert m. induction l as [|[c cs] l IH]; intros m; [done|]. cbn [foldl].
  eapply same_queue_trans; [apply merge_client_same|apply IH].
Qed.

Lemma commit_queue_entry_same ns m p : same_queue m (commit_queue_entry ns m p).
Proof.
  destruct p as [key q]. unfold commit_queue_entry. destruct (pending_delete q); [done|].
  set (m1 := if had_event_batch q then _ else m). set (m2 := foldl _ m1 _).
  apply (same_queue_trans m m1); [unfold m1; by repeat case_match|].
  apply (same_queue_trans m1 m2); [apply merge_clients_same|]. by repeat case_match.
Qed.

Lemma commit_positions_same ns m s : same_queue m (commit_sync_positions_snapshot ns m s).
Proof.
  unfold commit_sync_positions_snapshot. generalize (map_to_list (sps_positions s)). intros l. revert m.
  induction l as [|p l IH]; intros m; [done|]. cbn [foldl].
  eapply same_queue_trans; [apply commit_queue_entry_same|apply IH].
Qed.
End queue_frame.

Section commit_frame.
Context `{Bincode, Crc32c, DictCodec} {V : Type} `{SchemaCompiler V}.
Implicit Types m : MemCache V.

Lemma commit_sync_same ns ct lid m s m' fx : commit_sync ns ct lid m s = Some (m', fx) -> same_queue m m'.
Proof.
  unfold commit_sync. intros Hc. eapply same_queue_trans; [apply commit_positions_same|].
  by destruct (commit_items_frame _ _ _ _ _ _ _ _ Hc) as (_ & ? & ?).
Qed.
End commit_frame.

(** What the handlers add to the queue. *)
Section submit_queue.
Context `{Bincode, Crc32c, Xxh3, DictCodec} {V : Type} `{Validate V}.
Implicit Types m : MemCache V.

Definition queues m m' (items : list ShardLogQueueItem) : Prop :=
  pending_append_queue m' = pending_append_queue m ++ items /\ rollback_generation m' = rollback_generation m.

Lemma queues_trans m1 m2 m3 a b : queues m1 m2 a -> queues m2 m3 b -> queues m1 m3 (a ++ b).
Proof. intros [E1 E2] [E3 E4]. split; [|congruence]. by rewrite E3, E1, app_assoc. Qed.

Lemma append_writes_queues ps m : queues m (append_prepared_writes_to_queue m ps) (pw_item <$> ps).
Proof.
  revert m. induction ps as [|p ps IH]; intros m; [split; [by rewrite app_nil_r|done]|].
  change (pw_item <$> p :: ps) with ([pw_item p] ++ (pw_item <$> ps)).
  eapply queues_trans; [|apply IH]. done.
Qed.

Lemma append_deletes_queues ps m : queues m (foldl append_prepared_delete m ps) ((fun p => p.2) <$> ps).
Proof.
  revert m. induction ps as [|[[key d] item] ps IH]; intros m; [split; [by rewrite app_nil_r|done]|].
  change ((fun p => p.2) <$> (key, d, item) :: ps) with ([item] ++ ((fun p => p.2) <$> ps)).
  eapply queues_trans; [|apply IH]. done.
Qed.

(** A handler that queued its entries: the state after it, and the generation
    it compares with after its waits. *)
Inductive submits m : MemCache V -> Z -> Prop :=
  | submits_writes rc writes m' gen v : submit_writes m rc writes = Done (m', gen, v) -> submits m m' gen
  | submits_trim rc key keep_from m' gen : submit_trim m rc key keep_from = Ok (Some (m', gen)) -> submits m m' gen
  | submits_deletes rc deletes m' gen : submit_deletes m rc deletes = Ok (m', gen) -> submits m m' gen.

Lemma submits_queues m m' gen : submits m m' gen -> rollback_generation m = gen /\ exists items, queues m m' items.
Proof.
  destruct 1 as [rc writes m' gen v Hs|rc key k m' gen Hs|rc deletes m' gen Hs].
  - unfold submit_writes in Hs. destruct (prepare_writes m rc writes) as [ps| |]; [|done..].
    injection Hs as <- <- _. split; [done|]. eexists. apply append_writes_queues.
  - unfold submit_trim in Hs. repeat (case_match; [done|]). injection Hs as <- <-. split; [done|]. by eexists.
  - unfold submit_deletes in Hs. apply bind_Ok in Hs as (ps & _ & [= <- <-]). split; [done|].
    eexists. apply append_deletes_queues.
Qed.
End submit_queue.

(** ** The shard *)

(** The caches, the active segment with the log it holds, the sealed segments
    with theirs, how often the queue was rolled back, and for each request the
    number of rollbacks and the generation when it queued its entries. *)
Record ShardWorld (V : Type) := {
  sw_mem : MemCache V;
  sw_active : LogSegmentFile;
  sw_log : list LogEntry;
  sw_sealed : list (LogSegmentFile * list LogEntry);
  sw_rollbacks : nat;
  sw_submitted : gmap nat (nat * Z);
}.
Arguments sw_mem {V} _.
Arguments sw_active {V} _.
Arguments sw_log {V} _.
Arguments sw_sealed {V} _.
Arguments sw_rollbacks {V} _.
Arguments sw_submitted {V} _.

Section shard.
Context `{Bincode, Crc32c, Blake3, Xxh3, DictCodec} {V : Type} `{Validate V, SchemaCompiler V}.
Context (recycled : nat -> bytes) (Hrecycled : forall i, length (recycled i) = FIXED_BLOCK_SIZE_BYTES).
Context (dma_alignment : Z) (Hdma : dma_alignment <= MIN_WRITE_ALIGNMENT).
Context (header_buffer : bytes) (Hheader : length header_buffer = HEADER_BLOCK_SIZE_BYTES).
Context (preallocate_bytes : Z).

(** The entries each request queues. *)
Context (work : nat -> list ShardLogQueueItem).
Implicit Types (w : ShardWorld V) (m : MemCache V).

Definition entries w : list LogEntry := concat ((fun p => p.2) <$> sw_sealed w) ++ sw_log w.

Definition logged w (item : ShardLogQueueItem) : Prop :=
  exists item', stamped_from item item' /\ entry_of item' ∈ entries w.

Definition with_mem w m : ShardWorld V :=
  {| sw_mem := m; sw_active := sw_active w; sw_log := sw_log w; sw_sealed := sw_sealed w;
     sw_rollbacks := sw_rollbacks w; sw_submitted := sw_submitted w |}.

Definition world_capture w : ShardWorld V * CaptureResult FsyncCapturedData ShardFsyncError :=
  let '(m, captured) := capture_fsync_snapshot (sw_mem w) in (with_mem w m, captured).

(** A new segment as rotation makes it: empty, with the space of the file but
    for its two headers. *)
Definition fresh_segment (seg : LogSegmentFile) : Prop :=
  (exists tip0, segment_holds seg tip0 []) /\
  md_available_space (metadata seg) = preallocate_bytes - 2 * Z.of_nat HEADER_BLOCK_SIZE_BYTES.

Definition rotates w (captured : FsyncCapturedData) : bool :=
  md_available_space (metadata (sw_active w)) <? total_required (sps_queue (fc_snapshot captured)).

(** The log of the segment a batch goes to, and what is sealed then. *)
Definition target_log w captured : list LogEntry := if rotates w captured then [] else sw_log w.
Definition target_sealed w captured : list (LogSegmentFile * list LogEntry) :=
  if rotates w captured then sw_sealed w ++ [(sw_active w, sw_log w)] else sw_sealed w.

(** A rotation that succeeds and leaves room for the sequence numbers. *)
Definition rotated w (captured : FsyncCapturedData) (commit_target : CommitTarget) (rio : RotationIo) (seg : LogSegmentFile) : Prop :=
  rotate_if_needed commit_target preallocate_bytes (sw_active w) captured rio = Ok seg /\
  (rotates w captured = true -> fresh_segment seg) /\
  hc_wal_seq (wcur seg) + Z.of_nat (length (sps_queue (fc_snapshot captured))) < 2 ^ 64.

(** The end of the second phase, when the rotation it may need succeeds; a
    failed [sync] leaves what [left_by_sync] allows. *)
Inductive world_commit w (captured : FsyncCapturedData) : result ShardFsyncError unit -> ShardWorld V -> Prop :=
  | commit_synced node_status commit_target rio io torn seg m seg' fx snapshot md file :
      rotated w captured commit_target rio seg ->
      sync recycled dma_alignment header_buffer seg (fc_snapshot captured) commit_target io = Done (snapshot, md, file) ->
      commit_fsync_with_rollback recycled node_status commit_target preallocate_bytes dma_alignment header_buffer
        (sw_mem w) (sw_active w) captured rio io torn = Some (m, seg', fx, Ok tt) ->
      world_commit w captured (Ok tt)
        {| sw_mem := m; sw_active := seg'; sw_log := target_log w captured ++ (entry_of <$> sps_queue snapshot);
           sw_sealed := target_sealed w captured; sw_rollbacks := sw_rollbacks w; sw_submitted := sw_submitted w |}
  | commit_failed node_status commit_target rio io torn seg m seg' fx e :
      rotated w captured commit_target rio seg ->
      left_by_sync recycled dma_alignment header_buffer seg (fc_snapshot captured) commit_target torn ->
      commit_fsync_with_rollback recycled node_status commit_target preallocate_bytes dma_alignment header_buffer
        (sw_mem w) (sw_active w) captured rio io torn = Some (m, seg', fx, Err e) ->
      world_commit w captured (Err e)
        {| sw_mem := m; sw_active := seg'; sw_log := target_log w captured; sw_sealed := target_sealed w captured;
           sw_rollbacks := S (sw_rollbacks w); sw_submitted := sw_submitted w |}.

(** A header-only sync changes no byte of the log. *)
Definition world_header w (r : result ShardFsyncError unit) w' : Prop :=
  exists file, length file = length (contents (sw_active w)) /\
    (forall i, log_byte (sw_active w) i -> file !! i = contents (sw_active w) !! i) /\
    w' = {| sw_mem := sw_mem w;
            sw_active := torn_segment (sw_active w) (file, (aggregate_key_bloom (sw_active w), client_id_bloom (sw_active w)));
            sw_log := sw_log w; sw_sealed := sw_sealed w; sw_rollbacks := sw_rollbacks w; sw_submitted := sw_submitted w |}.

(** A request queues its entries and remembers the generation. *)
Definition world_submit (t : nat) w w' : Prop :=
  exists m gen, sw_submitted w !! t = None /\ submits (sw_mem w) m gen /\ queues (sw_mem w) m (work t) /\ Forall item_ok (work t) /\
    w' = {| sw_mem := m; sw_active := sw_active w; sw_log := sw_log w; sw_sealed := sw_sealed w;
            sw_rollbacks := sw_rollbacks w; sw_submitted := <[t := (sw_rollbacks w, gen)]> (sw_submitted w) |}.

(** Everything else: the caches change and entries are queued for others, or
    the queue is rolled back, with the log cut back to what segments hold. *)
Inductive world_other w : ShardWorld V -> Prop :=
  | other_memory m items : queues (sw_mem w) m items -> Forall item_ok items -> world_other w (with_mem w m)
  | other_rollback m active log sealed :
      rollback_generation m = wrapping_add 64 (rollback_generation (sw_mem w)) 1 ->
      Forall item_ok (pending_append_queue m) -> (exists tip0, segment_holds active tip0 log) ->
      Forall (fun p => exists tip0, segment_holds p.1 tip0 p.2) sealed ->
      world_other w {| sw_mem := m; sw_active := active; sw_log := log; sw_sealed := sealed;
                       sw_rollbacks := S (sw_rollbacks w); sw_submitted := sw_submitted w |}.

Record world_ok w : Prop := {
  wo_active : exists tip0, segment_holds (sw_active w) tip0 (sw_log w);
  wo_sealed : Forall (fun p => exists tip0, segment_holds p.1 tip0 p.2) (sw_sealed w);
  wo_queue : Forall item_ok (pending_append_queue (sw_mem w));
  wo_generation : rollback_generation (sw_mem w) = wrap 64 (Z.of_nat (sw_rollbacks w));
  wo_submitted t n gen : sw_submitted w !! t = Some (n, gen) -> (n <= sw_rollbacks w)%nat /\ gen = wrap 64 (Z.of_nat n);
}.

Definition captured_ok (captured : FsyncCapturedData) : Prop :=
  sps_queue (fc_snapshot captured) <> [] /\ Forall item_ok (sps_queue (fc_snapshot captured)) /\
  fc_required_disk_space captured = required_disk_space (sps_queue (fc_snapshot captured)).

Definition queued t w : Prop :=
  exists gen, sw_submitted w !! t = Some (sw_rollbacks w, gen) /\ work t ⊆ pending_append_queue (sw_mem w).

Definition carried t (captured : FsyncCapturedData) : Prop := work t ⊆ sps_queue (fc_snapshot captured).

(** Rolled back since, or in the log. *)
Definition resolved t w : Prop :=
  forall n gen, sw_submitted w !! t = Some (n, gen) -> (n < sw_rollbacks w)%nat \/ Forall (logged w) (work t).

(** *** Rotation *)

Lemma rotated_target w captured ct rio seg : world_ok w -> captured_ok captured -> rotated w captured ct rio seg ->
  (exists tip0, segment_holds seg tip0 (target_log w captured)) /\ batch_ok seg (sps_queue (fc_snapshot captured)) /\
  Forall (fun p => exists tip0, segment_holds p.1 tip0 p.2) (target_sealed w captured).
Proof.
  intros Hw (Hne & Hitems & Hreq) (Hrot & Hfresh & Hseq). unfold rotate_if_needed in Hrot. rewrite Hreq in Hrot.
  fold (total_required (sps_queue (fc_snapshot captured))) in Hrot. unfold target_log, target_sealed.
  fold (rotates w captured) in Hrot. destruct (rotates w captured) eqn:Er.
  - destruct (Hfresh eq_refl) as [Hholds Hspace]. destruct (Z.eqb_spec (saturating_sub (saturating_sub preallocate_bytes
      (total_required (sps_queue (fc_snapshot captured)))) (Z.of_nat HEADER_BLOCK_SIZE_BYTES * 2)) 0) as [|Hbig]; [done|].
    split_and!; [done|split; [done..| |done]|].
    + rewrite Hspace. unfold saturating_sub in Hbig. lia.
    + apply Forall_app. split; [apply Hw|]. constructor; [apply Hw|done].
  - injection Hrot as <-. split_and!; [apply Hw|split; [done..| |done]|apply Hw].
    unfold rotates in Er. apply Z.ltb_ge in Er. lia.
Qed.

Lemma target_entries w captured : concat ((fun p => p.2) <$> target_sealed w captured) ++ target_log w captured = entries w.
Proof.
  unfold target_sealed, target_log, entries. destruct (rotates w captured); [|done].
  by rewrite fmap_app, concat_app, app_nil_r; cbn; rewrite app_nil_r.
Qed.

Lemma commit_unfold w captured ct rio seg ns io torn :
  rotated w captured ct rio seg ->
  commit_fsync_with_rollback recycled ns ct preallocate_bytes dma_alignment header_buffer
    (sw_mem w) (sw_active w) captured rio io torn =
  match sync recycled dma_alignment header_buffer seg (fc_snapshot captured) ct io with
  | Done (snapshot, md, file) =>
      let md := if bool_decide (ct = FullCommit) then advance_visible_position md else md in
      '(m, fx) ← commit_sync ns ct (md_log_id md) (sw_mem w) snapshot;
      Some (m, install_batch file md (sps_queue snapshot), fx, Ok tt)
  | Failed e => Some (execute_fsync_rollback (sw_mem w), torn_segment seg torn, no_effects, Err e)
  | Panicked => None
  end.
Proof. intros (Hrot & _). unfold commit_fsync_with_rollback. by rewrite Hrot. Qed.

(** *** The laws of the coordinator *)

Lemma logged_mono w w' item : entries w ⊆ entries w' -> logged w item -> logged w' item.
Proof. intros Hsub (item' & Hs & He). exists item'. auto. Qed.

Lemma resolved_mono t w w' : sw_submitted w' !! t = sw_submitted w !! t -> (sw_rollbacks w <= sw_rollbacks w')%nat ->
  entries w ⊆ entries w' -> resolved t w -> resolved t w'.
Proof.
  intros Hs Hr He Hres n gen Ht. rewrite Hs in Ht. destruct (Hres n gen Ht) as [?|Hl]; [left; lia|right].
  eapply Forall_impl; [exact Hl|]. intros item. by apply logged_mono.
Qed.

Lemma queued_mono t w w' : sw_submitted w' !! t = sw_submitted w !! t -> sw_rollbacks w' = sw_rollbacks w ->
  pending_append_queue (sw_mem w) ⊆ pending_append_queue (sw_mem w') -> queued t w -> queued t w'.
Proof. intros Hs Hr Hq (gen & Ht & Hsub). exists gen. rewrite Hs, Hr. split; [done|]. by etrans. Qed.

(** Everything queued before a rollback is resolved by it. *)
Lemma rolled_back t w w' : world_ok w -> sw_submitted w' = sw_submitted w -> (sw_rollbacks w < sw_rollbacks w')%nat ->
  resolved t w'.
Proof. intros Hw Hs Hr n gen Ht. rewrite Hs in Ht. destruct (wo_submitted w Hw t n gen Ht). left. lia. Qed.

Lemma submit_law t w w' : world_ok w -> world_submit t w w' ->
  world_ok w' /\ (forall t', t' <> t -> (resolved t' w -> resolved t' w') /\ (queued t' w -> queued t' w')) /\ queued t w'.
Proof.
  intros Hw (m & gen & Hfresh & Hsub & (Hq & Hg) & Hok & ->). destruct (submits_queues _ _ _ Hsub) as [Hgen _].
  split_and!.
  - destruct Hw as [Ha Hs Hqueue Hgeneration Hsubmitted]. split; cbn; try done.
    + rewrite Hq. by apply Forall_app.
    + by rewrite Hg.
    + intros t' n g. destruct (decide (t' = t)) as [->|Hne].
      * rewrite lookup_insert_eq. intros [= <- <-]. split; [lia|]. by rewrite <- Hgen.
      * rewrite lookup_insert_ne by done. apply Hsubmitted.
  - intros t' Hne. split; [apply resolved_mono; cbn; [by rewrite lookup_insert_ne|done|done]|].
    apply queued_mono; cbn; [by rewrite lookup_insert_ne|done|]. rewrite Hq. set_solver.
  - exists gen. cbn. rewrite lookup_insert_eq. split; [done|]. rewrite Hq. set_solver.
Qed.

Lemma other_law w w' : world_ok w -> world_other w w' ->
  world_ok w' /\ forall t, (resolved t w -> resolved t w') /\ (queued t w -> queued t w' \/ resolved t w').
Proof.
  intros Hw. destruct 1 as [m items (Hq & Hg) Hok|m active log sealed Hg Hok Ha Hs].
  - split.
    + destruct Hw as [Ha Hs Hqueue Hgeneration Hsubmitted]. split; cbn; try done; [|by rewrite Hg].
      rewrite Hq. by apply Forall_app.
    + intros t. split; [by apply resolved_mono|]. intros Hqd. left. revert Hqd. apply queued_mono; cbn; [done|done|].
      rewrite Hq. set_solver.
  - split.
    + split; cbn; try done.
      * rewrite Hg, (wo_generation w Hw). unfold wrapping_add, wrap. rewrite Zplus_mod_idemp_l. f_equal. lia.
      * intros t n gen Ht. destruct (wo_submitted w Hw t n gen Ht). split; [lia|done].
    + intros t. assert (resolved t {| sw_mem := m; sw_active := active; sw_log := log; sw_sealed := sealed;
        sw_rollbacks := S (sw_rollbacks w); sw_submitted := sw_submitted w |}) by (apply (rolled_back t w); cbn; [done|done|lia]).
      auto.
Qed.

Lemma header_law w r w' : world_ok w -> world_header w r w' ->
  world_ok w' /\ forall t, (resolved t w -> resolved t w') /\ (queued t w -> queued t w').
Proof.
  intros Hw (file & Hlen & Hext & ->). split.
  - destruct Hw as [[tip0 Ha] Hs Hqueue Hgeneration Hsubmitted]. split; cbn; try done. exists tip0.
    apply segment_holds_torn; [done..| |done]. apply (so_blooms _ (sh_ok _ _ _ Ha)).
  - intros t. split; [by apply resolved_mono|by apply queued_mono].
Qed.

Lemma capture_law w w' x : world_ok w -> world_capture w = (w', x) ->
  world_ok w' /\ match x with Captured data => captured_ok data | _ => True end /\
  forall t, (resolved t w -> resolved t w') /\
    (queued t w ->
     match x with
     | Captured data => carried t data
     | CaptureFailed _ => queued t w' \/ resolved t w'
     | NoCaptureRaceButOk => resolved t w'
     end).
Proof.
  intros Hw. unfold world_capture, capture_fsync_snapshot, take_fsync_rollback_flag.
  destruct Hw as [Ha Hs Hqueue Hgeneration Hsubmitted].
  destruct (fsync_rollback_occurred (sw_mem w)) eqn:Ef; [intros [= <- <-]|].
  - split_and!; [by split|done|]. intros t. split; [by apply resolved_mono|]. intros Hqd. left. revert Hqd. by apply queued_mono.
  - cbn [clear_rollback_flag pending_append_queue]. destruct (pending_append_queue (sw_mem w)) as [|item queue] eqn:Eq.
    + intros [= <- <-]. split_and!; [split; try done; cbn; by rewrite Eq|done|]. intros t. split; [by apply resolved_mono|].
      intros (gen & Ht & Hsub). rewrite Eq in Hsub. intros n g _. right. rewrite (list_nil_subseteq _ Hsub). constructor.
    + intros [= <- <-]. split_and!.
      * by split.
      * by split_and!; cbn; rewrite Eq.
      * intros t. split; [by apply resolved_mono|]. intros (gen & Ht & Hsub). unfold carried. cbn. by rewrite Eq in *.
Qed.

Lemma commit_law w captured r w' : world_ok w -> captured_ok captured -> world_commit w captured r w' ->
  world_ok w' /\ (forall t, (resolved t w -> resolved t w') /\ (queued t w -> queued t w' \/ resolved t w')) /\
  forall t, carried t captured -> resolved t w'.
Proof.
  intros Hw Hcap. destruct 1 as [ns ct rio io torn seg m seg' fx snapshot md file Hrot Hsync Hcommit
    |ns ct rio io torn seg m seg' fx e Hrot Hleft Hcommit];
    destruct (rotated_target w captured ct rio seg Hw Hcap Hrot) as ([tip0 Hholds] & Hbatch & Hsealed);
    rewrite (commit_unfold w captured ct rio seg ns io torn Hrot) in Hcommit.
  - rewrite Hsync in Hcommit.
    destruct (sync_done_holds recycled Hrecycled dma_alignment Hdma header_buffer Hheader _ _ _ _ _ _ _ _ _ Hholds Hbatch Hsync)
      as (Hholds' & Hstamped & Hmd).
    rewrite Hmd in Hcommit. apply bind_Some in Hcommit as ([m1 fx1] & Hcs & [= <- <- <-]).
    apply commit_sync_same in Hcs as [Hq Hg].
    set (w' := {| sw_mem := m1 |}). assert (Hsub : entries w ⊆ entries w').
    { rewrite <- (target_entries w captured). unfold entries, w'. cbn [sw_sealed sw_log]. set_solver. }
    split_and!.
    + destruct Hw as [_ _ Hqueue Hgeneration Hsubmitted]. split; cbn; try done; [by exists tip0|by rewrite Hq|by rewrite Hg].
    + intros t. split; [by apply resolved_mono|]. intros Hqd. left. revert Hqd. apply queued_mono; [done..|].
      cbn. by rewrite Hq.
    + intros t Hcar n gen Ht. right. apply Forall_forall. intros item Hitem. apply Hcar in Hitem.
      apply list_elem_of_lookup in Hitem as [i Hi]. destruct (Forall2_lookup_l _ _ _ _ _ Hstamped Hi) as (item' & Hi' & Hst).
      exists item'. split; [done|]. unfold entries. cbn. rewrite !elem_of_app, list_elem_of_fmap. right. right.
      exists item'. split; [done|]. by eapply list_elem_of_lookup_2.
  - destruct (sync _ _ _ _ _ _ _) as [[[sn md] file]|e0|]; [| |done].
    { exfalso. revert Hcommit. cbv zeta. destruct (commit_sync _ _ _ _ _) as [[]|]; cbn; congruence. }
    injection Hcommit as <- <- <- <-.
    set (w' := {| sw_mem := execute_fsync_rollback (sw_mem w) |}).
    assert (Hres : forall t, resolved t w') by (intros t; apply (rolled_back t w); [done|done|cbn; lia]).
    split_and!; [|auto|auto].
    destruct Hw as [_ _ Hqueue Hgeneration Hsubmitted]. split; cbn; try done.
    + exists tip0. by apply (left_holds recycled Hrecycled dma_alignment Hdma header_buffer Hheader seg (fc_snapshot captured) ct).
    + rewrite Hgeneration. unfold wrapping_add, wrap. rewrite Zplus_mod_idemp_l. f_equal. lia.
    + intros t n gen Ht. destruct (Hsubmitted t n gen Ht). split; [lia|done].
Qed.

#[export] Instance shard_tickets : Tickets (ShardWorld V) FsyncCapturedData ShardFsyncError
  world_capture world_commit world_header world_submit world_other.
Proof.
  refine {| valid := world_ok; sound := captured_ok; pending := queued; carries := carried; settled := resolved |}.
  - intros t w w' Hw Hs. destruct (submit_law t w w' Hw Hs) as (Hw' & Hk & Hq). split; [split; [done|]|done].
    intros t' Hne. destruct (Hk t') as [H1' H2']; [congruence|]. auto.
  - intros w w' Hw Ho. destruct (other_law w w' Hw Ho) as [Hw' Hk]. split; [done|]. auto.
  - intros w r w' Hw Hh. destruct (header_law w r w' Hw Hh) as [Hw' Hk]. split; [done|]. intros t _.
    destruct (Hk t). auto.
  - exact capture_law.
  - intros w d r w' Hw Hd Hc. destruct (commit_law w d r w' Hw Hd Hc) as (Hw' & Hk & Hcar). split; [split; [done|auto]|done].
Defined.
(** The generation tells whether the queue was rolled back, as long as it did
    not wrap around. *)
Lemma same_generation w t n gen : world_ok w -> sw_submitted w !! t = Some (n, gen) ->
  Z.of_nat (sw_rollbacks w - n) < 2 ^ 64 -> rollback_generation (sw_mem w) = gen -> n = sw_rollbacks w.
Proof.
  intros Hw Ht Hwrap Hgen. destruct (wo_submitted w Hw t n gen Ht) as [Hle ->].
  rewrite (wo_generation w Hw) in Hgen. unfold wrap in Hgen.
  assert (Hz : (Z.of_nat (sw_rollbacks w) - Z.of_nat n) mod 2 ^ 64 = 0)
    by (rewrite Zminus_mod, Hgen, Z.sub_diag; reflexivity).
  rewrite Z.mod_small in Hz by lia. lia.
Qed.

Lemma await_durable_ok {E} (of_fsync : ShardFsyncError -> E) (of_replication : ReplicationError -> E) gen fsync g1 repl g2 :
  await_durable of_fsync of_replication gen fsync g1 repl g2 = Ok tt -> fsync = Ok tt /\ repl = Ok tt /\ g2 = gen.
Proof.
  unfold await_durable. destruct fsync as [[]|]; [|done]. cbn. destruct (Z.eqb_spec g1 gen); [|done]. cbn.
  destruct repl as [[]|]; [|done]. cbn. by destruct (Z.eqb_spec g2 gen).
Qed.

End shard.

(** ** One trim, from the handler to the log *)

Module ShardRun.
#[local] Existing Instance bincode_le.
#[local] Existing Instance crc_sum.
#[local] Existing Instance blake_pad.
#[local] Existing Instance xxh_low.
#[local] Existing Instance codec_id.
#[local] Instance validate_all : Validate unit := fun _ _ => Ok tt.
#[local] Instance compile_all : SchemaCompiler unit := fun _ _ => Ok tt.

Definition key : AggregateKey := eb_aggregate_key sample_event_batch.

(** The aggregate is at version 3, nothing is trimmed. *)
Definition mem0 : MemCache unit := set_snapshots MemCache_new CacheWrite {[ key := snapshot_found 1 0 5 3 1 ]}.

Definition rc : RequestContext :=
  {| rc_lease_epoch := 1; rc_node_id := 9; rc_now _ := 100; rc_read_cursor_wal_seq := 0; rc_client_id := 42; rc_user_id := None |}.

Definition mem1 : MemCache unit := match submit_trim mem0 rc key 2 with Ok (Some (m, _)) => m | _ => mem0 end.
Definition work (t : nat) : list ShardLogQueueItem := pending_append_queue mem1.

Definition world0 : ShardWorld unit :=
  {| sw_mem := mem0; sw_active := SyncRun.segment; sw_log := []; sw_sealed := []; sw_rollbacks := 0; sw_submitted := ∅ |}.
Definition world1 : ShardWorld unit :=
  {| sw_mem := mem1; sw_active := SyncRun.segment; sw_log := []; sw_sealed := []; sw_rollbacks := 0;
     sw_submitted := {[ 1%nat := (0%nat, 0) ]} |}.

Lemma world0_ok : world_ok world0.
Proof. split; [exists GENESIS_HASH; apply SyncRun.segment_empty|constructor..|reflexivity|done]. Qed.

Lemma work_ok : Forall item_ok (work 1).
Proof.
  constructor; [|constructor]. split; [|done]. unfold wf_metablock, wf_byte_array. cbn -[Z.pow].
  unfold wf_soft_trim, wf_aggregate_key, wf_option_u128. cbn -[Z.pow]. unfold fits.
  split_and!; try done; try lia; repeat constructor; lia.
Qed.

Lemma submitted1 : world_submit work 1 world0 world1.
Proof.
  exists mem1, 0. split_and!; [done| |by split|apply work_ok|reflexivity].
  by apply (submits_trim _ rc key 2).
Qed.

Definition captured : FsyncCapturedData :=
  {| fc_required_disk_space := required_disk_space (work 1);
     fc_snapshot := {| sps_queue := work 1; sps_positions := queue_positions mem1; sps_schemas := ∅ |} |}.
Definition world2 : ShardWorld unit := (world_capture world1).1.

Lemma captured1 : world_capture world1 = (world2, Captured captured).
Proof. reflexivity. Qed.

Definition recycled (i : nat) : bytes := zeros 1024.
Definition no_rotation : RotationIo := {| rio_sidecar := false; rio_rotate := None |}.

Lemma fits1 : rotated (5 * 4096) world2 captured FullCommit no_rotation SyncRun.segment.
Proof.
  assert (E : rotates world2 captured = false) by (vm_compute; reflexivity).
  split; [|split; [by rewrite E|by vm_compute]]. unfold rotate_if_needed.
  change (_ <? _) with (rotates world2 captured). by rewrite E.
Qed.

Lemma batch1_ok : batch_ok SyncRun.segment (work 1).
Proof. split; [done|apply work_ok|by vm_compute|by vm_compute]. Qed.

Lemma committed : exists w', world_commit recycled 512 (zeros 4096) (5 * 4096) world2 captured (Ok tt) w' /\
  sw_submitted w' = sw_submitted world1 /\ sw_rollbacks w' = 0%nat /\ rollback_generation (sw_mem w') = 0.
Proof.
  destruct (sync_refines_append recycled 512 (zeros 4096) SyncRun.segment (fc_snapshot captured) FullCommit GENESIS_HASH []
    (fun _ => eq_refl) eq_refl ltac:(done) SyncRun.segment_empty batch1_ok) as (plan & _ & Hio).
  destruct (Hio _ (SyncRun.io_of_complete plan)) as (snapshot & md & file & Hs & _ & Hst & _).
  pose proof (commit_unfold recycled 512 (zeros 4096) (5 * 4096) world2 captured FullCommit no_rotation SyncRun.segment
    Standalone (SyncRun.io_of plan) ([], (bloom_absent, bloom_absent)) fits1) as Hcommit.
  rewrite Hs in Hcommit. cbv zeta in Hcommit.
  destruct (commit_sync Standalone FullCommit (md_log_id (if bool_decide (FullCommit = FullCommit) then advance_visible_position md else md))
    (sw_mem world2) snapshot) as [[m fx]|] eqn:Ecs.
  - eexists. split; [eapply commit_synced; [apply fits1|exact Hs|exact Hcommit]|].
    apply commit_sync_same in Ecs as [_ Hg]. split; [reflexivity|]. split; [reflexivity|]. cbn [sw_mem]. rewrite Hg. reflexivity.
  - exfalso. revert Ecs. unfold commit_sync. inversion Hst as [|? i ? l Hi Hl]; subst. inversion Hl; subst.
    destruct Hi as ((d & p & w & tip & Hm) & _). cbn [commit_items]. unfold commit_item. rewrite Hm. done.
Qed.

Notation run := (steps (any_step world_capture (world_commit recycled 512 (zeros 4096) (5 * 4096)) world_header
  (fun _ _ => false) (world_submit work) world_other WriteLockTimeout)).

(** Request 1 after it queued its block, as the leader of a cycle, and after
    its capture. *)
Definition state : Type := Coordinator (ShardWorld unit) FsyncCapturedData ShardFsyncError.
Definition c1 : state := set_task (set_world (Coordinator_new world0) world1) 1 TwoPhase.
Definition c2 : state := set_task (set_gate (open_cycle c1 0) (Some 1%nat)) 1 (TwoAwaitSlot 0).
Definition c3 : state := capture_and_clear world_capture c2 1 0.

Lemma trim_acknowledged : exists c, run (Coordinator_new world0) c /\ tasks c !! 1%nat = Some (TwoReturned (Ok tt)) /\
  sw_submitted (world c) !! 1%nat = Some (0%nat, 0) /\ sw_rollbacks (world c) = 0%nat /\
  rollback_generation (sw_mem (world c)) = 0.
Proof.
  destruct committed as (w' & Hc & Hsub & Hr & Hg).
  exists (finish_two (set_world c3 w') 1 0 (Ok tt)). split_and!; [|reflexivity|by cbn; rewrite Hsub|done|done].
  eapply steps_cons; [exists false; apply (step_submit _ _ _ _ _ _ _ _ 1 world1); [reflexivity|apply submitted1]|].
  eapply steps_cons; [exists false; by apply (step_two_lead_fast _ _ _ _ _ _ _ c1 1 0)|].
  eapply steps_cons; [exists false; by apply (step_two_capture _ _ _ _ _ _ _ c2 1 0)|].
  eapply steps_cons; [exists false; apply (step_two_synced _ _ _ _ _ _ _ c3 1 0 captured (Ok tt) w'); [reflexivity|exact Hc]|].
  apply steps_refl.
Qed.
End ShardRun.

