(* ===== verification/ReadObjects.v ===== *)
(** * Reading objects at given positions

    [celeriant_disk/src/files/read_objects_absolute.rs]: objects at ascending
    positions of a file are read in aligned chunks, several objects per chunk
    and several chunks per object.  The theorem: whatever the chunk size, the
    objects are the bytes at their positions. *)

From S2P Require Import Prelude Lease WalConstants Codec WalTypes WalCodec DiskFormat HashChain Sbbf LogSegment MemCache LogSync ReverseScan.

Record AbsoluteObjectPosition := {
  start_pos : Z;
  end_pos : Z;
}.

Inductive ReadObjectsError :=
  | RoIo
  | RoShortRead (pos requested got : Z).

(** [windows(2).all(..)]. *)
Fixpoint windows_all (f : AbsoluteObjectPosition -> AbsoluteObjectPosition -> bool) (l : list AbsoluteObjectPosition) : bool :=
  match l with
  | a :: ((b :: _) as rest) => f a b && windows_all f rest
  | _ => true
  end.

(** The assertions, in one. *)
Definition positions_valid (alignment file_size max_chunk_size : Z) (object_positions : list AbsoluteObjectPosition) : bool :=
  windows_all (fun a b => (start_pos a <=? start_pos b) && (end_pos a <=? start_pos b)) object_positions &&
  ((alignment <=? max_chunk_size) && (max_chunk_size mod alignment =? 0)) &&
  forallb (fun p => start_pos p <? end_pos p) object_positions &&
  windows_all (fun a b => start_pos a <? start_pos b) object_positions &&
  match last object_positions with Some p => start_pos p <? file_size | None => true end.

(** The objects left, the bytes of the first of them copied so far, and the
    objects done. *)
Record Copying := {
  co_left : list AbsoluteObjectPosition;
  co_buf : bytes;
  co_done : list bytes;
}.

(** The inner loop: copies out of one chunk. *)
Fixpoint copy_chunk (fuel : nat) (file_size : Z) (chunk : bytes) (chunk_start chunk_end pos_in_chunk : Z) (c : Copying) : option Copying :=
  match co_left c with
  | [] => Some c
  | p :: rest =>
      if negb (chunk_start + pos_in_chunk <? chunk_end) then Some c
      else match fuel with
      | O => None
      | S fuel =>
          let object_end := Z.min (end_pos p) file_size in
          if chunk_start + pos_in_chunk <? start_pos p then
            copy_chunk fuel file_size chunk chunk_start chunk_end
              (Z.min (start_pos p - chunk_start) (chunk_end - chunk_start)) c
          else
            let cur_pos_abs := chunk_start + pos_in_chunk in
            let take_len := Z.min (saturating_sub object_end cur_pos_abs) (chunk_end - cur_pos_abs) in
            let buf := if 0 <? take_len then co_buf c ++ slice chunk (Z.to_nat pos_in_chunk) (Z.to_nat take_len) else co_buf c in
            let pos_in_chunk := if 0 <? take_len then pos_in_chunk + take_len else pos_in_chunk in
            copy_chunk fuel file_size chunk chunk_start chunk_end pos_in_chunk
              (if object_end <=? cur_pos_abs + take_len
               then {| co_left := rest; co_buf := []; co_done := co_done c ++ [buf] |}
               else {| co_left := co_left c; co_buf := buf; co_done := co_done c |})
      end
  end.

(** The outer loop over the chunks. *)
Fixpoint read_chunks (fuel : nat) (f : DmaFile) (file_size max_chunk_size last_end chunk_start : Z) (c : Copying)
    : outcome ReadObjectsError (list bytes) :=
  match co_left c with
  | [] => Done (co_done c)
  | p :: _ =>
      if negb (chunk_start <? last_end) then Done (co_done c)
      else match fuel with
      | O => Panicked
      | S fuel =>
          let object_start := start_pos p in
          let chunk_end := Z.min (chunk_start + max_chunk_size) last_end in
          let '(chunk_start, chunk_end) :=
            if chunk_end <=? object_start then
              let chunk_start := object_start - object_start mod df_alignment f in
              (chunk_start, Z.min (chunk_start + max_chunk_size) last_end)
            else (chunk_start, chunk_end) in
          let read_len := chunk_end - chunk_start in
          match read_at f chunk_start read_len with
          | None => Failed RoIo
          | Some chunk =>
              if Z.of_nat (length chunk) <? read_len then Failed (RoShortRead chunk_start read_len (Z.of_nat (length chunk)))
              else
                let pos_in_chunk := if chunk_start <? object_start then object_start - chunk_start else 0 in
                c ← or_panic (copy_chunk (Z.to_nat read_len + length (co_left c)) file_size chunk chunk_start chunk_end pos_in_chunk c);
                let next := chunk_start + max_chunk_size in
                read_chunks fuel f file_size max_chunk_size last_end (next - next mod df_alignment f) c
          end
      end
  end.

Definition read_objects_absolute (f : DmaFile) (file_size : Z) (object_positions : list AbsoluteObjectPosition) (max_chunk_size : Z)
    : outcome ReadObjectsError (list bytes) :=
  match object_positions, last object_positions with
  | first :: _, Some p =>
      if negb (positions_valid (df_alignment f) file_size max_chunk_size object_positions) then Panicked
      else
        let last_end := Z.min (end_pos p) file_size in
        let chunk_start := start_pos first - start_pos first mod df_alignment f in
        read_chunks (Z.to_nat last_end) f file_size max_chunk_size last_end chunk_start
          {| co_left := object_positions; co_buf := []; co_done := [] |}
  | _, _ => Done []
  end.

(** ** The objects are the bytes at their positions *)

Section exact.
Context (f : DmaFile) (file_size max_chunk_size last_end : Z).
Context (Hreads : complete_reads f) (Hsize : file_size = Z.of_nat (length (df_contents f))).
Context (Halign : 0 < df_alignment f) (Hchunk : df_alignment f <= max_chunk_size) (Hmod : max_chunk_size mod df_alignment f = 0).
Notation C := (df_contents f).
Notation object_end p := (Z.min (end_pos p) file_size).

Definition object_at (p : AbsoluteObjectPosition) : bytes :=
  slice C (Z.to_nat (start_pos p)) (Z.to_nat (object_end p - start_pos p)).

(** Positions in order, from [lo] on. *)
Fixpoint ascending (lo : Z) (l : list AbsoluteObjectPosition) : Prop :=
  match l with
  | [] => True
  | p :: l => lo <= start_pos p < object_end p /\ object_end p <= last_end /\ ascending (end_pos p) l
  end.

Lemma ascending_le lo lo' l : lo' <= lo -> ascending lo l -> ascending lo' l.
Proof. destruct l; cbn; [done|]. intros ? (? & ? & ?). repeat split; try done; lia. Qed.

(** Everything before [x] is copied. *)
Definition copied (x : Z) (c : Copying) : Prop :=
  match co_left c with
  | [] => True
  | p :: rest => co_buf c = slice C (Z.to_nat (start_pos p)) (Z.to_nat (x - start_pos p)) /\ x < object_end p
  end.

Lemma slice_more (b : bytes) a n k : (a + n + k <= length b)%nat -> slice b a n ++ slice b (a + n) k = slice b a (n + k).
Proof.
  intros. unfold slice. rewrite <- (take_take_drop (drop a b) n k), drop_drop. done.
Qed.

Lemma copied_at_start x p rest done : 0 <= start_pos p < object_end p -> x <= start_pos p ->
  copied x {| co_left := p :: rest; co_buf := []; co_done := done |}.
Proof. intros. unfold copied. cbn [co_left co_buf]. split; [|lia]. replace (Z.to_nat (x - start_pos p)) with 0%nat by lia. unfold slice. by rewrite take_0. Qed.

(** Copying [k] more bytes, up to the end of the object at most. *)
Lemma copied_more x k p buf : 0 <= start_pos p <= x -> 0 < k -> x + k <= file_size ->
  buf = slice C (Z.to_nat (start_pos p)) (Z.to_nat (x - start_pos p)) ->
  buf ++ slice C (Z.to_nat x) (Z.to_nat k) = slice C (Z.to_nat (start_pos p)) (Z.to_nat (x + k - start_pos p)).
Proof.
  intros ? ? ? ->. replace (Z.to_nat x) with (Z.to_nat (start_pos p) + Z.to_nat (x - start_pos p))%nat by lia.
  rewrite slice_more by lia. f_equal. lia.
Qed.

Lemma chunk_slice chunk cs ce x k : 0 <= cs -> chunk = slice C (Z.to_nat cs) (Z.to_nat (ce - cs)) ->
  cs <= x -> 0 < k -> x + k <= ce -> slice chunk (Z.to_nat (x - cs)) (Z.to_nat k) = slice C (Z.to_nat x) (Z.to_nat k).
Proof.
  intros ? -> ? ? ?. rewrite slice_slice by lia. f_equal. lia.
Qed.

Lemma copy_chunk_spec fuel chunk cs ce x c : 0 <= cs -> chunk = slice C (Z.to_nat cs) (Z.to_nat (ce - cs)) ->
  cs <= x <= ce -> ce <= last_end -> last_end <= file_size -> (Z.to_nat (ce - x) <= fuel)%nat ->
  copied x c -> ascending 0 (co_left c) ->
  exists c', copy_chunk fuel file_size chunk cs ce (x - cs) c = Some c' /\ copied ce c' /\ ascending 0 (co_left c') /\
    co_done c' ++ (object_at <$> co_left c') = co_done c ++ (object_at <$> co_left c).
Proof.
  intros Hcs Hch. revert x c. induction fuel as [|fuel IH]; intros x [l buf done_] Hx Hce Hle Hf Hc Ha; cbn [copy_chunk co_left co_buf co_done] in *.
  { destruct l as [|p rest]; [by eexists|]. replace (cs + (x - cs)) with x by lia. destruct (Z.ltb_spec x ce); [lia|].
    cbn [negb]. assert (x = ce) as -> by lia. by eexists. }
  destruct l as [|p rest]; [by eexists|]. replace (cs + (x - cs)) with x by lia. destruct (Z.ltb_spec x ce) as [Hlt|?].
  2: { cbn [negb]. assert (x = ce) as -> by lia. by eexists. }
  cbn [negb]. destruct Ha as (Hp & Hpe & Ha). destruct Hc as [Hbuf Hxe]. cbn [co_buf co_left] in Hbuf.
  destruct (Z.ltb_spec x (start_pos p)) as [Hgap|Hin].
  - replace (Z.min (start_pos p - cs) (ce - cs)) with (Z.min (start_pos p) ce - cs) by lia.
    apply (IH (Z.min (start_pos p) ce)); try lia; [|done].
    split; [|cbn; lia]. cbn [co_buf]. rewrite Hbuf. f_equal. lia.
  - set (k := Z.min (saturating_sub (object_end p) x) (ce - x)). assert (Hk : 0 < k /\ k <= object_end p - x /\ k <= ce - x /\ (k = object_end p - x \/ k = ce - x)) by (unfold k, saturating_sub; lia).
    destruct (Z.ltb_spec 0 k); [|lia]. rewrite (chunk_slice chunk cs ce) by (done || lia).
    rewrite (copied_more x k p buf) by (done || lia).
    replace (x - cs + k) with (x + k - cs) by lia.
    destruct (Z.leb_spec (object_end p) (x + k)) as [Hend|Hmore].
    + destruct (IH (x + k) {| co_left := rest; co_buf := []; co_done := done_ ++ [slice C (Z.to_nat (start_pos p)) (Z.to_nat (x + k - start_pos p))] |})
        as (c' & E & Hc' & Ha' & Hd'); try lia.
      * destruct rest as [|p2 rest]; [done|]. destruct Ha as (? & ? & ?). apply copied_at_start; lia.
      * cbn [co_left]. eapply ascending_le; [|exact Ha]. lia.
      * exists c'. split; [done|]. split; [done|]. split; [done|]. rewrite Hd'. cbn [co_done co_left fmap list_fmap].
        rewrite <- app_assoc. cbn. unfold object_at at 2. by replace (x + k - start_pos p) with (object_end p - start_pos p) by lia.
    + apply (IH (x + k)); try lia; [|done]. split; [done|]. cbn. lia.
Qed.

Lemma aligned_down a : 0 <= a -> 0 <= a - a mod df_alignment f <= a /\ (a - a mod df_alignment f) mod df_alignment f = 0 /\
  a < a - a mod df_alignment f + df_alignment f.
Proof.
  intros. pose proof (Z.mod_pos_bound a (df_alignment f) Halign). pose proof (Z.mod_le a (df_alignment f)).
  split; [lia|]. split; [|lia]. rewrite Zminus_mod_idemp_r. by rewrite Z.sub_diag, Z.mod_0_l by lia.
Qed.

Lemma read_chunks_spec fuel cs c : 0 <= cs -> cs mod df_alignment f = 0 -> last_end <= file_size ->
  (Z.to_nat (last_end - cs) <= fuel)%nat -> copied cs c -> ascending 0 (co_left c) ->
  read_chunks fuel f file_size max_chunk_size last_end cs c = Done (co_done c ++ (object_at <$> co_left c)).
Proof.
  revert cs c. induction fuel as [|fuel IH]; intros cs c Hcs Hal Hle Hf Hc Ha; cbn [read_chunks];
    destruct (co_left c) as [|p rest] eqn:El; try (by rewrite app_nil_r);
    pose proof Hc as Hc'; unfold copied in Hc'; rewrite El in Hc'; destruct Hc' as [_ Hxe]; destruct Ha as (Hp & Hpe & Ha);
    (destruct (Z.ltb_spec cs last_end) as [Hlt|?]; [cbn [negb]|lia]); [lia|].
  set (jump := Z.min (cs + max_chunk_size) last_end <=? start_pos p).
  set (s0 := if jump then start_pos p - start_pos p mod df_alignment f else cs).
  set (e0 := Z.min (s0 + max_chunk_size) last_end).
  destruct (aligned_down (start_pos p) ltac:(lia)) as (Hd1 & Hd2 & Hd3).
  assert (Hs0 : 0 <= s0 /\ s0 mod df_alignment f = 0 /\ cs <= s0 /\ s0 < last_end /\ start_pos p < e0 /\ copied s0 c).
  { unfold e0, s0, jump. destruct (Z.leb_spec (Z.min (cs + max_chunk_size) last_end) (start_pos p)) as [Hj|Hj].
    - split_and!; try lia. unfold copied in Hc |- *. rewrite El in Hc |- *. destruct Hc as [Hb _]. split; [|lia].
      rewrite Hb. f_equal. lia.
    - split_and!; try lia; done. }
  replace (if jump then _ else _) with (s0, e0) by (unfold e0, s0; by destruct jump).
  destruct Hs0 as (H0 & Hm0 & Hge & Hlt0 & Hst & Hc0). clearbody s0.
  unfold read_at. rewrite Hreads by (unfold e0 in *; lia). cbn [mbind option_bind].
  set (chunk := slice C _ _). assert (Hlen : Z.of_nat (length chunk) = e0 - s0).
  { unfold chunk. rewrite length_slice. unfold e0. lia. }
  rewrite Hlen. destruct (Z.ltb_spec (e0 - s0) (e0 - s0)); [lia|].
  set (x0 := Z.max s0 (start_pos p)). replace (if s0 <? start_pos p then start_pos p - s0 else 0) with (x0 - s0)
    by (unfold x0; destruct (Z.ltb_spec s0 (start_pos p)); lia).
  destruct (copy_chunk_spec (Z.to_nat (e0 - s0) + length (p :: rest)) chunk s0 e0 x0 c) as (c' & -> & Hc' & Ha' & Hd'); try done; try (unfold x0, e0 in *; lia).
  { unfold copied in Hc0 |- *. rewrite El in Hc0 |- *. destruct Hc0 as [Hb Hx]. split; [|unfold x0; lia]. rewrite Hb. f_equal. unfold x0. lia. }
  { rewrite El. by repeat split; try lia. }
  cbn [or_panic mbind outcome_bind].
  assert (Hn : (s0 + max_chunk_size) mod df_alignment f = 0) by (rewrite <- Zplus_mod_idemp_r, Hmod, Z.add_0_r; done).
  rewrite Hn, Z.sub_0_r, El in *. rewrite <- Hd'. apply IH; try lia; try done.
  unfold copied in Hc' |- *. destruct (co_left c') as [|p' rest'] eqn:El'; [done|]. destruct Hc' as [Hb' Hx']. destruct Ha' as (? & Hpe' & ?).
  replace (s0 + max_chunk_size) with e0 by (unfold e0 in *; lia). done.
Qed.
End exact.

(** What the assertions check, with positions inside the file. *)
Lemma valid_ascending alignment fs chunk l p : positions_valid alignment fs chunk l = true -> last l = Some p ->
  Forall (fun q => 0 <= start_pos q) l -> ascending fs (Z.min (end_pos p) fs) 0 l.
Proof.
  unfold positions_valid. rewrite !andb_true_iff. intros [[[[Hw _] Hne] Hs] Hl] Hp Hpos. rewrite Hp in Hl.
  assert (Hgen : forall lo, (forall q, head l = Some q -> lo <= start_pos q) -> ascending fs (Z.min (end_pos p) fs) lo l);
    [|apply Hgen; intros q Hq; destruct l; [done|]; injection Hq as <-; by inversion Hpos].
  clear Hs Hpos. revert Hw Hne Hp. induction l as [|a l IH]; intros Hw Hne Hp lo Hlo; [done|].
  cbn [forallb] in Hne. apply andb_true_iff in Hne as [Ha Hne]. cbn [ascending]. specialize (Hlo a eq_refl).
  destruct l as [|b l].
  { cbn in Hp. injection Hp as ->. split; [lia|]. split; [lia|done]. }
  change (last (a :: b :: l)) with (last (b :: l)) in Hp.
  change (((start_pos a <=? start_pos b) && (end_pos a <=? start_pos b) &&
    windows_all (fun a b => (start_pos a <=? start_pos b) && (end_pos a <=? start_pos b)) (b :: l)) = true) in Hw.
  rewrite !andb_true_iff in Hw. destruct Hw as [[_ Hab] Hw].
  pose proof (IH Hw Hne Hp (end_pos a)) as Hrest. destruct Hrest as (Hb & Hbe & Hr); [intros q [= <-]; lia|].
  assert (start_pos b <= Z.min (end_pos p) fs) by lia. split; [lia|]. split; [lia|]. cbn [ascending]. split; [lia|]. by split.
Qed.

Lemma read_objects_spec (f : DmaFile) (max_chunk_size : Z) (object_positions : list AbsoluteObjectPosition) :
  let file_size := Z.of_nat (length (df_contents f)) in
  complete_reads f -> 0 < df_alignment f ->
  positions_valid (df_alignment f) file_size max_chunk_size object_positions = true ->
  Forall (fun p => 0 <= start_pos p) object_positions ->
  read_objects_absolute f file_size object_positions max_chunk_size = Done (object_at f file_size <$> object_positions).
Proof.
  cbv zeta. intros Hr Hal Hv Hpos. destruct object_positions as [|a l]; [done|].
  destruct (last (a :: l)) as [p|] eqn:El; [|by apply last_None in El]. unfold read_objects_absolute. rewrite El, Hv. cbn [negb].
  pose proof (valid_ascending _ _ _ _ _ Hv El Hpos) as Ha. pose proof Hv as Hv'. unfold positions_valid in Hv'.
  rewrite !andb_true_iff in Hv'. destruct Hv' as [[[[_ [Hc Hm]] _] _] _]. pose proof Ha as (Hsa & Hea & _).
  destruct (aligned_down f Hal (start_pos a)) as (H1' & H2' & H3'); [lia|].
  rewrite (read_chunks_spec f _ max_chunk_size (Z.min (end_pos p) (Z.of_nat (length (df_contents f))))); try done; try lia.
  apply copied_at_start; lia.
Qed.

(** C26: the objects are the bytes at their positions.  On a file that reads
    back what it holds, for positions the assertions let through, reading
    returns for every position the bytes from its start to its end, or to the
    end of the file; the chunk size does not matter. *)
Theorem read_objects_exact (f : DmaFile) (max_chunk_size : Z) (object_positions : list AbsoluteObjectPosition) :
  let file_size := Z.of_nat (length (df_contents f)) in
  complete_reads f -> 0 < df_alignment f ->
  positions_valid (df_alignment f) file_size max_chunk_size object_positions = true ->
  Forall (fun p => 0 <= start_pos p) object_positions ->
  read_objects_absolute f file_size object_positions max_chunk_size = Done (object_at f file_size <$> object_positions).
Proof. apply read_objects_spec. Qed.

(** Two objects and a gap, in chunks of two bytes. *)
Definition sample_file : DmaFile :=
  {| df_contents := [10; 11; 12; 13; 14; 15; 16; 17]; df_alignment := 2; df_reads _ len := Some len |}.

Lemma read_objects_exact_witness :
  read_objects_absolute sample_file 8 [{| start_pos := 1; end_pos := 4 |}; {| start_pos := 6; end_pos := 9 |}] 2 =
    Done [[11; 12; 13]; [16; 17]].
Proof.
  change 8 with (Z.of_nat (length (df_contents sample_file))).
  rewrite (read_objects_exact sample_file 2); [reflexivity|by intros pos len|done|reflexivity|by repeat constructor].
Defined.
