(* ===== verification/ReplicationQueues.v ===== *)
(** * The queues of replication

    The commits that wait for replication: [PendingCommitData]
    ([celeriant_memcache/src/pending_commit_data.rs]), the leader's queue of
    batches to replicate and the follower's queue of parked commits
    ([celeriant_memcache/src/shard_mem_cache.rs]), the read-side commit
    [commit_pcd] ([celeriant_shard/src/shard_wal_replicate.rs]) over the
    cursors of the open segments
    ([celeriant_rotating_log/src/log_segments_cache.rs]), and the drain of the
    parked commits ([celeriant_shard/src/shard_wal.rs]). *)

From S2P Require Import Prelude Lease WalConstants Codec WalTypes WalCodec DiskFormat HashChain Sbbf Datablock LogSegment MemCache LogSync FsyncCommit.

(** ** pending_commit_data.rs *)

Record PendingCommitData := {
  log_metadata : LogSegmentFileMetadata;
  pending_queue : list PendingCacheItem;
}.

Definition pcd_log_id (p : PendingCommitData) : Z := md_log_id (log_metadata p).

Definition pcd_size_bytes (p : PendingCommitData) : Z :=
  saturating_add 64 (wrap 64 (sum_Z (pci_size_bytes <$> pending_queue p))) (Z.of_nat FIXED_BLOCK_SIZE_BYTES).

Definition pcd_tip (p : PendingCommitData) : Z := hc_wal_seq (pos (md_write (log_metadata p))).

(** ** The queues of the cache *)

Record ReplicationQueues := {
  pending_replication_batches : list PendingCommitData;
  pending_replication_bytes : Z;
  parked_commits : list PendingCommitData;
  parked_commit_bytes : Z;
  replication_rollback_occurred : bool;
}.

Definition push_pending_replication (q : ReplicationQueues) (batch : PendingCommitData) : ReplicationQueues :=
  {| pending_replication_batches := pending_replication_batches q ++ [batch];
     pending_replication_bytes := saturating_add 64 (pending_replication_bytes q) (pcd_size_bytes batch);
     parked_commits := parked_commits q; parked_commit_bytes := parked_commit_bytes q;
     replication_rollback_occurred := replication_rollback_occurred q |}.

Definition take_pending_replication (q : ReplicationQueues) : ReplicationQueues * list PendingCommitData :=
  ({| pending_replication_batches := []; pending_replication_bytes := 0;
      parked_commits := parked_commits q; parked_commit_bytes := parked_commit_bytes q;
      replication_rollback_occurred := replication_rollback_occurred q |}, pending_replication_batches q).

Definition return_to_pending_replication (q : ReplicationQueues) (batches : list PendingCommitData) : ReplicationQueues :=
  let returned_bytes := wrap 64 (sum_Z (pcd_size_bytes <$> batches)) in
  {| pending_replication_batches := batches ++ pending_replication_batches q;
     pending_replication_bytes := saturating_add 64 (pending_replication_bytes q) returned_bytes;
     parked_commits := parked_commits q; parked_commit_bytes := parked_commit_bytes q;
     replication_rollback_occurred := replication_rollback_occurred q |}.

Definition set_parked (q : ReplicationQueues) (parked : list PendingCommitData) (n : Z) : ReplicationQueues :=
  {| pending_replication_batches := pending_replication_batches q; pending_replication_bytes := pending_replication_bytes q;
     parked_commits := parked; parked_commit_bytes := n; replication_rollback_occurred := replication_rollback_occurred q |}.

Definition push_parked_commit (internode_max_request_size : Z) (q : ReplicationQueues) (batch : PendingCommitData) : ReplicationQueues * bool :=
  let n := saturating_add 64 (parked_commit_bytes q) (pcd_size_bytes batch) in
  (set_parked q (parked_commits q ++ [batch]) n, internode_max_request_size <? n).

(** The loop pops the front while the carrier confirms it. *)
Fixpoint drain_front (target_wal_seq : Z) (parked : list PendingCommitData) (n : Z) : list PendingCommitData * Z * list PendingCommitData :=
  match parked with
  | [] => ([], n, [])
  | b :: rest =>
      if pcd_tip b <=? target_wal_seq then
        let '(kept, n, drained) := drain_front target_wal_seq rest (saturating_sub n (pcd_size_bytes b)) in
        (kept, n, b :: drained)
      else (parked, n, [])
  end.

Definition drain_parked_commits_up_to (q : ReplicationQueues) (target_wal_seq : Z) : ReplicationQueues * list PendingCommitData :=
  let '(kept, n, drained) := drain_front target_wal_seq (parked_commits q) (parked_commit_bytes q) in
  (set_parked q kept (match kept with [] => 0 | _ => n end), drained).

Definition take_all_parked_commits (q : ReplicationQueues) : ReplicationQueues * list PendingCommitData :=
  (set_parked q [] 0, parked_commits q).

Definition clear_parked_commits (q : ReplicationQueues) : ReplicationQueues * nat :=
  (set_parked q [] 0, length (parked_commits q)).

Definition take_replication_rollback_flag (q : ReplicationQueues) : ReplicationQueues * bool :=
  ({| pending_replication_batches := pending_replication_batches q; pending_replication_bytes := pending_replication_bytes q;
      parked_commits := parked_commits q; parked_commit_bytes := parked_commit_bytes q; replication_rollback_occurred := false |},
   replication_rollback_occurred q).

Section with_cache.
Context {V : Type}.
Implicit Types m : MemCache V.

Definition inflight_bytes m (q : ReplicationQueues) : Z :=
  saturating_add 64 (pending_append_bytes m) (pending_replication_bytes q).

Definition is_inflight_pressured (internode_max_request_size : Z) m (q : ReplicationQueues) : bool :=
  internode_max_request_size <=? inflight_bytes m q.

(** The write-side snapshots are dropped. *)
Definition clear_write_snapshots m : MemCache V :=
  {| write_snapshots := ∅; read_snapshots := read_snapshots m; client_snapshots := ∅;
     queue_positions := queue_positions m; pending_append_queue := pending_append_queue m;
     pending_append_bytes := pending_append_bytes m; schema_cache := schema_cache m;
     no_schema_cache := no_schema_cache m; pending_schema_registrations := pending_schema_registrations m;
     fsync_rollback_occurred := fsync_rollback_occurred m; rollback_generation := rollback_generation m |}.

(** The queue is emptied; a batch that was in it sets the flag. *)
Definition drop_pending_replication (q : ReplicationQueues) : ReplicationQueues :=
  {| pending_replication_batches := []; pending_replication_bytes := 0;
     parked_commits := parked_commits q; parked_commit_bytes := parked_commit_bytes q;
     replication_rollback_occurred :=
       match pending_replication_batches q with [] => replication_rollback_occurred q | _ => true end |}.

Definition execute_replication_rollback m (q : ReplicationQueues) : MemCache V * ReplicationQueues :=
  (clear_write_snapshots (execute_fsync_rollback m), drop_pending_replication q).

Definition clear_speculative_write_caches_for_cull m (q : ReplicationQueues) : MemCache V * ReplicationQueues * nat :=
  let drained := length (pending_replication_batches q) in
  let m := clear_write_snapshots m in
  let m := if (0 <? drained)%nat then
    {| write_snapshots := write_snapshots m; read_snapshots := read_snapshots m; client_snapshots := client_snapshots m;
       queue_positions := queue_positions m; pending_append_queue := pending_append_queue m;
       pending_append_bytes := pending_append_bytes m; schema_cache := schema_cache m;
       no_schema_cache := no_schema_cache m; pending_schema_registrations := pending_schema_registrations m;
       fsync_rollback_occurred := fsync_rollback_occurred m;
       rollback_generation := wrapping_add 64 (rollback_generation m) 1 |} else m in
  (m, drop_pending_replication q, drained).

(** What the truncation of the log clears; the recent writes are not part of
    this state. *)
Definition clear_all_caches m (q : ReplicationQueues) : MemCache V * ReplicationQueues :=
  let '(m, q) := execute_replication_rollback m q in
  (set_snapshots m CacheRead ∅, (clear_parked_commits q).1).
End with_cache.

(** The end of [commit_sync]: what was deferred goes to the queue of the commit
    target; [md] is the segment's metadata with the batch. *)
Definition queue_deferred (internode_max_request_size : Z) (commit_target : CommitTarget) (md : LogSegmentFileMetadata)
    (fx : CommitEffects) (q : ReplicationQueues) : ReplicationQueues :=
  let pending_commit_data := {| log_metadata := md; pending_queue := ce_deferred fx |} in
  match commit_target with
  | FullCommit => q
  | DeferToReplicationAck => push_pending_replication q pending_commit_data
  | DeferToLeaderConfirmed => (push_parked_commit internode_max_request_size q pending_commit_data).1
  end.

(** ** log_segments_cache.rs *)

(** The metadata of the active segment, and of the sealed ones in the LRU. *)
Record OpenSegments := {
  active : LogSegmentFileMetadata;
  lru_cache : gmap Z LogSegmentFileMetadata;
}.

Definition active_log_id (c : OpenSegments) : Z := md_log_id (active c).

Definition get_if_cached (c : OpenSegments) (log_id : Z) : option LogSegmentFileMetadata :=
  if log_id =? active_log_id c then Some (active c) else lru_cache c !! log_id.

(** A mutation of the metadata of a cached segment. *)
Definition alter_segment (f : LogSegmentFileMetadata -> LogSegmentFileMetadata) (log_id : Z) (c : OpenSegments) : OpenSegments :=
  if log_id =? active_log_id c then {| active := f (active c); lru_cache := lru_cache c |}
  else {| active := active c; lru_cache := alter f log_id (lru_cache c) |}.

Definition read_wal_seq_of (md : LogSegmentFileMetadata) : option Z := (fun r => hc_wal_seq (pos r)) <$> md_read md.

Definition write_wal_seq_of (md : LogSegmentFileMetadata) : Z := hc_wal_seq (pos (md_write md)).

Definition get_latest_read_cursor (c : OpenSegments) : LogSegmentCursor :=
  match md_read (active c) with
  | Some r => r
  | None =>
      match lru_cache c !! saturating_sub (active_log_id c) 1 with
      | Some prev => default (md_write prev) (md_read prev)
      | None => md_write (active c)
      end
  end.

Definition get_latest_read_cursor_wal_seq (c : OpenSegments) : Z :=
  match read_wal_seq_of (active c) with
  | Some w => w
  | None =>
      match lru_cache c !! saturating_sub (active_log_id c) 1 with
      | Some prev => default (write_wal_seq_of prev) (read_wal_seq_of prev)
      | None => write_wal_seq_of (active c)
      end
  end.

(** The walk to earlier segments, [n] of them at most. *)
Fixpoint walk_back (sealed : gmap Z LogSegmentFileMetadata) (n : nat) (log_id : Z) : Z :=
  match n with
  | O => 0
  | S n =>
      match sealed !! (log_id - 1) with
      | Some md => match read_wal_seq_of md with Some w => w | None => walk_back sealed n (log_id - 1) end
      | None => 0
      end
  end.

Definition FIRST_LOG_ID : Z := 1.

Definition committed_read_wal_seq (c : OpenSegments) : Z :=
  match read_wal_seq_of (active c) with
  | Some w => w
  | None => walk_back (lru_cache c) (Z.to_nat (active_log_id c - FIRST_LOG_ID)) (active_log_id c)
  end.

(** ** commit_pcd *)

(** What a read-side commit hands to the segment summaries, to the cache of
    recent writes and to the watchers. *)
Record PcdEffects := {
  pe_summary : list (Z * Metablock * Z);
  pe_recent : list PendingCacheItem;
  pe_events : WatchEventCollector;
}.

Definition collect_watch_event (c : WatchEventCollector) (mb : Metablock) : WatchEventCollector :=
  match wal_metablock_type mb with
  | EventBatchMetadata eb =>
      let c := add_write_event c eb in
      if eb_aggregate_version eb =? FIRST_AGGREGATE_VERSION then add_create_event c (eb_aggregate_key eb) else c
  | SoftTrim t => add_trim_event c (st_aggregate_key t) (keep_from_aggregate_version t)
  | SoftDelete d => add_delete_event c (sd_aggregate_key d)
  | SchemaRegistration _ => c
  end.

Definition set_read (r : LogSegmentCursor) (md : LogSegmentFileMetadata) : LogSegmentFileMetadata :=
  {| md_log_id := md_log_id md; file_len := file_len md; md_write := md_write md; md_read := Some r;
     datablocks_carry_over := datablocks_carry_over md;
     md_last_received_replication_wal_seq := md_last_received_replication_wal_seq md;
     md_last_self_acked_wal_seq := md_last_self_acked_wal_seq md |}.

Section commit_pcd.
Context `{Bincode, Crc32c, DictCodec} {V : Type} `{SchemaCompiler V}.
Implicit Types m : MemCache V.

(** One pass of the loop; [schema_codec] says whether registrations compile
    here. *)
Definition commit_pcd_item (schema_codec : bool) (log_id : Z) (acc : MemCache V * PcdEffects) (item : PendingCacheItem)
    : option (MemCache V * PcdEffects) :=
  let '(m, fx) := acc in
  let mb := pci_metablock item in
  let at_pos := pci_metablock_absolute_pos item in
  let fx := {| pe_summary := pe_summary fx ++ [(log_id, mb, at_pos)]; pe_recent := pe_recent fx;
               pe_events := collect_watch_event (pe_events fx) mb |} in
  match wal_metablock_type mb with
  | EventBatchMetadata eb =>
      Some (commit_position_snapshot m eb log_id at_pos CacheRead,
            {| pe_summary := pe_summary fx; pe_recent := pe_recent fx ++ [item]; pe_events := pe_events fx |})
  | SoftTrim t =>
      let commit m path :=
        commit_trim_snapshot m (st_aggregate_key t) (keep_from_aggregate_version t) (st_aggregate_version t)
          (st_event_seq t) log_id at_pos path in
      Some (commit (commit m CacheWrite) CacheRead, fx)
  | SoftDelete d =>
      Some (put_aggregate_into_cache_as_deleted m (sd_aggregate_key d) log_id at_pos (sd_event_seq d)
              (sd_aggregate_version d) (allow_recreate d) (allow_sequence_continuation d) CacheRead, fx)
  | SchemaRegistration sr =>
      if schema_codec then
        match pci_datablock item with
        | Some d => Some (compile_and_cache_schema m (msr_schema_key sr) d, fx)
        | None =>
            r ← deserialise_datablock (uncompressed_size mb) (compressed_size mb) (datablock_version mb)
                  (datablock_compression_type mb) (datablock mb) None;
            Some (match r with Ok d => compile_and_cache_schema m (msr_schema_key sr) d | Err _ => m end, fx)
        end
      else Some (m, fx)
  end.

Definition commit_pcd (schema_codec : bool) (c : OpenSegments) m (commit_data : PendingCommitData)
    : option (OpenSegments * MemCache V * PcdEffects) :=
  let log_id := pcd_log_id commit_data in
  let c := alter_segment (set_read (md_write (log_metadata commit_data))) log_id c in
  '(m, fx) ← foldM (commit_pcd_item schema_codec log_id) (pending_queue commit_data)
               (m, {| pe_summary := []; pe_recent := []; pe_events := WatchEventCollector_new |});
  Some (c, m, fx).

(** The commits of several batches; the effects in order. *)
Fixpoint commit_pcds (schema_codec : bool) (c : OpenSegments) m (pcds : list PendingCommitData)
    : option (OpenSegments * MemCache V * list PcdEffects) :=
  match pcds with
  | [] => Some (c, m, [])
  | p :: pcds =>
      '(c, m, fx) ← commit_pcd schema_codec c m p;
      '(c, m, fxs) ← commit_pcds schema_codec c m pcds;
      Some (c, m, fx :: fxs)
  end.

(** ** drain_parked_commits *)

Definition drain_parked_commits (leader_confirmed_wal_seq : Z) (c : OpenSegments) m (q : ReplicationQueues)
    : option (OpenSegments * MemCache V * ReplicationQueues * list PcdEffects) :=
  let target := Z.min leader_confirmed_wal_seq (write_wal_seq_of (active c)) in
  if target <=? default 0 (read_wal_seq_of (active c)) then Some (c, m, q, [])
  else
    let '(q, pcds) := drain_parked_commits_up_to q target in
    '(c, m, fxs) ← commit_pcds true c m pcds;
    let cold := (default 0 (read_wal_seq_of (active c)) <? target) && (target =? write_wal_seq_of (active c))
                && match parked_commits q with [] => true | _ => false end in
    let c := if cold then {| active := advance_visible_position (active c); lru_cache := lru_cache c |} else c in
    Some (c, m, q, fxs).

Definition update_promotion_floor (leader_confirmed_wal_seq : Z) (c : OpenSegments) : OpenSegments :=
  let new_floor := saturating_add 64 leader_confirmed_wal_seq 1 in
  let md := active c in
  if md_last_received_replication_wal_seq md <? new_floor then
    {| active := {| md_log_id := md_log_id md; file_len := file_len md; md_write := md_write md; md_read := md_read md;
                    datablocks_carry_over := datablocks_carry_over md;
                    md_last_received_replication_wal_seq := new_floor;
                    md_last_self_acked_wal_seq := md_last_self_acked_wal_seq md |};
       lru_cache := lru_cache c |}
  else c.
End commit_pcd.

(** ** What a drain commits *)

(** The parked commits ascend, and lie above what readers see of their segment. *)
Record parked_ok (c : OpenSegments) (q : ReplicationQueues) : Prop := {
  po_sorted : StronglySorted (fun a b => pcd_tip a < pcd_tip b) (parked_commits q);
  po_active p : p ∈ parked_commits q -> default 0 (read_wal_seq_of (active c)) < pcd_tip p <= write_wal_seq_of (active c);
  po_cached p md : p ∈ parked_commits q -> get_if_cached c (pcd_log_id p) = Some md ->
    default 0 (read_wal_seq_of md) < pcd_tip p <= write_wal_seq_of md;
}.

(** A segment before and after: only the read cursor moves, forward and not
    past [target]. *)
Definition advanced (target : Z) (md md' : LogSegmentFileMetadata) : Prop :=
  md_write md' = md_write md /\ md_log_id md' = md_log_id md /\
  default 0 (read_wal_seq_of md) <= default 0 (read_wal_seq_of md') <= Z.max (default 0 (read_wal_seq_of md)) target.

Lemma advanced_refl target md : advanced target md md.
Proof. repeat split; lia. Qed.

Lemma advanced_trans target md1 md2 md3 : advanced target md1 md2 -> advanced target md2 md3 -> advanced target md1 md3.
Proof. intros (E1 & L1 & H1) (E2 & L2 & H2). split; [congruence|]. split; [congruence|lia]. Qed.

Lemma drain_front_spec target parked n :
  let '(kept, _, drained) := drain_front target parked n in
  parked = drained ++ kept /\ Forall (fun p => pcd_tip p <= target) drained /\
  (forall p, head kept = Some p -> target < pcd_tip p).
Proof.
  revert n. induction parked as [|b parked IH]; intros n; cbn [drain_front]; [done|].
  destruct (Z.leb_spec (pcd_tip b) target) as [Hb|Hb].
  - specialize (IH (saturating_sub n (pcd_size_bytes b))). destruct (drain_front target parked _) as [[kept n'] drained].
    destruct IH as (-> & Hd & Hk). split_and!; [done|by constructor|done].
  - split_and!; [done|done|]. by intros p [= <-].
Qed.

Lemma get_alter_segment f log_id c log_id' : (forall md, md_log_id (f md) = md_log_id md) ->
  get_if_cached (alter_segment f log_id c) log_id' =
  if decide (log_id = log_id') then f <$> get_if_cached c log_id' else get_if_cached c log_id'.
Proof.
  intros Hf. unfold get_if_cached, alter_segment, active_log_id.
  destruct (Z.eqb_spec log_id (md_log_id (active c))) as [->|Hne]; cbn [active lru_cache].
  - rewrite Hf. case_decide as E; [rewrite <- E, Z.eqb_refl; done|]. by destruct (Z.eqb_spec log_id' (md_log_id (active c))).
  - case_decide as E; [subst|].
    + destruct (Z.eqb_spec log_id' (md_log_id (active c))); [done|]. by rewrite lookup_alter_eq.
    + by rewrite lookup_alter_ne.
Qed.

Lemma active_cached c : get_if_cached c (active_log_id c) = Some (active c).
Proof. unfold get_if_cached. by rewrite Z.eqb_refl. Qed.

Section drain.
Context `{Bincode, Crc32c, DictCodec} {V : Type} `{SchemaCompiler V}.
Implicit Types m : MemCache V.

(** The body of a schema registration can be read. *)
Definition committable (item : PendingCacheItem) : Prop :=
  let mb := pci_metablock item in
  match wal_metablock_type mb with
  | SchemaRegistration _ => pci_datablock item = None ->
      is_Some (deserialise_datablock (uncompressed_size mb) (compressed_size mb) (datablock_version mb)
                 (datablock_compression_type mb) (datablock mb) None)
  | _ => True
  end.

(** The blocks a batch reports to the summaries. *)
Definition pcd_summary (p : PendingCommitData) : list (Z * Metablock * Z) :=
  (fun item => (pcd_log_id p, pci_metablock item, pci_metablock_absolute_pos item)) <$> pending_queue p.

Lemma commit_pcd_items_total codec log_id items m fx : (codec = true -> Forall committable items) ->
  exists m' fx', foldM (commit_pcd_item codec log_id) items (m, fx) = Some (m', fx') /\
    pe_summary fx' = pe_summary fx ++ ((fun item => (log_id, pci_metablock item, pci_metablock_absolute_pos item)) <$> items).
Proof.
  intros Hits. revert m fx. induction items as [|item items IH]; intros m fx; [by eexists _, _; rewrite app_nil_r|].
  assert (Hi : codec = true -> committable item) by (intros E; by apply Forall_cons in Hits as [? _]).
  specialize (IH ltac:(intros E; by apply Forall_cons in Hits as [_ ?])).
  assert (Hone : exists m1 fx1, commit_pcd_item codec log_id (m, fx) item = Some (m1, fx1) /\
    pe_summary fx1 = pe_summary fx ++ [(log_id, pci_metablock item, pci_metablock_absolute_pos item)]).
  { unfold commit_pcd_item. unfold committable in Hi. destruct (wal_metablock_type (pci_metablock item)); [by eexists _, _| |by eexists _, _..].
    destruct codec; [|by eexists _, _]. destruct (pci_datablock item); [by eexists _, _|].
    destruct (Hi eq_refl eq_refl) as [r ->]. by eexists _, _. }
  destruct Hone as (m1 & fx1 & E1 & Es1). cbn [foldM]. rewrite E1. destruct (IH m1 fx1) as (m' & fx' & E & Es).
  exists m', fx'. split; [done|]. by rewrite Es, Es1, <- app_assoc.
Qed.

Lemma commit_pcd_total codec c m p : (codec = true -> Forall committable (pending_queue p)) ->
  exists m' fx, commit_pcd codec c m p = Some (alter_segment (set_read (md_write (log_metadata p))) (pcd_log_id p) c, m', fx) /\
    pe_summary fx = pcd_summary p.
Proof.
  intros Hp. unfold commit_pcd.
  edestruct (commit_pcd_items_total codec (pcd_log_id p) (pending_queue p) m) as (m' & fx & E & Es); [done|].
  exists m', fx. by rewrite E.
Qed.

Definition commit_cursors (c : OpenSegments) (pcds : list PendingCommitData) : OpenSegments :=
  foldl (fun c p => alter_segment (set_read (md_write (log_metadata p))) (pcd_log_id p) c) c pcds.

Lemma commit_pcds_total codec c m pcds : (codec = true -> Forall (fun p => Forall committable (pending_queue p)) pcds) ->
  exists m' fxs, commit_pcds codec c m pcds = Some (commit_cursors c pcds, m', fxs) /\ pe_summary <$> fxs = pcd_summary <$> pcds.
Proof.
  intros Hps. revert c m. induction pcds as [|p pcds IH]; intros c m; [by eexists _, _|].
  assert (Hp : codec = true -> Forall committable (pending_queue p)) by (intros E; by apply Forall_cons in Hps as [? _]).
  specialize (IH ltac:(intros E; by apply Forall_cons in Hps as [_ ?])).
  cbn [commit_pcds]. destruct (commit_pcd_total codec c m p Hp) as (m1 & fx & -> & Es). cbn.
  destruct (IH (alter_segment (set_read (md_write (log_metadata p))) (pcd_log_id p) c) m1) as (m' & fxs & -> & Efx).
  eexists _, _. split; [done|]. cbn. by rewrite Es, Efx.
Qed.

(** The cursors after a prefix of the parked commits. *)
Lemma commit_cursors_advanced target pcds c : StronglySorted (fun a b => pcd_tip a < pcd_tip b) pcds ->
  Forall (fun p => pcd_tip p <= target) pcds ->
  (forall p md, p ∈ pcds -> get_if_cached c (pcd_log_id p) = Some md -> default 0 (read_wal_seq_of md) < pcd_tip p) ->
  forall log_id md, get_if_cached c log_id = Some md -> exists md', get_if_cached (commit_cursors c pcds) log_id = Some md' /\
    advanced target md md' /\ (md' = md \/ exists p, p ∈ pcds /\ pcd_log_id p = log_id /\ md' = set_read (md_write (log_metadata p)) md).
Proof.
  revert c. induction pcds as [|p pcds IH]; intros c Hs Ht Hr log_id md Hmd.
  { exists md. split; [done|]. split; [apply advanced_refl|by left]. }
  inversion_clear Hs as [|? ? Hs' Hlt]. inversion_clear Ht as [|? ? Htp Ht'].
  set (c1 := alter_segment (set_read (md_write (log_metadata p))) (pcd_log_id p) c).
  assert (Hget : forall l, get_if_cached c1 l =
    if decide (pcd_log_id p = l) then set_read (md_write (log_metadata p)) <$> get_if_cached c l else get_if_cached c l)
    by (intros l; by apply get_alter_segment).
  assert (Hmd1 : exists md1, get_if_cached c1 log_id = Some md1 /\ advanced target md md1 /\
    (md1 = md \/ pcd_log_id p = log_id /\ md1 = set_read (md_write (log_metadata p)) md)).
  { rewrite Hget, Hmd. case_decide as E; [|exists md; split_and!; [done|apply advanced_refl|by left]].
    eexists. split; [done|]. split; [|by right]. split; [done|]. split; [done|]. rewrite <- E in Hmd.
    pose proof (Hr p md ltac:(left) Hmd). cbn. fold (pcd_tip p). lia. }
  destruct Hmd1 as (md1 & Hmd1 & Ha1 & Hc1).
  destruct (IH c1 Hs' Ht') with (log_id := log_id) (md := md1) as (md' & Hmd' & Ha' & Hc'); [|done|].
  { intros p' md' Hp' Hm'. rewrite Hget in Hm'. case_decide as E; [|by apply (Hr p'); [by right|]].
    destruct (get_if_cached c (pcd_log_id p')); [|done]. cbn in Hm'. injection Hm' as <-. cbn. fold (pcd_tip p).
    rewrite Forall_forall in Hlt. by apply Hlt. }
  exists md'. split; [done|]. split; [by eapply advanced_trans|].
  destruct Hc' as [->|(p' & Hp' & El & ->)]; [destruct Hc1 as [->|[E ->]]; [by left|]|].
  - right. exists p. split; [left|done].
  - right. exists p'. split; [by right|]. split; [done|]. by destruct Hc1 as [->|[_ ->]].
Qed.

Lemma commit_cursors_active c pcds : active_log_id (commit_cursors c pcds) = active_log_id c.
Proof.
  revert c. induction pcds as [|p pcds IH]; intros c; [done|]. cbn. fold (commit_cursors (alter_segment (set_read (md_write (log_metadata p))) (pcd_log_id p) c) pcds).
  rewrite IH. unfold alter_segment, active_log_id. by destruct (Z.eqb_spec (pcd_log_id p) (md_log_id (active c))).
Qed.

Lemma sorted_app_inv (l1 l2 : list PendingCommitData) : StronglySorted (fun a b => pcd_tip a < pcd_tip b) (l1 ++ l2) ->
  StronglySorted (fun a b => pcd_tip a < pcd_tip b) l1 /\ StronglySorted (fun a b => pcd_tip a < pcd_tip b) l2.
Proof. intros Hs. split; [by eapply StronglySorted_app_1_l|by eapply StronglySorted_app_1_r]. Qed.

Lemma sorted_above target kept : StronglySorted (fun a b => pcd_tip a < pcd_tip b) kept ->
  (forall p, head kept = Some p -> target < pcd_tip p) -> Forall (fun p => target < pcd_tip p) kept.
Proof.
  intros [|p l Hs Hl] Hh; constructor; [by apply Hh|]. specialize (Hh p eq_refl).
  eapply Forall_impl; [exact Hl|]. cbn. lia.
Qed.

Lemma no_parked_ok c q : parked_commits q = [] -> parked_ok c q.
Proof. intros E. split; rewrite E; [constructor|..]; intros p *; set_solver. Qed.

(** What remains parked is still in order and above the cursors. *)
Lemma drained_parked_ok c q q' drained target : parked_ok c q -> parked_commits q = drained ++ parked_commits q' ->
  Forall (fun p => pcd_tip p <= target) drained -> Forall (fun p => target < pcd_tip p) (parked_commits q') ->
  parked_ok (commit_cursors c drained) q' /\ forall log_id md, get_if_cached c log_id = Some md ->
    exists md', get_if_cached (commit_cursors c drained) log_id = Some md' /\ advanced target md md'.
Proof.
  intros [Hs Ha Hc] E Hd Hk. rewrite E in Hs. destruct (sorted_app_inv _ _ Hs) as [Hs1 Hs2].
  assert (Hadv : forall log_id md, get_if_cached c log_id = Some md -> exists md', get_if_cached (commit_cursors c drained) log_id = Some md' /\
    advanced target md md' /\ (md' = md \/ exists p, p ∈ drained /\ pcd_log_id p = log_id /\ md' = set_read (md_write (log_metadata p)) md)).
  { apply commit_cursors_advanced; [done..|]. intros p md Hp Hm. apply (Hc p md); [rewrite E; set_solver|done]. }
  assert (Hbelow : forall p log_id md md', p ∈ parked_commits q' -> get_if_cached c log_id = Some md ->
    get_if_cached (commit_cursors c drained) log_id = Some md' -> default 0 (read_wal_seq_of md) < pcd_tip p <= write_wal_seq_of md ->
    default 0 (read_wal_seq_of md') < pcd_tip p <= write_wal_seq_of md').
  { intros p l md md' Hp Hm Hm' Hb. destruct (Hadv l md Hm) as (md2 & E2 & Hav & Hor). rewrite Hm' in E2. injection E2 as <-.
    destruct Hav as (Ew & _ & Hle). unfold write_wal_seq_of in *. rewrite Ew. rewrite Forall_forall in Hk. pose proof (Hk p Hp). lia. }
  split; [split; [done| |]|intros l md Hm; destruct (Hadv l md Hm) as (md' & ? & ? & _); eauto].
  - intros p Hp. apply (Hbelow p (active_log_id c) (active c)); [done|apply active_cached| |apply Ha; rewrite E; set_solver].
    rewrite <- (commit_cursors_active c drained). apply active_cached.
  - intros p md' Hp Hm'. destruct (get_if_cached c (pcd_log_id p)) as [md|] eqn:Em.
    + apply (Hbelow p (pcd_log_id p) md); [done..|]. apply Hc; [rewrite E; set_solver|done].
    + exfalso. clear -Em Hm'. revert c Em Hm'. induction drained as [|x drained IH]; intros c Em Hm'; cbn in Hm'; [congruence|].
      eapply IH; [|exact Hm']. rewrite get_alter_segment by done. rewrite Em. by case_decide.
Qed.

(** C21: a carrier commits what it confirms, once and in order.  On a follower
    whose parked commits ascend above its read cursors, a drain succeeds; it
    commits exactly the parked batches whose tip is within the confirmed and
    locally durable prefix, reporting each of their blocks once; every read
    cursor moves forward only and never past that prefix, the invariant is
    kept, and when the leader has confirmed the whole local log readers see
    all of it. *)
Theorem parked_drain_exact (confirmed : Z) (c : OpenSegments) m (q : ReplicationQueues) :
  parked_ok c q -> Forall (fun p => Forall committable (pending_queue p)) (parked_commits q) ->
  let target := Z.min confirmed (write_wal_seq_of (active c)) in
  exists c' m' q' fxs drained, drain_parked_commits confirmed c m q = Some (c', m', q', fxs) /\
    parked_commits q = drained ++ parked_commits q' /\
    Forall (fun p => pcd_tip p <= target) drained /\ Forall (fun p => target < pcd_tip p) (parked_commits q') /\
    pe_summary <$> fxs = pcd_summary <$> drained /\ parked_ok c' q' /\
    (forall log_id md, get_if_cached c log_id = Some md -> exists md', get_if_cached c' log_id = Some md' /\ advanced target md md') /\
    (write_wal_seq_of (active c) <= confirmed -> write_wal_seq_of (active c) <= default 0 (read_wal_seq_of (active c'))).
Proof.
  intros Hok Hcom target. unfold drain_parked_commits. fold target.
  destruct (Z.leb_spec target (default 0 (read_wal_seq_of (active c)))) as [Hg|Hg].
  { exists c, m, q, [], []. split_and!; try done.
    - apply Forall_forall. intros p Hp. pose proof (po_active _ _ Hok p Hp). lia.
    - intros l md Hm. exists md. split; [done|apply advanced_refl].
    - unfold target in Hg. lia. }
  unfold drain_parked_commits_up_to. pose proof (drain_front_spec target (parked_commits q) (parked_commit_bytes q)) as Hsp.
  destruct (drain_front target (parked_commits q) (parked_commit_bytes q)) as [[kept n] drained]. destruct Hsp as (E & Hd & Hh).
  set (q' := set_parked q kept _). rewrite E in Hcom. apply Forall_app in Hcom as [Hcom _].
  destruct (commit_pcds_total true c m drained (fun _ => Hcom)) as (m' & fxs & -> & Efx). cbn [mbind option_bind].
  pose proof (po_sorted _ _ Hok) as Hs. rewrite E in Hs. destruct (sorted_app_inv _ _ Hs) as [_ Hs2].
  pose proof (sorted_above target kept Hs2 Hh) as Hk.
  destruct (drained_parked_ok c q q' drained target) as [Hok' Hadv]; [done..|]. set (c1 := commit_cursors c drained) in *.
  destruct (Hadv _ _ (active_cached c)) as (a & Ea & Hava).
  assert (Eact : a = active c1).
  { pose proof (active_cached c1) as Hac. rewrite (commit_cursors_active c drained : active_log_id c1 = _) in Hac. congruence. }
  subst a.
  destruct Hava as (Ew & El & Hle). assert (Ew' : write_wal_seq_of (active c1) = write_wal_seq_of (active c)) by (unfold write_wal_seq_of; by rewrite Ew).
  destruct (_ && _) eqn:Ecold.
  - rewrite !andb_true_iff in Ecold. destruct Ecold as [[Hr Ht] Hp]. cbn in Hp. destruct kept; [|done].
    eexists _, m', q', fxs, drained. split_and!; try done; [by apply no_parked_ok| |intros _; change (write_wal_seq_of (active c) <= write_wal_seq_of (active c1)); lia].
    intros l md Hm. destruct (Hadv l md Hm) as (md' & Em' & Hav). unfold get_if_cached, active_log_id in Em' |- *. cbn [active lru_cache advance_visible_position md_log_id].
    destruct (l =? md_log_id (active c1)); [|eauto]. injection Em' as <-. eexists. split; [done|].
    eapply advanced_trans; [exact Hav|]. split; [done|]. split; [done|]. cbn. fold (write_wal_seq_of (active c1)). lia.
  - exists c1, m', q', fxs, drained. split_and!; try done. intros Hall. rewrite <- Ew'. assert (Et : target = write_wal_seq_of (active c1)) by lia.
    rewrite Et in Ecold. rewrite Z.eqb_refl in Ecold. destruct (Z.ltb_spec (default 0 (read_wal_seq_of (active c1))) (write_wal_seq_of (active c1))); [|done].
    cbn in Ecold. destruct kept as [|p kept]; [done|]. inversion_clear Hk as [|? ? Hp _].
    pose proof (po_active _ _ Hok p ltac:(rewrite E; set_solver)). lia.
Qed.
End drain.

(** ** Two parked batches, the first confirmed *)

Module ParkedRun.
Definition written (seq : Z) : LogSegmentFileMetadata :=
  {| md_log_id := 1; file_len := 5 * 4096;
     md_write := {| cur_log_id := 1; pos := {| metablocks_position := 4096 + 1024 * seq; datablocks_position := 16384;
                                               hc_wal_seq := seq; tip_hash := GENESIS_HASH |} |};
     md_read := None; datablocks_carry_over := None;
     md_last_received_replication_wal_seq := 0; md_last_self_acked_wal_seq := 0 |}.

Definition batch (seq : Z) : PendingCommitData :=
  {| log_metadata := written seq;
     pending_queue := [{| pci_metablock := sample_metablock; pci_datablock := None;
                          pci_metablock_absolute_pos := 4096 + 1024 * (seq - 1); pci_size_bytes := 2048 |}] |}.

Definition segments : OpenSegments := {| active := written 2; lru_cache := ∅ |}.

Definition queues : ReplicationQueues :=
  {| pending_replication_batches := []; pending_replication_bytes := 0; parked_commits := [batch 1; batch 2];
     parked_commit_bytes := 6144; replication_rollback_occurred := false |}.

Lemma parked : parked_ok segments queues.
Proof.
  split.
  - repeat constructor.
  - intros p Hp. cbn in Hp |- *. rewrite !elem_of_cons in Hp. destruct Hp as [->|[->|Hp]]; [by vm_compute..|by inversion Hp].
  - intros p md Hp. cbn in Hp. rewrite !elem_of_cons in Hp. destruct Hp as [->|[->|Hp]]; [by intros [= <-]..|by inversion Hp].
Qed.
End ParkedRun.

Lemma parked_drain_exact_witness : exists c' (m' : MemCache unit) q' fxs drained,
  @drain_parked_commits bincode_le crc_sum codec_id unit (fun _ _ => Ok tt) 1 ParkedRun.segments MemCache_new ParkedRun.queues = Some (c', m', q', fxs) /\
  [ParkedRun.batch 1; ParkedRun.batch 2] = drained ++ parked_commits q' /\ Forall (fun p => 1 < pcd_tip p) (parked_commits q').
Proof.
  destruct (@parked_drain_exact bincode_le crc_sum codec_id unit (fun _ _ => Ok tt) 1 ParkedRun.segments MemCache_new ParkedRun.queues
    ParkedRun.parked ltac:(by repeat constructor)) as (c' & m' & q' & fxs & drained & E & Ed & _ & Hk & _).
  exists c', m', q', fxs, drained. split; [exact E|]. split; [exact Ed|exact Hk].
Defined.
