(* ===== verification/Follower.v ===== *)
(** * The follower

    What a follower does with the batches its leader sends: the check of a
    batch and its way into the queue ([apply_external_batch] of
    [celeriant_shard/src/shard_wal_s3_catchup.rs]), the commits that wait for
    the leader's confirmation ([celeriant_memcache/src/shard_mem_cache.rs]),
    and the handler [handle_replication_batch] of
    [celeriant_shard/src/shard_wal.rs], cut at its fsync.  A batch that is
    accepted and synced makes the log of the follower the leader's log. *)

From S2P Require Import Prelude Lease WalConstants Codec WalTypes WalCodec DiskFormat HashChain Sbbf Datablock LogSegment MemCache LogSync FsyncCommit ReplicationQueues.

(** ** Messages *)

Record ReplicationBatchItem := {
  rbi_metablock : Metablock;
  rbi_datablock : option DatablockKind;
}.

Record ReplicationBatchRequest := {
  leader_timestamp_ms : Z;
  leader_confirmed_wal_seq : Z;
  sender_lease_epoch : Z;
  batches : list ReplicationBatchItem;
}.

Inductive FollowerRejection :=
  | NotAFollower
  | TimeDriftTooHigh (leader_ms follower_ms max_allowed_ms : Z)
  | RejectedWalSeqMismatch (max_follower_wal_seq : Z)
  | RejectedTipHashMismatch (follower : bytes) (follower_wal_seq : Z) (leader : bytes) (leader_wal_seq : Z)
  | EmptyBatch
  | RejectedMissingDatablock
  | StaleLease (follower_lease_epoch received_lease_epoch : Z).

Inductive ReplicationResult :=
  | ReplicationSuccess
  | Rejected (r : FollowerRejection).

Inductive ApplyBatchError :=
  | WalSeqMismatch (current batch_first : Z)
  | TipHashMismatch (current : bytes) (current_wal_seq : Z) (batch : bytes) (batch_wal_seq : Z)
  | BatchWalSeqGap (index : nat) (expected actual : Z)
  | MissingDatablock
  | BlockBecameInline
  | SerialiseDatablocks (e : CodecError).

(** ** apply_external_batch *)

Section apply.
Context `{Bincode, Crc32c, DictCodec} {V : Type}.
Implicit Types m : MemCache V.

(** The loop over [items.windows(2)]. *)
Fixpoint check_contiguous (i : nat) (items : list ReplicationBatchItem) : result ApplyBatchError unit :=
  match items with
  | a :: ((b :: _) as rest) =>
      let expected := wrapping_add 64 (wal_seq (rbi_metablock a)) 1 in
      if expected =? wal_seq (rbi_metablock b) then check_contiguous (S i) rest
      else Err (BatchWalSeqGap (S i) expected (wal_seq (rbi_metablock b)))
  | _ => Ok tt
  end.

(** The queue item of an entry: separate bodies are serialised again, with the
    compression the leader used. *)
Definition prepare_entry (item : ReplicationBatchItem) : result ApplyBatchError ShardLogQueueItem :=
  let mb := rbi_metablock item in
  match datablock mb with
  | StorageNone | StorageInline _ => Ok (ShardLogQueueItem_new None None mb)
  | StorageBlock _ =>
      match rbi_datablock item with
      | None => Err MissingDatablock
      | Some d =>
          ct ← map_err (fun _ => SerialiseDatablocks CodecErrorCompression) (CompressionType_from_byte (datablock_compression_type mb));
          serialized ← map_err SerialiseDatablocks (SerialisedDatablock_new d (Fixed ct));
          external ← ok_or (external_data serialized) BlockBecameInline;
          Ok (ShardLogQueueItem_new (Some d) (Some external) mb)
      end
  end.

Fixpoint prepare_entries (items : list ReplicationBatchItem) : result ApplyBatchError (list ShardLogQueueItem) :=
  match items with
  | [] => Ok []
  | item :: items => p ← prepare_entry item; ps ← prepare_entries items; Ok (p :: ps)
  end.

Definition queue_replicated_entries m (items : list ReplicationBatchItem) : result ApplyBatchError (MemCache V) :=
  _ ← check_contiguous 0 items;
  prepared ← prepare_entries items;
  Ok (add_to_pending_queue m prepared).

(** The entries that are not applied yet. *)
Fixpoint skip_applied (current_wal_seq : Z) (items : list ReplicationBatchItem) : list ReplicationBatchItem :=
  match items with
  | [] => []
  | item :: rest => if current_wal_seq <? wal_seq (rbi_metablock item) then items else skip_applied current_wal_seq rest
  end.

Definition apply_external_batch (active : LogSegmentFileMetadata) m (items : list ReplicationBatchItem)
    : result ApplyBatchError (MemCache V) :=
  let current := pos (md_write active) in
  match skip_applied (hc_wal_seq current) items with
  | [] => Ok m
  | first :: rest =>
      let batch_wal_seq := wal_seq (rbi_metablock first) in
      let batch_tip_hash := previous_tip_hash (rbi_metablock first) in
      if negb (saturating_add 64 (hc_wal_seq current) 1 =? batch_wal_seq)
      then Err (WalSeqMismatch (hc_wal_seq current) batch_wal_seq)
      else if negb (bool_decide (tip_hash current = batch_tip_hash))
      then Err (TipHashMismatch (tip_hash current) (hc_wal_seq current) batch_tip_hash batch_wal_seq)
      else queue_replicated_entries m (first :: rest)
  end.
End apply.

(** ** observed_leader.rs *)

Record ObservedLeaderTarget := {
  ol_lease_epoch : Z;
  ol_wal_seq : Z;
}.

Definition ObservedLeaderTarget_new : ObservedLeaderTarget := {| ol_lease_epoch := 0; ol_wal_seq := 0 |}.

Definition teach (o : ObservedLeaderTarget) (batch_lease_epoch observed_wal_seq : Z) : ObservedLeaderTarget :=
  let taught_epoch := ol_lease_epoch o in
  if taught_epoch <? batch_lease_epoch then {| ol_lease_epoch := batch_lease_epoch; ol_wal_seq := observed_wal_seq |}
  else if (batch_lease_epoch =? taught_epoch) && (ol_wal_seq o <? observed_wal_seq)
  then {| ol_lease_epoch := ol_lease_epoch o; ol_wal_seq := observed_wal_seq |}
  else o.

Definition target_for (o : ObservedLeaderTarget) (current_leader_epoch : option Z) : Z :=
  match current_leader_epoch with
  | Some known => if ol_lease_epoch o <? known then 0 else ol_wal_seq o
  | None => ol_wal_seq o
  end.

(** ** handle_replication_batch *)

Inductive FollowerReplicationWriteError :=
  | ShardFSyncError (e : ShardFsyncError)
  | FailedToSerialiseDatablocks (e : CodecError)
  | FollowerBlockBecameInline
  | FollowerBatchWalSeqGap (index : nat) (expected actual : Z).

Record ReplicationBatchResponse := {
  follower_timestamp_ms : Z;
  rb_result : ReplicationResult;
}.

(** The state of the shard the handler works on. *)
Record FollowerShard (V : Type) := {
  fs_cache : MemCache V;
  fs_queues : ReplicationQueues;
  fs_segments : OpenSegments;
  fs_observed : ObservedLeaderTarget;
}.
Arguments fs_cache {V} _.
Arguments fs_queues {V} _.
Arguments fs_segments {V} _.
Arguments fs_observed {V} _.

(** What the handler reads once: the clock ([None] before the epoch), the flag
    of the catch-up, the status of the node and the configured drift. *)
Record HandlerEnv := {
  he_now : option Z;
  he_s3_catchup_in_flight : bool;
  he_node_status : ValidatedNodeStatus;
  he_max_clock_drift_ms : Z;
}.

(** The handler either answers before its fsync or goes on to it. *)
Inductive BatchProgress :=
  | Answered (response : ReplicationBatchResponse)
  | AwaitSync (follower_timestamp_ms : Z).

Section handler.
Context `{Bincode, Crc32c, DictCodec} {V : Type} `{SchemaCompiler V}.
Implicit Types st : FollowerShard V.

Definition record_observed_leader st (req : ReplicationBatchRequest) : FollowerShard V :=
  match last (batches req) with
  | Some item =>
      {| fs_cache := fs_cache st; fs_queues := fs_queues st; fs_segments := fs_segments st;
         fs_observed := teach (fs_observed st) (sender_lease_epoch req) (wal_seq (rbi_metablock item)) |}
  | None => st
  end.

(** The promotion floor and the drain of the parked commits. *)
Definition carry st (confirmed : Z) : option (FollowerShard V) :=
  let c := update_promotion_floor confirmed (fs_segments st) in
  '(c, m, q, _) ← drain_parked_commits confirmed c (fs_cache st) (fs_queues st);
  Some {| fs_cache := m; fs_queues := q; fs_segments := c; fs_observed := fs_observed st |}.

(** What the handler makes of the answer of [apply_external_batch]. *)
Definition applied st (req : ReplicationBatchRequest) (now : Z) (r : result ApplyBatchError (MemCache V))
    : option (FollowerShard V * result FollowerReplicationWriteError BatchProgress) :=
  let reject st rej := Some (st, Ok (Answered {| follower_timestamp_ms := now; rb_result := Rejected rej |})) in
  match r with
  | Ok m =>
      st ← carry {| fs_cache := m; fs_queues := fs_queues st; fs_segments := fs_segments st; fs_observed := fs_observed st |}
             (leader_confirmed_wal_seq req);
      Some (st, Ok (AwaitSync now))
  | Err (WalSeqMismatch current _) => reject (record_observed_leader st req) (RejectedWalSeqMismatch current)
  | Err (TipHashMismatch current current_wal_seq batch batch_wal_seq) =>
      reject (record_observed_leader st req) (RejectedTipHashMismatch current current_wal_seq batch batch_wal_seq)
  | Err MissingDatablock => reject st RejectedMissingDatablock
  | Err (SerialiseDatablocks e) => Some (st, Err (FailedToSerialiseDatablocks e))
  | Err BlockBecameInline => Some (st, Err FollowerBlockBecameInline)
  | Err (BatchWalSeqGap index expected actual) => Some (st, Err (FollowerBatchWalSeqGap index expected actual))
  end.

(** Up to the fsync. *)
Definition begin_replication_batch (env : HandlerEnv) st (req : ReplicationBatchRequest)
    : option (FollowerShard V * result FollowerReplicationWriteError BatchProgress) :=
  match he_now env with
  | None =>
      Some (st, Ok (Answered {| follower_timestamp_ms := 0;
        rb_result := Rejected (TimeDriftTooHigh (leader_timestamp_ms req) 0 (he_max_clock_drift_ms env)) |}))
  | Some now =>
      let reject rej := Some (st, Ok (Answered {| follower_timestamp_ms := now; rb_result := Rejected rej |})) in
      if he_s3_catchup_in_flight env then reject NotAFollower
      else match effective_node_status (he_node_status env) now with
      | Follower leader_lease_epoch =>
          if he_max_clock_drift_ms env <? saturating_sub now (leader_timestamp_ms req)
          then reject (TimeDriftTooHigh (leader_timestamp_ms req) now (he_max_clock_drift_ms env))
          else if sender_lease_epoch req <? leader_lease_epoch
          then reject (StaleLease leader_lease_epoch (sender_lease_epoch req))
          else match batches req with
          | [] =>
              st ← carry st (leader_confirmed_wal_seq req);
              Some (st, Ok (Answered {| follower_timestamp_ms := now; rb_result := ReplicationSuccess |}))
          | _ => applied st req now (apply_external_batch (active (fs_segments st)) (fs_cache st) (batches req))
          end
      | _ => reject NotAFollower
      end
  end.

(** From the answer of the fsync on. *)
Definition finish_replication_batch st (req : ReplicationBatchRequest) (now : Z) (synced : result ShardFsyncError unit)
    : option (FollowerShard V * result FollowerReplicationWriteError ReplicationBatchResponse) :=
  match synced with
  | Err e => Some (st, Err (ShardFSyncError e))
  | Ok _ =>
      '(c, m, q, _) ← drain_parked_commits (leader_confirmed_wal_seq req) (fs_segments st) (fs_cache st) (fs_queues st);
      Some ({| fs_cache := m; fs_queues := q; fs_segments := c; fs_observed := fs_observed st |},
            Ok {| follower_timestamp_ms := now; rb_result := ReplicationSuccess |})
  end.
End handler.

(** ** The logs of leader and follower *)

(** The metablocks of a shard from its first entry on, over all segments. *)
Record history `{Bincode, Crc32c, Blake3} (ms : list Metablock) (tip : bytes) : Prop := {
  hi_wf : Forall wf_metablock ms;
  hi_seq i m : ms !! i = Some m -> wal_seq m = 1 + Z.of_nat i;
  hi_chain : chain_ok GENESIS_HASH ms tip;
}.

Section chains.
Context `{Bincode, Crc32c, Blake3}.

Lemma chain_ok_split t ms1 ms2 last : chain_ok t (ms1 ++ ms2) last ->
  exists mid, chain_ok t ms1 mid /\ chain_ok mid ms2 last.
Proof.
  revert t. induction ms1 as [|m ms1 IH]; intros t; cbn; [by eauto|].
  intros (E & t' & Ht & (mid & Hc & Hc')%IH). eauto 10.
Qed.

Lemma chain_ok_fun t ms a b : chain_ok t ms a -> chain_ok t ms b -> a = b.
Proof.
  revert t. induction ms as [|m ms IH]; intros t; cbn; [by intros -> ->|].
  intros (_ & t1 & E1 & Ha) (_ & t2 & E2 & Hb). rewrite E1 in E2. injection E2 as <-. by eapply IH.
Qed.

Lemma chain_ok_mid t ms1 ms2 mid last : chain_ok t (ms1 ++ ms2) last -> chain_ok t ms1 mid -> chain_ok mid ms2 last.
Proof. intros (mid' & H1' & H2')%chain_ok_split Hm. by rewrite (chain_ok_fun _ _ _ _ Hm H1'). Qed.

(** Chains that agree up to the local fields have the same tip. *)
Lemma erased_chain_tip t ms ms' a b : Forall wf_metablock ms -> Forall wf_metablock ms' ->
  erase_local <$> ms = erase_local <$> ms' -> chain_ok t ms a -> chain_ok t ms' b -> a = b.
Proof.
  intros Hms. revert t ms'. induction Hms as [|m ms Hm _ IH]; intros t [|m' ms'] Hms' E; cbn; [by intros -> ->|done..|].
  cbn in E. apply cons_eq_inj in E as [Em E]. inversion_clear Hms' as [|? ? Hm' Hms]. intros (_ & t1 & E1 & Ha) (_ & t2 & E2 & Hb).
  destruct (erased_same_tip t m m') as (t' & E1' & E2'); [done..|]. rewrite E1 in E1'. rewrite E2 in E2'. simplify_eq.
  by eapply IH.
Qed.

Lemma chain_ok_foldM t ms last : chain_ok t ms last -> foldM advance_tip ms t = Some last.
Proof.
  revert t. induction ms as [|m ms IH]; intros t; cbn; [by intros ->|]. intros (_ & t' & -> & Hc). by apply IH.
Qed.

Lemma history_take ms tip n : history ms tip -> exists t, history (take n ms) t /\ chain_ok t (drop n ms) tip.
Proof.
  intros [Hwf Hseq Hc]. rewrite <- (take_drop n ms) in Hc. apply chain_ok_split in Hc as (t & Hc & Hc').
  exists t. split; [|done]. split; [by apply Forall_take| |done].
  intros i m Hm. apply Hseq. apply lookup_take_Some in Hm. apply Hm.
Qed.

Lemma chain_tip_length t ms tip : length t = 32%nat -> Forall wf_metablock ms -> chain_ok t ms tip -> length tip = 32%nat.
Proof.
  intros Ht Hms. revert t Ht. induction Hms as [|m ms Hm _ IH]; intros t Ht; cbn; [by intros ->|].
  intros (_ & t' & E & Hc). destruct (advance_tip_Some t m Hm) as (pre & _ & E'). rewrite E in E'. injection E' as ->.
  eapply IH; [apply blake3_32|done].
Qed.

(** Entries stamped by a follower with the sequence numbers of the leader. *)
Lemma stamped_agree t ms items a b :
  Forall wf_metablock ms -> Forall wf_metablock (qi_metablock <$> items) ->
  Forall2 (fun m item => (exists d p w t', qi_metablock item = stamp_metablock m d p w t') /\ wal_seq (qi_metablock item) = wal_seq m) ms items ->
  chain_ok t ms a -> chain_ok t (qi_metablock <$> items) b ->
  erase_local <$> (qi_metablock <$> items) = erase_local <$> ms.
Proof.
  intros Hms Hits Hf. revert t Hms Hits. induction Hf as [|m item ms items ((d & p & w & t' & E) & Hw) _ IH]; intros t Hms Hits; cbn; [done|].
  inversion_clear Hms as [|? ? Hm Hms']. cbn in Hits. inversion_clear Hits as [|? ? Hm' Hits'].
  intros (Ht & t1 & E1 & Ha) (Ht' & t2 & E2 & Hb).
  assert (Eq : erase_local (qi_metablock item) = erase_local m).
  { rewrite E in *. unfold erase_local. cbn in *. by rewrite Hw, Ht, Ht'. }
  f_equal; [done|]. destruct (erased_same_tip t (qi_metablock item) m) as (t3 & E3 & E4); [done..|].
  rewrite E2 in E3. rewrite E1 in E4. simplify_eq. by eapply IH.
Qed.
End chains.

(** ** A batch the follower accepts *)

(** The item of a batch that carries an entry of the leader's log, whose body
    was serialised when the entry was written. *)
Definition carries `{Bincode, Crc32c, DictCodec} (e : LogEntry) (item : ReplicationBatchItem) : Prop :=
  rbi_metablock item = le_metablock e /\
  match datablock (le_metablock e) with
  | StorageBlock _ => exists d policy s b, rbi_datablock item = Some d /\ SerialisedDatablock_new d policy = Ok s /\
      sdb_compression_type s = datablock_compression_type (le_metablock e) /\ external_data s = Some b /\ le_data e = Some b
  | StorageNone | StorageInline _ => le_data e = None
  end.

(** A queue item prepared from an entry. *)
Definition prepared_from (e : LogEntry) (p : ShardLogQueueItem) : Prop :=
  qi_metablock p = le_metablock e /\ datablock_bytes p = le_data e /\
  forall b, datablock_bytes p = Some b -> b <> [] /\ is_Some (qi_datablock p).

Section accepted.
Context `{Bincode, Crc32c, DictCodec} {V : Type}.
Implicit Types m : MemCache V.

Lemma prepare_carried e item : carries e item -> exists p, prepare_entry item = Ok p /\ prepared_from e p.
Proof.
  intros [Em Hd]. unfold prepare_entry. rewrite Em. destruct (datablock (le_metablock e)) as [|mini|crc].
  1, 2: by (eexists; split; [done|]; split; [done|]; split; [by rewrite Hd|done]).
  destruct Hd as (d & policy & s & b & -> & Es & Ect & Eb & El).
  assert (Hn : (MINIBATCH_SIZE_BYTES <= DEFAULT_AUTO_STACK_SCRATCH_BYTES)%nat) by (apply Nat.leb_le; vm_compute; reflexivity).
  destruct (reserialise_fixed _ d policy s Hn Es) as (ct & E1 & E2). rewrite Ect in E1. rewrite E1. cbn [map_err mbind result_bind].
  unfold SerialisedDatablock_new, new_with_stack_scratch. rewrite E2. cbn [map_err mbind result_bind].
  rewrite Eb. cbn [ok_or mbind result_bind]. eexists. split; [done|]. split; [done|]. split; [by rewrite El|].
  cbn. intros b' [= <-]. split; [by eapply external_nonempty|by eexists].
Qed.

Lemma prepare_all es items : Forall2 carries es items ->
  exists ps, prepare_entries items = Ok ps /\ Forall2 prepared_from es ps.
Proof.
  induction 1 as [|e item es items Hc _ (ps & E & Hps)]; cbn [prepare_entries]; [by eauto|].
  destruct (prepare_carried _ _ Hc) as (p & -> & Hp). cbn. rewrite E. cbn. eauto.
Qed.

Lemma contiguous_carried i base es items : Forall2 carries es items ->
  (forall j e, es !! j = Some e -> wal_seq (le_metablock e) = base + Z.of_nat j) -> 0 <= base -> base + Z.of_nat (length es) < 2 ^ 64 ->
  check_contiguous i items = Ok tt.
Proof.
  intros Hc. revert i base. induction Hc as [|e item es items [Em _] Hc IH]; intros i base Hseq Hb Hl; [done|].
  destruct Hc as [|e' item' es items [Em' _] Hc]; [done|].
  assert (Hstep : check_contiguous i (item :: item' :: items) =
    let expected := wrapping_add 64 (wal_seq (rbi_metablock item)) 1 in
    if expected =? wal_seq (rbi_metablock item') then check_contiguous (S i) (item' :: items)
    else Err (BatchWalSeqGap (S i) expected (wal_seq (rbi_metablock item')))) by done.
  rewrite Hstep. cbv zeta. clear Hstep. rewrite Em, Em', (Hseq 0%nat e eq_refl), (Hseq 1%nat e' eq_refl). cbn [length] in Hl.
  unfold wrapping_add. rewrite wrap_small by (unfold fits; lia). rewrite (proj2 (Z.eqb_eq _ _)) by lia.
  apply (IH _ (base + 1)); [|cbn [length]; lia..]. intros j x Hx. rewrite (Hseq (S j) x Hx). lia.
Qed.

Lemma skip_carried w base es items : Forall2 carries es items ->
  (forall j e, es !! j = Some e -> wal_seq (le_metablock e) = base + Z.of_nat j) -> base <= w + 1 ->
  skip_applied w items = drop (Z.to_nat (w + 1 - base)) items.
Proof.
  intros Hc. revert base. induction Hc as [|e item es items [Em _] Hc IH]; intros base Hseq Hb; cbn [skip_applied].
  { by rewrite drop_nil. }
  rewrite Em, (Hseq 0%nat e eq_refl). destruct (Z.ltb_spec w (base + Z.of_nat 0)).
  - by replace (Z.to_nat (w + 1 - base)) with 0%nat by lia.
  - replace (Z.to_nat (w + 1 - base)) with (S (Z.to_nat (w + 1 - (base + 1)))) by lia. cbn [drop].
    apply (IH (base + 1)); [|lia]. intros j x Hx. rewrite (Hseq (S j) x Hx). lia.
Qed.

(** What the follower answers to entries [lo..] of the leader's log that reach
    past its own cursor: only the tip is left to compare. *)
Lemma apply_carried (active : LogSegmentFileMetadata) (lo : nat) es items :
  let cur := pos (md_write active) in
  let ahead := drop (Z.to_nat (hc_wal_seq cur) - lo) es in
  Forall2 carries es items -> (forall j e, es !! j = Some e -> wal_seq (le_metablock e) = 1 + Z.of_nat (lo + j)) ->
  Z.of_nat lo <= hc_wal_seq cur < Z.of_nat (lo + length es) -> Z.of_nat (lo + length es) < 2 ^ 64 - 1 ->
  exists e ps, head ahead = Some e /\ Forall2 prepared_from ahead ps /\ forall m,
    apply_external_batch active m items =
      if bool_decide (tip_hash cur = previous_tip_hash (le_metablock e))
      then Ok (add_to_pending_queue m ps)
      else Err (TipHashMismatch (tip_hash cur) (hc_wal_seq cur) (previous_tip_hash (le_metablock e)) (hc_wal_seq cur + 1)).
Proof.
  cbv zeta. set (cur := pos (md_write active)). set (k := (Z.to_nat (hc_wal_seq cur) - lo)%nat). intros Hc Hseq Hlo Hb.
  assert (Hc' : Forall2 carries (drop k es) (drop k items)) by by apply Forall2_drop.
  assert (Hseq' : forall j e, drop k es !! j = Some e -> wal_seq (le_metablock e) = hc_wal_seq cur + 1 + Z.of_nat j).
  { intros j e. rewrite lookup_drop. intros He. rewrite (Hseq _ _ He). unfold k. lia. }
  assert (Hl : length (drop k es) = (length es - k)%nat) by apply length_drop.
  destruct (prepare_all _ _ Hc') as (ps & Eps & Hps).
  pose proof (contiguous_carried 0 _ _ _ Hc' Hseq' ltac:(lia) ltac:(lia)) as Hcont.
  unfold apply_external_batch. fold cur.
  rewrite (skip_carried _ (1 + Z.of_nat lo) es items Hc) by (lia || (intros j e He; rewrite (Hseq _ _ He); lia)).
  replace (Z.to_nat (hc_wal_seq cur + 1 - (1 + Z.of_nat lo))) with k by lia.
  destruct Hc' as [|e item es' items' Hci Hc']; [cbn in Hl; lia|].
  exists e, ps. split; [done|]. split; [done|]. intros m. destruct Hci as [Em _]. rewrite Em, (Hseq' 0%nat e eq_refl), Z.add_0_r.
  unfold saturating_add at 1. replace (Z.min _ _) with (hc_wal_seq cur + 1) by lia. rewrite Z.eqb_refl. cbn [negb].
  case_bool_decide; [|done]. cbn [negb]. unfold queue_replicated_entries. rewrite Hcont. cbn [mbind result_bind]. by rewrite Eps.
Qed.
End accepted.

(** The log of a node: [prior] in sealed segments, [log] in the active one. *)
Record node_log `{Bincode, Crc32c, Blake3, Xxh3} (seg : LogSegmentFile) (tip0 : bytes) (prior : list Metablock) (log : list LogEntry) : Prop := {
  nl_holds : segment_holds seg tip0 log;
  nl_prior : history prior tip0;
  nl_seq : hc_wal_seq (wcur seg) = Z.of_nat (length prior + length log);
}.

Section agreement.
Context `{Bincode, Crc32c, DictCodec, Blake3, Xxh3}.

Lemma node_history seg tip0 prior log : node_log seg tip0 prior log ->
  history (prior ++ (le_metablock <$> log)) (tip_hash (wcur seg)).
Proof.
  intros [Hh Hp Hs]. split.
  - apply Forall_app. split; [apply Hp|]. apply Forall_fmap, Forall_lookup. intros i e He.
    by destruct (sh_entry _ _ _ Hh i e He) as (_ & _ & ? & _).
  - intros i m. rewrite lookup_app_Some. intros [Hi|[Hi Hm]]; [by apply Hp|].
    apply list_lookup_fmap_Some in Hm as (e & -> & He). destruct (sh_entry _ _ _ Hh _ e He) as (_ & -> & _). lia.
  - eapply chain_ok_app; [apply Hp|apply Hh].
Qed.

(** The tip decides whether two histories agree up to an entry. *)
Lemma tip_decides F L tF tL e : history F tF -> history L tL -> L !! length F = Some e ->
  (erase_local <$> F = erase_local <$> take (length F) L -> tF = previous_tip_hash e) /\
  (tF = previous_tip_hash e -> erase_local <$> F = erase_local <$> take (length F) L \/
    collision GENESIS_HASH F GENESIS_HASH (take (length F) L)).
Proof.
  intros HF HL He. destruct (history_take L tL (length F) HL) as (t & Ht & Hd).
  rewrite (drop_S _ _ _ He) in Hd. cbn in Hd. destruct Hd as [E _]. rewrite E.
  pose proof (lookup_lt_Some _ _ _ He) as Hlt. split.
  - intros Ha. eapply (erased_chain_tip GENESIS_HASH); [apply HF|apply Ht|done|apply HF|apply Ht].
  - intros ->. destruct (same_tip_same_chain F (take (length F) L) GENESIS_HASH GENESIS_HASH t) as [[_ ?]|?]; try tauto; try done.
    + rewrite length_take. lia.
    + apply HF.
    + apply Ht.
    + apply chain_ok_foldM, HF.
    + apply chain_ok_foldM, Ht.
Qed.

Lemma prepared_batch seg ahead ps : Forall2 prepared_from ahead ps -> ahead <> [] ->
  Forall wf_metablock (le_metablock <$> ahead) -> total_required ps <= md_available_space (metadata seg) ->
  hc_wal_seq (wcur seg) + Z.of_nat (length ahead) < 2 ^ 64 -> batch_ok seg ps.
Proof.
  intros Hps Hne Hwf Hsp Hseq. pose proof (Forall2_length _ _ _ Hps) as Hl. split; [|clear Hl|done|by rewrite <- Hl].
  - by intros ->; destruct ahead.
  - clear -Hps Hwf. induction Hps as [|e p es ps (Em & Ed & Hb) _ IH]; constructor.
    + inversion_clear Hwf. split; [by rewrite Em|done].
    + apply IH. by inversion Hwf.
Qed.
(** The log of the follower is the leader's, up to the fields local to a node. *)
Definition agrees (prior : list Metablock) (log lead : list LogEntry) : Prop :=
  erase_local <$> (prior ++ (le_metablock <$> log)) = erase_local <$> (le_metablock <$> take (length prior + length log) lead).

Lemma prepared_stamped base ahead queue items :
  Forall2 prepared_from ahead queue -> Forall2 stamped_from queue items ->
  (forall i e, ahead !! i = Some e -> wal_seq (le_metablock e) = base + Z.of_nat i) ->
  (forall i item, items !! i = Some item -> wal_seq (qi_metablock item) = base + Z.of_nat i) ->
  le_data <$> (entry_of <$> items) = le_data <$> ahead /\
  Forall2 (fun m item => (exists d p w t', qi_metablock item = stamp_metablock m d p w t') /\ wal_seq (qi_metablock item) = wal_seq m)
    (le_metablock <$> ahead) items.
Proof.
  intros Hp. revert base items. induction Hp as [|e p ahead queue (Em & Ed & _) _ IH]; intros base items Hs Ha Hi.
  { inversion Hs. by split. }
  inversion Hs as [|? x ? xs ((d & q & w & t & E) & E2 & _) Hs' Eq]; subst.
  destruct (IH (base + 1) xs Hs') as [IHd IHf].
  { intros i y Hy. rewrite (Ha (S i) y Hy). lia. }
  { intros i y Hy. rewrite (Hi (S i) y Hy). lia. }
  split.
  - cbn. rewrite IHd. f_equal. congruence.
  - cbn. constructor; [|done]. split; [rewrite E, Em; by eexists _, _, _, _|].
    by rewrite (Ha 0%nat e eq_refl), (Hi 0%nat x eq_refl).
Qed.

Context (recycled : nat -> bytes) (Hrecycled : forall i, length (recycled i) = FIXED_BLOCK_SIZE_BYTES).
Context (dma_alignment : Z) (Hdma : dma_alignment <= MIN_WRITE_ALIGNMENT).
Context (header_buffer : bytes) (Hheader : length header_buffer = HEADER_BLOCK_SIZE_BYTES).

(** A prepared batch, once synced, extends the log of the node. *)
Lemma synced_log seg tip0 prior log ahead s ct io snapshot md file :
  node_log seg tip0 prior log -> Forall2 prepared_from ahead (sps_queue s) -> batch_ok seg (sps_queue s) ->
  sync recycled dma_alignment header_buffer seg s ct io = Done (snapshot, md, file) ->
  node_log (install_batch file md (sps_queue snapshot)) tip0 prior (log ++ (entry_of <$> sps_queue snapshot)) /\
  length (sps_queue snapshot) = length ahead /\ Forall2 stamped_from (sps_queue s) (sps_queue snapshot) /\
  forall i item, sps_queue snapshot !! i = Some item -> wal_seq (qi_metablock item) = hc_wal_seq (wcur seg) + 1 + Z.of_nat i.
Proof.
  intros Hn Hp Hb Hs. destruct (sync_completed _ _ _ _ _ _ _ _ _ _ Hs) as (plan & Hplan & Hio & _).
  destruct (sync_refines_append recycled dma_alignment header_buffer seg s ct tip0 log) as (plan' & Hplan' & Happ); [done..|apply Hn|done|].
  rewrite Hplan in Hplan'. injection Hplan' as <-. destruct (Happ io Hio) as (sn & md' & f & E & Hh & Hst & _).
  rewrite Hs in E. apply Done_inj in E. injection E as <- <- <-. pose proof (nl_seq _ _ _ _ Hn) as Hseq.
  destruct (sync_returns _ _ _ _ _ _ _ _ _ _ Hs) as (_ & _ & Hw). destruct Hw as [Hw Hi]; [lia|apply Hb|].
  pose proof (Forall2_length _ _ _ Hp) as Hl1. pose proof (Forall2_length _ _ _ Hst) as Hl2.
  split; [|split; [by rewrite <- Hl2|done]]. split; [done|apply Hn|].
  rewrite length_app, length_fmap. unfold wcur in *. cbn [install_batch metadata]. lia.
Qed.

Lemma synced_agrees seg tip0 prior log front ahead rest tipL s ct :
  node_log seg tip0 prior log -> history (le_metablock <$> front ++ ahead ++ rest) tipL ->
  length front = (length prior + length log)%nat -> agrees prior log (front ++ ahead ++ rest) ->
  Forall2 prepared_from ahead (sps_queue s) -> batch_ok seg (sps_queue s) ->
  exists plan, sync_plan recycled dma_alignment seg s ct = Done plan /\ forall io, io_complete plan io ->
  exists snapshot md file, sync recycled dma_alignment header_buffer seg s ct io = Done (snapshot, md, file) /\
    let new := entry_of <$> sps_queue snapshot in
    node_log (install_batch file md (sps_queue snapshot)) tip0 prior (log ++ new) /\
    agrees prior (log ++ new) (front ++ ahead ++ rest) /\ le_data <$> new = le_data <$> ahead.
Proof.
  intros Hn HL Hf Hag Hp Hb. pose proof (nl_seq _ _ _ _ Hn) as Hseq.
  destruct (sync_refines_append recycled dma_alignment header_buffer seg s ct tip0 log) as (plan & Hplan & Hio); [done..|apply Hn|done|].
  exists plan. split; [done|]. intros io (snapshot & md & file & Hs & _)%Hio. exists snapshot, md, file. split; [done|].
  cbv zeta. destruct (synced_log _ _ _ _ _ _ _ _ _ _ _ Hn Hp Hb Hs) as (Hnl & Hl & Hst & Hi). split; [done|].
  destruct (prepared_stamped (hc_wal_seq (wcur seg) + 1) ahead _ _ Hp Hst) as [Hd Hf2]; [|done|].
  { intros i e He. rewrite (hi_seq _ _ HL (length front + i)); [lia|].
    rewrite list_lookup_fmap, lookup_app_r, Nat.add_comm, Nat.add_sub by lia. by rewrite lookup_app_l, He by (apply lookup_lt_Some in He; lia). }
  split; [|done]. clear Hd Hi.
  pose proof (node_history _ _ _ _ Hnl) as [HwF _ HcF]. pose proof (node_history _ _ _ _ Hn) as HF.
  rewrite fmap_app in HwF, HcF. rewrite app_assoc in HwF, HcF. pose proof (hi_wf _ _ HL) as HwL. pose proof (hi_chain _ _ HL) as HcL.
  rewrite !fmap_app in HwL, HcL. apply chain_ok_split in HcL as (t & Hc1 & (t' & Hc2 & _)%chain_ok_split).
  apply Forall_app in HwF as [HwF HwN]. apply Forall_app in HwL as [HwL1 [HwL2 _]%Forall_app].
  unfold agrees in *. rewrite <- Hf, take_app_length in Hag.
  assert (Et : tip_hash (wcur seg) = t) by (eapply (erased_chain_tip GENESIS_HASH); [| |exact Hag|apply HF|]; done).
  pose proof (chain_ok_mid _ _ _ _ _ HcF (hi_chain _ _ HF)) as HcN. rewrite Et in HcN.
  rewrite length_app, length_fmap, Hl, Nat.add_assoc, <- Hf, (app_assoc front), take_app_length' by by rewrite length_app.
  rewrite (fmap_app le_metablock log), app_assoc, (fmap_app erase_local (prior ++ _)), Hag, !fmap_app. f_equal.
  assert (Emb : le_metablock <$> (entry_of <$> sps_queue snapshot) = qi_metablock <$> sps_queue snapshot)
    by by rewrite <- list_fmap_compose.
  rewrite Emb in HcN, HwN |- *. by eapply stamped_agree.
Qed.

End agreement.

(** ** A batch that is sent twice *)

(** The guards of the handler let a request through. *)
Record admitted (env : HandlerEnv) (req : ReplicationBatchRequest) (now : Z) : Prop := {
  ad_now : he_now env = Some now;
  ad_ready : he_s3_catchup_in_flight env = false;
  ad_epoch : exists epoch, effective_node_status (he_node_status env) now = Follower epoch /\ epoch <= sender_lease_epoch req;
  ad_drift : saturating_sub now (leader_timestamp_ms req) <= he_max_clock_drift_ms env;
}.

(** The capture of the fsync takes the queue; the cursors move when it ends. *)
Definition in_flight {V} (st : FollowerShard V) : FollowerShard V :=
  {| fs_cache := (take_sync_positions_snapshot (fs_cache st)).1; fs_queues := fs_queues st;
     fs_segments := fs_segments st; fs_observed := fs_observed st |}.

Section resent.
Context `{Bincode, Crc32c, DictCodec, Blake3, Xxh3} {V : Type} `{SchemaCompiler V}.
Implicit Types st : FollowerShard V.

(** With nothing parked a carrier moves read cursors only. *)
Lemma carry_idle st confirmed : parked_commits (fs_queues st) = [] ->
  exists st', carry st confirmed = Some st' /\ fs_cache st' = fs_cache st /\ parked_commits (fs_queues st') = [] /\
    md_write (active (fs_segments st')) = md_write (active (fs_segments st)).
Proof.
  intros Hp. unfold carry, drain_parked_commits. set (c := update_promotion_floor confirmed (fs_segments st)).
  assert (Hw : md_write (active c) = md_write (active (fs_segments st))) by (unfold c, update_promotion_floor; by case_match).
  destruct (_ <=? _); [by eexists; repeat split|].
  unfold drain_parked_commits_up_to. rewrite Hp. cbn [drain_front commit_pcds mbind option_bind].
  eexists. split; [done|]. split; [done|]. split; [done|]. cbn [fs_segments]. by destruct (_ && _).
Qed.

Lemma begin_admitted env st req now m' :
  admitted env req now -> batches req <> [] -> parked_commits (fs_queues st) = [] ->
  apply_external_batch (active (fs_segments st)) (fs_cache st) (batches req) = Ok m' ->
  exists st', begin_replication_batch env st req = Some (st', Ok (AwaitSync now)) /\ fs_cache st' = m' /\
    parked_commits (fs_queues st') = [] /\ md_write (active (fs_segments st')) = md_write (active (fs_segments st)).
Proof.
  intros [En Er (epoch & Ee & Hep) Hd] Hb Hp Happ. unfold begin_replication_batch. rewrite En, Er, Ee.
  destruct (Z.ltb_spec (he_max_clock_drift_ms env) (saturating_sub now (leader_timestamp_ms req))); [lia|].
  destruct (Z.ltb_spec (sender_lease_epoch req) epoch); [lia|]. destruct (batches req) as [|b bs]; [done|].
  rewrite Happ. cbn [applied].
  destruct (carry_idle {| fs_cache := m'; fs_queues := fs_queues st; fs_segments := fs_segments st; fs_observed := fs_observed st |}
    (leader_confirmed_wal_seq req)) as (st' & -> & Ec & Hp' & Hw); [done|].
  exists st'. by repeat split.
Qed.

(** C27: a request the follower does not take changes nothing.  A request of a
    leader whose lease epoch the follower knows to be over, from a clock that
    drifted too far, or to a node that is not a follower is rejected and leaves
    the shard as it was; and whenever the handler stops before the fsync
    without success, caches, queues and cursors are as before. *)
Theorem refused_request_harmless (env : HandlerEnv) st (req : ReplicationBatchRequest) :
  ((forall now, ~ admitted env req now) -> exists t rej,
     begin_replication_batch env st req = Some (st, Ok (Answered {| follower_timestamp_ms := t; rb_result := Rejected rej |}))) /\
  (forall st' r, begin_replication_batch env st req = Some (st', r) ->
     (forall now, r <> Ok (AwaitSync now)) -> (forall t, r <> Ok (Answered {| follower_timestamp_ms := t; rb_result := ReplicationSuccess |})) ->
     fs_cache st' = fs_cache st /\ fs_queues st' = fs_queues st /\ fs_segments st' = fs_segments st).
Proof.
  unfold begin_replication_batch. split.
  - intros Hno. destruct (he_now env) as [now|] eqn:En; [|by eexists _, _]. destruct (he_s3_catchup_in_flight env) eqn:Ec; [by eexists _, _|].
    destruct (effective_node_status (he_node_status env) now) as [|epoch| | | | |] eqn:Ee; try by eexists _, _.
    destruct (Z.ltb_spec (he_max_clock_drift_ms env) (saturating_sub now (leader_timestamp_ms req))); [by eexists _, _|].
    destruct (Z.ltb_spec (sender_lease_epoch req) epoch); [by eexists _, _|]. destruct (Hno now). split; eauto.
  - intros st' r Hb Hs Ha. destruct (he_now env) as [now|]; [|by injection Hb as <- <-].
    destruct (he_s3_catchup_in_flight env); [by injection Hb as <- <-|].
    destruct (effective_node_status (he_node_status env) now); try by injection Hb as <- <-.
    destruct (_ <? saturating_sub _ _); [by injection Hb as <- <-|]. destruct (_ <? _); [by injection Hb as <- <-|].
    destruct (batches req) as [|b bs] eqn:Eb.
    { destruct (carry st _); [|done]. injection Hb as <- <-. by destruct (Ha now). }
    unfold applied in Hb. destruct (apply_external_batch _ _ _) as [m|e].
    { destruct (carry _ _); [|done]. injection Hb as <- <-. by destruct (Hs now). }
    assert (Hro : fs_cache (record_observed_leader st req) = fs_cache st /\ fs_queues (record_observed_leader st req) = fs_queues st /\
      fs_segments (record_observed_leader st req) = fs_segments st) by (unfold record_observed_leader; by destruct (last _)).
    by destruct e; injection Hb as <- <-.
Qed.

Context (recycled : nat -> bytes) (Hrecycled : forall i, length (recycled i) = FIXED_BLOCK_SIZE_BYTES).
Context (dma_alignment : Z) (Hdma : dma_alignment <= MIN_WRITE_ALIGNMENT).
Context (header_buffer : bytes) (Hheader : length header_buffer = HEADER_BLOCK_SIZE_BYTES).

Lemma stamped_kinds ahead queue items : Forall2 prepared_from ahead queue -> Forall2 stamped_from queue items ->
  (fun e => wal_metablock_type (le_metablock e)) <$> (entry_of <$> items) = (fun e => wal_metablock_type (le_metablock e)) <$> ahead.
Proof.
  intros Hp. revert items. induction Hp as [|e p ahead queue (Em & _) _ IH]; intros items Hs; inversion Hs as [|? x ? xs [(d & q & w & t & E) _] Hs']; subst; [done|].
  cbn. rewrite IH by done. f_equal. by rewrite E, Em.
Qed.

Lemma apply_agreeing active seg tip0 prior log front es rest tipL items :
  node_log seg tip0 prior log -> md_write active = md_write (metadata seg) ->
  history (le_metablock <$> front ++ es ++ rest) tipL -> agrees prior log (front ++ es ++ rest) ->
  length front = (length prior + length log)%nat -> es <> [] -> Z.of_nat (length front + length es) < 2 ^ 64 - 1 -> Forall2 carries es items ->
  exists ps, Forall2 prepared_from es ps /\ forall m : MemCache V, apply_external_batch active m items = Ok (add_to_pending_queue m ps).
Proof.
  intros Hn Ew HL Hag Hf Hne Hb Hc. pose proof (nl_seq _ _ _ _ Hn) as Hseq. unfold wcur in Hseq.
  destruct (apply_carried (V := V) active (length front) es items) as (e & ps & He & Hps & Happ); [done| | |lia|].
  { intros j x Hx. rewrite (hi_seq _ _ HL (length front + j) (le_metablock x)); [done|].
    rewrite list_lookup_fmap, lookup_app_r by lia. rewrite Nat.add_comm, Nat.add_sub.
    by rewrite lookup_app_l, Hx by (apply lookup_lt_Some in Hx; lia). }
  { rewrite Ew, Hseq, Hf. destruct es; [done|]. cbn. lia. }
  rewrite Ew, Hseq, Nat2Z.id, <- Hf, Nat.sub_diag in *. exists ps. split; [done|]. intros m. rewrite Happ, bool_decide_true; [done|].
  destruct es as [|e' es]; [done|]. injection He as ->.
  apply (tip_decides _ _ _ _ _ (node_history _ _ _ _ Hn) HL).
  - rewrite length_app, length_fmap, <- Hf, list_lookup_fmap, lookup_app_r, Nat.sub_diag by lia. done.
  - rewrite length_app, length_fmap, <- fmap_take. apply Hag.
Qed.

Lemma apply_applied seg2 tip0 prior log2 front rest es' tipL items' (m : MemCache V) :
  node_log seg2 tip0 prior log2 -> history (le_metablock <$> front ++ rest) tipL -> es' `prefix_of` rest ->
  (length front <= length prior + length log2)%nat -> (length front + length es' <= length prior + length log2)%nat ->
  Forall2 carries es' items' -> apply_external_batch (metadata seg2) m items' = Ok m.
Proof.
  intros Hn HL [more ->] Hf Hl Hc. pose proof (nl_seq _ _ _ _ Hn) as Hseq. unfold wcur in Hseq.
  unfold apply_external_batch. rewrite Hseq, (skip_carried _ (1 + Z.of_nat (length front)) es' items' Hc).
  - rewrite drop_ge; [done|]. rewrite <- (Forall2_length _ _ _ Hc). lia.
  - intros j e He. rewrite (hi_seq _ _ HL (length front + j) (le_metablock e)); [lia|].
    rewrite list_lookup_fmap, lookup_app_r by lia. rewrite Nat.add_comm, Nat.add_sub.
    by rewrite lookup_app_l, He by (apply lookup_lt_Some in He; lia).
  - lia.
Qed.

(** C20: a batch that is sent again while its fsync runs is stored twice.  The
    leader sends a batch again on a new connection when the first request
    fails or times out.  If that request's fsync is still running, the cursors
    have not moved: the copy is accepted too, and the two fsyncs append the
    same entries twice, the second time with the next sequence numbers.  After
    that as many of the leader's next entries are skipped as applied already:
    nothing is queued for them, and they are acknowledged. *)
Theorem resent_batch_applied_twice (env env' : HandlerEnv) (req req' : ReplicationBatchRequest) (now now' : Z) st (seg : LogSegmentFile)
    (tip0 : bytes) (prior : list Metablock) (log front es rest : list LogEntry) (tipL : bytes) (ct : CommitTarget) :
  node_log seg tip0 prior log -> md_write (active (fs_segments st)) = md_write (metadata seg) ->
  pending_append_queue (fs_cache st) = [] -> parked_commits (fs_queues st) = [] ->
  history (le_metablock <$> front ++ es ++ rest) tipL -> length front = (length prior + length log)%nat ->
  agrees prior log (front ++ es ++ rest) -> es <> [] -> Z.of_nat (length front + 2 * length es) < 2 ^ 64 - 1 ->
  Forall2 carries es (batches req) -> batches req' = batches req -> admitted env req now -> admitted env' req' now' ->
  exists st1 st2, begin_replication_batch env st req = Some (st1, Ok (AwaitSync now)) /\
    begin_replication_batch env' (in_flight st1) req' = Some (st2, Ok (AwaitSync now')) /\
    let s1 := (take_sync_positions_snapshot (fs_cache st1)).2 in
    let s2 := (take_sync_positions_snapshot (fs_cache st2)).2 in
    forall io1 sn1 md1 f1 io2 sn2 md2 f2,
    let seg1 := install_batch f1 md1 (sps_queue sn1) in
    let seg2 := install_batch f2 md2 (sps_queue sn2) in
    total_required (sps_queue s1) <= md_available_space (metadata seg) ->
    sync recycled dma_alignment header_buffer seg s1 ct io1 = Done (sn1, md1, f1) ->
    total_required (sps_queue s2) <= md_available_space (metadata seg1) ->
    sync recycled dma_alignment header_buffer seg1 s2 ct io2 = Done (sn2, md2, f2) ->
    let new1 := entry_of <$> sps_queue sn1 in
    let new2 := entry_of <$> sps_queue sn2 in
    node_log seg2 tip0 prior ((log ++ new1) ++ new2) /\
    (fun e => wal_metablock_type (le_metablock e)) <$> new1 = (fun e => wal_metablock_type (le_metablock e)) <$> es /\
    (fun e => wal_metablock_type (le_metablock e)) <$> new2 = (fun e => wal_metablock_type (le_metablock e)) <$> es /\
    forall (m : MemCache V) es' items', es' `prefix_of` rest -> (length es' <= length es)%nat -> Forall2 carries es' items' ->
      apply_external_batch (metadata seg2) m items' = Ok m.
Proof.
  intros Hn Ew Hq Hp HL Hf Hag Hne Hb Hc Hreq Had Had'.
  destruct (apply_agreeing (active (fs_segments st)) seg tip0 prior log front es rest tipL (batches req)) as (ps & Hps & Happ); [done..|lia|done|].
  assert (Hbne : batches req <> []) by (intros E; rewrite E in Hc; by inversion Hc; subst).
  destruct (begin_admitted env st req now _ Had Hbne Hp (Happ _)) as (st1 & E1 & Ec1 & Hp1 & Ew1).
  destruct (begin_admitted env' (in_flight st1) req' now' (add_to_pending_queue (take_sync_positions_snapshot (fs_cache st1)).1 ps))
    as (st2 & E2 & Ec2 & _); [done|by rewrite Hreq|done| |].
  { rewrite Hreq. cbn [in_flight fs_segments fs_cache]. unfold apply_external_batch in *. rewrite Ew1. apply Happ. }
  exists st1, st2. split; [done|]. split; [done|]. cbv zeta. rewrite Ec1, Ec2. cbn [take_sync_positions_snapshot snd fst sps_queue add_to_pending_queue pending_append_queue].
  rewrite Hq. cbn [app]. intros io1 sn1 md1 f1 io2 sn2 md2 f2 Hsp1 Hs1 Hsp2 Hs2.
  assert (Hwf : Forall wf_metablock (le_metablock <$> es)).
  { pose proof (hi_wf _ _ HL) as Hw. rewrite !fmap_app in Hw. by apply Forall_app in Hw as [_ [? _]%Forall_app]. }
  pose proof (nl_seq _ _ _ _ Hn) as Hseq.
  assert (Hbt : forall sg, total_required ps <= md_available_space (metadata sg) ->
    hc_wal_seq (wcur sg) + Z.of_nat (length es) < 2 ^ 64 -> batch_ok sg ps) by (intros; by apply (prepared_batch _ es)).
  destruct (synced_log recycled Hrecycled dma_alignment Hdma header_buffer Hheader seg tip0 prior log es
    {| sps_queue := ps; sps_positions := _; sps_schemas := _ |} ct io1 sn1 md1 f1 Hn Hps ltac:(apply Hbt; [done|lia]) Hs1) as (Hn1 & Hl1 & Hst1 & _).
  pose proof (nl_seq _ _ _ _ Hn1) as Hseq1. rewrite length_app, length_fmap in Hseq1.
  destruct (synced_log recycled Hrecycled dma_alignment Hdma header_buffer Hheader _ tip0 prior _ es
    {| sps_queue := ps; sps_positions := _; sps_schemas := _ |} ct io2 sn2 md2 f2 Hn1 Hps ltac:(apply Hbt; [done|lia]) Hs2) as (Hn2 & Hl2 & Hst2 & _).
  split; [done|]. split; [by eapply stamped_kinds|]. split; [by eapply stamped_kinds|].
  intros m es' items' Hpre Hle Hc'. rewrite app_assoc in HL.
  eapply (apply_applied _ _ _ _ (front ++ es) rest es'); [exact Hn2|exact HL|done| | |done];
    rewrite !length_app, !length_fmap; lia.
Qed.
End resent.

(** ** A leader with two entries and an empty follower *)

Module FollowerRun.
#[local] Existing Instance bincode_le.
#[local] Existing Instance crc_sum.
#[local] Existing Instance codec_id.
#[local] Existing Instance blake_pad.
#[local] Existing Instance xxh_low.

Definition block (seq : Z) (tip : bytes) : Metablock :=
  {| wal_seq := seq; server_timestamp := 100; lease_epoch := 1; node_id := 9;
     uncompressed_size := 0; compressed_size := 0; datablock_version := 1;
     datablock_compression_type := 0; previous_tip_hash := tip;
     datablock_position := 0; previous_aggregate_metablock_pos := 0;
     wal_metablock_type := EventBatchMetadata sample_event_batch; datablock := StorageNone |}.

Lemma block_wf seq tip : fits 64 seq -> wf_byte_array 32 tip -> wf_metablock (block seq tip).
Proof.
  intros Hs Ht. destruct sample_metablock_wf as (_ & ? & ? & ? & _ & _ & ? & ? & _ & _ & _ & ? & _).
  unfold wf_metablock, fits in *. cbn -[Z.pow wf_metablock_kind] in *. split_and!; try done; lia.
Qed.

Definition entry (seq : Z) (tip : bytes) : LogEntry := {| le_pos := 4096; le_metablock := block seq tip; le_data := None |}.

Lemma genesis_32 : wf_byte_array 32 GENESIS_HASH.
Proof. apply sample_metablock_wf. Qed.

Lemma entry_wf seq tip : 0 <= seq < 10 -> wf_byte_array 32 tip -> wf_metablock (block seq tip).
Proof. intros. apply block_wf; [unfold fits; lia|done]. Qed.

(** The leader's log, with the tip the first entry produces. *)
Lemma leader : exists t1 t2, history (le_metablock <$> [entry 1 GENESIS_HASH; entry 2 t1]) t2.
Proof.
  pose proof (entry_wf 1 GENESIS_HASH ltac:(lia) genesis_32) as W1.
  destruct (advance_tip_Some GENESIS_HASH _ W1) as (p1 & _ & E1).
  pose proof (entry_wf 2 (blake3 p1) ltac:(lia) (blake3_32 p1)) as W2.
  destruct (advance_tip_Some (blake3 p1) _ W2) as (p2 & _ & E2).
  exists (blake3 p1), (blake3 p2). split.
  - constructor; [exact W1|]. constructor; [exact W2|constructor].
  - clear E1 E2. intros [|[|i]] m [= <-]; reflexivity.
  - split; [reflexivity|]. exists (blake3 p1). split; [exact E1|]. split; [reflexivity|]. exists (blake3 p2). by split; [exact E2|].
Qed.

Lemma empty_log : node_log SyncRun.segment GENESIS_HASH [] [].
Proof. split; [apply SyncRun.segment_empty| |done]. split; [constructor|by intros [|i] m|done]. Qed.

Definition shard : FollowerShard unit :=
  {| fs_cache := MemCache_new;
     fs_queues := {| pending_replication_batches := []; pending_replication_bytes := 0; parked_commits := [];
                     parked_commit_bytes := 0; replication_rollback_occurred := false |};
     fs_segments := {| active := sample_metadata; lru_cache := ∅ |};
     fs_observed := ObservedLeaderTarget_new |}.

Definition env : HandlerEnv :=
  {| he_now := Some 1000; he_s3_catchup_in_flight := false;
     he_node_status := create_custom_status (Follower 1) 10 5000; he_max_clock_drift_ms := 10 |}.

Definition request : ReplicationBatchRequest :=
  {| leader_timestamp_ms := 995; leader_confirmed_wal_seq := 0; sender_lease_epoch := 1;
     batches := [{| rbi_metablock := block 1 GENESIS_HASH; rbi_datablock := None |}] |}.

Lemma admits : admitted env request 1000.
Proof. split; [done|done|by exists 1|done]. Qed.

Lemma carried : Forall2 carries [entry 1 GENESIS_HASH] (batches request).
Proof. by repeat constructor. Qed.
End FollowerRun.


Lemma resent_batch_applied_twice_witness : exists st1 st2,
  @begin_replication_batch bincode_le crc_sum codec_id unit (fun _ _ => Ok tt) FollowerRun.env FollowerRun.shard FollowerRun.request =
    Some (st1, Ok (AwaitSync 1000)) /\
  @begin_replication_batch bincode_le crc_sum codec_id unit (fun _ _ => Ok tt) FollowerRun.env (in_flight st1) FollowerRun.request =
    Some (st2, Ok (AwaitSync 1000)).
Proof.
  destruct FollowerRun.leader as (t1 & t2 & HL).
  destruct (@resent_batch_applied_twice bincode_le crc_sum codec_id blake_pad xxh_low unit (fun _ _ => Ok tt) (fun _ => zeros 1024)
    (fun _ => eq_refl) 512 ltac:(done) (zeros 4096) eq_refl FollowerRun.env FollowerRun.env FollowerRun.request FollowerRun.request 1000 1000
    FollowerRun.shard SyncRun.segment GENESIS_HASH [] [] [] [FollowerRun.entry 1 GENESIS_HASH] [FollowerRun.entry 2 t1] t2
    DeferToLeaderConfirmed FollowerRun.empty_log eq_refl eq_refl eq_refl HL eq_refl eq_refl ltac:(done) ltac:(cbn; lia)
    FollowerRun.carried eq_refl FollowerRun.admits FollowerRun.admits) as (st1 & st2 & E1 & E2 & _).
  by exists st1, st2.
Defined.
