(* ===== verification/Catchup.v ===== *)
(** * Catching a follower up from the leader's log

    [celeriant_shard/src/fetch_catchup_entries.rs]: a reverse scan collects the
    entries a follower misses; [celeriant_shard/src/collect_from_disk.rs]
    reads their bodies, grouped by segment.  On segments that hold their logs
    the entries fetched are exactly those asked for, in the order of the log
    and with the bodies that were written, so a batch of them is one the
    follower's theorems speak about. *)

From S2P Require Import Prelude Lease WalConstants Codec WalTypes WalCodec DiskFormat HashChain Sbbf Datablock LogSegment MemCache LogSync ReverseScan ReadObjects FsyncCommit ReplicationQueues Follower.

(** ** collect_from_disk.rs *)

Record EventBatchFromLogSegmentFile := {
  ebf_log_id : Z;
  ebf_metablock : Metablock;
  ebf_datablock : option DatablockKind;
}.

Inductive FetchDatablockError :=
  | DatablockError (log_id wal_seq : Z) (source : DiskFormatError) (is_inline : bool)
  | LogSegmentFileError
  | LogSegmentFileReaderContention
  | LogSegmentFileUnavailable (log_id : Z)
  | DatablockReadError (e : ReadObjectsError)
  | MissingDatablocksOnDisk.

Definition with_datablock (k : EventBatchFromLogSegmentFile) (d : option DatablockKind) : EventBatchFromLogSegmentFile :=
  {| ebf_log_id := ebf_log_id k; ebf_metablock := ebf_metablock k; ebf_datablock := d |}.

Section collect.
Context `{Bincode, Crc32c, DictCodec}.

Definition deserialise_body (k : EventBatchFromLogSegmentFile) (external : option bytes) (is_inline : bool)
    : outcome FetchDatablockError DatablockKind :=
  let mb := ebf_metablock k in
  r ← or_panic (deserialise_datablock (uncompressed_size mb) (compressed_size mb) (datablock_version mb)
                  (datablock_compression_type mb) (datablock mb) external);
  from_result (fun e => DatablockError (ebf_log_id k) (wal_seq mb) e is_inline) r.

(** One push of [LogSegmentDatablockPositions]: the segment, the index of the
    entry and the place of its body. *)
Definition DatablockFetch : Type := Z * (nat * AbsoluteObjectPosition).

(** The first loop: inline bodies are deserialised, the others noted. *)
Fixpoint plan_fetches (metablock_idx : nat) (kept_metablocks : list EventBatchFromLogSegmentFile)
    : outcome FetchDatablockError (list EventBatchFromLogSegmentFile * list DatablockFetch) :=
  match kept_metablocks with
  | [] => Done ([], [])
  | kept :: rest =>
      let mb := ebf_metablock kept in
      '(kept, fetch) ←
        match ebf_datablock kept, datablock mb with
        | Some _, _ | None, StorageNone => Done (kept, [])
        | None, StorageInline _ =>
            d ← deserialise_body kept None true; Done (with_datablock kept (Some d), [])
        | None, StorageBlock _ =>
            Done (kept, [(ebf_log_id kept, (metablock_idx, {| start_pos := datablock_position mb;
                            end_pos := saturating_add 64 (datablock_position mb) (compressed_size mb) |}))])
        end;
      '(rest, fetches) ← plan_fetches (S metablock_idx) rest;
      Done (kept :: rest, fetch ++ fetches)
  end.

(** The loop over the blobs of a segment. *)
Fixpoint fill_datablocks (kept_metablocks : list EventBatchFromLogSegmentFile) (blobs : list (nat * bytes))
    : outcome FetchDatablockError (list EventBatchFromLogSegmentFile) :=
  match blobs with
  | [] => Done kept_metablocks
  | (idx, blob) :: blobs =>
      kept ← or_panic (kept_metablocks !! idx);
      d ← deserialise_body kept (Some blob) false;
      fill_datablocks (<[idx := with_datablock kept (Some d)]> kept_metablocks) blobs
  end.

Definition fetches_of (log_id : Z) (fetches : list DatablockFetch) : list (nat * AbsoluteObjectPosition) :=
  snd <$> filter (fun p => p.1 = log_id) fetches.

Definition map_failed {E F A} (f : E -> F) (o : outcome E A) : outcome F A :=
  match o with Done a => Done a | Failed e => Failed (f e) | Panicked => Panicked end.

(** One turn of the second loop. *)
Definition fetch_segment (cache : LogSegmentsCache) (read_max_chunk_size : Z) (fetches : list DatablockFetch)
    (kept_metablocks : list EventBatchFromLogSegmentFile) (log_id : Z) : outcome FetchDatablockError (list EventBatchFromLogSegmentFile) :=
  let log_fetches := reverse (fetches_of log_id fetches) in
  match lc_get cache log_id with
  | None => Failed LogSegmentFileError
  | Some seg =>
      if negb (lc_lock cache log_id) then Failed LogSegmentFileReaderContention
      else if negb (lc_handle cache log_id) then Failed (LogSegmentFileUnavailable log_id)
      else
        blobs ← map_failed DatablockReadError
                  (read_objects_absolute (dma_file cache log_id seg) (file_len (metadata seg)) log_fetches.*2 read_max_chunk_size);
        if negb (Nat.eqb (length blobs) (length log_fetches)) then Failed MissingDatablocksOnDisk
        else fill_datablocks kept_metablocks (zip log_fetches.*1 blobs)
  end.

(** The segments of a hash map, in the order it happens to have. *)
Context (hash_order : list Z -> list Z).

Fixpoint fetch_segments (cache : LogSegmentsCache) (read_max_chunk_size : Z) (fetches : list DatablockFetch)
    (kept_metablocks : list EventBatchFromLogSegmentFile) (log_ids : list Z) : outcome FetchDatablockError (list EventBatchFromLogSegmentFile) :=
  match log_ids with
  | [] => Done kept_metablocks
  | log_id :: log_ids =>
      kept_metablocks ← fetch_segment cache read_max_chunk_size fetches kept_metablocks log_id;
      fetch_segments cache read_max_chunk_size fetches kept_metablocks log_ids
  end.

Definition fetch_datablocks_for_metablocks (cache : LogSegmentsCache) (read_max_chunk_size : Z)
    (kept_metablocks : list EventBatchFromLogSegmentFile) : outcome FetchDatablockError (list EventBatchFromLogSegmentFile) :=
  '(kept_metablocks, fetches) ← plan_fetches 0 kept_metablocks;
  fetch_segments cache read_max_chunk_size fetches kept_metablocks (hash_order (remove_dups fetches.*1)).

(** ** fetch_catchup_entries.rs *)

Inductive FetchCatchupEntriesError :=
  | MetablockDiscoveryError (e : ScanError DiskFormatError)
  | FetchFollowerTooFarBehind
  | FetchDatablocksError (e : FetchDatablockError).

Definition catchup_size (mb : Metablock) : Z := saturating_add 64 (uncompressed_size mb) (Z.of_nat FIXED_BLOCK_SIZE_BYTES).

(** [max_size_bytes.is_some_and(|cap| accumulated_size > cap)]. *)
Definition over (max_size_bytes : option Z) (accumulated_size : Z) : bool :=
  match max_size_bytes with Some cap => cap <? accumulated_size | None => false end.

(** The closure of the scan, over the entries found and their size. *)
Definition catchup_visitor (follower_wal_seq leader_wal_seq : Z) (max_size_bytes : option Z) (log_id pos : Z) (block : bytes)
    : effect (list EventBatchFromLogSegmentFile * Z) DiskFormatError (option unit) := fun '(items, accumulated_size) =>
  match read_wal_seq block with
  | None => ((items, accumulated_size), Panicked)
  | Some wal_seq =>
      if wal_seq <=? follower_wal_seq then ((items, accumulated_size), Done (Some tt))
      else if wal_seq <? leader_wal_seq then
        match deserialise_metablock block with
        | Err e => ((items, accumulated_size), Failed e)
        | Ok mb =>
            let accumulated_size := wrapping_add 64 accumulated_size (catchup_size mb) in
            let items := items ++ [{| ebf_log_id := log_id; ebf_metablock := mb; ebf_datablock := None |}] in
            ((items, accumulated_size),
             Done (if over max_size_bytes accumulated_size then Some tt else None))
        end
      else ((items, accumulated_size), Done None)
  end.

Definition catchup_scanner (active_log_id read_max_chunk_size : Z) : ReverseMetablockScanner :=
  with_write_cursor_upper_bound (ReverseMetablockScanner_new active_log_id None read_max_chunk_size).

Definition fetch_catchup_entries (cache : LogSegmentsCache) (active_log_id follower_wal_seq leader_wal_seq : Z)
    (max_size_bytes : option Z) (read_max_chunk_size : Z) : outcome FetchCatchupEntriesError (list EventBatchFromLogSegmentFile) :=
  let '((items, accumulated_size), scanned) :=
    scan (catchup_visitor follower_wal_seq leader_wal_seq max_size_bytes) cache
      (catchup_scanner active_log_id read_max_chunk_size) ([], 0) in
  _ ← map_failed MetablockDiscoveryError scanned;
  match items with
  | [] => Done []
  | _ =>
      if over max_size_bytes accumulated_size then Failed FetchFollowerTooFarBehind
      else map_failed FetchDatablocksError (fetch_datablocks_for_metablocks cache read_max_chunk_size (reverse items))
  end.
End collect.

(** ** Bodies as they were written *)

Section bodies.
Context `{Bincode, Crc32c, DictCodec}.

(** What a metablock records of a serialised datablock. *)
Record records (s : SerialisedDatablock) (mb : Metablock) : Prop := {
  rc_uncompressed : uncompressed_size mb = sdb_uncompressed_size s;
  rc_compressed : compressed_size mb = sdb_compressed_size s;
  rc_version : datablock_version mb = sdb_datablock_version s;
  rc_type : datablock_compression_type mb = sdb_compression_type s;
  rc_kind : datablock mb = storage_kind s;
}.

(** An entry and the body it was written with. *)
Definition stored (e : LogEntry) (body : option DatablockKind) : Prop :=
  match datablock (le_metablock e) with
  | StorageNone => le_data e = None /\ body = None
  | _ => exists d policy s, body = Some d /\ wf_datablock d /\ SerialisedDatablock_new d policy = Ok s /\
      records s (le_metablock e) /\ external_data s = le_data e
  end.

Lemma stored_shape d policy s : SerialisedDatablock_new d policy = Ok s ->
  match storage_kind s with
  | StorageNone => False
  | StorageInline _ => external_data s = None
  | StorageBlock _ => exists b, external_data s = Some b /\ b <> [] /\ sdb_compressed_size s = Z.of_nat (length b)
  end.
Proof.
  unfold SerialisedDatablock_new. intros E. assert (Hn : (MINIBATCH_SIZE_BYTES <= DEFAULT_AUTO_STACK_SCRATCH_BYTES)%nat) by (apply Nat.leb_le; by vm_compute).
  pose proof (external_nonempty DEFAULT_AUTO_STACK_SCRATCH_BYTES d policy s) as Hne. destruct (serialised_is_stored _ d policy s Hn E) as (ct & body & _ & Es).
  unfold store in Es. case_decide; subst s; cbn in *; [done|]. exists body. by split_and!; [|apply (Hne _ Hn E)|].
Qed.

Lemma stored_reads_back e d : stored e (Some d) ->
  let mb := le_metablock e in
  deserialise_datablock (uncompressed_size mb) (compressed_size mb) (datablock_version mb) (datablock_compression_type mb)
    (datablock mb) (le_data e) = Some (Ok d).
Proof.
  cbv zeta. unfold stored. assert (Hn : (MINIBATCH_SIZE_BYTES <= DEFAULT_AUTO_STACK_SCRATCH_BYTES)%nat) by (apply Nat.leb_le; by vm_compute).
  assert (Hgo : (exists d' policy s, Some d = Some d' /\ wf_datablock d' /\ SerialisedDatablock_new d' policy = Ok s /\
    records s (le_metablock e) /\ external_data s = le_data e) ->
    deserialise_datablock (uncompressed_size (le_metablock e)) (compressed_size (le_metablock e)) (datablock_version (le_metablock e))
      (datablock_compression_type (le_metablock e)) (datablock (le_metablock e)) (le_data e) = Some (Ok d)).
  { intros (d' & policy & s & [= <-] & Hd & E & [-> -> -> -> ->] & <-).
    destruct (serialised_is_stored _ d policy s Hn E) as (ct & body & Hb & ->). by apply store_roundtrip. }
  destruct (datablock (le_metablock e)); [by intros [_ ?]|exact Hgo..].
Qed.

(** Whether the body of a stored entry is inline shows in the entry. *)
Lemma stored_cases e body : stored e body ->
  match le_data e with
  | Some b => exists crc d, datablock (le_metablock e) = StorageBlock crc /\ body = Some d /\ b <> [] /\
      compressed_size (le_metablock e) = Z.of_nat (length b)
  | None => (datablock (le_metablock e) = StorageNone /\ body = None) \/
      (exists mini d, datablock (le_metablock e) = StorageInline mini /\ body = Some d)
  end.
Proof.
  unfold stored. destruct (datablock (le_metablock e)) as [|mini|crc] eqn:Ek.
  - intros [-> ->]. by left.
  - intros (d & policy & s & -> & _ & E & Hr & <-). pose proof (stored_shape _ _ _ E) as Hs.
    rewrite <- (rc_kind _ _ Hr), Ek in Hs. rewrite Hs. right. by eexists _, _.
  - intros (d & policy & s & -> & _ & E & Hr & <-). pose proof (stored_shape _ _ _ E) as Hs.
    rewrite <- (rc_kind _ _ Hr), Ek in Hs. destruct Hs as (b & -> & Hb & Hl). exists crc, d. rewrite (rc_compressed _ _ Hr). done.
Qed.

Definition item_of (k : EventBatchFromLogSegmentFile) : ReplicationBatchItem :=
  {| rbi_metablock := ebf_metablock k; rbi_datablock := ebf_datablock k |}.

Lemma stored_carries e body : stored e body -> carries e {| rbi_metablock := le_metablock e; rbi_datablock := body |}.
Proof.
  intros Hs. split; [done|]. pose proof (stored_cases _ _ Hs) as Hc. unfold stored in Hs.
  destruct (datablock (le_metablock e)) as [|mini|crc] eqn:Ek.
  - apply Hs.
  - destruct (le_data e); [|done]. by destruct Hc as (? & ? & [=] & _).
  - destruct Hs as (d & policy & s & -> & _ & E & Hr & Ex). destruct (le_data e) as [b|]; [|by destruct Hc as [[? _]|(? & ? & ? & _)]].
    exists d, policy, s, b. by rewrite (rc_type _ _ Hr).
Qed.
End bodies.

(** ** Reading the bodies *)

Lemma StronglySorted_sublist {A} (R : A -> A -> Prop) l k : l `sublist_of` k -> StronglySorted R k -> StronglySorted R l.
Proof.
  induction 1 as [|x l k Hs IH|x l k Hs IH]; [done|..]; intros [Hk Hx]%StronglySorted_inv; [|by apply IH].
  constructor; [by apply IH|]. rewrite Forall_forall in Hx |- *. intros y Hy. apply Hx. by eapply elem_of_sublist.
Qed.

Lemma StronglySorted_reverse {A} (R : A -> A -> Prop) l : StronglySorted R l -> StronglySorted (flip R) (reverse l).
Proof.
  induction 1 as [|x l Hl IH Hx]; [constructor|]. rewrite reverse_cons. apply StronglySorted_app_2; [|done|by repeat constructor].
  intros y z Hy ->%list_elem_of_singleton. rewrite Forall_forall in Hx. apply elem_of_reverse in Hy; rewrite ?reverse_involutive in Hy; exact (Hx y Hy).
Qed.

Lemma windows_sorted (f : AbsoluteObjectPosition -> AbsoluteObjectPosition -> bool) l :
  StronglySorted (fun a b => f a b = true) l -> windows_all f l = true.
Proof.
  induction 1 as [|a l _ IH Ha]; [done|]. destruct l as [|b l]; [done|]. inversion_clear Ha as [|? ? Hab _].
  change (f a b && windows_all f (b :: l) = true). by rewrite Hab, IH.
Qed.

Lemma zip_fmaps {A B C} (f : A -> B) (g : A -> C) l : zip (f <$> l) (g <$> l) = (fun x => (f x, g x)) <$> l.
Proof. induction l as [|x l IH]; [done|]. cbn. by f_equal. Qed.

Lemma Forall_kept {A} (P Q : A -> Prop) `{!forall x, Decision (P x)} l : Forall Q l -> Forall Q (filter P l).
Proof. rewrite !Forall_forall. intros Hl x [_ Hx]%list_elem_of_filter. by apply Hl. Qed.

Section fetch.
Context `{Bincode, Crc32c, Blake3, Xxh3, DictCodec}.
Context (body : LogEntry -> option DatablockKind) (es : list (Z * LogEntry)).
Context (Hstored : Forall (fun p => stored p.2 (body p.2)) es).

Definition full (p : Z * LogEntry) : EventBatchFromLogSegmentFile :=
  {| ebf_log_id := p.1; ebf_metablock := le_metablock p.2; ebf_datablock := body p.2 |}.

Definition bare (p : Z * LogEntry) : EventBatchFromLogSegmentFile := with_datablock (full p) None.

(** The entries while the segments [todo] are still to be read. *)
Definition fetched (todo : list Z) (p : Z * LogEntry) : EventBatchFromLogSegmentFile :=
  if decide (is_Some (le_data p.2) /\ p.1 ∈ todo) then bare p else full p.

Definition place (e : LogEntry) : AbsoluteObjectPosition :=
  {| start_pos := datablock_position (le_metablock e);
     end_pos := saturating_add 64 (datablock_position (le_metablock e)) (compressed_size (le_metablock e)) |}.

Fixpoint fetches_from (i : nat) (l : list (Z * LogEntry)) : list DatablockFetch :=
  match l with
  | [] => []
  | p :: l => (match le_data p.2 with Some _ => [(p.1, (i, place p.2))] | None => [] end) ++ fetches_from (S i) l
  end.

Lemma fetches_from_elem n l id i q : (id, (i, q)) ∈ fetches_from n l <->
  exists j e, i = (n + j)%nat /\ l !! j = Some (id, e) /\ is_Some (le_data e) /\ q = place e.
Proof.
  revert n. induction l as [|[id' e'] l IH]; intros n; cbn [fetches_from].
  - split; [by intros ?%not_elem_of_nil|by intros (j & ? & ? & ? & _)].
  - rewrite elem_of_app, IH. cbn [fst snd]. split.
    + intros [Hi|(j & e & -> & Hj & ? & ->)]; [|exists (S j), e; split_and!; [lia|done..]].
      destruct (le_data e') eqn:Ed; [|by apply not_elem_of_nil in Hi]. apply list_elem_of_singleton in Hi as [= -> -> ->].
      exists 0%nat, e'. rewrite Ed. split_and!; [lia|done|by eexists|done].
    + intros ([|j] & e & -> & Hj & [b Hb] & ->).
      * injection Hj as -> ->. left. rewrite Hb, Nat.add_0_r. by apply list_elem_of_singleton.
      * right. exists j, e. split_and!; [lia|done|by eexists|done].
Qed.

Lemma fetches_of_elem id i q : (i, q) ∈ fetches_of id (fetches_from 0 es) <->
  exists e, es !! i = Some (id, e) /\ is_Some (le_data e) /\ q = place e.
Proof.
  unfold fetches_of. rewrite list_elem_of_fmap. split.
  - intros ([id' x] & Ex & [E Hx]%list_elem_of_filter). cbn in E, Ex. subst id' x.
    apply fetches_from_elem in Hx as (j & e & -> & Hj & Hd & ->). by exists e.
  - intros (e & He & Hd & ->). exists (id, (i, place e)). split; [done|]. apply list_elem_of_filter. split; [done|].
    apply fetches_from_elem. by exists i, e.
Qed.

(** The places of a segment's bodies, in the order of the entries. *)
Lemma fetches_of_places id n l : (fetches_of id (fetches_from n l)).*2 =
  place <$> filter (fun e => is_Some (le_data e)) (filter (fun p => p.1 = id) l).*2.
Proof.
  revert n. induction l as [|[id' e] l IH]; intros n; [done|]. cbn [fetches_from fst snd]. unfold fetches_of in *.
  rewrite filter_app, !fmap_app, IH. rewrite (filter_cons _ (id', e)). cbn [fst].
  destruct (decide (id' = id)) as [->|Hne].
  - cbn [fmap list_fmap snd]. rewrite filter_cons. destruct (le_data e) as [b|] eqn:Ed.
    + rewrite decide_True by by eexists. rewrite filter_cons_True by done. done.
    + rewrite decide_False by by intros [? ?]. done.
  - destruct (le_data e); [|done]. by rewrite filter_cons_False.
Qed.

Lemma plan_spec : plan_fetches 0 (bare <$> es) = Done (fetched (es.*1) <$> es, fetches_from 0 es).
Proof.
  assert (Hgo : forall ids n l, Forall (fun p => stored p.2 (body p.2)) l -> Forall (fun p => p.1 ∈ ids) l ->
    plan_fetches n (bare <$> l) = Done (fetched ids <$> l, fetches_from n l)).
  { intros ids n l Hl. revert n. induction Hl as [|[id e] l He Hl IH]; intros n Hids; [done|].
    inversion_clear Hids as [|? ? Hid Hids']. cbn [fmap list_fmap plan_fetches fetches_from fst snd].
    pose proof (stored_cases _ _ He) as Hc. pose proof (fun d => stored_reads_back e d) as Hr. cbn [snd] in *. unfold fetched.
    cbn [ebf_datablock ebf_metablock ebf_log_id bare full with_datablock fst snd].
    destruct (le_data e) as [b|].
    - rewrite decide_True by (split; [by eexists|done]). destruct Hc as (crc & d & Ek & _). rewrite Ek.
      unfold mbind, outcome_bind. by rewrite IH.
    - rewrite decide_False by by intros [[? ?] _].
      destruct Hc as [[Ek Eb]|(mini & d & Ek & Eb)].
      + rewrite Ek. unfold mbind, outcome_bind. rewrite IH by done. unfold full, with_datablock. cbn. by rewrite Eb.
      + rewrite Ek. unfold deserialise_body. cbn [ebf_datablock ebf_metablock ebf_log_id bare full with_datablock fst snd]. rewrite Eb in He.
        rewrite (Hr d He). unfold mbind, outcome_bind. cbn. rewrite IH by done. unfold full. cbn. by rewrite Eb. }
  apply Hgo; [done|]. apply Forall_forall. intros p Hp. by apply list_elem_of_fmap_2.
Qed.

Lemma fill_spec kept blobs :
  (forall i b, (i, b) ∈ blobs -> exists p, es !! i = Some p /\ le_data p.2 = Some b) ->
  (forall i p, es !! i = Some p -> exists d, kept !! i = Some (with_datablock (full p) d)) ->
  exists kept', fill_datablocks kept blobs = Done kept' /\ length kept' = length kept /\
    forall i p, es !! i = Some p -> kept' !! i = if decide (i ∈ blobs.*1) then Some (full p) else kept !! i.
Proof.
  revert kept. induction blobs as [|[i b] blobs IH]; intros kept Hb Hk; [by exists kept|]. cbn [fill_datablocks].
  destruct (Hb i b) as ([id e] & Hi & Hd); [by left|]. cbn [snd] in Hd.
  destruct (Hk i (id, e) Hi) as (d0 & Ek). rewrite Ek. unfold mbind at 1, outcome_bind at 1. cbn [or_panic].
  pose proof (Forall_lookup_1 _ _ _ _ Hstored Hi) as Hs. cbn [snd] in Hs.
  pose proof (stored_cases _ _ Hs) as Hc. rewrite Hd in Hc. destruct Hc as (crc & d & _ & Eb & _).
  unfold deserialise_body. cbn [ebf_datablock ebf_metablock ebf_log_id full with_datablock fst snd].
  pose proof (stored_reads_back e d) as Hr. rewrite <- Eb in Hr. specialize (Hr Hs). cbv zeta in Hr. rewrite Hd in Hr. rewrite Hr.
  unfold mbind, outcome_bind. cbn [or_panic from_result].
  assert (Ef : with_datablock (with_datablock (full (id, e)) d0) (Some d) = full (id, e)) by (unfold full, with_datablock; cbn; by rewrite Eb).
  change {| ebf_log_id := id; ebf_metablock := le_metablock e; ebf_datablock := d0 |} with (with_datablock (full (id, e)) d0).
  rewrite Ef. destruct (IH (<[i := full (id, e)]> kept)) as (kept' & -> & Hl & Hk').
  - intros j c Hj. apply Hb. by right.
  - intros j p Hj. destruct (decide (i = j)) as [->|Hne].
    + exists (body e). rewrite list_lookup_insert_eq by by apply lookup_lt_Some in Ek. rewrite Hi in Hj. by injection Hj as <-.
    + rewrite list_lookup_insert_ne by done. by apply Hk.
  - exists kept'. split; [done|]. split; [by rewrite Hl, length_insert|]. intros j p Hj. rewrite (Hk' _ _ Hj). cbn [fmap list_fmap fst].
    destruct (decide (j ∈ blobs.*1)) as [Hin|Hni]; [by rewrite decide_True by by right|].
    destruct (decide (i = j)) as [->|Hne].
    + rewrite decide_True by left. rewrite list_lookup_insert_eq by by apply lookup_lt_Some in Ek. by rewrite Hi in Hj; injection Hj as <-.
    + rewrite decide_False by (rewrite elem_of_cons; naive_solver). by rewrite list_lookup_insert_ne.
Qed.

(** A segment that is open and holds the log the entries come from. *)
Record readable (cache : LogSegmentsCache) (read_max_chunk_size id : Z) : Prop := {
  rd_segment : exists seg tip0 log, lc_get cache id = Some seg /\ segment_holds seg tip0 log /\
    complete_reads (dma_file cache id seg) /\ (filter (fun p => p.1 = id) es).*2 `sublist_of` log;
  rd_open : lc_lock cache id = true /\ lc_handle cache id = true;
  rd_chunk : 0 < lc_alignment cache <= read_max_chunk_size /\ read_max_chunk_size mod lc_alignment cache = 0;
}.

Lemma place_of e b : stored e (body e) -> le_data e = Some b ->
  0 <= datablock_position (le_metablock e) -> datablock_position (le_metablock e) + Z.of_nat (length b) < 2 ^ 64 ->
  place e = {| start_pos := datablock_position (le_metablock e); end_pos := datablock_position (le_metablock e) + Z.of_nat (length b) |} /\
  b <> [].
Proof.
  intros Hs Hd Hp Hlt. pose proof (stored_cases _ _ Hs) as Hc. rewrite Hd in Hc. destruct Hc as (_ & _ & _ & _ & Hb & Hl).
  split; [|done]. unfold place. rewrite Hl. f_equal. unfold saturating_add. lia.
Qed.

Section segment.
Context (cache : LogSegmentsCache) (read_max_chunk_size id : Z) (seg : LogSegmentFile) (tip0 : bytes) (log : list LogEntry).
Context (Hholds : segment_holds seg tip0 log) (Hsub : (filter (fun p => p.1 = id) es).*2 `sublist_of` log).
Notation group := (filter (fun e => is_Some (le_data e)) (filter (fun p => p.1 = id) es).*2).

(** A body of the segment and its place. *)
Definition placed (q : AbsoluteObjectPosition) (b : bytes) : Prop :=
  0 <= start_pos q < end_pos q /\ end_pos q = start_pos q + Z.of_nat (length b) /\ end_pos q <= file_len (metadata seg) /\
  slice (contents seg) (Z.to_nat (start_pos q)) (length b) = b.

Lemma group_placed e : e ∈ group -> exists b, le_data e = Some b /\ placed (place e) b /\ start_pos (place e) = datablock_position (le_metablock e).
Proof.
  intros [[b Hb] He]%list_elem_of_filter. assert (Hl : e ∈ log) by by eapply elem_of_sublist.
  apply list_elem_of_fmap in He as ([id' e'] & -> & [_ He]%list_elem_of_filter). cbn [snd] in *.
  rewrite Forall_forall in Hstored. pose proof (Hstored _ He) as Hs. cbn [snd] in Hs.
  apply list_elem_of_lookup in Hl as [i Hi]. destruct (sh_data _ _ _ Hholds i e' b Hi Hb) as (Hlo & Hhi & Hsl).
  destruct (so_positions _ (sh_ok _ _ _ Hholds)) as [[Hm1 Hm2] _]. pose proof (so_small _ (sh_ok _ _ _ Hholds)).
  exists b. destruct (place_of e' b Hs Hb) as [-> Hne]; [lia|lia|]. split; [done|]. split; [|done].
  destruct b as [|x b]; [done|]. unfold placed. cbn [start_pos end_pos]. split_and!; try done; cbn [length]; try lia. cbn [length] in Hhi. lia.
Qed.

Lemma group_sorted : StronglySorted (fun e e' => end_pos (place e') <= start_pos (place e)) group.
Proof.
  assert (Hd : StronglySorted (fun e e' => forall b b', le_data e = Some b -> le_data e' = Some b' ->
    datablock_position (le_metablock e') + Z.of_nat (length b') <= datablock_position (le_metablock e)) group).
  { eapply StronglySorted_sublist; [etrans; [apply sublist_filter|exact Hsub]|].
    pose proof (sh_descending _ _ _ Hholds) as Hdesc. clear -Hdesc. induction log as [|e l IH]; [constructor|]. constructor.
    - apply IH. intros i j e1 e2 b b' Hij Hi Hj. by eapply (Hdesc (S i) (S j)); [lia|..].
    - apply Forall_forall. intros e' [j Hj]%list_elem_of_lookup b b'. by eapply (Hdesc 0%nat (S j)); [lia|..]. }
  pose proof group_placed as Hp. revert Hd Hp. generalize group as g. clear.
  induction g as [|e g IH]; intros Hd Hp; [constructor|]. apply StronglySorted_inv in Hd as [Hd He]. constructor.
  - apply IH; [done|]. intros e' He'. apply Hp. by right.
  - rewrite Forall_forall in He |- *. intros e' He'. destruct (Hp e) as (b & Eb & _ & ->); [by left|].
    destruct (Hp e') as (b' & Eb' & (_ & -> & _) & ->); [by right|]. by eapply He.
Qed.

Lemma group_valid : 0 < lc_alignment cache <= read_max_chunk_size -> read_max_chunk_size mod lc_alignment cache = 0 ->
  positions_valid (lc_alignment cache) (file_len (metadata seg)) read_max_chunk_size (place <$> reverse group) = true.
Proof.
  intros Ha Hm. pose proof group_placed as Hp. pose proof group_sorted as Hs. apply StronglySorted_reverse in Hs.
  assert (Hin : forall q, q ∈ place <$> reverse group -> exists b, placed q b).
  { intros q (e & -> & He%elem_of_reverse)%list_elem_of_fmap. rewrite ?reverse_involutive in He. destruct (Hp e He) as (b & _ & ? & _). by exists b. }
  revert Hin. assert (Hq : StronglySorted (fun a b => end_pos a <= start_pos b) (place <$> reverse group)).
  { by eapply StronglySorted_fmap; [|exact Hs]. }
  revert Hq. generalize (place <$> reverse group) as l. clear -Ha Hm. intros l Hq Hin. unfold positions_valid.
  assert (Hw : StronglySorted (fun a b => start_pos a < end_pos a /\ end_pos a <= start_pos b) l).
  { induction Hq as [|a l Hq IH Hall]; [constructor|]. constructor; [apply IH; intros q Hq'; apply Hin; by right|].
    destruct (Hin a) as (b & (? & _)); [by left|]. eapply Forall_impl; [exact Hall|]. cbn. lia. }
  assert (Hwin : forall f : AbsoluteObjectPosition -> AbsoluteObjectPosition -> bool,
    (forall a b, start_pos a < end_pos a /\ end_pos a <= start_pos b -> f a b = true) -> windows_all f l = true).
  { intros f Hf. apply windows_sorted. rewrite <- (list_fmap_id l). by eapply StronglySorted_fmap, Hw. }
  rewrite !Hwin by lia. rewrite !andb_true_iff, forallb_forall. split_and!; try done; try lia.
  - intros q Hq'%list_elem_of_In. destruct (Hin q Hq') as (b & (? & _)). lia.
  - destruct (last l) as [q|] eqn:El; [|done]. destruct (Hin q) as (b & ? & _ & ? & _); [by apply last_Some_elem_of|]. lia.
Qed.
End segment.

Lemma group_blobs cache chunk id seg tip0 log : segment_holds seg tip0 log ->
  (filter (fun p => p.1 = id) es).*2 `sublist_of` log -> complete_reads (dma_file cache id seg) ->
  0 < lc_alignment cache <= chunk -> chunk mod lc_alignment cache = 0 ->
  let group := reverse (fetches_of id (fetches_from 0 es)) in
  exists blobs, read_objects_absolute (dma_file cache id seg) (file_len (metadata seg)) group.*2 chunk = Done blobs /\
    length blobs = length group /\
    forall i b, (i, b) ∈ zip group.*1 blobs -> exists p, es !! i = Some p /\ le_data p.2 = Some b.
Proof.
  intros Hh Hsub Hr Ha Hm group. assert (El : file_len (metadata seg) = Z.of_nat (length (df_contents (dma_file cache id seg)))).
  { symmetry. apply (so_len _ (sh_ok _ _ _ Hh)). }
  assert (Eg : group.*2 = place <$> reverse (filter (fun e => is_Some (le_data e)) (filter (fun p => p.1 = id) es).*2)).
  { unfold group. by rewrite fmap_reverse, fetches_of_places, fmap_reverse. }
  pose proof (group_valid cache chunk id seg tip0 log Hh Hsub Ha Hm) as Hv. rewrite <- Eg, El in Hv.
  exists (object_at (dma_file cache id seg) (file_len (metadata seg)) <$> group.*2). rewrite El at 1. split; [|split].
  - rewrite El. apply read_objects_spec; [done|cbn; lia|exact Hv|]. rewrite Eg. apply Forall_fmap, Forall_forall.
    intros e He%elem_of_reverse. rewrite ?reverse_involutive in He. change (0 <= start_pos (place e)).
    destruct (group_placed id seg tip0 log Hh Hsub e He) as (b & _ & (? & _) & _). lia.
  - by rewrite !length_fmap.
  - intros i b. rewrite <- list_fmap_compose, zip_fmaps. intros Hib.
    apply list_elem_of_fmap in Hib as ([j q] & [= -> ->] & Hq).
    unfold group in Hq. apply elem_of_reverse in Hq. rewrite ?reverse_involutive in Hq. apply fetches_of_elem in Hq as (e & He & Hd & ->).
    exists (id, e). split; [done|]. destruct (group_placed id seg tip0 log Hh Hsub e) as (b & Hb & (Hp & Hend & Hfl & Hsl) & _).
    { apply list_elem_of_filter. split; [done|]. apply list_elem_of_fmap. exists (id, e). split; [done|].
      apply list_elem_of_filter. split; [done|]. by eapply list_elem_of_lookup_2. }
    cbn [snd]. rewrite Hb. f_equal. unfold object_at. cbn [df_contents dma_file]. rewrite <- Hsl at 1. f_equal. lia.
Qed.

Lemma fetch_segment_spec cache chunk id todo : readable cache chunk id ->
  fetch_segment cache chunk (fetches_from 0 es) (fetched todo <$> es) id = Done (fetched (filter (fun i => i <> id) todo) <$> es).
Proof.
  intros [(seg & tip0 & log & Hget & Hh & Hr & Hsub) [Hlock Hhandle] [Ha Hm]]. unfold fetch_segment.
  rewrite Hget, Hlock, Hhandle. cbn [negb].
  destruct (group_blobs cache chunk id seg tip0 log Hh Hsub Hr Ha Hm) as (blobs & -> & Hlen & Hb).
  unfold mbind, outcome_bind. cbn [map_failed]. rewrite Hlen, Nat.eqb_refl. cbn [negb].
  destruct (fill_spec (fetched todo <$> es) _ Hb) as (kept' & E & Hl & Hk).
  { intros i p Hi. rewrite list_lookup_fmap, Hi. cbn. unfold fetched. case_decide; [by exists None|].
    exists (body p.2). done. }
  rewrite E. f_equal. apply list_eq_same_length with (length es); [by rewrite length_fmap|by rewrite Hl, length_fmap|].
  intros i k k' Hi Hk1 Hk2. destruct (lookup_lt_is_Some_2 es i Hi) as [p Hp]. rewrite (Hk _ _ Hp), list_lookup_fmap, Hp in Hk1.
  rewrite list_lookup_fmap, Hp in Hk2. cbn in Hk1, Hk2. injection Hk2 as <-.
  rewrite fst_zip in Hk1 by (rewrite length_fmap; lia).
  assert (Hin : i ∈ (reverse (fetches_of id (fetches_from 0 es))).*1 <-> is_Some (le_data p.2) /\ p.1 = id).
  { rewrite list_elem_of_fmap. split.
    - intros ([j q] & Ej & Hq%elem_of_reverse). cbn in Ej. subst j. rewrite ?reverse_involutive in Hq.
      apply fetches_of_elem in Hq as (e & He & Hd & _). rewrite Hp in He. by injection He as ->.
    - destruct p as [id' e]. intros [Hd Eid]. cbn in Hd, Eid. subst id'. exists (i, place e). split; [done|].
      apply elem_of_reverse. rewrite ?reverse_involutive. apply fetches_of_elem. by exists e. }
  revert Hk1. unfold fetched. destruct (decide (i ∈ _)) as [Hi'|Hi']; rewrite Hin in Hi'; intros [= <-].
  - rewrite decide_False; [done|]. rewrite list_elem_of_filter. tauto.
  - f_equal. repeat case_decide; rewrite ?list_elem_of_filter in *; tauto.
Qed.

Lemma fetched_ext todo todo' : (forall i, i ∈ todo <-> i ∈ todo') -> fetched todo <$> es = fetched todo' <$> es.
Proof. intros He. apply list_fmap_ext. intros i p _. unfold fetched. specialize (He p.1). repeat case_decide; tauto. Qed.

Lemma fetch_segments_spec cache chunk ids todo : (forall id, id ∈ ids -> readable cache chunk id) ->
  fetch_segments cache chunk (fetches_from 0 es) (fetched todo <$> es) ids = Done (fetched (filter (fun i => i ∉ ids) todo) <$> es).
Proof.
  revert todo. induction ids as [|id ids IH]; intros todo Hids; cbn [fetch_segments].
  - f_equal. apply fetched_ext. intros i. rewrite list_elem_of_filter. pose proof (not_elem_of_nil i). tauto.
  - rewrite fetch_segment_spec by (apply Hids; by left). unfold mbind, outcome_bind.
    rewrite IH by (intros; apply Hids; by right). f_equal. apply fetched_ext. intros i.
    rewrite !list_elem_of_filter, not_elem_of_cons. tauto.
Qed.

(** All bodies are read, in whatever order the segments come. *)
Lemma fetch_bodies_spec hash_order cache chunk : (forall l, hash_order l ≡ₚ l) ->
  (forall id, id ∈ es.*1 -> readable cache chunk id) ->
  fetch_datablocks_for_metablocks hash_order cache chunk (bare <$> es) = Done (full <$> es).
Proof.
  intros Hperm Hids. unfold fetch_datablocks_for_metablocks. rewrite plan_spec. unfold mbind, outcome_bind.
  assert (Hmem : forall id, id ∈ hash_order (remove_dups (fetches_from 0 es).*1) <-> exists i e, es !! i = Some (id, e) /\ is_Some (le_data e)).
  { intros id. rewrite Hperm, elem_of_remove_dups, list_elem_of_fmap. split.
    - intros ([id' [i q]] & -> & (j & e & _ & Hj & Hd & _)%fetches_from_elem). by exists j, e.
    - intros (i & e & He & Hd). exists (id, (i, place e)). split; [done|]. apply fetches_from_elem. by exists i, e. }
  rewrite fetch_segments_spec.
  - f_equal. apply list_fmap_ext. intros i [id e] Hi. unfold fetched. rewrite decide_False; [done|].
    cbn [fst snd]. rewrite list_elem_of_filter, Hmem. intros (Hd & Hni & _). apply Hni. by exists i, e.
  - intros id (i & e & He & _)%Hmem. apply Hids. apply list_elem_of_fmap. exists (id, e). split; [done|]. by eapply list_elem_of_lookup_2.
Qed.
End fetch.

(** ** What the scan collects *)

Section collected.
Context `{Bincode, Crc32c, Blake3, Xxh3, DictCodec}.
Context (follower_wal_seq leader_wal_seq : Z) (max_size_bytes : option Z) (body : LogEntry -> option DatablockKind).

Definition seq_of (p : Z * LogEntry) : Z := wal_seq (le_metablock p.2).

(** The entries the follower misses. *)
Definition missing (p : Z * LogEntry) : Prop := follower_wal_seq < seq_of p < leader_wal_seq.

#[global] Instance missing_dec p : Decision (missing p).
Proof. unfold missing. apply _. Defined.

Definition sizes (l : list (Z * LogEntry)) : Z := sum_Z ((fun p => catchup_size (le_metablock p.2)) <$> l).

Lemma catchup_size_nonneg mb : wf_metablock mb -> 0 <= catchup_size mb.
Proof.
  intros (_ & _ & _ & _ & Hu & _). unfold catchup_size, saturating_add. unfold fits in Hu. lia.
Qed.

Lemma over_mono x y : x <= y -> over max_size_bytes y = false -> over max_size_bytes x = false.
Proof. unfold over. destruct max_size_bytes; [lia|done]. Qed.

Lemma sizes_nonneg l : Forall (fun p => wf_metablock (le_metablock p.2)) l -> 0 <= sizes l.
Proof.
  intros Hl. induction Hl as [|p l Hp _ IH]; [done|]. unfold sizes in *. rewrite fmap_cons, sum_Z_cons. pose proof (catchup_size_nonneg _ Hp). lia.
Qed.

Lemma sizes_cons p l : sizes (p :: l) = catchup_size (le_metablock p.2) + sizes l.
Proof. done. Qed.

Lemma filter_nil_below p l : seq_of p <= follower_wal_seq -> Forall (fun q => seq_of q < seq_of p) l -> filter missing (p :: l) = [].
Proof.
  intros Hp Hl. rewrite filter_cons_False by (intros [? ?]; lia). induction Hl as [|q l Hq _ IH]; [done|].
  rewrite filter_cons_False by (intros [? ?]; lia). done.
Qed.

Lemma walk_spec l items size :
  StronglySorted (fun a b => seq_of b < seq_of a) l -> Forall (fun p => wf_metablock (le_metablock p.2)) l ->
  0 <= size -> size + sizes (filter missing l) < 2 ^ 64 ->
  exists items' size' r,
    visit_entries (catchup_visitor follower_wal_seq leader_wal_seq max_size_bytes) l (items, size) = ((items', size'), Done r) /\
    if over max_size_bytes (size + sizes (filter missing l))
    then over max_size_bytes size = false -> over max_size_bytes size' = true /\ items' <> []
    else items' = items ++ (bare body <$> filter missing l) /\ size' = size + sizes (filter missing l).
Proof.
  intros Hs. revert items size. induction Hs as [|[id e] l Hs IH Hlt]; intros items size Hwf H0' Hsum.
  - exists items, size, None. split; [done|]. change (sizes (filter missing [])) with 0. rewrite Z.add_0_r, app_nil_r.
    destruct (over max_size_bytes size) eqn:Eo; [by intros|done].
  - inversion_clear Hwf as [|? ? Hw Hwf']. cbn [snd] in Hw. cbn [visit_entries]. unfold mbind, effect_bind, catchup_visitor at 1.
    destruct (read_common _ Hw) as [-> _]. change (wal_seq (le_metablock e)) with (seq_of (id, e)).
    destruct (Z.leb_spec (seq_of (id, e)) follower_wal_seq) as [Hle|Hgt].
    + assert (Hnone : filter missing ((id, e) :: l) = []) by (apply filter_nil_below; [lia|done]).
      exists items, size, (Some tt). split; [done|]. rewrite Hnone in *. change (sizes []) with 0 in *. rewrite Z.add_0_r, app_nil_r.
      destruct (over max_size_bytes size) eqn:Eo; [by intros|done].
    + destruct (Z.ltb_spec (seq_of (id, e)) leader_wal_seq) as [Hin|Hout].
      * rewrite filter_cons_True in Hsum |- * by (split; lia). rewrite sizes_cons in *. pose proof (catchup_size_nonneg _ Hw) as Hsz.
        assert (0 <= sizes (filter missing l)) as Hrest by (by apply sizes_nonneg, Forall_kept).
        rewrite deserialise_metablock_block by done. unfold wrapping_add. rewrite wrap_small by (unfold fits; cbn [snd] in *; lia). cbn [snd] in *.
        destruct (over max_size_bytes (size + catchup_size (le_metablock e))) eqn:Eo.
        -- eexists _, _, _. split; [done|]. rewrite Z.add_assoc.
           destruct (over max_size_bytes (_ + _ + _)) eqn:Eo2; [split; [done|by destruct items]|].
           apply (over_mono (size + catchup_size (le_metablock e))) in Eo2; [congruence|lia].
        -- destruct (IH (items ++ [bare body (id, e)]) (size + catchup_size (le_metablock e))) as (items' & size' & r & E & Hres); [done|lia|lia|].
           exists items', size', r. split; [exact E|]. rewrite Z.add_assoc. destruct (over max_size_bytes (_ + _ + _)).
           { intros _. by apply Hres. }
           destruct Hres as [-> ->]. by rewrite <- app_assoc.
      * rewrite filter_cons_False in Hsum |- * by (intros [? ?]; lia). by apply IH.
Qed.
End collected.

(** ** Entries that have their bodies *)

Section refetch.
Context `{Bincode, Crc32c, DictCodec}.

Definition bodied (k : EventBatchFromLogSegmentFile) : Prop :=
  is_Some (ebf_datablock k) \/ datablock (ebf_metablock k) = StorageNone.

Lemma plan_bodied n kept kept' fetches : plan_fetches n kept = Done (kept', fetches) ->
  forall i k, kept' !! i = Some k -> bodied k \/ exists id q, (id, ((n + i)%nat, q)) ∈ fetches.
Proof.
  revert n kept' fetches. induction kept as [|k0 kept IH]; intros n kept' fetches; cbn [plan_fetches]; [by intros [= <- <-] i k|].
  unfold mbind, outcome_bind.
  assert (Hgo : forall k1 f1, (bodied k1 \/ exists id q, f1 = [(id, (n, q))]) ->
    match plan_fetches (S n) kept with Done p => let '(rest, fs) := p in Done (k1 :: rest, f1 ++ fs) | Failed e => Failed e | Panicked => Panicked end
      = Done (kept', fetches) ->
    forall i k, kept' !! i = Some k -> bodied k \/ exists id q, (id, ((n + i)%nat, q)) ∈ fetches).
  { intros k1 f1 Hk1. destruct (plan_fetches (S n) kept) as [[rest fs]| |] eqn:E2; try done. intros [= <- <-] [|i] k Hk.
    - injection Hk as ->. rewrite Nat.add_0_r. destruct Hk1 as [?|(id & q & ->)]; [by left|]. right. exists id, q. by left.
    - destruct (IH _ _ _ E2 i k Hk) as [?|(id & q & Hin)]; [by left|]. right. exists id, q.
      rewrite Nat.add_succ_r. apply elem_of_app. by right. }
  destruct (ebf_datablock k0) eqn:Ed; [apply Hgo; left; left; by rewrite Ed|].
  destruct (datablock (ebf_metablock k0)) eqn:Es.
  - apply Hgo. left. by right.
  - destruct (deserialise_body k0 None true); try done. apply Hgo. left. left. by eexists.
  - apply Hgo. right. by eexists _, _.
Qed.

Lemma fill_bodied kept blobs kept' : fill_datablocks kept blobs = Done kept' ->
  forall i k, kept' !! i = Some k -> (bodied k /\ i ∈ blobs.*1) \/ (kept !! i = Some k /\ i ∉ blobs.*1).
Proof.
  revert kept. induction blobs as [|[j b] blobs IH]; intros kept; cbn [fill_datablocks].
  - intros [= <-] i k Hk. right. split; [done|]. apply not_elem_of_nil.
  - unfold mbind, outcome_bind. destruct (kept !! j) as [k0|] eqn:Ej; [|done]. cbn [or_panic].
    destruct (deserialise_body k0 (Some b) false) as [d| |]; try done. intros E i k Hk.
    destruct (IH _ E i k Hk) as [[? Hin]|[Hin Hni]]; [left; split; [done|by right]|].
    destruct (decide (i = j)) as [->|Hne].
    + left. rewrite list_lookup_insert_eq in Hin by by apply lookup_lt_Some in Ej. injection Hin as <-. split; [left; by eexists|by left].
    + right. rewrite list_lookup_insert_ne in Hin by done. split; [done|]. apply not_elem_of_cons. by split.
Qed.

Lemma segments_bodied cache chunk fetches ids kept kept' : fetch_segments cache chunk fetches kept ids = Done kept' ->
  forall i k, kept' !! i = Some k -> bodied k \/ (kept !! i = Some k /\ forall id q, id ∈ ids -> (id, (i, q)) ∉ fetches).
Proof.
  revert kept. induction ids as [|id ids IH]; intros kept; cbn [fetch_segments].
  - intros [= <-] i k Hk. right. split; [done|]. by intros id q ?%not_elem_of_nil.
  - unfold mbind, outcome_bind at 1. destruct (fetch_segment cache chunk fetches kept id) as [kept1| |] eqn:E1; try done. intros E i k Hk.
    destruct (IH _ E i k Hk) as [?|[Hk1 Hno]]; [by left|]. revert E1. unfold fetch_segment.
    destruct (lc_get cache id); [|done]. destruct (negb (lc_lock _ _)); [done|]. destruct (negb (lc_handle _ _)); [done|].
    unfold mbind, outcome_bind. destruct (map_failed _ _) as [blobs| |]; try done.
    destruct (Nat.eqb_spec (length blobs) (length (reverse (fetches_of id fetches)))) as [Hl|]; [|done]. cbn [negb]. intros E1.
    destruct (fill_bodied _ _ _ E1 i k Hk1) as [[? _]|[Hk0 Hni]]; [by left|]. right. split; [done|].
    intros id' q [->|Hid]%elem_of_cons Hin; [|by eapply Hno]. apply Hni. rewrite fst_zip by (rewrite length_fmap; lia).
    rewrite fmap_reverse. apply elem_of_reverse. rewrite ?reverse_involutive. apply list_elem_of_fmap. exists (i, q). split; [done|].
    apply list_elem_of_fmap. exists (id, (i, q)). split; [done|]. by apply list_elem_of_filter.
Qed.

Lemma bodied_planned n kept : Forall bodied kept -> plan_fetches n kept = Done (kept, []).
Proof.
  intros Hk. revert n. induction Hk as [|k kept Hk _ IH]; intros n; [done|]. cbn [plan_fetches]. unfold mbind, outcome_bind.
  destruct (ebf_datablock k) eqn:Ed; [by rewrite IH|]. destruct Hk as [[? ?]|Hk]; [congruence|]. rewrite Hk. by rewrite IH.
Qed.

(** Fetching the bodies of entries that were fetched before changes nothing,
    whatever the segments are by then. *)
Lemma refetch_done hash_order cache cache' chunk kept kept' : (forall l : list Z, hash_order l ≡ₚ l) ->
  fetch_datablocks_for_metablocks hash_order cache chunk kept = Done kept' ->
  fetch_datablocks_for_metablocks hash_order cache' chunk kept' = Done kept'.
Proof.
  intros Hperm. unfold fetch_datablocks_for_metablocks at 1, mbind, outcome_bind. destruct (plan_fetches 0 kept) as [[kept1 fetches]| |] eqn:Ep; try done.
  intros E. assert (Hb : Forall bodied kept').
  { apply Forall_lookup. intros i k Hk. destruct (segments_bodied _ _ _ _ _ _ E i k Hk) as [?|[Hk1 Hno]]; [done|].
    destruct (plan_bodied _ _ _ _ Ep i k Hk1) as [?|(id & q & Hin)]; [done|]. exfalso. cbn in Hin. eapply (Hno id q); [|exact Hin].
    rewrite Hperm. apply elem_of_remove_dups, list_elem_of_fmap. by exists (id, (i, q)). }
  unfold fetch_datablocks_for_metablocks. rewrite bodied_planned by done. unfold mbind, outcome_bind. cbn.
  pose proof (Hperm []) as Hnil. apply Permutation_nil_r in Hnil. by rewrite Hnil.
Qed.

Lemma refetch_caught hash_order cache cache' active F L cap chunk entries : (forall l : list Z, hash_order l ≡ₚ l) ->
  fetch_catchup_entries hash_order cache active F L cap chunk = Done entries ->
  fetch_datablocks_for_metablocks hash_order cache' chunk entries = Done entries.
Proof.
  intros Hperm. unfold fetch_catchup_entries. destruct (scan _ _ _ _) as [[items size] scanned]. unfold mbind, outcome_bind.
  destruct (map_failed _ scanned); try done. destruct items as [|k items].
  - intros [= <-]. unfold fetch_datablocks_for_metablocks. cbn. pose proof (Hperm []) as Hnil. apply Permutation_nil_r in Hnil. by rewrite Hnil.
  - destruct (over cap size); [done|]. destruct (fetch_datablocks_for_metablocks _ _ _ _) as [ks| |] eqn:E; try done. intros [= <-].
    by eapply refetch_done.
Qed.
End refetch.

(** ** The log of the leader *)

Lemma scan_ids_le n x id : id ∈ scan_ids n x -> id <= x.
Proof.
  revert x. induction n as [|n IH]; intros x; cbn; [by intros ?%not_elem_of_nil|].
  intros [->|Hi]%elem_of_cons; [done|]. apply IH in Hi. lia.
Qed.

Lemma scan_ids_NoDup n x : NoDup (scan_ids n x).
Proof.
  revert x. induction n as [|n IH]; intros x; cbn; constructor; [|by apply IH]. intros Hi%scan_ids_le. lia.
Qed.

Section leader.
Context `{Bincode, Crc32c, Blake3, Xxh3, DictCodec}.
Context (logs : Z -> list LogEntry).

(** The entries of some segments, in their order. *)
Definition entries_of (ids : list Z) : list (Z * LogEntry) := flat_map (fun id => pair id <$> logs id) ids.

Lemma in_order_reverse ids : in_order ((fun id => (id, reverse (logs id))) <$> ids) = reverse (entries_of (reverse ids)).
Proof.
  unfold in_order, entries_of. induction ids as [|id ids IH]; [done|]. rewrite reverse_cons, flat_map_app, reverse_app. cbn [fmap list_fmap flat_map fst snd].
  rewrite IH. f_equal. by rewrite app_nil_r, fmap_reverse.
Qed.

Lemma entries_of_segment ids id : NoDup ids -> id ∈ ids -> (filter (fun p => p.1 = id) (entries_of ids)).*2 = logs id.
Proof.
  assert (Hother : forall k l, k <> id -> filter (fun p : Z * LogEntry => p.1 = id) (pair k <$> l) = []).
  { intros k l Hk. induction l as [|x l IH]; [done|]. by rewrite fmap_cons, filter_cons_False. }
  assert (Hnone : forall ids, id ∉ ids -> filter (fun p => p.1 = id) (entries_of ids) = []).
  { intros l. induction l as [|k l IH]; [done|]. intros [Hk Hl]%not_elem_of_cons. unfold entries_of in *. cbn [flat_map].
    rewrite filter_app, Hother, IH by done. done. }
  induction 1 as [|k l Hk Hl IH]; [by intros ?%not_elem_of_nil|]. intros [->|Hi]%elem_of_cons;
    unfold entries_of in *; cbn [flat_map]; rewrite filter_app, fmap_app.
  - rewrite (Hnone l Hk), app_nil_r. clear. induction (logs k) as [|x l IH]; [done|]. rewrite fmap_cons, filter_cons_True by done. cbn. by f_equal.
  - rewrite (Hother k) by (by intros ->). by apply IH.
Qed.

Lemma entries_of_elem ids id e : (id, e) ∈ entries_of ids -> id ∈ ids /\ e ∈ logs id.
Proof.
  unfold entries_of. rewrite list_elem_of_In, in_flat_map. intros (k & Hk%list_elem_of_In & Hp%list_elem_of_In).
  by apply list_elem_of_fmap in Hp as (x & [= -> ->] & Hx).
Qed.

Context (cache : LogSegmentsCache) (active_log_id read_max_chunk_size first_wal_seq : Z) (segs : Z -> LogSegmentFile).
Notation sc := (catchup_scanner active_log_id read_max_chunk_size).

(** The whole log, oldest entry first. *)
Definition whole_log : list (Z * LogEntry) := entries_of (reverse (scanned_segments sc)).

(** Every segment is open and holds its log; sequence numbers count through. *)
Record shard_log : Prop := {
  sl_scanner : scanner_ok cache sc;
  sl_segments id : id ∈ scanned_segments sc -> segment_scannable cache sc id (segs id) (logs id);
  sl_sequence i p : whole_log !! i = Some p -> seq_of p = first_wal_seq + Z.of_nat i;
}.
Context (Hlog : shard_log).

Lemma write_cursor_visible seg tip0 log : segment_holds seg tip0 log -> visible sc seg log None = log.
Proof.
  intros Hh. unfold visible, cursor_position. cbn [use_write_cursor catchup_scanner with_write_cursor_upper_bound].
  unfold upper_bound, entries_below. cbn [default]. rewrite Z.min_id. fold (wcur seg) (mp seg).
  rewrite (sh_end _ _ _ Hh), take_ge; [done|].
  rewrite Nat2Z.inj_add, Nat2Z.inj_mul, Z.add_simpl_l, Z.div_mul by done. lia.
Qed.

(** The scan walks the whole log backwards. *)
Lemma catchup_scan {S E T} (visitor : Z -> Z -> bytes -> effect S E (option T)) s :
  scan visitor cache sc s = effect_map_err Visitor (visit_entries visitor (reverse whole_log)) s.
Proof.
  destruct Hlog as [Hsc Hseg _]. destruct (scan_spec visitor cache sc Hsc segs logs Hseg) as (visits & Hids & Hvs & ->).
  do 3 f_equal. unfold whole_log. rewrite <- in_order_reverse, <- Hids. f_equal.
  assert (Hin : forall id v, (id, v) ∈ visits -> id ∈ scanned_segments sc).
  { intros id v Hv. rewrite <- Hids. apply list_elem_of_fmap. by exists (id, v). }
  clear Hids. induction Hvs as [|[id v] visits Hv _ IH]; [done|]. cbn [fmap list_fmap]. rewrite <- IH by (intros; eapply Hin; by right).
  f_equal. f_equal. replace (override_of sc id) with (@None Z) in Hv by (unfold override_of; by destruct (_ =? _)).
  rewrite (plain_visit_exact sc segs logs id None v) by done.
  destruct (Hseg id) as [(tip0 & Hh) _ _ _]; [eapply Hin; by left|]. by rewrite (write_cursor_visible _ _ _ Hh).
Qed.

Lemma whole_log_wf : Forall (fun p => wf_metablock (le_metablock p.2)) whole_log.
Proof.
  apply Forall_forall. intros [id e] [Hid He]%entries_of_elem. apply elem_of_reverse in Hid. rewrite ?reverse_involutive in Hid.
  destruct (sl_segments Hlog id Hid) as [(tip0 & Hh) _ _ _]. apply list_elem_of_lookup in He as [i Hi].
  by destruct (sh_entry _ _ _ Hh i e Hi) as (_ & _ & ? & _).
Qed.

Lemma whole_log_descends : StronglySorted (fun a b => seq_of b < seq_of a) (reverse whole_log).
Proof.
  change (StronglySorted (flip (fun b a => seq_of b < seq_of a)) (reverse whole_log)). apply StronglySorted_reverse.
  pose proof (sl_sequence Hlog) as Hs. revert Hs. generalize first_wal_seq as b, whole_log as l. clear.
  intros b l. revert b. induction l as [|p l IH]; intros b Hs; [constructor|]. constructor.
  - apply (IH (b + 1)). intros i q Hq. rewrite (Hs (S i) q Hq). lia.
  - apply Forall_forall. intros q [i Hq]%list_elem_of_lookup. rewrite (Hs (S i) q Hq), (Hs 0%nat p eq_refl). lia.
Qed.

Lemma whole_log_readable es id : es `sublist_of` whole_log -> id ∈ es.*1 -> readable es cache read_max_chunk_size id.
Proof.
  intros Hsub Hid. apply list_elem_of_fmap in Hid as ([k e] & Ek & He). cbn in Ek. subst k.
  apply (elem_of_sublist _ _ _ He) in Hsub as Hw. apply entries_of_elem in Hw as [Hid _].
  destruct (sl_scanner Hlog) as [[Ha Hm] [Hc Hcm] _ _]. cbn in Hc, Hcm.
  assert (Hid' := Hid). apply elem_of_reverse in Hid'. rewrite ?reverse_involutive in Hid'.
  destruct (sl_segments Hlog id Hid') as [(tip0 & Hh) Hr (Hget & Hlock & Hhandle & _) _]. split; [|done|].
  - exists (segs id), tip0, (logs id). split_and!; try done.
    rewrite <- (entries_of_segment (reverse (scanned_segments sc)) id); [|rewrite reverse_Permutation; apply scan_ids_NoDup|done].
    clear -Hsub. unfold whole_log in Hsub. induction Hsub as [|p l k Hs IH|p l k Hs IH]; [done|..];
      rewrite !(filter_cons _ p); case_decide; try done; by constructor.
  - apply Z.mod_divide in Hm, Hcm; try lia; [|done]. split.
    + split; [done|]. apply Z.divide_pos_le in Hm; [lia|done].
    + apply Z.mod_divide; [lia|]. by etrans.
Qed.

(** The missing entries are a stretch of the log. *)
Lemma missing_stretch F L : exists front rest, whole_log = front ++ filter (missing F L) whole_log ++ rest /\
  Forall (fun p => seq_of p <= F) front /\ Forall (fun p => L <= seq_of p \/ seq_of p <= F) rest.
Proof.
  pose proof (sl_sequence Hlog) as Hs. revert Hs. generalize first_wal_seq as b, whole_log as l. clear.
  intros b l. revert b. induction l as [|p l IH]; intros b Hs; [by exists [], []|].
  assert (Hp := Hs 0%nat p eq_refl). assert (Hl : forall i q, l !! i = Some q -> seq_of q = b + 1 + Z.of_nat i).
  { intros i q Hq. rewrite (Hs (S i) q Hq). lia. }
  destruct (decide (L <= seq_of p)) as [Hge|Hlt].
  { exists [], (p :: l). assert (Hall : Forall (fun q => L <= seq_of q) (p :: l)).
    { constructor; [done|]. apply Forall_forall. intros q [i Hi]%list_elem_of_lookup. rewrite (Hl i q Hi). lia. }
    split_and!; [|constructor|eapply Forall_impl; [exact Hall|by left]]. cbn [app].
    replace (filter (missing F L) (p :: l)) with (@nil (Z * LogEntry)); [done|]. clear -Hall.
    induction Hall as [|q l' Hq _ IH']; [done|]. rewrite filter_cons_False by (intros [? ?]; lia). done. }
  destruct (IH _ Hl) as (front & rest & E & Hf & Hr). destruct (decide (seq_of p <= F)) as [Hle|Hgt].
  - exists (p :: front), rest. rewrite filter_cons_False by (intros [? ?]; lia). split_and!; [by rewrite E at 1|by constructor|done].
  - exists [], rest. rewrite filter_cons_True by (split; lia). split_and!; [|constructor|done].
    destruct front as [|q front]; [cbn; by rewrite E at 1|]. inversion Hf as [|? ? Hq _]; subst.
    rewrite (Hl 0%nat q) in Hq by (rewrite E; done). lia.
Qed.

Lemma catchup_fetch_spec (hash_order : list Z -> list Z) (follower_wal_seq leader_wal_seq : Z) (max_size_bytes : option Z)
    (body : LogEntry -> option DatablockKind) :
  (forall l, hash_order l ≡ₚ l) -> Forall (fun p => stored p.2 (body p.2)) whole_log ->
  let es := filter (missing follower_wal_seq leader_wal_seq) whole_log in
  over max_size_bytes 0 = false -> sizes es < 2 ^ 64 ->
  fetch_catchup_entries hash_order cache active_log_id follower_wal_seq leader_wal_seq max_size_bytes read_max_chunk_size =
    (if over max_size_bytes (sizes es) then Failed FetchFollowerTooFarBehind else Done (full body <$> es)) /\
  (exists front rest, whole_log = front ++ es ++ rest /\ Forall (fun p => seq_of p <= follower_wal_seq) front) /\
  Forall2 carries es.*2 (item_of <$> (full body <$> es)).
Proof.
  cbv zeta. set (es := filter _ whole_log). intros Hperm Hst Hcap Hsum.
  assert (Hst' : Forall (fun p => stored p.2 (body p.2)) es) by by apply Forall_kept.
  split; [|split].
  - unfold fetch_catchup_entries. rewrite catchup_scan. unfold effect_map_err.
    destruct (walk_spec follower_wal_seq leader_wal_seq max_size_bytes body (reverse whole_log) [] 0) as (items & size & r & -> & Hres).
    + apply whole_log_descends.
    + apply Forall_reverse, whole_log_wf.
    + done.
    + rewrite filter_reverse. fold es. unfold sizes. rewrite fmap_reverse, (sum_Z_permute _ _ (reverse_Permutation _)). exact Hsum.
    + assert (Esz : sizes (filter (missing follower_wal_seq leader_wal_seq) (reverse whole_log)) = sizes es).
      { rewrite filter_reverse. fold es. unfold sizes. by rewrite fmap_reverse, (sum_Z_permute _ _ (reverse_Permutation _)). }
      rewrite Esz, Z.add_0_l in Hres. cbn [app] in Hres. unfold mbind, outcome_bind. cbn [map_failed].
      destruct (over max_size_bytes (sizes es)) eqn:Eo.
      * destruct (Hres Hcap) as [-> Hne]. by destruct items.
      * destruct Hres as [-> ->]. rewrite filter_reverse, fmap_reverse. fold es. rewrite Eo.
        destruct (reverse (bare body <$> es)) as [|k ks] eqn:Ek.
        -- apply (f_equal reverse) in Ek. rewrite reverse_involutive in Ek. by apply fmap_nil_inv in Ek as ->.
        -- rewrite <- Ek, reverse_involutive, fetch_bodies_spec; [done|done|done|].
           intros id Hid. eapply whole_log_readable; [apply sublist_filter|exact Hid].
  - destruct (missing_stretch follower_wal_seq leader_wal_seq) as (front & rest & E & Hf & _). by exists front, rest.
  - rewrite <- list_fmap_compose. apply Forall2_fmap_2. apply Forall_Forall2_diag.
    eapply Forall_impl; [exact Hst'|]. intros [id e] He. by apply stored_carries.
Qed.

(** C25: catching up fetches exactly what the follower misses.  On a leader
    whose segments hold their logs, whatever the order in which the hash map
    gives the segments and whatever the chunk size, the entries fetched are
    those between the follower's and the leader's sequence number, a stretch of
    the log in its order, each with the body it was written with, so that a
    batch of them carries the leader's entries; the follower is reported too
    far behind exactly when their size is over the limit. *)
Theorem catchup_fetch_exact (hash_order : list Z -> list Z) (follower_wal_seq leader_wal_seq : Z) (max_size_bytes : option Z)
    (body : LogEntry -> option DatablockKind) :
  (forall l, hash_order l ≡ₚ l) -> Forall (fun p => stored p.2 (body p.2)) whole_log ->
  let es := filter (missing follower_wal_seq leader_wal_seq) whole_log in
  over max_size_bytes 0 = false -> sizes es < 2 ^ 64 ->
  fetch_catchup_entries hash_order cache active_log_id follower_wal_seq leader_wal_seq max_size_bytes read_max_chunk_size =
    (if over max_size_bytes (sizes es) then Failed FetchFollowerTooFarBehind else Done (full body <$> es)) /\
  (exists front rest, whole_log = front ++ es ++ rest /\ Forall (fun p => seq_of p <= follower_wal_seq) front) /\
  Forall2 carries es.*2 (item_of <$> (full body <$> es)).
Proof. apply catchup_fetch_spec. Qed.
End leader.

(** ** Two entries with separate bodies *)

Module CatchupRun.
#[local] Existing Instance bincode_le.
#[local] Existing Instance crc_sum.
#[local] Existing Instance codec_id.
#[local] Existing Instance blake_pad.
#[local] Existing Instance xxh_low.

Definition datablock : DatablockKind :=
  EventBatchItem {| aggregate_version := 3; events :=
    [{| client_seq := 1; event_seq := 5; event_id := Some 9; event_timestamp := 10;
        event_type_major := 2; event_type_minor := 0; event_value := zeros 700; iv := None |}] |}.

Lemma datablock_wf : wf_datablock datablock.
Proof.
  unfold wf_datablock, datablock, aggregate_version, events. split; [split; lia|]. split; [|done].
  constructor; [|constructor]. unfold wf_event; cbn -[Z.pow zeros]. unfold wf_option_u128, fits.
  split_and!; try done; try lia; [intros x [= <-]; lia|]. unfold zeros. apply Forall_replicate. lia.
Qed.

Definition serialised : SerialisedDatablock := external_block 786 786 0 (enc_datablock datablock).

Lemma serialised_new : SerialisedDatablock_new datablock (Fixed CompressionNone) = Ok serialised.
Proof. vm_compute. reflexivity. Qed.

Definition metablock : Metablock :=
  {| wal_seq := 0; server_timestamp := 100; lease_epoch := 1; node_id := 9;
     uncompressed_size := 786; compressed_size := 786; datablock_version := sdb_datablock_version serialised;
     datablock_compression_type := 0; previous_tip_hash := GENESIS_HASH; datablock_position := 0; previous_aggregate_metablock_pos := 0;
     wal_metablock_type := EventBatchMetadata sample_event_batch; WalTypes.datablock := storage_kind serialised |}.

Lemma metablock_wf : wf_metablock metablock.
Proof.
  pose proof sample_metablock_wf as (_ & _ & _ & _ & _ & _ & _ & _ & Ht & _ & _ & Hk & _).
  assert (Hs : wf_storage_kind (storage_kind serialised)) by (vm_compute; by split). unfold wf_metablock. cbn -[Z.pow serialised]. unfold fits.
  split_and!; try done; try lia.
Qed.

Definition item : ShardLogQueueItem := ShardLogQueueItem_new (Some datablock) (external_data serialised) metablock.

Definition batch : SyncPositionsSnapshot := {| sps_queue := [item; item]; sps_positions := ∅; sps_schemas := ∅ |}.

Lemma caught_item_ok : item_ok item.
Proof. split; [apply metablock_wf|]. intros b [= <-]. split; [by vm_compute|by eexists]. Qed.

Lemma caught_batch_fits : batch_ok SyncRun.segment (sps_queue batch).
Proof. split; [done| |by vm_compute|done]. constructor; [apply caught_item_ok|]. constructor; [apply caught_item_ok|constructor]. Qed.

Lemma stamped_stored x : stamped_from item x -> stored (entry_of x) (Some datablock).
Proof.
  intros ((d & p & w & t & E) & Eb & _). unfold stored, entry_of. cbn [le_metablock le_data]. rewrite E, Eb.
  exists datablock, (Fixed CompressionNone), serialised.
  split; [done|]. split; [apply datablock_wf|]. split; [apply serialised_new|]. by split.
Qed.

(** The segment after the batch. *)
Lemma caught_log : exists seg e1 e2, segment_holds seg GENESIS_HASH [e1; e2] /\ stored e1 (Some datablock) /\ stored e2 (Some datablock) /\
  hc_wal_seq (wcur seg) = 2.
Proof.
  destruct (sync_refines_append (fun _ => zeros 1024) 512 (zeros 4096) SyncRun.segment batch FullCommit GENESIS_HASH []
    (fun _ => eq_refl) eq_refl ltac:(done) SyncRun.segment_empty caught_batch_fits) as (plan & _ & Hio).
  destruct (Hio (SyncRun.io_of plan) (SyncRun.io_of_complete plan)) as (snapshot & md & file & Es & Hh & Hf & _).
  destruct (sync_returns _ _ _ _ _ _ _ _ _ _ Es) as (_ & _ & Hw). destruct Hw as [Hw _]; [done..|].
  change (hc_wal_seq (wcur SyncRun.segment) + Z.of_nat (length (sps_queue batch))) with 2 in Hw.
  change (hc_wal_seq (pos (md_write md))) with (hc_wal_seq (wcur (install_batch file md (sps_queue snapshot)))) in Hw.
  set (seg := install_batch file md (sps_queue snapshot)) in *. clearbody seg. clear Es.
  remember (sps_queue snapshot) as queue eqn:Eq. clear Eq. change (sps_queue batch) with [item; item] in Hf.
  inversion Hf as [|? i1 ? l1 H1 Hf1]; subst. inversion Hf1 as [|? i2 ? l2 H2 Hf2]; subst. inversion Hf2; subst.
  exists seg, (entry_of i1), (entry_of i2). split; [exact Hh|]. split; [by apply stamped_stored|]. split; [by apply stamped_stored|exact Hw].
Qed.

Lemma is_shard_log seg e1 e2 : segment_holds seg GENESIS_HASH [e1; e2] ->
  shard_log (fun _ => [e1; e2]) (ScanRun.cache_of seg) 1 2048 (hc_wal_seq (wcur seg) - 1) (fun _ => seg).
Proof.
  intros Hh. split.
  - apply ScanRun.scanner_is_ok.
  - intros id Hid. change (id ∈ [1]) in Hid. apply list_elem_of_singleton in Hid as ->. by apply ScanRun.cache_scannable.
  - intros i p Hi. change (([(1, e1); (1, e2)] : list (Z * LogEntry)) !! i = Some p) in Hi. destruct i as [|[|i]]; [..|done]; injection Hi as <-.
    + destruct (sh_entry _ _ _ Hh 0%nat e1 eq_refl) as (_ & E & _). unfold seq_of. cbn [snd]. rewrite E. cbn [length]. lia.
    + destruct (sh_entry _ _ _ Hh 1%nat e2 eq_refl) as (_ & E & _). unfold seq_of. cbn [snd]. rewrite E. cbn [length]. lia.
Qed.

Lemma stored_size e d : stored e (Some d) -> uncompressed_size (le_metablock e) = byte_len (enc_datablock d).
Proof.
  unfold stored. assert (Hn : (MINIBATCH_SIZE_BYTES <= DEFAULT_AUTO_STACK_SCRATCH_BYTES)%nat) by (apply Nat.leb_le; by vm_compute).
  destruct (WalTypes.datablock (le_metablock e)); [by intros [_ ?]|..]; intros (d' & policy & s & [= <-] & _ & E & Hr & _);
    destruct (serialised_is_stored _ d policy s Hn E) as (ct & b & _ & ->); rewrite (rc_uncompressed _ _ Hr);
    unfold store; by case_decide.
Qed.

Lemma all_missing seg e1 e2 : segment_holds seg GENESIS_HASH [e1; e2] ->
  let w := hc_wal_seq (wcur seg) - 2 in
  filter (missing w (w + 3)) (whole_log (fun _ => [e1; e2]) 1 2048) = [(1, e1); (1, e2)].
Proof.
  intros Hh w. pose proof (sl_sequence _ _ _ _ _ _ (is_shard_log _ _ _ Hh)) as Hs.
  change (whole_log (fun _ => [e1; e2]) 1 2048) with [(1, e1); (1, e2)] in *.
  pose proof (Hs 0%nat _ eq_refl). pose proof (Hs 1%nat _ eq_refl).
  rewrite !filter_cons_True by (split; unfold w in *; lia). done.
Qed.

Lemma two_sizes e1 e2 : stored e1 (Some datablock) -> stored e2 (Some datablock) -> sizes [(1, e1); (1, e2)] = 3620.
Proof.
  intros H1 H2. rewrite !sizes_cons. cbn [snd]. unfold catchup_size. rewrite (stored_size _ _ H1), (stored_size _ _ H2).
  vm_compute. reflexivity.
Qed.
End CatchupRun.

Lemma catchup_fetch_exact_witness : exists seg w k1 k2,
  @fetch_catchup_entries bincode_le crc_sum codec_id (fun l => l) (ScanRun.cache_of seg) 1 w (w + 3) (Some 4000) 2048 = Done [k1; k2] /\
  ebf_datablock k1 = Some CatchupRun.datablock /\ ebf_datablock k2 = Some CatchupRun.datablock.
Proof.
  destruct CatchupRun.caught_log as (seg & e1 & e2 & Hh & H1 & H2 & _). pose proof (CatchupRun.is_shard_log _ _ _ Hh) as Hl.
  pose proof (CatchupRun.all_missing _ _ _ Hh) as Hm. cbv zeta in Hm. set (w := hc_wal_seq (@wcur seg) - 2) in *.
  destruct (@catchup_fetch_exact bincode_le crc_sum blake_pad xxh_low codec_id (fun _ => [e1; e2]) (ScanRun.cache_of seg) 1 2048
    (hc_wal_seq (@wcur seg) - 1) (fun _ => seg) Hl (fun l => l) w (w + 3) (Some 4000) (fun _ => Some CatchupRun.datablock)) as [E _].
  - done.
  - change (whole_log (fun _ => [e1; e2]) 1 2048) with [(1, e1); (1, e2)]. by repeat constructor.
  - done.
  - rewrite Hm, (CatchupRun.two_sizes _ _ H1 H2). done.
  - rewrite Hm, (CatchupRun.two_sizes _ _ H1 H2) in E.
    eexists seg, w, _, _. split; [exact E|]. by split.
Defined.
