(* ===== verification/Replicate.v ===== *)
(** * The leader's side of replication

    [celeriant_shard/src/shard_wal_replicate.rs] and
    [replicate_follower_catchup.rs]: a cycle takes the batches that wait for
    replication, sends them to the follower, or to the object store when the
    follower cannot be reached, and then makes them visible.

    A cycle suspends at its awaits, and other tasks of the shard may then do
    anything to what they share with it.  So the operations that await are
    given as functions on the whole shared state: the network's
    ([ReplicationClient]) and the executor's ([Runtime]).  What a task holds in
    local variables, the batches it captured, no other task can touch. *)

From S2P Require Import Prelude Lease WalConstants Codec WalTypes WalCodec DiskFormat HashChain Sbbf Datablock LogSegment MemCache LogSync ReverseScan ReadObjects WritePath FsyncCommit ReplicationQueues Follower Catchup.

(** ** What tasks share *)

Record LeaderShard (V W : Type) := {
  ld_cache : MemCache V;
  ld_queues : ReplicationQueues;
  ld_segments : OpenSegments;
  ld_status : ValidatedNodeStatus;
  ld_pushed_to_follower_seq : Z;
  ld_last_batch_sent_at : Z;
  ld_s3_cas_confirmed_at_ms : Z;
  ld_world : W;
}.
Arguments ld_cache {V W} _.
Arguments ld_queues {V W} _.
Arguments ld_segments {V W} _.
Arguments ld_status {V W} _.
Arguments ld_pushed_to_follower_seq {V W} _.
Arguments ld_last_batch_sent_at {V W} _.
Arguments ld_s3_cas_confirmed_at_ms {V W} _.
Arguments ld_world {V W} _.

Section setters.
Context {V W : Type}.
Implicit Types s : LeaderShard V W.

Definition set_world s (w : W) : LeaderShard V W :=
  {| ld_cache := ld_cache s; ld_queues := ld_queues s; ld_segments := ld_segments s; ld_status := ld_status s;
     ld_pushed_to_follower_seq := ld_pushed_to_follower_seq s; ld_last_batch_sent_at := ld_last_batch_sent_at s;
     ld_s3_cas_confirmed_at_ms := ld_s3_cas_confirmed_at_ms s; ld_world := w |}.

Definition set_queues s (q : ReplicationQueues) : LeaderShard V W :=
  {| ld_cache := ld_cache s; ld_queues := q; ld_segments := ld_segments s; ld_status := ld_status s;
     ld_pushed_to_follower_seq := ld_pushed_to_follower_seq s; ld_last_batch_sent_at := ld_last_batch_sent_at s;
     ld_s3_cas_confirmed_at_ms := ld_s3_cas_confirmed_at_ms s; ld_world := ld_world s |}.

Definition set_visible s (c : OpenSegments) (m : MemCache V) : LeaderShard V W :=
  {| ld_cache := m; ld_queues := ld_queues s; ld_segments := c; ld_status := ld_status s;
     ld_pushed_to_follower_seq := ld_pushed_to_follower_seq s; ld_last_batch_sent_at := ld_last_batch_sent_at s;
     ld_s3_cas_confirmed_at_ms := ld_s3_cas_confirmed_at_ms s; ld_world := ld_world s |}.

Definition set_status s (v : ValidatedNodeStatus) : LeaderShard V W :=
  {| ld_cache := ld_cache s; ld_queues := ld_queues s; ld_segments := ld_segments s; ld_status := v;
     ld_pushed_to_follower_seq := ld_pushed_to_follower_seq s; ld_last_batch_sent_at := ld_last_batch_sent_at s;
     ld_s3_cas_confirmed_at_ms := ld_s3_cas_confirmed_at_ms s; ld_world := ld_world s |}.

Definition set_pushed s (seq sent_at : Z) : LeaderShard V W :=
  {| ld_cache := ld_cache s; ld_queues := ld_queues s; ld_segments := ld_segments s; ld_status := ld_status s;
     ld_pushed_to_follower_seq := seq; ld_last_batch_sent_at := sent_at;
     ld_s3_cas_confirmed_at_ms := ld_s3_cas_confirmed_at_ms s; ld_world := ld_world s |}.

Definition raise_pushed s (delivered_seq : Z) : LeaderShard V W :=
  if ld_pushed_to_follower_seq s <? delivered_seq then set_pushed s delivered_seq (ld_last_batch_sent_at s) else s.
End setters.

(** ** The client and the executor *)

Inductive ReplicateToFollowerError :=
  | FollowerNetworkError
  | FollowerRejected (r : FollowerRejection)
  | FollowerBatchWalSeqGap
  | FollowerUnexpectedResponse
  | FollowerTooFarBehind
  | FollowerLockTimeout
  | FollowerSystemTimeError
  | FollowerBudgetExhausted.

(** The trait of [replication_client.rs], as far as a cycle uses it.  A kick
    that is awaited runs within the lease budget given. *)
Class ReplicationClient (V W : Type) := {
  is_follower_reachable : W -> bool;
  set_follower_reachable : bool -> W -> W;
  try_acquire_kick : W -> W * bool;
  release_kick : W -> W;
  replicate_to_follower : list ReplicationBatchItem -> Z -> Z -> LeaderShard V W -> LeaderShard V W * result ReplicateToFollowerError unit;
  replicate_to_s3 : list ReplicationBatchItem -> LeaderShard V W -> LeaderShard V W * result ReplicateToS3Error unit;
  send_kick : Z -> LeaderShard V W -> LeaderShard V W;
}.

(** Clocks, timers and the other tasks of the shard; the detached task of
    [spawn_kick], with its lease budget; what a scan sees of the segments, and
    the order of a hash map; the renewal of the lease; the size of an item in
    memory ([deep_size_of]). *)
Class Runtime (V W : Type) := {
  unix_epoch_now_ms : W -> W * Z;
  instant_now : W -> W * Z;
  sleep : Z -> LeaderShard V W -> LeaderShard V W;
  other_tasks : LeaderShard V W -> LeaderShard V W;
  detach_kick : option Z -> W -> W;
  request_renewal : W -> W;
  scan_view : W -> LogSegmentsCache;
  hash_order : list Z -> list Z;
  item_size_bytes : ReplicationBatchItem -> Z;
}.

Record ReplicationConfig := {
  max_catchup_gap_bytes : option Z;
  max_request_size : Z;
  cfg_read_max_chunk_size : Z;
  cfg_max_clock_drift_ms : Z;
  s3_lease_duration_ms : Z;
  lease_renewal_requester : bool;
}.

Inductive ReplicationTrigger := TriggerWrite | TriggerProbe | TriggerCommitNotify.

Inductive ReplicationDetails := ReplicatedToFollower | ReplicatedToS3.

Inductive SnapshotSendOutcome := SnapshotSent | SnapshotFallbackToS3.

Inductive SingleSendOutcome := SendOk | SendFailed | SendWalSeqMismatch (max_follower_wal_seq : Z).

Inductive CatchupOutcome := Caught | CatchupFallbackToS3.

(** ** Capture *)

Definition capture_replication_snapshot (q : ReplicationQueues) (trigger : ReplicationTrigger)
    : ReplicationQueues * CaptureResult (list PendingCommitData) ReplicationError :=
  let '(q, rolled_back) := take_replication_rollback_flag q in
  if rolled_back : bool then (q, CaptureFailed RollbackInProgress)
  else
    match trigger, pending_replication_batches q with
    | TriggerCommitNotify, _ :: _ => (q, NoCaptureRaceButOk)
    | _, _ =>
        let '(q, replication_snapshot) := take_pending_replication q in
        match replication_snapshot, trigger with
        | [], TriggerWrite => (q, NoCaptureRaceButOk)
        | _, _ => (q, Captured replication_snapshot)
        end
    end.

Definition snapshot_to_batch_items (snapshot : list PendingCommitData) : list ReplicationBatchItem :=
  flat_map (fun pcd => (fun item => {| rbi_metablock := pci_metablock item; rbi_datablock := pci_datablock item |}) <$> pending_queue pcd)
    snapshot.

Definition is_terminal_replication_error (e : ReplicationError) : bool :=
  match e with
  | LeaderFenced | ReplicationBudgetExhausted | RollbackInProgress | RollbackFailed => true
  | ReplicationS3Error s3 =>
      match s3 with
      | S3NotConfigured | SerializationFailed | BatchNotContiguous _ _ _ | LeaseIndexInconsistent _ _ _
      | S3IntraBatchChainBreak _ => true
      | _ => false
      end
  | ReplicationClientLockTimeoutError | GateTimeout | ExtendedCatchupFailure | LeaseUnconfirmed => false
  end.

Definition current_leader_confirmed_wal_seq (c : OpenSegments) : Z := default 0 (read_wal_seq_of (active c)).

(** ** Steps on the shared state *)

Section steps.
Context {V W : Type}.
Notation action E A := (effect (LeaderShard V W) E A).

Definition gets {E A} (f : LeaderShard V W -> A) : action E A := fun s => (s, Done (f s)).
Definition modify {E} (f : LeaderShard V W -> LeaderShard V W) : action E unit := fun s => (f s, Done tt).
Definition on_world {E A} (f : W -> W * A) : action E A := fun s => let '(w, a) := f (ld_world s) in (set_world s w, Done a).
Definition awaiting {E A} (f : LeaderShard V W -> LeaderShard V W * A) : action E A := fun s => let '(s, a) := f s in (s, Done a).
End steps.

Section leader.
Context `{Bincode, Crc32c, Blake3, DictCodec} {V W : Type} `{SchemaCompiler V, ReplicationClient V W, Runtime V W}.
Notation action A := (effect (LeaderShard V W) ReplicationError A).

Definition node_is_leader : action bool :=
  now ← on_world unix_epoch_now_ms; v ← gets ld_status; mret (is_leader v now).

Definition acquire_lease_budget : action Z :=
  now ← on_world unix_epoch_now_ms; v ← gets ld_status;
  match current_budget v now with
  | None => pure (Failed LeaderFenced)
  | Some b => if b =? 0 then pure (Failed ReplicationBudgetExhausted) else mret b
  end.

Definition spawn_kick : action unit :=
  acquired ← on_world try_acquire_kick;
  if negb acquired then mret tt
  else
    now ← on_world unix_epoch_now_ms; v ← gets ld_status;
    modify (fun s => set_world s (detach_kick (current_budget v now) (ld_world s))).

Definition single_send (cfg : ReplicationConfig) (items : list ReplicationBatchItem) (leader_confirmed_wal_seq : Z) : action SingleSendOutcome :=
  now ← on_world unix_epoch_now_ms; v ← gets ld_status;
  match status_lease_epoch (effective_node_status v now) with
  | None => pure (Failed LeaderFenced)
  | Some sender_lease_epoch =>
      _ ← acquire_lease_budget;
      send ← awaiting (replicate_to_follower items leader_confirmed_wal_seq sender_lease_epoch);
      match send with
      | Ok _ => mret SendOk
      | Err FollowerNetworkError | Err FollowerLockTimeout =>
          _ ← modify (fun s => set_world s (set_follower_reachable false (ld_world s))); mret SendFailed
      | Err (FollowerRejected (RejectedWalSeqMismatch max_follower_wal_seq)) => mret (SendWalSeqMismatch max_follower_wal_seq)
      | Err (FollowerRejected (RejectedTipHashMismatch _ _ _ _)) => _ ← spawn_kick; mret SendFailed
      | Err (FollowerRejected (StaleLease follower_lease_epoch _)) =>
          current ← gets ld_status;
          let our_lease := default 0 (status_lease_epoch (raw current)) in
          if status_is_leader (raw current) && (our_lease <? follower_lease_epoch) then
            now ← on_world unix_epoch_now_ms;
            _ ← modify (fun s => set_status s (set_node_status (ld_status s)
                                   (create_custom_status (raw current) (cfg_max_clock_drift_ms cfg) 0) now));
            mret SendFailed
          else mret SendFailed
      | Err _ => mret SendFailed
      end
  end.

(** ** replicate_follower_catchup.rs *)

(** The loop of [batch_end_index]. *)
Fixpoint batch_end_from (i : nat) (cumulative : Z) (items : list ReplicationBatchItem) (max_size_bytes : Z) : nat :=
  match items with
  | [] => i
  | item :: items =>
      let size := item_size_bytes item in
      if (max_size_bytes <? wrapping_add 64 cumulative size) && (0 <? i)%nat then i
      else batch_end_from (S i) (wrapping_add 64 cumulative size) items max_size_bytes
  end.

Definition batch_end_index (items : list ReplicationBatchItem) (max_size_bytes : Z) : nat := batch_end_from 0 0 items max_size_bytes.

(** The loop over the items that are not sent yet. *)
Fixpoint send_chunks (fuel : nat) (cfg : ReplicationConfig) (items : list ReplicationBatchItem) : action CatchupOutcome :=
  match items, fuel with
  | [], _ => mret Caught
  | _, O => pure Panicked
  | _, S fuel =>
      now ← on_world unix_epoch_now_ms; v ← gets ld_status;
      match status_lease_epoch (effective_node_status v now) with
      | None => pure (Failed LeaderFenced)
      | Some sender_lease_epoch =>
          let end_idx := batch_end_index items (max_request_size cfg) in
          _ ← acquire_lease_budget;
          confirmed ← gets (fun s => current_leader_confirmed_wal_seq (ld_segments s));
          send_result ← awaiting (replicate_to_follower (take end_idx items) confirmed sender_lease_epoch);
          match send_result with
          | Ok _ => send_chunks fuel cfg (drop end_idx items)
          | Err FollowerNetworkError | Err FollowerLockTimeout =>
              _ ← modify (fun s => set_world s (set_follower_reachable false (ld_world s))); mret CatchupFallbackToS3
          | Err _ => mret CatchupFallbackToS3
          end
      end
  end.

(** Reading the log awaits; what is read is the log as it is at the end. *)
Definition fetch_entries (cfg : ReplicationConfig) (follower_wal_seq leader_wal_seq : Z) (max_size_bytes : option Z)
    : effect (LeaderShard V W) ReplicationError (outcome FetchCatchupEntriesError (list EventBatchFromLogSegmentFile)) :=
  _ ← modify other_tasks;
  gets (fun s => fetch_catchup_entries hash_order (scan_view (ld_world s)) (active_log_id (ld_segments s))
                   follower_wal_seq leader_wal_seq max_size_bytes (cfg_read_max_chunk_size cfg)).

Definition replicate_follower_catchup (cfg : ReplicationConfig) (follower_wal_seq leader_wal_seq : Z) : action CatchupOutcome :=
  fetched ← fetch_entries cfg follower_wal_seq leader_wal_seq (max_catchup_gap_bytes cfg);
  match fetched with
  | Panicked => pure Panicked
  | Failed FetchFollowerTooFarBehind => mret CatchupFallbackToS3
  | Failed _ => pure (Failed ExtendedCatchupFailure)
  | Done [] => mret Caught
  | Done entries => let items := item_of <$> entries in send_chunks (length items) cfg items
  end.

(** ** Sending a snapshot *)

Definition delivered_at (confirmed : Z) : action unit :=
  _ ← modify (fun s => raise_pushed s confirmed);
  now ← on_world instant_now;
  modify (fun s => set_pushed s (ld_pushed_to_follower_seq s) now).

Definition tcp_send_snapshot (cfg : ReplicationConfig) (snapshot : list PendingCommitData) : action SnapshotSendOutcome :=
  let items := snapshot_to_batch_items snapshot in
  let leader_first_wal := match items with i :: _ => wal_seq (rbi_metablock i) | [] => 0 end in
  confirmed ← gets (fun s => current_leader_confirmed_wal_seq (ld_segments s));
  sent ← single_send cfg items confirmed;
  let retry : action SnapshotSendOutcome :=
    confirmed ← gets (fun s => current_leader_confirmed_wal_seq (ld_segments s));
    sent ← single_send cfg items confirmed;
    match sent with
    | SendOk => _ ← delivered_at confirmed; mret SnapshotSent
    | SendFailed | SendWalSeqMismatch _ => mret SnapshotFallbackToS3
    end in
  match sent with
  | SendOk => _ ← delivered_at confirmed; mret SnapshotSent
  | SendFailed => mret SnapshotFallbackToS3
  | SendWalSeqMismatch max_follower_wal_seq =>
      caught ← replicate_follower_catchup cfg max_follower_wal_seq leader_first_wal;
      match caught with
      | Caught => retry
      | CatchupFallbackToS3 => mret SnapshotFallbackToS3
      end
  end.

Definition validate_chain_or_err (items : list ReplicationBatchItem) : option (result ReplicateToS3Error unit) :=
  r ← validate_intra_batch_chain (rbi_metablock <$> items);
  Some (match r with
        | Ok _ => Ok tt
        | Err (ChainBreak b) => Err (S3IntraBatchChainBreak b)
        | Err SerialiseMetablock => Err SerializationFailed
        end).

(** The lease gate of [run_s3_fallback]. *)
Definition s3_lease_gate (cfg : ReplicationConfig) : action unit :=
  if negb (0 <? s3_lease_duration_ms cfg) then mret tt
  else
    now_ms ← on_world unix_epoch_now_ms; confirmed_at ← gets ld_s3_cas_confirmed_at_ms;
    let age_ms := saturating_sub now_ms confirmed_at in
    _ ← (if (s3_lease_duration_ms cfg / 2 <=? age_ms) && lease_renewal_requester cfg
         then modify (fun s => set_world s (request_renewal (ld_world s))) else mret tt);
    if s3_lease_duration_ms cfg <=? age_ms then pure (Failed LeaseUnconfirmed) else mret tt.

(** [run_s3_fallback] up to the commit. *)
Definition s3_upload (cfg : ReplicationConfig) (snapshot : list PendingCommitData) : action unit :=
  _ ← s3_lease_gate cfg;
  _ ← acquire_lease_budget;
  let items := snapshot_to_batch_items snapshot in
  valid ← pure (or_panic (validate_chain_or_err items));
  _ ← pure (from_result ReplicationS3Error valid);
  upload ← awaiting (replicate_to_s3 items);
  _ ← pure (from_result ReplicationS3Error upload);
  _ ← spawn_kick;
  leader ← node_is_leader;
  if negb leader then pure (Failed LeaderFenced) else mret tt.

Definition run_notify_send (cfg : ReplicationConfig) (reachable : bool) : action ReplicationDetails :=
  confirmed ← gets (fun s => current_leader_confirmed_wal_seq (ld_segments s));
  if negb reachable || (confirmed =? 0) then mret ReplicatedToFollower
  else fun s =>
    match single_send cfg [] confirmed s with
    | (s, Done SendOk) => (raise_pushed s confirmed, Done ReplicatedToFollower)
    | (s, Panicked) => (s, Panicked)
    | (s, _) => (s, Done ReplicatedToFollower)
    end.

(** The kick of a probe whose catch-up needs the object store. *)
Definition probe_kick : action unit :=
  acquired ← on_world try_acquire_kick;
  if negb acquired then mret tt
  else
    now ← on_world unix_epoch_now_ms; v ← gets ld_status;
    _ ← match current_budget v now with
        | Some b => if b =? 0 then mret tt else modify (send_kick b)
        | None => mret tt
        end;
    modify (fun s => set_world s (release_kick (ld_world s))).

Definition run_probe_send (cfg : ReplicationConfig) (reachable : bool) : action ReplicationDetails :=
  leader_wal_seq ← gets (fun s => write_wal_seq_of (active (ld_segments s)));
  if negb reachable || (leader_wal_seq =? 0) then mret ReplicatedToFollower
  else
    fetched ← fetch_entries cfg (saturating_sub leader_wal_seq 1) (saturating_add 64 leader_wal_seq 1) (Some (max_request_size cfg));
    match fetched with
    | Panicked => pure Panicked
    | Failed _ | Done [] => mret ReplicatedToFollower
    | Done entries =>
        _ ← modify other_tasks; w ← gets ld_world;
        match fetch_datablocks_for_metablocks hash_order (scan_view w) (cfg_read_max_chunk_size cfg) entries with
        | Panicked => pure Panicked
        | Failed _ => mret ReplicatedToFollower
        | Done entries =>
            confirmed ← gets (fun s => current_leader_confirmed_wal_seq (ld_segments s));
            outcome ← single_send cfg (item_of <$> entries) confirmed;
            match outcome with
            | SendOk => _ ← modify (fun s => raise_pushed s confirmed); mret ReplicatedToFollower
            | SendWalSeqMismatch max_follower_wal_seq =>
                caught ← replicate_follower_catchup cfg max_follower_wal_seq (saturating_add 64 leader_wal_seq 1);
                match caught with
                | Caught => mret ReplicatedToFollower
                | CatchupFallbackToS3 => _ ← probe_kick; mret ReplicatedToFollower
                end
            | SendFailed => mret ReplicatedToFollower
            end
        end
    end.

(** ** A cycle *)

(** The shared state and the local variables of the task: the batches it holds
    and what it has handed on by committing. *)
Record Cycle := {
  cy_shard : LeaderShard V W;
  cy_snapshot : list PendingCommitData;
  cy_effects : list PcdEffects;
}.
Notation cycle A := (effect Cycle ReplicationError A).

Definition on_shard {A} (m : action A) : cycle A := fun cy =>
  let '(s, o) := m (cy_shard cy) in
  ({| cy_shard := s; cy_snapshot := cy_snapshot cy; cy_effects := cy_effects cy |}, o).

(** [mem::take] of the snapshot and [commit_pcd] of each batch. *)
Definition commit_snapshot : cycle unit := fun cy =>
  let s := cy_shard cy in
  match commit_pcds false (ld_segments s) (ld_cache s) (cy_snapshot cy) with
  | Some (c, m, fxs) => ({| cy_shard := set_visible s c m; cy_snapshot := []; cy_effects := cy_effects cy ++ fxs |}, Done tt)
  | None => (cy, Panicked)
  end.

Definition run_s3_fallback (cfg : ReplicationConfig) : cycle unit := fun cy =>
  match cy_snapshot cy with
  | [] => (cy, Done tt)
  | snapshot => (_ ← on_shard (s3_upload cfg snapshot); commit_snapshot) cy
  end.

(** [replicate_loop] after its checks. *)
Definition send_captured (cfg : ReplicationConfig) (trigger : ReplicationTrigger) (reachable : bool) : cycle ReplicationDetails := fun cy =>
  match cy_snapshot cy with
  | [] => on_shard (match trigger with TriggerCommitNotify => run_notify_send cfg reachable | _ => run_probe_send cfg reachable end) cy
  | snapshot =>
      let initial_workset_bytes := wrap 64 (sum_Z (pcd_size_bytes <$> snapshot)) in
      let force_s3 := negb reachable || over (max_catchup_gap_bytes cfg) initial_workset_bytes in
      (if force_s3 then _ ← run_s3_fallback cfg; mret ReplicatedToS3
       else
         sent ← on_shard (tcp_send_snapshot cfg snapshot);
         match sent with
         | SnapshotSent => _ ← commit_snapshot; mret ReplicatedToFollower
         | SnapshotFallbackToS3 => _ ← run_s3_fallback cfg; mret ReplicatedToS3
         end) cy
  end.

Definition replicate_loop (cfg : ReplicationConfig) (trigger : ReplicationTrigger) : cycle ReplicationDetails :=
  leader ← on_shard node_is_leader;
  if negb leader then pure (Failed LeaderFenced)
  else
    reachable ← on_shard (gets (fun s => is_follower_reachable (ld_world s)));
    send_captured cfg trigger reachable.

(** [return_to_pending_replication] of the snapshot, and the error. *)
Definition give_back {A} (e : ReplicationError) : cycle A := fun cy =>
  let s := cy_shard cy in
  ({| cy_shard := set_queues s (return_to_pending_replication (ld_queues s) (cy_snapshot cy)); cy_snapshot := []; cy_effects := cy_effects cy |},
   Failed e).

(** Instants are in nanoseconds. *)
Definition INITIAL_BACKOFF_MS : Z := 50.
Definition MAX_BACKOFF_MS : Z := 500.
Definition HARD_TIMEOUT : Z := 30 * 1000000000.

Definition backoff_ms (attempt : Z) : Z :=
  Z.min (Z.shiftl INITIAL_BACKOFF_MS (Z.min (saturating_sub attempt 1) 3)) MAX_BACKOFF_MS.

(** The loop that retries transient failures in place. *)
Fixpoint spin (fuel : nat) (cfg : ReplicationConfig) (trigger : ReplicationTrigger) (start attempt : Z) : cycle ReplicationDetails :=
  leader ← on_shard node_is_leader;
  if negb leader then give_back LeaderFenced
  else
    now ← on_shard (on_world instant_now);
    if HARD_TIMEOUT <? saturating_sub now start then give_back LeaderFenced
    else match fuel with
    | O => pure Panicked
    | S fuel => fun cy =>
        match replicate_loop cfg trigger cy with
        | (cy, Done d) => (cy, Done d)
        | (cy, Panicked) => (cy, Panicked)
        | (cy, Failed e) =>
            (if (match trigger with TriggerProbe => true | _ => false end) || is_terminal_replication_error e then give_back e
             else
               _ ← on_shard (modify (sleep (backoff_ms (attempt + 1))));
               spin fuel cfg trigger start (attempt + 1)) cy
        end
    end.

Definition set_last_self_acked (acked_wal : Z) (c : OpenSegments) : OpenSegments :=
  let md := active c in
  {| active := {| md_log_id := md_log_id md; file_len := file_len md; md_write := md_write md; md_read := md_read md;
                  datablocks_carry_over := datablocks_carry_over md;
                  md_last_received_replication_wal_seq := md_last_received_replication_wal_seq md;
                  md_last_self_acked_wal_seq := acked_wal |};
     lru_cache := lru_cache c |}.

(** The barrier; the header is synced through the coordinator, a failure is
    only logged. *)
Definition bump_self_acked : action unit :=
  acked_wal ← gets (fun s => current_leader_confirmed_wal_seq (ld_segments s));
  last ← gets (fun s => md_last_self_acked_wal_seq (active (ld_segments s)));
  if (0 <? acked_wal) && (last <? acked_wal) then
    _ ← modify (fun s => set_visible s (set_last_self_acked acked_wal (ld_segments s)) (ld_cache s));
    modify other_tasks
  else mret tt.

(** Every turn of [spin] that does not end it sleeps for 50 ms at least. *)
Definition SPIN_FUEL : nat := 601.

Definition commit_replication (cfg : ReplicationConfig) (trigger : ReplicationTrigger) : cycle unit :=
  start ← on_shard (on_world instant_now);
  _ ← spin SPIN_FUEL cfg trigger start 0;
  _ ← on_shard (modify other_tasks);
  leader ← on_shard node_is_leader;
  if negb leader then give_back LeaderFenced
  else on_shard bump_self_acked.
End leader.
Arguments Cycle V W : clear implicits.

(** ** The laws of the world

    Clocks do not go back and a sleep takes its time; [delivered items w]: the
    follower or the object store has taken the batch [items]; [agreed n w]: the
    follower's log agrees with the first [n] entries of the leader's.  An [Ok]
    of a send establishes the first, and nothing undoes either.  A hash map
    lists each key once. *)

Definition evolves {W} (clock : W -> Z) (delivered : list ReplicationBatchItem -> W -> Prop) (agreed : nat -> W -> Prop) (w w' : W) : Prop :=
  clock w <= clock w' /\ (forall items, delivered items w -> delivered items w') /\ (forall n, agreed n w -> agreed n w').

Class WorldLaws {V W} `{Bincode, Crc32c, DictCodec, ReplicationClient V W, Runtime V W}
    (clock : W -> Z) (delivered : list ReplicationBatchItem -> W -> Prop) (agreed : nat -> W -> Prop) : Prop := {
  law_unix w : evolves clock delivered agreed w (unix_epoch_now_ms w).1;
  law_instant w : evolves clock delivered agreed w (instant_now w).1 /\ (instant_now w).2 = clock (instant_now w).1 /\ 0 <= (instant_now w).2;
  law_reachable b w : evolves clock delivered agreed w (set_follower_reachable b w);
  law_acquire w : evolves clock delivered agreed w (try_acquire_kick w).1;
  law_release w : evolves clock delivered agreed w (release_kick w);
  law_detach b w : evolves clock delivered agreed w (detach_kick b w);
  law_renewal w : evolves clock delivered agreed w (request_renewal w);
  law_send_kick b s : evolves clock delivered agreed (ld_world s) (ld_world (send_kick b s));
  law_other s : evolves clock delivered agreed (ld_world s) (ld_world (other_tasks s));
  law_sleep ms s : 0 <= ms -> evolves clock delivered agreed (ld_world s) (ld_world (sleep ms s)) /\ clock (ld_world s) + ms * 1000000 <= clock (ld_world (sleep ms s));
  law_follower items confirmed epoch s : let '(s', r) := replicate_to_follower items confirmed epoch s in
    evolves clock delivered agreed (ld_world s) (ld_world s') /\ (r = Ok tt -> delivered items (ld_world s'));
  law_s3 items s : let '(s', r) := replicate_to_s3 items s in
    evolves clock delivered agreed (ld_world s) (ld_world s') /\ (r = Ok tt -> delivered items (ld_world s'));
  law_hash (l : list Z) : hash_order l ≡ₚ l;
}.

(** The configured limits are limits, and reading the log in the configured
    chunks does not panic. *)
Class LogReadable {V W} `{Bincode, Crc32c, DictCodec, Runtime V W} (cfg : ReplicationConfig) : Prop := {
  lr_gap : over (max_catchup_gap_bytes cfg) 0 = false;
  lr_request : 0 <= max_request_size cfg;
  lr_fetch w active F L cap : over cap 0 = false ->
    fetch_catchup_entries hash_order (scan_view w) active F L cap (cfg_read_max_chunk_size cfg) <> Panicked;
}.

(** ** What the steps of a cycle do *)

Section laws.
Context `{Bincode, Crc32c, Blake3, DictCodec} {V W : Type} `{SchemaCompiler V, ReplicationClient V W, Runtime V W}.
Context (clock : W -> Z) (delivered : list ReplicationBatchItem -> W -> Prop) (agreed : nat -> W -> Prop) `{!WorldLaws clock delivered agreed}.
Notation action A := (effect (LeaderShard V W) ReplicationError A).

Definition moves (s s' : LeaderShard V W) : Prop := evolves clock delivered agreed (ld_world s) (ld_world s').

Lemma moves_refl s : moves s s.
Proof. by split. Qed.

Lemma moves_trans s1 s2 s3 : moves s1 s2 -> moves s2 s3 -> moves s1 s3.
Proof. intros (? & ? & ?) (? & ? & ?). split_and!; [lia|auto..]. Qed.

(** [m] does not panic, moves the world on, and if it ends well [Q] holds. *)
Definition steps {A} (m : action A) (Q : A -> LeaderShard V W -> Prop) : Prop := forall s,
  match m s with
  | (s', Done a) => moves s s' /\ Q a s'
  | (s', Failed _) => moves s s'
  | (_, Panicked) => False
  end.

Lemma steps_bind {A B} (m : action A) (k : A -> action B) (R : A -> LeaderShard V W -> Prop) (Q : B -> LeaderShard V W -> Prop) :
  steps m R -> (forall a, (exists s, R a s) -> steps (k a) (fun b s' => (exists s, R a s /\ moves s s') -> Q b s')) -> steps (m ≫= k) Q.
Proof.
  intros Hm Hk s. unfold mbind, effect_bind. specialize (Hm s). destruct (m s) as [s1 [a|e|]]; [|done..].
  destruct Hm as [Hm1 Ha]. specialize (Hk a ltac:(by exists s1) s1). destruct (k a s1) as [s2 [b|e|]]; [|by eapply moves_trans|done].
  destruct Hk as [Hm2 Hb]. split; [by eapply moves_trans|]. apply Hb. by exists s1.
Qed.

Lemma steps_weaken {A} (m : action A) (P Q : A -> LeaderShard V W -> Prop) : steps m P -> (forall a s, P a s -> Q a s) -> steps m Q.
Proof. intros Hm HQ s. specialize (Hm s). destruct (m s) as [s' [a|e|]]; [|done..]. destruct Hm. auto. Qed.

(** Binding when nothing is kept from the first step. *)
Lemma steps_then {A B} (m : action A) (k : A -> action B) Q : steps m (fun _ _ => True) -> (forall a, steps (k a) Q) -> steps (m ≫= k) Q.
Proof. intros Hm Hk. eapply steps_bind; [exact Hm|]. intros a _. eapply steps_weaken; [apply Hk|]. auto. Qed.

Lemma steps_ret {A} (a : A) (Q : A -> LeaderShard V W -> Prop) : (forall s, Q a s) -> steps (mret a) Q.
Proof. intros HQ s. split; [apply moves_refl|apply HQ]. Qed.

Lemma steps_fail {A} e (Q : A -> LeaderShard V W -> Prop) : steps (pure (Failed e)) Q.
Proof. intros s. apply moves_refl. Qed.

Lemma steps_fail_bind {A B} e (k : A -> action B) Q : steps (pure (Failed e) ≫= k) Q.
Proof. intros s. apply moves_refl. Qed.

Lemma steps_pure_bind {A B} (a : A) (k : A -> action B) Q : steps (k a) Q -> steps (pure (Done a) ≫= k) Q.
Proof. intros Hk s. exact (Hk s). Qed.

Lemma steps_gets {A} (f : LeaderShard V W -> A) : steps (gets f) (fun _ _ => True).
Proof. intros s. split; [apply moves_refl|done]. Qed.

Lemma steps_modify (f : LeaderShard V W -> LeaderShard V W) : (forall s, moves s (f s)) -> steps (modify f) (fun _ _ => True).
Proof. intros Hf s. split; [apply Hf|done]. Qed.

Lemma steps_world {A} (f : W -> W * A) : (forall w, evolves clock delivered agreed w (f w).1) ->
  steps (on_world f) (fun _ _ => True).
Proof. intros Hf s. unfold on_world. specialize (Hf (ld_world s)). destruct (f (ld_world s)) as [w a]. by split. Qed.

Notation ends m := (steps m (fun _ _ => True)).

Lemma steps_trivial {A} (m : action A) Q : steps m Q -> ends m.
Proof. intros Hm. by eapply steps_weaken. Qed.

Lemma steps_now : ends (on_world unix_epoch_now_ms).
Proof. apply steps_world, law_unix. Qed.

Lemma steps_instant : ends (on_world instant_now).
Proof. apply steps_world. intros w. apply law_instant. Qed.

Lemma steps_acquire : ends (on_world try_acquire_kick).
Proof. apply steps_world, law_acquire. Qed.

(** Changing only the world, as a law allows; changing anything but it. *)
Lemma steps_set_world (f : LeaderShard V W -> W) : (forall s, evolves clock delivered agreed (ld_world s) (f s)) -> ends (modify (fun s => set_world s (f s))).
Proof. intros Hf. apply steps_modify. intros s. apply Hf. Qed.

Lemma steps_local (f : LeaderShard V W -> LeaderShard V W) : (forall s, ld_world (f s) = ld_world s) -> ends (modify f).
Proof. intros Hf. apply steps_modify. intros s. unfold moves. rewrite Hf. by split. Qed.

Lemma raise_pushed_world (s : LeaderShard V W) seq : ld_world (raise_pushed s seq) = ld_world s.
Proof. unfold raise_pushed. by destruct (_ <? _). Qed.

Lemma steps_other : ends (modify other_tasks).
Proof. apply steps_modify, law_other. Qed.

Ltac walk :=
  repeat first
    [ done | apply steps_now | apply steps_instant | apply steps_acquire | apply steps_gets | apply steps_fail | apply steps_other
    | apply steps_ret; done
    | apply steps_local; [done || intros; apply raise_pushed_world]
    | apply steps_set_world; intros; apply law_reachable || apply law_release || apply law_detach || apply law_renewal
    | apply steps_then; [|intros]
    | case_match ].

Lemma steps_node_is_leader : ends node_is_leader.
Proof. unfold node_is_leader. walk. Qed.

Lemma node_is_leader_done s : exists w b, node_is_leader s = (set_world s w, Done b) /\ evolves clock delivered agreed (ld_world s) w.
Proof.
  unfold node_is_leader, mbind, effect_bind, on_world, gets. pose proof (law_unix (ld_world s)) as Hl.
  destruct (unix_epoch_now_ms (ld_world s)) as [w now]. by eexists w, _.
Qed.

Lemma steps_budget : ends acquire_lease_budget.
Proof. unfold acquire_lease_budget. walk. Qed.

Lemma steps_spawn_kick : ends spawn_kick.
Proof. unfold spawn_kick. walk. Qed.

Lemma steps_send items confirmed epoch :
  steps (awaiting (replicate_to_follower items confirmed epoch)) (fun r s => r = Ok tt -> delivered items (ld_world s)).
Proof.
  intros s. unfold awaiting. pose proof (law_follower items confirmed epoch s) as Hl.
  destruct (replicate_to_follower items confirmed epoch s) as [s' r]. exact Hl.
Qed.

Lemma steps_upload items : steps (awaiting (replicate_to_s3 items)) (fun r s => r = Ok tt -> delivered items (ld_world s)).
Proof.
  intros s. unfold awaiting. pose proof (law_s3 items s) as Hl. destruct (replicate_to_s3 items s) as [s' r]. exact Hl.
Qed.

Lemma batch_end_from_ge i c items cap : (i <= batch_end_from i c items cap)%nat.
Proof.
  revert i c. induction items as [|x items IH]; intros i c; cbn [batch_end_from]; [done|]. case_match; [done|]. specialize (IH (S i) (wrapping_add 64 c (item_size_bytes x))). lia.
Qed.

(** A chunk makes progress. *)
Lemma batch_end_positive item items cap : (0 < batch_end_index (item :: items) cap)%nat.
Proof.
  unfold batch_end_index. cbn [batch_end_from]. rewrite andb_false_r. pose proof (batch_end_from_ge 1 (wrapping_add 64 0 (item_size_bytes item)) items cap). lia.
Qed.

Lemma steps_single_send cfg items confirmed :
  steps (single_send cfg items confirmed) (fun r s => r = SendOk -> delivered items (ld_world s)).
Proof.
  unfold single_send. apply steps_then; [walk|intros now]. apply steps_then; [walk|intros v].
  destruct (status_lease_epoch _) as [epoch|]; [|walk]. apply steps_then; [apply steps_budget|intros b].
  eapply steps_bind; [apply steps_send|]. intros [[]|err] _.
  - apply steps_ret. intros s (s0 & Hd & (_ & Hm & _)) _. by apply Hm, Hd.
  - destruct err as [|[]| | | | | |]; try (apply steps_ret; done); try (apply steps_then; [first [apply steps_spawn_kick|walk]|intros]); walk.
Qed.

Lemma steps_send_chunks fuel cfg items : (length items <= fuel)%nat -> ends (send_chunks fuel cfg items).
Proof.
  revert items. induction fuel as [|fuel IH]; intros [|item items] Hf; cbn [send_chunks]; [walk|cbn in Hf; lia|walk|].
  apply steps_then; [walk|intros now]. apply steps_then; [walk|intros v].
  destruct (status_lease_epoch _) as [epoch|]; [|walk]. apply steps_then; [apply steps_budget|intros b]. apply steps_then; [walk|intros c].
  apply steps_then; [eapply steps_trivial, steps_send|]. intros [u|err]; [|walk].
  apply IH. rewrite length_drop. pose proof (batch_end_positive item items (max_request_size cfg)). cbn [length] in *. lia.
Qed.

Lemma steps_fetch cfg F L cap : LogReadable cfg -> over cap 0 = false -> steps (fetch_entries cfg F L cap) (fun r _ => r <> Panicked /\ forall entries, r = Done entries ->
  forall w', fetch_datablocks_for_metablocks hash_order (scan_view w') (cfg_read_max_chunk_size cfg) entries = Done entries).
Proof.
  intros Hr Hcap s. unfold fetch_entries, mbind, effect_bind, modify, gets. split; [apply law_other|]. split; [by apply lr_fetch|].
  intros entries E w'. eapply refetch_caught; [apply law_hash|exact E].
Qed.

Lemma steps_catchup cfg F L : LogReadable cfg -> ends (replicate_follower_catchup cfg F L).
Proof.
  intros Hr0. unfold replicate_follower_catchup. eapply steps_bind; [apply steps_fetch; [done|apply lr_gap]|]. intros r (s0 & Hr & _).
  destruct r as [[|k entries]|[]|]; [walk| |walk..|done]. eapply steps_weaken; [by apply steps_send_chunks|done].
Qed.

Lemma steps_delivered_at confirmed : ends (delivered_at confirmed).
Proof. unfold delivered_at. walk. Qed.

Lemma steps_sent (items : list ReplicationBatchItem) confirmed (P : Prop) :
  steps (_ ← delivered_at confirmed; mret SnapshotSent) (fun r s' => (exists s, (P -> delivered items (ld_world s)) /\ moves s s') ->
    P -> delivered items (ld_world s')).
Proof.
  apply steps_then; [apply steps_delivered_at|intros []]. apply steps_ret. intros s' (s0 & Hd & (_ & Hm & _)) HP. by apply Hm, Hd.
Qed.

Lemma steps_tcp cfg snapshot : LogReadable cfg ->
  steps (tcp_send_snapshot cfg snapshot) (fun r s => r = SnapshotSent -> delivered (snapshot_to_batch_items snapshot) (ld_world s)).
Proof.
  intros Hr0. unfold tcp_send_snapshot. set (items := snapshot_to_batch_items snapshot).
  assert (Hsent : forall confirmed, steps (_ ← delivered_at confirmed; mret SnapshotSent) (fun r s' =>
    (exists s, (SendOk = SendOk -> delivered items (ld_world s)) /\ moves s s') -> r = SnapshotSent -> delivered items (ld_world s'))).
  { intros confirmed. eapply steps_weaken; [apply (steps_sent items confirmed (SendOk = SendOk))|]. auto. }
  assert (Hretry : steps (confirmed ← gets (fun s => current_leader_confirmed_wal_seq (ld_segments s));
    sent ← single_send cfg items confirmed;
    match sent with SendOk => _ ← delivered_at confirmed; mret SnapshotSent | SendFailed | SendWalSeqMismatch _ => mret SnapshotFallbackToS3 end)
    (fun r s => r = SnapshotSent -> delivered items (ld_world s))).
  { apply steps_then; [walk|intros confirmed]. eapply steps_bind; [apply steps_single_send|]. intros [] _; [apply Hsent|walk..]. }
  apply steps_then; [walk|intros confirmed]. eapply steps_bind; [apply steps_single_send|]. intros [] _; [apply Hsent|walk|].
  apply steps_then; [by apply steps_catchup|]. intros []; [|walk]. eapply steps_weaken; [apply Hretry|]. auto.
Qed.

Lemma chain_check_total i ms : Forall wf_metablock ms -> is_Some (validate_windows i ms).
Proof.
  intros Hms. revert i. induction Hms as [|m ms Hm Hms IH]; intros i; [by eexists|]. destruct ms as [|m' ms]; [by eexists|].
  destruct (validate_windows_step i m m' ms Hm) as (expected & _ & ->). case_decide; [apply IH|by eexists].
Qed.

(** The blocks of the batches can be encoded. *)
Definition sendable (pcds : list PendingCommitData) : Prop :=
  Forall (fun p => Forall (fun item => wf_metablock (pci_metablock item)) (pending_queue p)) pcds.

Lemma sendable_items pcds : sendable pcds -> Forall wf_metablock (rbi_metablock <$> snapshot_to_batch_items pcds).
Proof.
  unfold snapshot_to_batch_items. induction 1 as [|p pcds Hp _ IH]; [constructor|]. cbn [flat_map]. rewrite fmap_app. apply Forall_app. split; [|done].
  rewrite <- list_fmap_compose. by apply Forall_fmap.
Qed.

Lemma steps_lease_gate cfg : ends (s3_lease_gate cfg).
Proof. unfold s3_lease_gate. walk. Qed.

Lemma steps_s3_upload cfg pcds : sendable pcds ->
  steps (s3_upload cfg pcds) (fun _ s => delivered (snapshot_to_batch_items pcds) (ld_world s)).
Proof.
  intros Hs. unfold s3_upload. apply steps_then; [apply steps_lease_gate|intros []]. apply steps_then; [apply steps_budget|intros b].
  destruct (chain_check_total 0 _ (sendable_items _ Hs)) as [r Er]. unfold validate_chain_or_err, validate_intra_batch_chain. rewrite Er.
  cbn [mbind option_bind or_panic]. apply steps_pure_bind. destruct r as [[]|[chain_err|]]; [|apply steps_fail_bind..].
  apply steps_pure_bind. eapply steps_bind; [apply steps_upload|]. intros [[]|e] _; [|apply steps_fail_bind].
  apply steps_pure_bind. apply steps_then; [apply steps_spawn_kick|intros []].
  apply steps_then; [apply steps_node_is_leader|intros []]; [|walk]. apply steps_ret. intros s (s0 & Hd & (_ & Hm & _)). by apply Hm, Hd.
Qed.

Lemma steps_notify cfg reachable : ends (run_notify_send cfg reachable).
Proof.
  unfold run_notify_send. apply steps_then; [walk|intros confirmed]. destruct (negb reachable || _); [walk|]. intros s.
  pose proof (steps_single_send cfg [] confirmed s) as Hs. destruct (single_send cfg [] confirmed s) as [s' [[]|e|]]; try (split; [apply Hs|done]); try done.
  split; [|done]. unfold moves. rewrite raise_pushed_world. apply Hs.
Qed.

Lemma steps_probe_kick : ends probe_kick.
Proof. unfold probe_kick. walk. apply steps_modify, law_send_kick. Qed.

Lemma steps_probe cfg reachable : LogReadable cfg -> ends (run_probe_send cfg reachable).
Proof.
  intros Hr0. unfold run_probe_send. apply steps_then; [walk|intros leader_wal_seq]. destruct (negb reachable || _); [walk|].
  eapply steps_bind; [apply steps_fetch; [done|cbn; pose proof lr_request; lia]|]. intros r (s0 & Hnp & Hre). destruct r as [[|k entries]|[]|]; [walk| |walk..|done].
  apply steps_then; [walk|intros []]. apply steps_then; [walk|intros w]. rewrite (Hre _ eq_refl w).
  apply steps_then; [walk|intros confirmed]. apply steps_then; [eapply steps_trivial, steps_single_send|]. intros []; [walk|walk|].
  apply steps_then; [by apply steps_catchup|]. intros []; [walk|]. apply steps_then; [apply steps_probe_kick|intros []]. walk.
Qed.

Lemma steps_bump : ends bump_self_acked.
Proof. unfold bump_self_acked. walk. Qed.

(** *** The cycle *)

Implicit Types cy : Cycle V W.

(** The batches [pcds] were committed, each block of them once and in order. *)
Definition committed (pcds : list PendingCommitData) (before : list PcdEffects) cy : Prop :=
  cy_snapshot cy = [] /\ exists fxs, cy_effects cy = before ++ fxs /\ pe_summary <$> fxs = pcd_summary <$> pcds.

Lemma commit_snapshot_spec cy : exists cy', commit_snapshot cy = (cy', Done tt) /\
  ld_world (cy_shard cy') = ld_world (cy_shard cy) /\ committed (cy_snapshot cy) (cy_effects cy) cy'.
Proof.
  unfold commit_snapshot. destruct (commit_pcds_total false (ld_segments (cy_shard cy)) (ld_cache (cy_shard cy)) (cy_snapshot cy)) as (m & fxs & -> & E); [done|].
  eexists. split; [done|]. split; [done|]. split; [done|]. by exists fxs.
Qed.

(** A turn either commits everything, once it is delivered, or changes nothing
    the task holds. *)
Definition turn {A} (m : effect (Cycle V W) ReplicationError A) : Prop := forall cy, sendable (cy_snapshot cy) ->
  match m cy with
  | (cy', Done _) => moves (cy_shard cy) (cy_shard cy') /\ committed (cy_snapshot cy) (cy_effects cy) cy' /\
      (cy_snapshot cy <> [] -> delivered (snapshot_to_batch_items (cy_snapshot cy)) (ld_world (cy_shard cy')))
  | (cy', Failed _) => moves (cy_shard cy) (cy_shard cy') /\ cy_snapshot cy' = cy_snapshot cy /\ cy_effects cy' = cy_effects cy
  | (_, Panicked) => False
  end.

Lemma turn_s3 cfg : turn (run_s3_fallback cfg).
Proof.
  intros cy Hs. unfold run_s3_fallback. destruct (cy_snapshot cy) as [|p pcds] eqn:Esn.
  { split; [apply moves_refl|]. split; [|done]. split; [done|]. exists []. by rewrite app_nil_r. }
  unfold mbind, effect_bind, on_shard. pose proof (steps_s3_upload cfg (p :: pcds) Hs (cy_shard cy)) as Hu.
  destruct (s3_upload cfg (p :: pcds) (cy_shard cy)) as [s [[]|e|]]; [|by rewrite Esn|done]. destruct Hu as [Hm Hd].
  destruct (commit_snapshot_spec {| cy_shard := s; cy_snapshot := cy_snapshot cy; cy_effects := cy_effects cy |}) as (cy' & -> & Ew & Hc).
  cbn [cy_shard cy_snapshot cy_effects] in *. rewrite Esn in Hc. unfold moves. rewrite Ew. by split_and!.
Qed.

Lemma turn_ret {A B} (m : effect (Cycle V W) ReplicationError A) (b : B) : turn m -> turn (_ ← m; mret b).
Proof. intros Hm cy Hs. unfold mbind, effect_bind. specialize (Hm cy Hs). by destruct (m cy) as [cy' [a|e|]]. Qed.

(** Steps on the shared state before a turn. *)
Lemma turn_after {A B} (m : action A) (k : A -> effect (Cycle V W) ReplicationError B) : ends m -> (forall a, turn (k a)) -> turn (on_shard m ≫= k).
Proof.
  intros Hm Hk cy Hs. unfold mbind, effect_bind, on_shard. specialize (Hm (cy_shard cy)).
  destruct (m (cy_shard cy)) as [s [a|e|]]; [|by split|done]. destruct Hm as [Hm _].
  specialize (Hk a {| cy_shard := s; cy_snapshot := cy_snapshot cy; cy_effects := cy_effects cy |} Hs). cbn [cy_shard cy_snapshot cy_effects] in Hk.
  destruct (k a _) as [cy' [b|e|]]; [| |done]; destruct Hk as (Hm' & Hk); (split; [by eapply moves_trans|done]).
Qed.

Lemma turn_send_captured cfg trigger reachable : LogReadable cfg -> turn (send_captured cfg trigger reachable).
Proof.
  intros Hr0 cy Hs. unfold send_captured. destruct (cy_snapshot cy) as [|p pcds] eqn:Esn.
  - assert (Hp : ends (match trigger with TriggerCommitNotify => run_notify_send cfg reachable | _ => run_probe_send cfg reachable end))
      by (destruct trigger; [by apply steps_probe..|apply steps_notify]).
    specialize (Hp (cy_shard cy)). unfold on_shard. destruct (_ (cy_shard cy)) as [s [d|e|]]; [|by rewrite Esn|done]. destruct Hp as [Hm _].
    split; [done|]. split; [|done]. split; [done|]. exists []. by rewrite app_nil_r.
  - pose proof (turn_ret _ ReplicatedToS3 (turn_s3 cfg)) as Hs3. rewrite <- Esn in Hs |- *. destruct (negb reachable || _); [by apply Hs3|].
    unfold mbind at 1, effect_bind at 1, on_shard. pose proof (steps_tcp cfg (cy_snapshot cy) Hr0 (cy_shard cy)) as Ht.
    destruct (tcp_send_snapshot cfg (cy_snapshot cy) (cy_shard cy)) as [s [[]|e|]]; [| |by split|done]; destruct Ht as [Hm Hd].
    + unfold mbind, effect_bind. destruct (commit_snapshot_spec {| cy_shard := s; cy_snapshot := cy_snapshot cy; cy_effects := cy_effects cy |}) as (cy' & -> & Ew & Hc).
      cbn [cy_shard cy_snapshot cy_effects] in *. unfold moves. cbn. rewrite Ew. split_and!; [done|done|]. intros _. by apply Hd.
    + specialize (Hs3 {| cy_shard := s; cy_snapshot := cy_snapshot cy; cy_effects := cy_effects cy |} Hs). cbn [cy_shard cy_snapshot cy_effects] in Hs3.
      destruct ((run_s3_fallback cfg ≫= fun _ => mret ReplicatedToS3) _) as [cy' [b|e|]]; [| |done]; destruct Hs3 as (Hm' & Hk); (split; [by eapply moves_trans|done]).
Qed.

Lemma turn_replicate_loop cfg trigger : LogReadable cfg -> turn (replicate_loop cfg trigger).
Proof.
  intros Hr0. unfold replicate_loop. apply turn_after; [apply steps_node_is_leader|]. intros []; cbn [negb].
  - apply turn_after; [apply steps_gets|]. intros reachable. by apply turn_send_captured.
  - intros cy _. by split; [apply moves_refl|].
Qed.

(** The batches are back in front of the queue; nothing was committed. *)
Definition returned (pcds : list PendingCommitData) (before : list PcdEffects) cy : Prop :=
  cy_effects cy = before /\ exists q, ld_queues (cy_shard cy) = return_to_pending_replication q pcds.

Lemma backoff_long attempt : 0 <= attempt -> 50 <= backoff_ms (attempt + 1).
Proof.
  intros Ha. unfold backoff_ms, INITIAL_BACKOFF_MS, MAX_BACKOFF_MS, saturating_sub. rewrite Z.shiftl_mul_pow2 by lia.
  pose proof (Z.pow_pos_nonneg 2 (Z.min (Z.max (attempt + 1 - 1) 0) 3)). lia.
Qed.

(** The retries end: by success, or with the batches handed back. *)
Lemma spin_spec fuel cfg trigger start attempt cy : LogReadable cfg -> sendable (cy_snapshot cy) -> 0 <= attempt -> (fuel <= SPIN_FUEL)%nat ->
  start + Z.of_nat (SPIN_FUEL - fuel) * 50000000 <= clock (ld_world (cy_shard cy)) ->
  match spin fuel cfg trigger start attempt cy with
  | (cy', Done _) => committed (cy_snapshot cy) (cy_effects cy) cy' /\
      (cy_snapshot cy <> [] -> delivered (snapshot_to_batch_items (cy_snapshot cy)) (ld_world (cy_shard cy')))
  | (cy', Failed _) => returned (cy_snapshot cy) (cy_effects cy) cy'
  | (_, Panicked) => False
  end.
Proof.
  intros Hr0. revert attempt cy. induction fuel as [|fuel IH]; intros attempt cy Hs Ha Hf Hc; cbn [spin];
    unfold mbind at 1, effect_bind at 1, on_shard at 1;
    destruct (node_is_leader_done (cy_shard cy)) as (w1 & leader & -> & [Hl1 _]);
    (destruct leader; cbn [negb]; [|by split; [|eexists]]);
    unfold mbind at 1, effect_bind at 1, on_shard at 1, on_world at 1; cbn [cy_shard cy_snapshot cy_effects ld_world set_world];
    destruct (law_instant w1) as ([Hi1 _] & Hi2 & _); destruct (instant_now w1) as [w now]; cbn [fst snd] in *.
  all: destruct (Z.ltb_spec HARD_TIMEOUT (saturating_sub now start)) as [Ht|Ht]; [by split; [|eexists]|].
  - exfalso. unfold HARD_TIMEOUT, saturating_sub, SPIN_FUEL in *. lia.
  - set (cy1 := {| cy_shard := set_world (set_world (cy_shard cy) w1) w; cy_snapshot := cy_snapshot cy; cy_effects := cy_effects cy |}).
    pose proof (turn_replicate_loop cfg trigger Hr0 cy1 Hs) as Hr. destruct (replicate_loop cfg trigger cy1) as [cy2 [d|e|]]; [by destruct Hr as (_ & Hr)| |done].
    destruct Hr as ([Hm _] & Esn & Efx). cbn in Esn, Efx, Hm.
    destruct (_ || is_terminal_replication_error e); [split; [done|]; rewrite <- Esn; by eexists|].
    unfold mbind, effect_bind, on_shard, modify. pose proof (backoff_long attempt Ha) as Hb.
    destruct (law_sleep (backoff_ms (attempt + 1)) (cy_shard cy2)) as [_ Hsl]; [lia|].
    specialize (IH (attempt + 1) {| cy_shard := sleep (backoff_ms (attempt + 1)) (cy_shard cy2); cy_snapshot := cy_snapshot cy2; cy_effects := cy_effects cy2 |}).
    cbn [cy_shard cy_snapshot cy_effects] in IH. rewrite Esn, Efx in IH |- *. apply IH; [done|lia|lia|].
    unfold SPIN_FUEL in *. lia.
Qed.

(** After the loop there is nothing left to hand back. *)
Lemma tail_spec cy : cy_snapshot cy = [] ->
  match (_ ← on_shard (modify other_tasks); leader ← on_shard node_is_leader;
         if negb leader then give_back LeaderFenced else on_shard bump_self_acked) cy with
  | (_, Panicked) => False
  | (cy', _) => cy_snapshot cy' = [] /\ cy_effects cy' = cy_effects cy /\ moves (cy_shard cy) (cy_shard cy')
  end.
Proof.
  intros Esn. unfold mbind, effect_bind, on_shard, modify. cbn [cy_shard cy_snapshot cy_effects].
  pose proof (law_other (cy_shard cy)) as Ho. destruct (node_is_leader_done (other_tasks (cy_shard cy))) as (w & b & -> & Hw).
  assert (Hm : moves (cy_shard cy) (set_world (other_tasks (cy_shard cy)) w)) by (eapply moves_trans; [exact Ho|exact Hw]).
  destruct b; cbn [negb]; [|done]. cbn [cy_shard cy_snapshot cy_effects]. pose proof (steps_bump (set_world (other_tasks (cy_shard cy)) w)) as Hb.
  destruct (bump_self_acked _) as [s' [[]|e|]]; [destruct Hb as [Hb _]| |done]; (split_and!; [done|done|by eapply moves_trans]).
Qed.
End laws.

(** C6: a replication cycle settles what it captured.  Whatever the network, the
    object store and the other tasks of the shard do, and however often the
    cycle retries, it ends within its retries.  Then either all captured
    batches were committed, once and in order, after the follower or the
    object store had taken all of them; or none was, they are back in front of
    the queue in their order, and the cycle fails.  It answers [Ok] only in
    the first case. *)
Theorem replication_cycle_settles `{Bincode, Crc32c, Blake3, DictCodec} {V W : Type} `{SchemaCompiler V, ReplicationClient V W, Runtime V W}
    (clock : W -> Z) (delivered : list ReplicationBatchItem -> W -> Prop) (agreed : nat -> W -> Prop) (cfg : ReplicationConfig) (trigger : ReplicationTrigger)
    (s : LeaderShard V W) (pcds : list PendingCommitData) :
  WorldLaws clock delivered agreed -> LogReadable cfg -> sendable pcds ->
  exists cy' r, commit_replication cfg trigger {| cy_shard := s; cy_snapshot := pcds; cy_effects := [] |} = (cy', r) /\ r <> Panicked /\
    ((committed pcds [] cy' /\ (pcds <> [] -> delivered (snapshot_to_batch_items pcds) (ld_world (cy_shard cy')))) \/
     ((exists e, r = Failed e) /\ returned pcds [] cy')).
Proof.
  intros Hlaws Hr0 Hs. unfold commit_replication. set (cy := {| cy_shard := s; cy_snapshot := pcds; cy_effects := [] |}).
  unfold mbind at 1, effect_bind at 1, on_shard at 1, on_world at 1. cbn [cy_shard cy].
  destruct (law_instant (ld_world s)) as (_ & Hstart & _). destruct (instant_now (ld_world s)) as [w start]. cbn [fst snd] in Hstart.
  set (cy1 := {| cy_shard := set_world s w; cy_snapshot := pcds; cy_effects := [] |}).
  change ({| cy_shard := set_world s w; cy_snapshot := cy_snapshot cy; cy_effects := cy_effects cy |}) with cy1.
  pose proof (spin_spec clock delivered agreed SPIN_FUEL cfg trigger start 0 cy1) as Hsp. unfold mbind at 1, effect_bind at 1.
  specialize (Hsp Hr0 Hs ltac:(lia) ltac:(lia)). rewrite Nat.sub_diag, Z.mul_0_l, Z.add_0_r in Hsp.
  specialize (Hsp ltac:(cbn; lia)). destruct (spin SPIN_FUEL cfg trigger start 0 cy1) as [cy2 [d|e|]]; [| |done].
  - destruct Hsp as [[Esn Hc] Hd]. pose proof (tail_spec clock delivered agreed cy2 Esn) as Ht.
    destruct ((on_shard (modify other_tasks) ≫= _) cy2) as [cy' r]. exists cy', r. split; [done|].
    assert (Hcy : cy_snapshot cy' = [] /\ cy_effects cy' = cy_effects cy2 /\ moves clock delivered agreed (cy_shard cy2) (cy_shard cy') /\ r <> Panicked)
      by (by destruct r; [destruct Ht as (? & ? & ?)..|]).
    destruct Hcy as (Esn' & Efx & (_ & Hm & _) & Hr). split; [done|]. left. split; [|intros Hne; by apply Hm, Hd].
    split; [done|]. by rewrite Efx.
  - exists cy2, (Failed e). split; [done|]. split; [done|]. right. split; [by eexists|done].
Qed.

(** ** Catching up a follower

    What the leader relies on: a follower that agrees with the first [n]
    entries and answers [Ok] to a batch that carries the next ones agrees with
    those too.  [replicated_batch_agrees] is why a follower keeps this. *)

Class FollowerContract {V W} `{Bincode, Crc32c, DictCodec, ReplicationClient V W} (lead : list LogEntry) (agreed : nat -> W -> Prop) : Prop := {
  fc_fewer n k w : (k <= n)%nat -> agreed n w -> agreed k w;
  fc_send n es rest items confirmed epoch (s : LeaderShard V W) : lead = take n lead ++ es ++ rest -> (n <= length lead)%nat -> Forall2 carries es items ->
    agreed n (ld_world s) ->
    let '(s', r) := replicate_to_follower items confirmed epoch s in r = Ok tt -> agreed (n + length es)%nat (ld_world s');
}.

Section catching_up.
Context `{Bincode, Crc32c, Blake3, Xxh3, DictCodec} {V W : Type} `{SchemaCompiler V, ReplicationClient V W, Runtime V W}.
Context (clock : W -> Z) (delivered : list ReplicationBatchItem -> W -> Prop) (agreed : nat -> W -> Prop) `{!WorldLaws clock delivered agreed}.
Context (lead : list LogEntry) `{!FollowerContract lead agreed}.
Notation action A := (effect (LeaderShard V W) ReplicationError A).
Notation moves := (moves clock delivered agreed).
Notation steps := (steps clock delivered agreed).
Implicit Types s : LeaderShard V W.

(** [steps] from a given state. *)
Definition runs {A} s (m : action A) (Q : A -> LeaderShard V W -> Prop) : Prop :=
  match m s with
  | (s', Done a) => moves s s' /\ Q a s'
  | (s', Failed _) => moves s s'
  | (_, Panicked) => False
  end.

Lemma runs_bind {A B} s (m : action A) (k : A -> action B) (P : A -> LeaderShard V W -> Prop) (Q : B -> LeaderShard V W -> Prop) :
  runs s m P -> (forall a s1, moves s s1 -> P a s1 -> runs s1 (k a) Q) -> runs s (m ≫= k) Q.
Proof.
  intros Hm Hk. unfold runs, mbind, effect_bind in *. destruct (m s) as [s1 [a|e|]]; [|done..]. destruct Hm as [Hm1 Ha].
  specialize (Hk a s1 Hm1 Ha). destruct (k a s1) as [s2 [b|e|]]; [|by eapply moves_trans|done]. destruct Hk. split; [by eapply moves_trans|done].
Qed.

Lemma runs_then {A B} s (m : action A) (k : A -> action B) Q : steps m (fun _ _ => True) -> (forall a s1, moves s s1 -> runs s1 (k a) Q) -> runs s (m ≫= k) Q.
Proof. intros Hm Hk. eapply runs_bind; [apply Hm|]. auto. Qed.

Lemma moves_agreed s s' n : moves s s' -> agreed n (ld_world s) -> agreed n (ld_world s').
Proof. intros (_ & _ & Ha). apply Ha. Qed.

Lemma send_chunks_agreed fuel cfg n es rest items s : (length items <= fuel)%nat -> Forall2 carries es items ->
  lead = take n lead ++ es ++ rest -> (n <= length lead)%nat -> agreed n (ld_world s) ->
  runs s (send_chunks fuel cfg items) (fun r s' => r = Caught -> agreed (n + length es)%nat (ld_world s')).
Proof.
  revert n es items s. induction fuel as [|fuel IH]; intros n es items s Hf Hc Hlead Hn Ha.
  { destruct items; [|cbn in Hf; lia]. inversion Hc; subst. split; [apply moves_refl|]. intros _. by rewrite Nat.add_0_r. }
  destruct items as [|item items]; cbn [send_chunks].
  { inversion Hc; subst. split; [apply moves_refl|]. intros _. by rewrite Nat.add_0_r. }
  apply runs_then; [by apply steps_now|intros now s1 Hm1]. apply runs_then; [apply steps_gets|intros v s2 Hm2].
  destruct (status_lease_epoch _) as [epoch|]; [|apply moves_refl]. apply runs_then; [by apply steps_budget|intros b s3 Hm3].
  apply runs_then; [apply steps_gets|intros confirmed s4 Hm4]. set (k := batch_end_index (item :: items) (max_request_size cfg)).
  assert (Ha4 : agreed n (ld_world s4)) by (by apply (moves_agreed _ _ _ Hm4), (moves_agreed _ _ _ Hm3), (moves_agreed _ _ _ Hm2), (moves_agreed _ _ _ Hm1)).
  pose proof (batch_end_positive item items (max_request_size cfg)) as Hk. fold k in Hk.
  assert (Hlead' : lead = take n lead ++ take k es ++ (drop k es ++ rest)) by (by rewrite (app_assoc (take k es)), take_drop).
  apply (runs_bind _ _ _ (fun r s' => r = Ok tt -> agreed (n + length (take k es))%nat (ld_world s'))).
  { pose proof (law_follower (take k (item :: items)) confirmed epoch s4) as Hl.
    pose proof (fc_send n (take k es) _ (take k (item :: items)) confirmed epoch s4 Hlead' Hn (Forall2_take _ _ _ k Hc) Ha4) as Hs.
    unfold runs, awaiting. destruct (replicate_to_follower _ confirmed epoch s4) as [s5 r]. split; [apply Hl|exact Hs]. }
  intros [[]|err] s5 Hm5 Hok.
  - pose proof (Forall2_length _ _ _ Hc) as Hlen.
    assert (Hes : (n + length es = n + length (take k es) + length (drop k es))%nat) by (rewrite <- (take_drop k es) at 1; rewrite length_app; lia).
    rewrite Hes. apply IH; [rewrite length_drop; cbn [length] in *; lia|by apply Forall2_drop| | |by apply Hok].
    + assert (Htk : take (n + length (take k es)) lead = take n lead ++ take k es).
      { clear -Hlead' Hn. rewrite app_assoc in Hlead'. rewrite Hlead' at 1. apply take_app_length'. rewrite length_app, (length_take_le lead) by done. lia. }
      rewrite Htk, <- app_assoc. exact Hlead'.
    + apply (f_equal length) in Hlead'. rewrite !length_app, (length_take_le lead) in Hlead' by done. lia.
  - destruct err; try (split; [apply moves_refl|done]);
      (apply runs_then; [apply steps_set_world; intros; apply law_reachable|intros; split; [apply moves_refl|done]]).
Qed.

(** The stretch of the log between two sequence numbers. *)
Lemma stretch_bounds logs cache active chunk segs F L : shard_log logs cache active chunk 1 segs -> 0 <= F ->
  let whole := whole_log logs active chunk in
  let es := filter (missing F L) whole in
  F <= Z.of_nat (length whole) -> L - 1 <= Z.of_nat (length whole) ->
  L - 1 <= F + Z.of_nat (length es) /\ (es <> [] -> exists rest, whole = take (Z.to_nat F) whole ++ es ++ rest).
Proof.
  intros Hlog HF whole es HFl HL. destruct (missing_stretch logs cache active chunk 1 segs Hlog F L) as (front & rest & E & Hf & Hr).
  fold whole es in E. pose proof (sl_sequence _ _ _ _ _ _ Hlog) as Hs. fold whole in Hs.
  assert (Hfront : (length front <= Z.to_nat F)%nat).
  { destruct (last front) as [p|] eqn:El; [|apply last_None in El; subst; cbn; lia]. rewrite last_lookup in El.
    pose proof (lookup_lt_Some _ _ _ El) as Hlt. assert (Hw : whole !! pred (length front) = Some p) by (rewrite E; by apply lookup_app_l_Some).
    apply Hs in Hw. rewrite Forall_forall in Hf. specialize (Hf p (list_elem_of_lookup_2 _ _ _ El)). lia. }
  assert (Hlen : length whole = (length front + length es + length rest)%nat) by (rewrite E, !length_app; lia).
  assert (Hat : forall i, (i < length es)%nat -> whole !! (length front + i)%nat = es !! i).
  { intros i Hi. rewrite E at 1. rewrite lookup_app_r by lia. rewrite Nat.add_comm, Nat.add_sub. by apply lookup_app_l. }
  assert (Hge : (0 < length es)%nat -> (Z.to_nat F <= length front)%nat).
  { intros Hne. destruct (lookup_lt_is_Some_2 es 0 Hne) as [p Hp]. pose proof (Hat 0%nat Hne) as Hw. rewrite Hp, Nat.add_0_r in Hw.
    apply Hs in Hw. apply list_elem_of_lookup_2, list_elem_of_filter in Hp as [[? ?] _]. lia. }
  split.
  - destruct (decide (L - 1 <= F)) as [|HLF]; [lia|]. destruct (lookup_lt_is_Some_2 whole (Z.to_nat F)) as [q Hq]; [lia|].
    assert (Hes : q ∈ es) by (apply list_elem_of_filter; split; [apply Hs in Hq; split; lia|by eapply list_elem_of_lookup_2]).
    assert (Hpos : (0 < length es)%nat) by (destruct es; [by apply not_elem_of_nil in Hes|cbn; lia]). specialize (Hge Hpos).
    destruct rest as [|p rest]; [cbn in Hlen; lia|]. inversion_clear Hr as [|? ? Hp _].
    assert (Hw : whole !! (length front + length es)%nat = Some p) by (rewrite E, app_assoc; by apply list_lookup_middle; rewrite length_app).
    apply Hs in Hw. lia.
  - intros Hne. exists rest. rewrite E at 1. f_equal. symmetry. rewrite E.
    apply take_app_length'. assert (0 < length es)%nat by (destruct es; [done|cbn; lia]). specialize (Hge ltac:(done)). lia.
Qed.

(** C7: catching up brings the follower to the leader's log.  On a leader whose
    segments hold its log, with a follower that agrees with its first entries
    up to the sequence number it reported and keeps its contract, catch-up
    ends, whatever other tasks do meanwhile; when it reports that the follower
    is caught up, the follower agrees with every entry before the one the
    leader wants to send. *)
Theorem catchup_converges (cfg : ReplicationConfig) (F L : Z) s (logs : Z -> list LogEntry) (segs : Z -> LogSegmentFile)
    (body : LogEntry -> option DatablockKind) :
  let awaited := other_tasks s in
  let whole := whole_log logs (active_log_id (ld_segments awaited)) (cfg_read_max_chunk_size cfg) in
  shard_log logs (scan_view (ld_world awaited)) (active_log_id (ld_segments awaited)) (cfg_read_max_chunk_size cfg) 1 segs ->
  lead = whole.*2 -> Forall (fun p => stored p.2 (body p.2)) whole ->
  0 <= F <= Z.of_nat (length lead) -> L - 1 <= Z.of_nat (length lead) ->
  over (max_catchup_gap_bytes cfg) 0 = false -> sizes (filter (missing F L) whole) < 2 ^ 64 ->
  agreed (Z.to_nat F) (ld_world s) ->
  runs s (replicate_follower_catchup cfg F L) (fun r s' => r = Caught -> agreed (Z.to_nat (L - 1)) (ld_world s')).
Proof.
  intros awaited whole Hlog Hlead Hst HF HL Hcap Hsz Ha. pose proof (f_equal length Hlead) as Hll. rewrite length_fmap in Hll. rewrite Hll in HF, HL.
  pose proof (catchup_fetch_spec logs _ _ _ _ segs Hlog hash_order F L (max_catchup_gap_bytes cfg) body law_hash Hst Hcap Hsz) as (Ef & _ & Hcar).
  fold whole in Ef, Hcar. destruct (stretch_bounds logs _ _ _ segs F L Hlog ltac:(lia)) as [Hlen Hsplit]; [fold whole; lia|fold whole; lia|].
  fold whole in Hlen, Hsplit. set (es := filter (missing F L) whole) in *.
  unfold replicate_follower_catchup. apply (runs_bind _ _ _ (fun r s' => r = (if over (max_catchup_gap_bytes cfg) (sizes es)
    then Failed FetchFollowerTooFarBehind else Done (full body <$> es)) /\ s' = awaited)).
  { unfold runs, fetch_entries, mbind, effect_bind, modify, gets. split; [apply law_other|]. by split. }
  intros r s1 Hm [-> ->]. apply (moves_agreed _ _ _ Hm) in Ha. destruct (over (max_catchup_gap_bytes cfg) (sizes es)); [by split; [apply moves_refl|]|].
  destruct (decide (es = [])) as [Ees|Hne].
  - rewrite Ees in Hlen |- *. split; [apply moves_refl|]. intros _. eapply fc_fewer; [|exact Ha]. cbn in Hlen. lia.
  - destruct (Hsplit Hne) as (rest & Hw). assert (Hl' : lead = take (Z.to_nat F) lead ++ es.*2 ++ rest.*2).
    { rewrite Hlead, <- fmap_take, <- !fmap_app. by rewrite <- Hw. }
    assert (Hrun : runs awaited (send_chunks (length (item_of <$> (full body <$> es))) cfg (item_of <$> (full body <$> es)))
      (fun r s' => r = Caught -> agreed (Z.to_nat F + length es.*2)%nat (ld_world s'))) by (eapply send_chunks_agreed; [done|exact Hcar|exact Hl'|lia|exact Ha]).
    destruct (full body <$> es) as [|k ks] eqn:Ek; [by apply fmap_nil_inv in Ek|]. unfold runs in *.
    destruct (send_chunks _ cfg _ awaited) as [s2 [r|e|]]; [|done..]. destruct Hrun as [Hm2 Hr]. split; [done|]. intros ->.
    eapply fc_fewer; [|by apply Hr]. rewrite length_fmap. lia.
Qed.
End catching_up.

(** ** A follower that takes what it is sent *)

Module LeaderRun.
#[local] Existing Instance bincode_le.
#[local] Existing Instance crc_sum.
#[local] Existing Instance codec_id.
#[local] Existing Instance blake_pad.
#[local] Existing Instance xxh_low.

(** The time, the batches taken, and how far the follower has come. *)
Record Net := { net_clock : Z; net_taken : list (list ReplicationBatchItem); net_follower : Z }.

Definition at_time (w : Net) (t : Z) : Net := {| net_clock := t; net_taken := net_taken w; net_follower := net_follower w |}.

Definition last_seq (items : list ReplicationBatchItem) : Z := default 0 (wal_seq ∘ rbi_metablock <$> last items).

Definition taking (items : list ReplicationBatchItem) (w : Net) : Net :=
  {| net_clock := net_clock w; net_taken := items :: net_taken w; net_follower := Z.max (net_follower w) (last_seq items) |}.

#[local] Instance compiler : SchemaCompiler unit := fun _ _ => Ok tt.

#[local] Instance client : ReplicationClient unit Net := {|
  is_follower_reachable _ := true;
  set_follower_reachable _ w := w;
  try_acquire_kick w := (w, true);
  release_kick w := w;
  replicate_to_follower items _ _ s := (set_world s (taking items (ld_world s)), Ok tt);
  replicate_to_s3 _ s := (s, Err S3NotConfigured);
  send_kick _ s := s;
|}.

Definition runtime (view : LogSegmentsCache) : Runtime unit Net := {|
  unix_epoch_now_ms w := (w, net_clock w);
  instant_now w := (at_time w (Z.max 0 (net_clock w)), Z.max 0 (net_clock w));
  sleep ms s := set_world s (at_time (ld_world s) (net_clock (ld_world s) + ms * 1000000));
  other_tasks s := s;
  detach_kick _ w := w;
  request_renewal w := w;
  scan_view _ := view;
  hash_order l := l;
  item_size_bytes _ := 1024;
|}.

Definition delivered (items : list ReplicationBatchItem) (w : Net) : Prop := items ∈ net_taken w.
Definition agreed (n : nat) (w : Net) : Prop := Z.of_nat n <= net_follower w.

Definition config : ReplicationConfig :=
  {| max_catchup_gap_bytes := Some 8000; max_request_size := 1024; cfg_read_max_chunk_size := 2048;
     cfg_max_clock_drift_ms := 10; s3_lease_duration_ms := 1000; lease_renewal_requester := false |}.

Definition shard : LeaderShard unit Net :=
  {| ld_cache := MemCache_new; ld_queues := ParkedRun.queues; ld_segments := ParkedRun.segments;
     ld_status := create_custom_status (Leader 3) 10 1000; ld_pushed_to_follower_seq := 0; ld_last_batch_sent_at := 0;
     ld_s3_cas_confirmed_at_ms := 0; ld_world := {| net_clock := 5; net_taken := []; net_follower := 0 |} |}.

(** A log of one segment. *)
Definition view (seg : LogSegmentFile) : LogSegmentsCache :=
  {| lc_get id := if id =? 1 then Some seg else None; lc_lock _ := true; lc_handle _ := true; lc_alignment := 512; lc_reads _ _ len := Some len |}.

Lemma laws v : @WorldLaws unit Net bincode_le crc_sum codec_id client (runtime v) net_clock delivered agreed.
Proof.
  split; intros; cbn; unfold evolves, delivered, agreed; cbn; repeat split; intros; try done; try lia; [by right|left].
Qed.

Section one_segment.
Context (seg : LogSegmentFile) (e1 e2 : LogEntry) (Hh : segment_holds seg GENESIS_HASH [e1; e2]) (Hseq : hc_wal_seq (wcur seg) = 2).
Context (H1 : stored e1 (Some CatchupRun.datablock)) (H2 : stored e2 (Some CatchupRun.datablock)).

Lemma seqs : wal_seq (le_metablock e1) = 1 /\ wal_seq (le_metablock e2) = 2.
Proof.
  destruct (sh_entry _ _ _ Hh 0%nat e1 eq_refl) as (_ & E1 & _). destruct (sh_entry _ _ _ Hh 1%nat e2 eq_refl) as (_ & E2 & _).
  rewrite E1, E2. cbn [length]. lia.
Qed.

Lemma log : shard_log (fun _ => [e1; e2]) (view seg) 1 2048 1 (fun _ => seg).
Proof.
  split.
  - split; [by split|by split|done|by split].
  - intros id Hid. change (id ∈ [1]) in Hid. apply list_elem_of_singleton in Hid as ->.
    split; [by exists GENESIS_HASH|done| |by intros k _]. split_and!; try done. by intros p [= <-].
  - intros i p Hi. change (([(1, e1); (1, e2)] : list (Z * LogEntry)) !! i = Some p) in Hi. destruct seqs.
    destruct i as [|[|i]]; [..|done]; by injection Hi as <-.
Qed.

Lemma all_stored : Forall (fun p => stored p.2 (Some CatchupRun.datablock)) (whole_log (fun _ => [e1; e2]) 1 2048).
Proof. change (whole_log (fun _ => [e1; e2]) 1 2048) with [(1, e1); (1, e2)]. by repeat constructor. Qed.

Lemma small F L : sizes (filter (missing F L) (whole_log (fun _ => [e1; e2]) 1 2048)) < 2 ^ 64.
Proof.
  change (whole_log (fun _ => [e1; e2]) 1 2048) with [(1, e1); (1, e2)]. rewrite !filter_cons, filter_nil.
  repeat case_decide; rewrite ?sizes_cons; cbn [snd]; unfold catchup_size; rewrite ?(CatchupRun.stored_size _ _ H1), ?(CatchupRun.stored_size _ _ H2); by vm_compute.
Qed.

Lemma readable : @LogReadable unit Net bincode_le crc_sum codec_id (runtime (view seg)) config.
Proof.
  split; [done..|]. intros w active F L cap Hcap. cbn [scan_view runtime hash_order config cfg_read_max_chunk_size].
  destruct (decide (active = 1)) as [->|Hne].
  - destruct (catchup_fetch_spec _ _ _ _ _ _ log (fun l => l) F L cap (fun _ => Some CatchupRun.datablock)) as [E _];
      [done|apply all_stored|done|apply small|]. rewrite E.
    by case_match.
  - unfold fetch_catchup_entries, scan. cbn [catchup_scanner with_write_cursor_upper_bound ReverseMetablockScanner_new current_log_id min_log_id start_from_position].
    destruct (Z.to_nat _) as [|n] eqn:En; [done|]. cbn [scan_from]. unfold scan_single_log. cbn. rewrite (proj2 (Z.eqb_neq active 1) Hne). done.
Qed.

Lemma catches_up : let _ := runtime (view seg) in exists s', replicate_follower_catchup config 0 3 shard = (s', Done Caught).
Proof.
  intros rt. destruct (catchup_fetch_spec _ _ _ _ _ _ log (fun l => l) 0 3 (Some 8000) (fun _ => Some CatchupRun.datablock)) as [E _];
    [done|apply all_stored|done|apply small|]. destruct seqs.
  change (whole_log (fun _ => [e1; e2]) 1 2048) with [(1, e1); (1, e2)] in E.
  rewrite !filter_cons_True, filter_nil, (CatchupRun.two_sizes _ _ H1 H2) in E by (unfold missing, seq_of; cbn [snd]; lia).
  change (over (Some 8000) 3620) with false in E. cbv iota in E.
  assert (Ef : fetch_entries config 0 3 (max_catchup_gap_bytes config) shard = (shard, Done (Done (full (fun _ => Some CatchupRun.datablock) <$> [(1, e1); (1, e2)]))))
    by (rewrite <- E; reflexivity).
  unfold replicate_follower_catchup, mbind, effect_bind. rewrite Ef. eexists. vm_compute. reflexivity.
Qed.
End one_segment.
Lemma carried_last es items : Forall2 carries es items ->
  es = [] \/ exists es' e, es = es' ++ [e] /\ last_seq items = wal_seq (le_metablock e).
Proof.
  intros Hc. destruct (decide (es = [])) as [|Hne]; [by left|right].
  apply exists_last in Hne as (es' & e & ->). apply Forall2_app_inv_l in Hc as (is' & is'' & _ & Hl & ->).
  inversion Hl as [|? item ? ? [Em _] Hn]; subst. inversion Hn; subst. exists es', e. split; [done|].
  unfold last_seq. rewrite last_snoc. cbn. by rewrite Em.
Qed.

Lemma contract e1 e2 : wal_seq (le_metablock e1) = 1 -> wal_seq (le_metablock e2) = 2 ->
  @FollowerContract unit Net bincode_le crc_sum codec_id client [e1; e2] agreed.
Proof.
  intros E1 E2. split; unfold agreed; [intros; lia|]. intros n es rest items confirmed epoch s Hlead Hn Hc Ha. cbn. intros _.
  destruct (carried_last _ _ Hc) as [->|(es' & e & -> & ->)]; [cbn; lia|]. rewrite length_app. cbn [length].
  assert (He : [e1; e2] !! (n + length es')%nat = Some e).
  { rewrite Hlead, <- app_assoc, app_assoc. apply list_lookup_middle. rewrite length_app, length_take_le; lia. }
  destruct (n + length es')%nat as [|[|i]] eqn:Ei; [injection He as <-; lia..|done].
Qed.

Lemma batches_sendable : sendable [ParkedRun.batch 1; ParkedRun.batch 2].
Proof. repeat (constructor; [constructor; [apply sample_metablock_wf|constructor]|]). constructor. Qed.
End LeaderRun.

Lemma replication_cycle_settles_witness : exists seg (cy' : Cycle unit LeaderRun.Net),
  @commit_replication bincode_le crc_sum blake_pad codec_id unit LeaderRun.Net LeaderRun.compiler LeaderRun.client (LeaderRun.runtime (LeaderRun.view seg))
    LeaderRun.config TriggerWrite {| cy_shard := LeaderRun.shard; cy_snapshot := [ParkedRun.batch 1; ParkedRun.batch 2]; cy_effects := [] |} = (cy', Done tt) /\
  committed [ParkedRun.batch 1; ParkedRun.batch 2] [] cy'.
Proof.
  destruct CatchupRun.caught_log as (seg & e1 & e2 & Hh & H1 & H2 & Hseq). exists seg.
  destruct (@replication_cycle_settles bincode_le crc_sum blake_pad codec_id unit LeaderRun.Net LeaderRun.compiler LeaderRun.client
    (LeaderRun.runtime (LeaderRun.view seg)) LeaderRun.net_clock LeaderRun.delivered LeaderRun.agreed LeaderRun.config TriggerWrite LeaderRun.shard
    [ParkedRun.batch 1; ParkedRun.batch 2] (LeaderRun.laws _) (LeaderRun.readable seg e1 e2 Hh Hseq H1 H2) LeaderRun.batches_sendable) as (cy' & r & E & _ & Hr).
  exists cy'. assert (Er : r = Done tt) by (change r with ((cy', r).2); rewrite <- E; vm_compute; reflexivity).
  subst r. split; [exact E|]. destruct Hr as [[Hc _]|[[e He] _]]; [exact Hc|discriminate He].
Defined.

Lemma catchup_converges_witness : exists seg s',
  @replicate_follower_catchup bincode_le crc_sum codec_id unit LeaderRun.Net LeaderRun.client (LeaderRun.runtime (LeaderRun.view seg))
    LeaderRun.config 0 3 LeaderRun.shard = (s', Done Caught) /\ 2 <= LeaderRun.net_follower (ld_world s').
Proof.
  destruct CatchupRun.caught_log as (seg & e1 & e2 & Hh & H1 & H2 & Hseq). exists seg.
  destruct (LeaderRun.seqs seg e1 e2 Hh Hseq) as [E1 E2].
  pose proof (@catchup_converges bincode_le crc_sum blake_pad xxh_low codec_id unit LeaderRun.Net LeaderRun.client (LeaderRun.runtime (LeaderRun.view seg))
    LeaderRun.net_clock LeaderRun.delivered LeaderRun.agreed (LeaderRun.laws _) [e1; e2] (LeaderRun.contract e1 e2 E1 E2)
    LeaderRun.config 0 3 LeaderRun.shard (fun _ => [e1; e2]) (fun _ => seg) (fun _ => Some CatchupRun.datablock)) as Hc.
  cbv zeta in Hc. specialize (Hc (LeaderRun.log seg e1 e2 Hh Hseq) eq_refl (LeaderRun.all_stored e1 e2 H1 H2) ltac:(cbn; lia) ltac:(cbn; lia)
    eq_refl (LeaderRun.small e1 e2 H1 H2 0 3) ltac:(by cbn)).
  destruct (LeaderRun.catches_up seg e1 e2 Hh Hseq H1 H2) as [s' E]. exists s'. split; [exact E|].
  unfold runs in Hc. cbv zeta in E. rewrite E in Hc. destruct Hc as [_ Hc]. exact (Hc eq_refl).
Defined.
