(* ===== verification/RecentWrites.v ===== *)
(** * The cache of recent writes

    [celeriant_memcache/src/aggregate_recent_write.rs] and the recent-write
    cache of [shard_mem_cache.rs]: the newest batches of the aggregates, bounded
    in bytes and evicted in the order in which they were committed.  A read
    takes the versions of cached batches from their place in the cache; the
    invariant is that place and version agree, and that what is cached of an
    aggregate is the end of what was committed for it. *)

From S2P Require Import Prelude WalTypes MemCache.

(** ** aggregate_recent_write.rs *)

Record RecentWrite := {
  rw_metablock : Metablock;
  rw_datablock : option DatablockKind;
  rw_size_bytes : Z;
}.

Record AggregateRecentWrites := {
  first_version : Z;
  writes : list RecentWrite;
}.

Definition AggregateRecentWrites_new (first : Z) : AggregateRecentWrites := {| first_version := first; writes := [] |}.

Definition iter_from (a : AggregateRecentWrites) (from_version : Z) : list (Z * RecentWrite) :=
  let start := Z.max from_version (first_version a) in
  let skip := Z.to_nat (start - first_version a) in
  imap (fun i write => (wrapping_add 64 start (Z.of_nat i), write)) (drop skip (writes a)).

Definition writes_pop_front (a : AggregateRecentWrites) : AggregateRecentWrites * bool :=
  match writes a with
  | [] => (a, false)
  | _ :: ws => ({| first_version := wrapping_add 64 (first_version a) 1; writes := ws |}, true)
  end.

Definition writes_push (a : AggregateRecentWrites) (w : RecentWrite) : AggregateRecentWrites :=
  {| first_version := first_version a; writes := writes a ++ [w] |}.

Definition writes_is_empty (a : AggregateRecentWrites) : bool := match writes a with [] => true | _ => false end.

(** ** shard_mem_cache.rs *)

Record RecentWriteCache := {
  recent_write_cache_bytes : Z;
  aggregate_recent_writes : gmap AggregateKey AggregateRecentWrites;
  cache_current_bytes : Z;
  cache_eviction_queue : list (AggregateKey * Z * Z);
}.

Definition RecentWriteCache_new (max_bytes : Z) : RecentWriteCache :=
  {| recent_write_cache_bytes := max_bytes; aggregate_recent_writes := ∅; cache_current_bytes := 0; cache_eviction_queue := [] |}.

(** An aggregate without cached writes has no entry. *)
Definition put_back (c : RecentWriteCache) (key : AggregateKey) (a : AggregateRecentWrites) (bytes : Z)
    (queue : list (AggregateKey * Z * Z)) : RecentWriteCache :=
  {| recent_write_cache_bytes := recent_write_cache_bytes c;
     aggregate_recent_writes := (if writes_is_empty a then delete key else <[key := a]>) (aggregate_recent_writes c);
     cache_current_bytes := bytes; cache_eviction_queue := queue |}.

Definition set_eviction_queue (c : RecentWriteCache) (queue : list (AggregateKey * Z * Z)) : RecentWriteCache :=
  {| recent_write_cache_bytes := recent_write_cache_bytes c; aggregate_recent_writes := aggregate_recent_writes c;
     cache_current_bytes := cache_current_bytes c; cache_eviction_queue := queue |}.

Definition evict_oldest_cache_entry (c : RecentWriteCache) : RecentWriteCache * bool :=
  match cache_eviction_queue c with
  | [] => (c, false)
  | (key, _, size_bytes) :: queue =>
      (match aggregate_recent_writes c !! key with
       | Some a =>
           let '(a, removed) := writes_pop_front a in
           put_back c key a (if removed : bool then saturating_sub (cache_current_bytes c) size_bytes else cache_current_bytes c) queue
       | None => set_eviction_queue c queue
       end, true)
  end.

(** The loop that evicts until there is room. *)
Fixpoint make_room (fuel : nat) (c : RecentWriteCache) (size_bytes : Z) : RecentWriteCache :=
  if wrapping_add 64 (cache_current_bytes c) size_bytes <=? recent_write_cache_bytes c then c
  else
    match evict_oldest_cache_entry c, fuel with
    | (c, false), _ | (c, true), O => c
    | (c, true), S fuel => make_room fuel c size_bytes
    end.

Definition cache_recent_write (c : RecentWriteCache) (key : AggregateKey) (aggregate_version : Z) (mb : Metablock)
    (d : option DatablockKind) (size_bytes : Z) : RecentWriteCache :=
  if recent_write_cache_bytes c =? 0 then c
  else
    let c := make_room (length (cache_eviction_queue c)) c size_bytes in
    let a := default (AggregateRecentWrites_new aggregate_version) (aggregate_recent_writes c !! key) in
    {| recent_write_cache_bytes := recent_write_cache_bytes c;
       aggregate_recent_writes := <[key := writes_push a {| rw_metablock := mb; rw_datablock := d; rw_size_bytes := size_bytes |}]>
                                    (aggregate_recent_writes c);
       cache_current_bytes := saturating_add 64 (cache_current_bytes c) size_bytes;
       cache_eviction_queue := cache_eviction_queue c ++ [(key, aggregate_version, size_bytes)] |}.

(** The loop over the writes below the floor. *)
Fixpoint drop_trimmed (min_aggregate_version first : Z) (ws : list RecentWrite) (bytes : Z) : AggregateRecentWrites * Z :=
  match ws with
  | w :: ws' =>
      if first <? min_aggregate_version
      then drop_trimmed min_aggregate_version (wrapping_add 64 first 1) ws' (saturating_sub bytes (rw_size_bytes w))
      else ({| first_version := first; writes := ws |}, bytes)
  | [] => ({| first_version := first; writes := ws |}, bytes)
  end.

Definition evict_trimmed_recent_writes (c : RecentWriteCache) (key : AggregateKey) (min_aggregate_version : Z)
    (path : CachePath) : RecentWriteCache :=
  match path with
  | CacheWrite => c
  | CacheRead =>
      let queue := filter (fun q => q.1.1 <> key \/ min_aggregate_version <= q.1.2) (cache_eviction_queue c) in
      match aggregate_recent_writes c !! key with
      | Some a =>
          let '(a, bytes) := drop_trimmed min_aggregate_version (first_version a) (writes a) (cache_current_bytes c) in
          put_back c key a bytes queue
      | None => set_eviction_queue c queue
      end
  end.

(** What a tombstone does to the recent writes. *)
Definition remove_recent_writes (c : RecentWriteCache) (key : AggregateKey) (path : CachePath) : RecentWriteCache :=
  match path with
  | CacheWrite => c
  | CacheRead =>
      let queue := filter (fun q => q.1.1 <> key) (cache_eviction_queue c) in
      match aggregate_recent_writes c !! key with
      | Some a =>
          put_back c key (AggregateRecentWrites_new 0)
            (saturating_sub (cache_current_bytes c) (wrap 64 (sum_Z (rw_size_bytes <$> writes a)))) queue
      | None => set_eviction_queue c queue
      end
  end.

Definition clear_recent_writes (c : RecentWriteCache) : RecentWriteCache := RecentWriteCache_new (recent_write_cache_bytes c).

Definition get_cached_writes_from (c : RecentWriteCache) (key : AggregateKey) (from_version visible_wal_seq : Z) : list (Z * RecentWrite) :=
  filter (fun p => wal_seq (rw_metablock p.2) <= visible_wal_seq)
    (match aggregate_recent_writes c !! key with Some a => iter_from a from_version | None => [] end).

(** ** The invariant *)

Definition get_aggregate_version (mb : Metablock) : Z :=
  match wal_metablock_type mb with EventBatchMetadata m => eb_aggregate_version m | _ => 0 end.

Notation version_of w := (get_aggregate_version (rw_metablock w)).

Definition cached (c : RecentWriteCache) (k : AggregateKey) : list RecentWrite :=
  match aggregate_recent_writes c !! k with Some a => writes a | None => [] end.

Definition queued (k : AggregateKey) (queue : list (AggregateKey * Z * Z)) : list (AggregateKey * Z * Z) := filter (fun q => q.1.1 = k) queue.

Definition tag (k : AggregateKey) (w : RecentWrite) : AggregateKey * Z * Z := (k, version_of w, rw_size_bytes w).

(** Place and version agree. *)
Definition numbered (first : Z) (ws : list RecentWrite) : Prop := forall i w, ws !! i = Some w -> version_of w = first + Z.of_nat i.

Definition small_write (w : RecentWrite) : Prop := 0 <= version_of w < U64_MAX /\ 0 <= rw_size_bytes w < 2 ^ 63.

Record recent_ok (c : RecentWriteCache) : Prop := {
  ro_entry k a : aggregate_recent_writes c !! k = Some a -> writes a <> [] /\ numbered (first_version a) (writes a) /\ Forall small_write (writes a);
  ro_queue k : queued k (cache_eviction_queue c) = tag k <$> cached c k;
  ro_bytes : cache_current_bytes c = sum_Z (cache_eviction_queue c).*2;
  ro_limit : cache_current_bytes c <= recent_write_cache_bytes c \/ (length (cache_eviction_queue c) <= 1)%nat;
  ro_off : recent_write_cache_bytes c = 0 -> cache_eviction_queue c = [];
}.

Lemma numbered_cons first w ws : numbered first (w :: ws) -> version_of w = first /\ numbered (first + 1) ws.
Proof.
  intros Hn. split; [rewrite (Hn 0%nat w eq_refl); lia|]. intros i w' Hi. rewrite (Hn (S i) w' Hi). lia.
Qed.

Lemma numbered_drop first ws n : numbered first ws -> numbered (first + Z.of_nat n) (drop n ws).
Proof. intros Hn i w Hi. rewrite lookup_drop in Hi. rewrite (Hn _ _ Hi). lia. Qed.

Lemma cached_put_back c key a bytes queue k : cached (put_back c key a bytes queue) k = if decide (k = key) then writes a else cached c k.
Proof.
  unfold cached, put_back, writes_is_empty. cbn [aggregate_recent_writes]. destruct (writes a) eqn:Ea.
  - case_decide as Hk; [subst; by rewrite lookup_delete_eq|by rewrite lookup_delete_ne].
  - case_decide as Hk; [subst; by rewrite lookup_insert_eq|by rewrite lookup_insert_ne].
Qed.

Lemma queue_small c : recent_ok c -> Forall (fun q => 0 <= q.2 < 2 ^ 63) (cache_eviction_queue c).
Proof.
  intros Hc. apply Forall_forall. intros [[k v] size] Hq.
  assert (Hin : (k, v, size) ∈ queued k (cache_eviction_queue c)) by by apply list_elem_of_filter.
  rewrite (ro_queue _ Hc k) in Hin. apply list_elem_of_fmap in Hin as (w & [= -> ->] & Hw). unfold cached in Hw.
  destruct (aggregate_recent_writes c !! k) as [a|] eqn:Ea; [|by apply not_elem_of_nil in Hw].
  destruct (ro_entry _ Hc k a Ea) as (_ & _ & Hs). rewrite Forall_forall in Hs. apply (Hs w Hw).
Qed.

Lemma sublist_sizes (q1 q2 : list (AggregateKey * Z * Z)) : q1 `sublist_of` q2 -> Forall (fun q => 0 <= q.2 < 2 ^ 63) q2 -> sum_Z q1.*2 <= sum_Z q2.*2.
Proof.
  induction 1 as [|q q1 q2 _ IH|q q1 q2 _ IH]; intros Hs; [done|..]; inversion_clear Hs; rewrite !fmap_cons, !sum_Z_cons; specialize (IH ltac:(done)); lia.
Qed.

(** Replacing what is cached of one aggregate. *)
Lemma put_back_ok c key a queue : recent_ok c -> numbered (first_version a) (writes a) -> Forall small_write (writes a) ->
  queued key queue = tag key <$> writes a -> (forall k, k <> key -> queued k queue = queued k (cache_eviction_queue c)) ->
  queue `sublist_of` cache_eviction_queue c -> recent_ok (put_back c key a (sum_Z queue.*2) queue).
Proof.
  intros Hc Hn Hs Hq Hoth Hsub. pose proof (sublist_sizes _ _ Hsub (queue_small _ Hc)) as Hle. split.
  - intros k b Hb. assert (Hcb : cached (put_back c key a (sum_Z queue.*2) queue) k = writes b) by (unfold cached; by rewrite Hb).
    revert Hb. unfold put_back, writes_is_empty. cbn [aggregate_recent_writes]. destruct (writes a) as [|w ws] eqn:Ea.
    + destruct (decide (k = key)) as [->|Hk]; [by rewrite lookup_delete_eq|]. rewrite lookup_delete_ne by done. apply (ro_entry _ Hc).
    + destruct (decide (k = key)) as [->|Hk]; [|rewrite lookup_insert_ne by done; apply (ro_entry _ Hc)].
      rewrite lookup_insert_eq. intros [= <-]. by rewrite Ea.
  - intros k. rewrite cached_put_back. cbn [cache_eviction_queue put_back]. case_decide as Hk; [by subst|]. by rewrite Hoth, (ro_queue _ Hc).
  - done.
  - cbn [cache_current_bytes recent_write_cache_bytes cache_eviction_queue put_back]. pose proof (ro_bytes _ Hc).
    destruct (ro_limit _ Hc) as [Hl|Hl]; [left; lia|right]. apply sublist_length in Hsub. lia.
  - cbn [recent_write_cache_bytes cache_eviction_queue put_back]. intros E0. rewrite (ro_off _ Hc E0) in Hsub. by apply sublist_nil_r in Hsub.
Qed.

Lemma total_nonneg c : recent_ok c -> 0 <= cache_current_bytes c.
Proof.
  intros Hc. rewrite (ro_bytes _ Hc). apply sum_Z_nonneg, Forall_fmap. eapply Forall_impl; [apply (queue_small _ Hc)|]. cbn. lia.
Qed.

(** One eviction takes the oldest entry of the queue. *)
Lemma evict_oldest_spec c q queue : recent_ok c -> cache_eviction_queue c = q :: queue ->
  exists c', evict_oldest_cache_entry c = (c', true) /\ recent_ok c' /\ cache_eviction_queue c' = queue /\
    recent_write_cache_bytes c' = recent_write_cache_bytes c /\ forall k, exists n, cached c' k = drop n (cached c k).
Proof.
  intros Hc Hq. destruct q as [[key v] size]. unfold evict_oldest_cache_entry. rewrite Hq.
  pose proof (ro_queue _ Hc key) as Hk. rewrite Hq in Hk. unfold queued in Hk. rewrite filter_cons_True in Hk by done.
  destruct (cached c key) as [|w ws] eqn:Ew; [done|]. rewrite fmap_cons in Hk. injection Hk as Ev Es Hrest. unfold cached in Ew.
  destruct (aggregate_recent_writes c !! key) as [a|] eqn:Ea; [|done]. destruct (ro_entry _ Hc _ _ Ea) as (_ & Hn & Hs).
  unfold writes_pop_front. rewrite Ew in *. apply numbered_cons in Hn as [Hv Hn]. inversion_clear Hs as [|? ? Hw Hs'].
  assert (Ef : wrapping_add 64 (first_version a) 1 = first_version a + 1).
  { unfold wrapping_add. apply wrap_small. destruct Hw as [Hw _]. rewrite Hv in Hw. unfold fits, U64_MAX in *. lia. }
  rewrite Ef. pose proof (ro_bytes _ Hc) as Hb. rewrite Hq, fmap_cons, sum_Z_cons in Hb. cbn [snd] in Hb.
  assert (Hpos : 0 <= sum_Z queue.*2).
  { pose proof (queue_small _ Hc) as Hall. rewrite Hq in Hall. inversion_clear Hall as [|? ? _ Hall']. apply sum_Z_nonneg, Forall_fmap.
    eapply Forall_impl; [exact Hall'|]. cbn. lia. }
  assert (Eb : saturating_sub (cache_current_bytes c) size = sum_Z queue.*2) by (unfold saturating_sub; lia).
  rewrite Eb. eexists. split; [done|]. split; [|split; [done|split; [done|]]].
  - apply put_back_ok; try done; [|rewrite Hq; by apply sublist_cons].
    intros k Hne. rewrite Hq. unfold queued. by rewrite (filter_cons_False _ _ queue).
  - intros k. rewrite cached_put_back. case_decide as Hk; [subst k|by exists 0%nat]. exists 1%nat. unfold cached. by rewrite Ea, Ew.
Qed.

Lemma drop_some {A} (l : list A) n m : exists k, drop m (drop n l) = drop k l.
Proof. exists (n + m)%nat. apply drop_drop. Qed.

Lemma drop_app_shorter {A} n (l k : list A) : drop n l ++ k = drop (n `min` length l) (l ++ k).
Proof.
  rewrite drop_app_le by lia. f_equal. destruct (decide (n <= length l)%nat); [by rewrite Nat.min_l by lia|].
  rewrite Nat.min_r by lia. by rewrite !drop_ge by lia.
Qed.

Lemma total_small c : recent_ok c -> recent_write_cache_bytes c < 2 ^ 63 -> 0 <= cache_current_bytes c < 2 ^ 63.
Proof.
  intros Hc Hm. pose proof (total_nonneg _ Hc). split; [done|]. destruct (ro_limit _ Hc) as [|Hl]; [lia|]. rewrite (ro_bytes _ Hc).
  pose proof (queue_small _ Hc) as Hq. destruct (cache_eviction_queue c) as [|q [|]]; [done| |cbn in Hl; lia].
  inversion_clear Hq. rewrite fmap_cons, sum_Z_cons. change (sum_Z [].*2) with 0. lia.
Qed.

(** Making room ends with room, or with an empty cache. *)
Lemma make_room_spec fuel c size : recent_ok c -> recent_write_cache_bytes c < 2 ^ 63 -> 0 <= size < 2 ^ 63 ->
  (length (cache_eviction_queue c) <= fuel)%nat ->
  let c' := make_room fuel c size in
  recent_ok c' /\ recent_write_cache_bytes c' = recent_write_cache_bytes c /\ (forall k, exists n, cached c' k = drop n (cached c k)) /\
  (cache_current_bytes c' + size <= recent_write_cache_bytes c \/ cache_eviction_queue c' = []).
Proof.
  cbv zeta. revert c. induction fuel as [|fuel IH]; intros c Hc Hm Hs Hf; cbn [make_room];
    pose proof (total_small _ Hc Hm) as Ht;
    (assert (Ew : wrapping_add 64 (cache_current_bytes c) size = cache_current_bytes c + size) by (unfold wrapping_add; apply wrap_small; unfold fits; lia));
    rewrite Ew; (destruct (Z.leb_spec (cache_current_bytes c + size) (recent_write_cache_bytes c)) as [Hle|Hgt];
      [split_and!; [done|done|intros k; by exists 0%nat|by left]|]).
  - unfold evict_oldest_cache_entry. destruct (cache_eviction_queue c) eqn:Eq; [|cbn in Hf; lia].
    split_and!; [done|done|intros k; by exists 0%nat|by right].
  - destruct (cache_eviction_queue c) as [|q queue] eqn:Eq.
    { unfold evict_oldest_cache_entry. rewrite Eq. split_and!; [done|done|intros k; by exists 0%nat|by right]. }
    destruct (evict_oldest_spec c q queue Hc Eq) as (c' & -> & Hc' & Hq' & Hm' & Hd).
    destruct (IH c') as (Ho & Hmm & Hdd & Hend); [done|lia|done|rewrite Hq'; cbn in Hf; lia|]. rewrite Hm' in Hmm, Hend.
    split_and!; [done|done| |done]. intros k. destruct (Hdd k) as [n ->]. destruct (Hd k) as [n' ->]. apply drop_some.
Qed.

Lemma numbered_snoc first ws w : numbered first ws -> version_of w = first + Z.of_nat (length ws) -> numbered first (ws ++ [w]).
Proof.
  intros Hn Hw i w' [Hi|(Hi & Hx)]%lookup_app_Some; [by apply Hn|]. apply list_lookup_singleton_Some in Hx as [Hx <-]. rewrite Hw. f_equal. lia.
Qed.

Definition follows (ws : list RecentWrite) (v : Z) : Prop := forall w, last ws = Some w -> v = version_of w + 1.

Lemma follows_drop n ws v : follows ws v -> follows (drop n ws) v.
Proof.
  intros Hf w Hw. apply Hf. rewrite <- (take_drop n ws). apply last_Some in Hw as [l ->]. by rewrite app_assoc, last_snoc.
Qed.

Lemma numbered_follows first ws v w : numbered first (w :: ws) -> follows (w :: ws) v -> v = first + Z.of_nat (length (w :: ws)).
Proof.
  intros Hn Hf. destruct (last (w :: ws)) as [x|] eqn:El; [|by apply last_None in El].
  rewrite (Hf x El). rewrite last_lookup in El. rewrite (Hn _ _ El). cbn [length pred]. lia.
Qed.

(** The place at which the next version is put. *)
Lemma next_place c key v : recent_ok c -> follows (cached c key) v ->
  let a := default (AggregateRecentWrites_new v) (aggregate_recent_writes c !! key) in
  writes a = cached c key /\ Forall small_write (writes a) /\ numbered (first_version a) (writes a) /\ v = first_version a + Z.of_nat (length (writes a)).
Proof.
  intros Hc. unfold cached. destruct (aggregate_recent_writes c !! key) as [b|] eqn:Eb; cbn [default]; intros Hf; [change (id b) with b|].
  - destruct (ro_entry _ Hc _ _ Eb) as (Hne & Hn & Hs). split_and!; try done. destruct (writes b) as [|x xs]; [done|].
    exact (numbered_follows _ xs _ x Hn Hf).
  - cbn. split_and!; [done|constructor|by intros [|i]|lia].
Qed.

(** A commit that continues the aggregate's versions. *)
Lemma cache_recent_write_spec c key v mb d size : recent_ok c -> 0 < recent_write_cache_bytes c < 2 ^ 63 ->
  v = get_aggregate_version mb -> 0 <= v < U64_MAX -> 0 <= size < 2 ^ 63 -> follows (cached c key) v ->
  let c' := cache_recent_write c key v mb d size in
  recent_ok c' /\ recent_write_cache_bytes c' = recent_write_cache_bytes c /\
  forall k, exists n, cached c' k = drop n (cached c k ++ if decide (k = key) then [{| rw_metablock := mb; rw_datablock := d; rw_size_bytes := size |}] else []).
Proof.
  intros Hc Hm -> Hv Hs Hf c'. unfold c', cache_recent_write. rewrite (proj2 (Z.eqb_neq _ 0)) by lia.
  destruct (make_room_spec (length (cache_eviction_queue c)) c size Hc ltac:(lia) Hs ltac:(lia)) as (Ho & Hmm & Hd & Hend).
  set (c1 := make_room _ c size) in *. clearbody c1. set (w := {| rw_metablock := mb; rw_datablock := d; rw_size_bytes := size |}).
  set (a := default (AggregateRecentWrites_new (get_aggregate_version mb)) (aggregate_recent_writes c1 !! key)).
  assert (Hf1 : follows (cached c1 key) (get_aggregate_version mb)) by (destruct (Hd key) as [n ->]; by apply follows_drop).
  destruct (next_place c1 key _ Ho Hf1) as (Hw & Hsm & Hn & Hnext). fold a in Hw, Hsm, Hn, Hnext.
  assert (Ha : numbered (first_version a) (writes a ++ [w]) /\ Forall small_write (writes a ++ [w])).
  { split; [by apply numbered_snoc|]. apply Forall_app. by split; [|constructor]. }
  pose proof (total_small _ Ho ltac:(lia)) as Ht.
  assert (Eb : saturating_add 64 (cache_current_bytes c1) size = cache_current_bytes c1 + size) by (unfold saturating_add; lia).
  rewrite Eb. split; [|split; [done|]].
  - split; cbn [aggregate_recent_writes cache_eviction_queue cache_current_bytes recent_write_cache_bytes].
    + intros k b. destruct (decide (k = key)) as [->|Hk]; [|rewrite lookup_insert_ne by done; apply (ro_entry _ Ho)].
      rewrite lookup_insert_eq. intros [= <-]. cbn [writes_push writes first_version]. split; [by destruct (writes a)|done].
    + intros k. unfold queued, cached. cbn [aggregate_recent_writes]. rewrite filter_app. fold (queued k (cache_eviction_queue c1)). rewrite (ro_queue _ Ho).
      destruct (decide (k = key)) as [->|Hk].
      * rewrite lookup_insert_eq, filter_cons_True by done. cbn [writes_push writes]. by rewrite fmap_app, Hw.
      * rewrite lookup_insert_ne, filter_cons_False by (cbn; congruence). by rewrite app_nil_r.
    + rewrite fmap_app, sum_Z_app, <- (ro_bytes _ Ho), fmap_cons, sum_Z_cons. cbn [snd]. change (sum_Z [].*2) with 0. lia.
    + destruct Hend as [He|He]; [left; lia|right]. rewrite length_app, He. cbn. lia.
    + lia.
  - intros k. unfold cached at 1. cbn [aggregate_recent_writes]. destruct (Hd k) as [n Hdn]. destruct (decide (k = key)) as [->|Hk].
    + rewrite lookup_insert_eq. cbn [writes_push writes]. rewrite Hw, Hdn. exists (n `min` length (cached c key))%nat. apply drop_app_shorter.
    + rewrite lookup_insert_ne by done. rewrite app_nil_r. exists n. exact Hdn.
Qed.

Lemma drop_trimmed_spec min first ws bytes : numbered first ws -> Forall small_write ws -> sum_Z (rw_size_bytes <$> ws) <= bytes ->
  exists n, drop_trimmed min first ws bytes = ({| first_version := first + Z.of_nat n; writes := drop n ws |}, bytes - sum_Z (rw_size_bytes <$> take n ws)) /\
    filter (fun w => min <= version_of w) ws = drop n ws /\ filter (fun w => ~ min <= version_of w) ws = take n ws.
Proof.
  revert first bytes. induction ws as [|w ws IH]; intros first bytes Hn Hs Hb.
  { exists 0%nat. cbn. split; [|done]. f_equal; [f_equal; lia|lia]. }
  assert (Hn' := Hn). apply numbered_cons in Hn as [Hv Hn]. inversion_clear Hs as [|? ? [Hw1 Hw2] Hs']. cbn [drop_trimmed].
  destruct (Z.ltb_spec first min) as [Hlt|Hge].
  - rewrite fmap_cons, sum_Z_cons in Hb.
    assert (Ef : wrapping_add 64 first 1 = first + 1) by (unfold wrapping_add; apply wrap_small; unfold fits, U64_MAX in *; lia).
    assert (Hpos : 0 <= sum_Z (rw_size_bytes <$> ws)).
    { apply sum_Z_nonneg, Forall_fmap. eapply Forall_impl; [exact Hs'|]. intros y [_ Hy]. cbn. lia. }
    rewrite Ef. destruct (IH (first + 1) (saturating_sub bytes (rw_size_bytes w))) as (n & -> & F1 & F2); [done|done|unfold saturating_sub; lia|].
    exists (S n). rewrite filter_cons_False, filter_cons_True, F1, F2 by lia. cbn [take drop]. split; [|done].
    rewrite fmap_cons, sum_Z_cons. f_equal; [f_equal; lia|unfold saturating_sub; lia].
  - exists 0%nat. cbn [take drop]. assert (Hall : Forall (fun w => min <= version_of w) (w :: ws)).
    { apply Forall_forall. intros y [i Hi]%list_elem_of_lookup. rewrite (Hn' i y Hi). lia. }
    split; [|split].
    + cbn [fmap list_fmap]. change (sum_Z []) with 0. f_equal; [f_equal; lia|lia].
    + clear -Hall. induction Hall as [|x l Hx _ IHl]; [done|]. rewrite filter_cons_True by done. by f_equal.
    + clear -Hall. induction Hall as [|x l Hx _ IHl]; [done|]. rewrite filter_cons_False; [done|lia].
Qed.

Lemma sum_split {A} (P : A -> Prop) `{!forall x, Decision (P x)} (f : A -> Z) (l : list A) :
  sum_Z (f <$> l) = sum_Z (f <$> filter P l) + sum_Z (f <$> filter (fun x => ~ P x) l).
Proof.
  induction l as [|x l IH]; [done|]. rewrite !filter_cons. repeat case_decide; try done; rewrite !fmap_cons, !sum_Z_cons; lia.
Qed.

Lemma filter_tags (P : AggregateKey * Z * Z -> Prop) `{!forall x, Decision (P x)} (Q : RecentWrite -> Prop) `{!forall x, Decision (Q x)} key (ws : list RecentWrite) :
  (forall w, P (tag key w) <-> Q w) -> filter P (tag key <$> ws) = tag key <$> filter Q ws.
Proof.
  intros HPQ. induction ws as [|w ws IH]; [done|]. rewrite fmap_cons, !filter_cons. specialize (HPQ w).
  repeat case_decide; rewrite ?fmap_cons, ?IH; tauto || done.
Qed.

Lemma absent_put_back c key queue : aggregate_recent_writes c !! key = None ->
  set_eviction_queue c queue = put_back c key (AggregateRecentWrites_new 0) (cache_current_bytes c) queue.
Proof. intros Hn. unfold set_eviction_queue, put_back. cbn. by rewrite delete_id. Qed.

(** Dropping the first writes of one aggregate, with their places in the
    queue. *)
Lemma forget_spec c key a (P : AggregateKey * Z * Z -> Prop) `{!forall q, Decision (P q)} bytes : recent_ok c ->
  numbered (first_version a) (writes a) -> Forall small_write (writes a) -> (forall q, q.1.1 <> key -> P q) ->
  filter P (tag key <$> cached c key) = tag key <$> writes a ->
  bytes = cache_current_bytes c - sum_Z (snd <$> filter (fun q => ~ P q) (tag key <$> cached c key)) ->
  recent_ok (put_back c key a bytes (filter P (cache_eviction_queue c))).
Proof.
  intros Hc Hn Hs HP Hkeep ->. set (queue := cache_eviction_queue c).
  assert (Hsum : cache_current_bytes c - sum_Z (snd <$> filter (fun q => ~ P q) (tag key <$> cached c key)) = sum_Z (filter P queue).*2).
  { rewrite (ro_bytes _ Hc). fold queue. rewrite (sum_split P snd queue), <- (ro_queue _ Hc key). fold queue. unfold queued.
    rewrite list_filter_filter. rewrite (list_filter_iff (fun q => ~ P q) (fun q => ~ P q /\ q.1.1 = key)); [lia|].
    intros q. split; [|by intros [? _]]. intros Hq. split; [done|]. destruct (decide (q.1.1 = key)) as [|Hne]; [done|]. by destruct (Hq (HP q Hne)). }
  rewrite Hsum. apply put_back_ok; [done|done|done| | |].
  - rewrite <- Hkeep, <- (ro_queue _ Hc). fold queue. unfold queued. rewrite !list_filter_filter. apply list_filter_iff. tauto.
  - intros k Hk. unfold queued. rewrite list_filter_filter. apply list_filter_iff. intros q. split; [by intros [? _]|]. intros Hq. split; [done|].
    apply HP. congruence.
  - apply sublist_filter.
Qed.

Lemma cached_sizes c key : recent_ok c -> 0 <= sum_Z (rw_size_bytes <$> cached c key) <= cache_current_bytes c.
Proof.
  intros Hc. assert (E : rw_size_bytes <$> cached c key = snd <$> queued key (cache_eviction_queue c)).
  { rewrite (ro_queue _ Hc), <- list_fmap_compose. by apply list_fmap_ext. }
  rewrite E, (ro_bytes _ Hc). split; [|apply sublist_sizes; [apply sublist_filter|by apply queue_small]].
  apply sum_Z_nonneg, Forall_fmap. apply Forall_forall. intros q [_ Hq]%list_elem_of_filter.
  pose proof (queue_small _ Hc) as Hs. rewrite Forall_forall in Hs. specialize (Hs q Hq). cbn. lia.
Qed.

Lemma cached_small c key : recent_ok c -> Forall small_write (cached c key).
Proof. intros Hc. unfold cached. destruct (aggregate_recent_writes c !! key) as [a|] eqn:Ea; [|constructor]. by apply (ro_entry _ Hc _ _ Ea). Qed.

Lemma tag_sizes key (ws : list RecentWrite) : snd <$> (tag key <$> ws) = rw_size_bytes <$> ws.
Proof. rewrite <- list_fmap_compose. by apply list_fmap_ext. Qed.

(** A trim drops the writes below the floor. *)
Lemma evict_trimmed_spec c key min : recent_ok c ->
  let c' := evict_trimmed_recent_writes c key min CacheRead in
  recent_ok c' /\ recent_write_cache_bytes c' = recent_write_cache_bytes c /\ forall k, exists n, cached c' k = drop n (cached c k).
Proof.
  intros Hc c'. unfold c', evict_trimmed_recent_writes. set (P := fun q : AggregateKey * Z * Z => q.1.1 <> key \/ min <= q.1.2).
  assert (HP : forall q, q.1.1 <> key -> P q) by (intros q Hq; by left).
  assert (Hkeep : forall ws : list RecentWrite, filter P (tag key <$> ws) = tag key <$> filter (fun w => min <= version_of w) ws).
  { intros ws. apply filter_tags. intros w. unfold P, tag. cbn. split; [by intros [?|?]|by right]. }
  assert (Hdrop : forall ws : list RecentWrite, filter (fun q => ~ P q) (tag key <$> ws) = tag key <$> filter (fun w => ~ min <= version_of w) ws).
  { intros ws. apply filter_tags. intros w. unfold P, tag. cbn. tauto. }
  destruct (aggregate_recent_writes c !! key) as [a|] eqn:Ea.
  - destruct (ro_entry _ Hc _ _ Ea) as (_ & Hn & Hs). assert (Ec : cached c key = writes a) by (unfold cached; by rewrite Ea).
    pose proof (cached_sizes c key Hc) as Hle. rewrite Ec in Hle.
    destruct (drop_trimmed_spec min _ _ _ Hn Hs (proj2 Hle)) as (n & -> & F1 & F2).
    split; [|split; [done|]].
    + apply forget_spec; cbn [first_version writes]; [done|by apply numbered_drop|by apply Forall_drop|done|by rewrite Ec, Hkeep, F1|].
      by rewrite Ec, Hdrop, F2, tag_sizes.
    + intros k. rewrite cached_put_back. case_decide as Hk; [subst; exists n; by rewrite Ec|by exists 0%nat].
  - assert (Ec : cached c key = []) by (unfold cached; by rewrite Ea). rewrite (absent_put_back c key) by done. split; [|split; [done|]].
    + apply forget_spec; [done|by intros [|i]|constructor|done|by rewrite Ec|]. rewrite Ec. cbn. lia.
    + intros k. rewrite cached_put_back. case_decide as Hk; [subst; exists 0%nat; by rewrite Ec|by exists 0%nat].
Qed.

(** A tombstone drops all of them. *)
Lemma remove_spec c key : recent_ok c -> recent_write_cache_bytes c < 2 ^ 63 ->
  let c' := remove_recent_writes c key CacheRead in
  recent_ok c' /\ recent_write_cache_bytes c' = recent_write_cache_bytes c /\ forall k, cached c' k = if decide (k = key) then [] else cached c k.
Proof.
  intros Hc Hm c'. unfold c', remove_recent_writes. set (P := fun q : AggregateKey * Z * Z => q.1.1 <> key).
  assert (Hkeep : forall ws : list RecentWrite, filter P (tag key <$> ws) = []).
  { intros ws. rewrite (filter_tags P (fun _ => False)) by (intros w; unfold P; cbn; tauto). by induction ws. }
  assert (Hdrop : forall ws : list RecentWrite, filter (fun q => ~ P q) (tag key <$> ws) = tag key <$> ws).
  { intros ws. rewrite (filter_tags (fun q => ~ P q) (fun _ => True)) by (intros w; unfold P; cbn; tauto). f_equal. induction ws as [|w ws IH]; [done|].
    rewrite filter_cons_True by done. by f_equal. }
  pose proof (cached_sizes c key Hc) as Hle. pose proof (total_small _ Hc Hm) as Ht.
  destruct (aggregate_recent_writes c !! key) as [a|] eqn:Ea.
  - assert (Ec : cached c key = writes a) by (unfold cached; by rewrite Ea). rewrite Ec in Hle.
    rewrite wrap_small by (unfold fits; lia). split; [|split; [done|]].
    + apply forget_spec; [done|by intros [|i]|constructor|done|by rewrite Hkeep|]. rewrite Hdrop, tag_sizes, Ec. unfold saturating_sub. lia.
    + intros k. by rewrite cached_put_back.
  - assert (Ec : cached c key = []) by (unfold cached; by rewrite Ea). rewrite (absent_put_back c key) by done. split; [|split; [done|]].
    + apply forget_spec; [done|by intros [|i]|constructor|done|by rewrite Ec|]. rewrite Ec. cbn. lia.
    + intros k. by rewrite cached_put_back.
Qed.

(** ** What a read finds *)

Lemma iter_from_spec a from : numbered (first_version a) (writes a) -> Forall small_write (writes a) ->
  iter_from a from = (fun w => (version_of w, w)) <$> filter (fun w => from <= version_of w) (writes a).
Proof.
  intros Hn Hs. unfold iter_from. set (skip := Z.to_nat (Z.max from (first_version a) - first_version a)).
  assert (Ef : filter (fun w => from <= version_of w) (writes a) = drop skip (writes a)).
  { revert Hn. unfold skip. clear. generalize (first_version a) as first, (writes a) as ws. intros first ws. revert first. induction ws as [|w ws IH]; intros first Hn.
    - by rewrite drop_nil.
    - apply numbered_cons in Hn as [Hv Hn]. rewrite filter_cons, (IH (first + 1)) by done. case_decide.
      + replace (Z.to_nat (Z.max from first - first)) with 0%nat by lia. by replace (Z.to_nat (Z.max from (first + 1) - (first + 1))) with 0%nat by lia.
      + replace (Z.to_nat (Z.max from first - first)) with (S (Z.to_nat (Z.max from (first + 1) - (first + 1)))) by lia. done. }
  rewrite Ef. apply list_eq. intros i. rewrite list_lookup_imap, list_lookup_fmap. destruct (drop skip (writes a) !! i) as [w|] eqn:Ei; [|done]. cbn.
  rewrite lookup_drop in Ei. pose proof (Hn _ _ Ei) as Hv. rewrite Forall_lookup in Hs. destruct (Hs _ _ Ei) as [Hw _]. do 2 f_equal.
  unfold wrapping_add. rewrite wrap_small; [lia|]. unfold fits, U64_MAX in *. lia.
Qed.

Lemma get_cached_spec c key from visible : recent_ok c ->
  get_cached_writes_from c key from visible =
    (fun w => (version_of w, w)) <$> filter (fun w => from <= version_of w /\ wal_seq (rw_metablock w) <= visible) (cached c key).
Proof.
  intros Hc. unfold get_cached_writes_from, cached. destruct (aggregate_recent_writes c !! key) as [a|] eqn:Ea; [|done].
  destruct (ro_entry _ Hc _ _ Ea) as (_ & Hn & Hs). rewrite iter_from_spec by done. clear.
  induction (writes a) as [|w ws IH]; [done|]. rewrite !filter_cons. repeat case_decide; try tauto.
  all: rewrite ?fmap_cons, ?filter_cons; cbn [snd]; repeat case_decide; try tauto; by rewrite IH.
Qed.

(** ** Commits, trims and tombstones in sequence *)

Inductive RecentOp :=
  | Committed (key : AggregateKey) (aggregate_version : Z) (mb : Metablock) (d : option DatablockKind) (size_bytes : Z)
  | Trimmed (key : AggregateKey) (min_aggregate_version : Z) (path : CachePath)
  | Removed (key : AggregateKey) (path : CachePath)
  | Cleared.

Definition run_op (c : RecentWriteCache) (op : RecentOp) : RecentWriteCache :=
  match op with
  | Committed key v mb d size => cache_recent_write c key v mb d size
  | Trimmed key min path => evict_trimmed_recent_writes c key min path
  | Removed key path => remove_recent_writes c key path
  | Cleared => clear_recent_writes c
  end.

(** What was committed for an aggregate since it was last deleted. *)
Definition step_history (k : AggregateKey) (h : list RecentWrite) (op : RecentOp) : list RecentWrite :=
  match op with
  | Committed key _ mb d size => h ++ if decide (k = key) then [{| rw_metablock := mb; rw_datablock := d; rw_size_bytes := size |}] else []
  | Removed key CacheRead => if decide (k = key) then [] else h
  | Cleared => []
  | _ => h
  end.

(** Commits continue the versions of their aggregate. *)
Fixpoint continues (h : AggregateKey -> list RecentWrite) (ops : list RecentOp) : Prop :=
  match ops with
  | [] => True
  | op :: ops =>
      match op with
      | Committed key v mb _ size => v = get_aggregate_version mb /\ 0 <= v < U64_MAX /\ 0 <= size < 2 ^ 63 /\ follows (h key) v
      | _ => True
      end /\ continues (fun k => step_history k (h k) op) ops
  end.

Definition suffixes (c : RecentWriteCache) (h : AggregateKey -> list RecentWrite) : Prop := forall k, exists n, cached c k = drop n (h k).

Lemma new_ok max_bytes : 0 <= max_bytes -> recent_ok (RecentWriteCache_new max_bytes).
Proof. intros Hm. split; [intros k a; cbn; by rewrite lookup_empty|done|done|by left|done]. Qed.

Lemma run_op_spec c op h : recent_ok c -> 0 <= recent_write_cache_bytes c < 2 ^ 63 -> suffixes c h -> continues h [op] ->
  recent_ok (run_op c op) /\ recent_write_cache_bytes (run_op c op) = recent_write_cache_bytes c /\ suffixes (run_op c op) (fun k => step_history k (h k) op).
Proof.
  intros Hc Hm Hh [Hop _]. destruct op as [key v mb d size|key min []|key []|]; cbn [run_op step_history]; try done.
  - destruct Hop as (Hv & Hvb & Hs & Hf). destruct (decide (recent_write_cache_bytes c = 0)) as [E0|Hne].
    + unfold cache_recent_write. rewrite E0. cbn [Z.eqb]. split_and!; [done|done|]. intros k.
      exists (length (h k ++ if decide (k = key) then [{| rw_metablock := mb; rw_datablock := d; rw_size_bytes := size |}] else [])). rewrite drop_all.
      pose proof (ro_queue _ Hc k) as Hq. rewrite (ro_off _ Hc E0) in Hq. by apply symmetry, fmap_nil_inv in Hq.
    + destruct (cache_recent_write_spec c key v mb d size) as (Ho & Hmm & Hd); try done; [lia|destruct (Hh key) as [n ->]; by apply follows_drop|].
      split_and!; [done|done|]. intros k. destruct (Hd k) as [n ->]. destruct (Hh k) as [n' ->].
      set (tl := if decide (k = key) then _ else _). clearbody tl. exists (n + n' `min` length (h k))%nat.
      rewrite Nat.add_comm, <- drop_drop, <- drop_app_shorter. done.
  - destruct (evict_trimmed_spec c key min Hc) as (Ho & Hmm & Hd). split_and!; [done|done|]. intros k. destruct (Hd k) as [n ->]. destruct (Hh k) as [n' ->].
    apply drop_some.
  - destruct (remove_spec c key Hc ltac:(lia)) as (Ho & Hmm & Hd). split_and!; [done|done|]. intros k. rewrite Hd.
    case_decide; [by exists 0%nat|apply Hh].
  - split_and!; [apply new_ok; lia|done|]. intros k. exists 0%nat. by rewrite drop_nil.
Qed.

Lemma run_ops_spec ops c h : recent_ok c -> 0 <= recent_write_cache_bytes c < 2 ^ 63 -> suffixes c h -> continues h ops ->
  recent_ok (foldl run_op c ops) /\ suffixes (foldl run_op c ops) (fun k => foldl (step_history k) (h k) ops).
Proof.
  revert c h. induction ops as [|op ops IH]; intros c h Hc Hm Hh Hops; [done|]. destruct Hops as [Hop Hops].
  destruct (run_op_spec c op h Hc Hm Hh) as (Ho & Hmm & Hs); [by split|]. cbn [foldl].
  apply (IH _ (fun k => step_history k (h k) op)); [done|lia|done|done].
Qed.

(** C22: the cache of recent writes never lies.  After any sequence of commits
    that continue the versions of their aggregates, of trims and of deletions,
    with whatever was evicted for room, a read from a version is given, in
    order and each with its own version, exactly the visible batches from that
    version on among the last ones committed for the aggregate since it was
    deleted; and the bytes counted are those of the batches cached, which are
    within the limit unless a single batch exceeds it. *)
Theorem recent_writes_exact (max_bytes : Z) (ops : list RecentOp) (k : AggregateKey) (from visible : Z) :
  0 <= max_bytes < 2 ^ 63 -> continues (fun _ => []) ops ->
  let c := foldl run_op (RecentWriteCache_new max_bytes) ops in
  let history := foldl (step_history k) [] ops in
  (exists n, get_cached_writes_from c k from visible =
     (fun w => (version_of w, w)) <$> filter (fun w => from <= version_of w /\ wal_seq (rw_metablock w) <= visible) (drop n history)) /\
  cache_current_bytes c = sum_Z (cache_eviction_queue c).*2 /\
  (forall key, queued key (cache_eviction_queue c) = tag key <$> cached c key) /\
  (cache_current_bytes c <= recent_write_cache_bytes c \/ (length (cache_eviction_queue c) <= 1)%nat).
Proof.
  intros Hm Hops c history. destruct (run_ops_spec ops (RecentWriteCache_new max_bytes) (fun _ => [])) as [Ho Hs]; try done.
  { apply new_ok. lia. }
  { intros key. by exists 0%nat. }
  fold c in Ho, Hs. split; [|split; [apply Ho|split; [apply Ho|apply Ho]]].
  rewrite get_cached_spec by done. destruct (Hs k) as [n ->]. by exists n.
Qed.

Module RecentRun.
Definition key : AggregateKey := {| org_id := 1; aggregate_type_id := 2; aggregate_id := 3 |}.

Definition block (v seq : Z) : Metablock :=
  {| wal_seq := seq; server_timestamp := 100; lease_epoch := 1; node_id := 9;
     uncompressed_size := 0; compressed_size := 0; datablock_version := 1;
     datablock_compression_type := 0; previous_tip_hash := []; datablock_position := 0; previous_aggregate_metablock_pos := 0;
     wal_metablock_type := EventBatchMetadata (from_batch_item 7 None key 0 {| aggregate_version := v; events := [] |} (EventTypesDirect []));
     datablock := StorageNone |}.

Definition ops : list RecentOp :=
  [Committed key 1 (block 1 10) None 40; Committed key 2 (block 2 11) None 40; Committed key 3 (block 3 12) None 40].
End RecentRun.

Lemma recent_writes_exact_witness :
  let c := foldl run_op (RecentWriteCache_new 100) RecentRun.ops in
  (exists n, get_cached_writes_from c RecentRun.key 1 11 =
     (fun w => (version_of w, w)) <$> filter (fun w => 1 <= version_of w /\ wal_seq (rw_metablock w) <= 11)
       (drop n (foldl (step_history RecentRun.key) [] RecentRun.ops))) /\
  (get_cached_writes_from c RecentRun.key 1 11).*1 = [2].
Proof.
  split; [|by vm_compute]. apply (recent_writes_exact 100 RecentRun.ops RecentRun.key 1 11); [done|].
  cbn -[Z.pow]. unfold U64_MAX. split_and!; try done; by intros w [= <-].
Defined.
