(* ===== verification/ReadPath.v ===== *)
(** * Reading the events of an aggregate

    The handler [read] of [celeriant_shard/src/shard_wal.rs]: it looks the
    aggregate up, collects metablocks from the cache of recent writes and then
    from the log, up to the size of a response, reads their bodies and filters
    their events; and the iterator of [celeriant_client_tokio] that follows the
    cursor of the response.  A read sees one state of the caches and of the
    segments. *)

From S2P Require Import Prelude Lease WalConstants Codec WalTypes WalCodec DiskFormat HashChain Sbbf Datablock LogSegment MemCache LogSync ReadFilter ReverseScan WritePath AggregateLoad ReadObjects Catchup RecentWrites.

(** ** The request and its response

    Without the correlation id, which the response only repeats. *)

Record MetablockPosition := {
  mp_log_id : Z;
  mp_metablock_absolute_pos : Z;
  mp_event_seq : Z;
  mp_aggregate_version : Z;
  mp_min_aggregate_version : Z;
}.

Record ReadRequest := { rq_aggregate_key : AggregateKey; rq_filters : ReadFilters }.

Record AggregateEventBatch := {
  aeb_aggregate_version : Z;
  aeb_client_id : Z;
  aeb_user_id : option Z;
  aeb_server_timestamp : Z;
  aeb_events : list DatablockAggregateEvent;
}.

Record ReadResponse := { rs_event_batches : list AggregateEventBatch; rs_next_aggregate_version : option Z }.

Inductive ShardReadError :=
  | UnavailableBatchIndex (minimum_available requested : Z)
  | ReadAggregateNotExists
  | ReadCacheLoadError (e : ShardCacheLoadError)
  | ReadDatablocksError (e : FetchDatablockError)
  | ReadMetablocksError (e : ScanError DiskFormatError).

(** What is collected so far: the [kept], [cumulative_size] and
    [evicted_version] that the collectors update, the last of them returned as
    [next_aggregate_version]. *)
Record MetablockCollection := {
  kept_metablocks : list EventBatchFromLogSegmentFile;
  cumulative_size : Z;
  evicted_version : option Z;
}.

Definition from_wal (mb : Metablock) (d : DatablockKind) : option AggregateEventBatch :=
  match wal_metablock_type mb, d with
  | EventBatchMetadata m, EventBatchItem b =>
      Some {| aeb_aggregate_version := eb_aggregate_version m; aeb_client_id := eb_client_id m; aeb_user_id := eb_user_id m;
              aeb_server_timestamp := server_timestamp mb; aeb_events := events b |}
  | _, _ => None
  end.

Definition get_aggregate_last_metablock_pos {V} (m : MemCache V) (key : AggregateKey) (path : CachePath) : MetablockPosition :=
  match snapshots m path !! key with
  | Some s => {| mp_log_id := ms_log_id s; mp_metablock_absolute_pos := ms_metablock_absolute_pos s; mp_event_seq := ms_event_seq s;
                 mp_aggregate_version := ms_aggregate_version s; mp_min_aggregate_version := ms_min_aggregate_version s |}
  | None => {| mp_log_id := 0; mp_metablock_absolute_pos := 0; mp_event_seq := 0; mp_aggregate_version := 0; mp_min_aggregate_version := 0 |}
  end.

Record ReadConfig := {
  max_response_size : Z;
  rc_read_max_chunk_size : Z;
  chain_read_window_bytes : Z;
}.

(** The smaller of the continuation point and an evicted version. *)
Definition lowest (existing : option Z) (evicted_idx : Z) : option Z :=
  match existing with
  | Some x => if evicted_idx <? x then Some evicted_idx else Some x
  | None => Some evicted_idx
  end.

Section read.
Context `{Bincode, Crc32c, Xxh3, DictCodec}.

(** The loop of [collect_from_cache_bounded]. *)
Fixpoint collect_cached (filters : ReadFilters) (max_bytes : Z) (cached_writes : list (Z * RecentWrite)) (c : MetablockCollection)
    : option MetablockCollection :=
  match cached_writes with
  | [] => Some c
  | (batch_idx, write) :: cached_writes =>
      if map_or false (fun to => to <? batch_idx) (to_aggregate_version filters) then Some c
      else
        include ← is_include_batch (rw_metablock write) filters;
        if negb include then collect_cached filters max_bytes cached_writes c
        else
          let size := wrapping_add 64 (cumulative_size c) (uncompressed_size (rw_metablock write)) in
          if (max_bytes <? size) && match kept_metablocks c with [] => false | _ => true end
          then Some {| kept_metablocks := kept_metablocks c; cumulative_size := cumulative_size c; evicted_version := Some batch_idx |}
          else collect_cached filters max_bytes cached_writes
                 {| kept_metablocks := kept_metablocks c ++ [{| ebf_log_id := 0; ebf_metablock := rw_metablock write; ebf_datablock := rw_datablock write |}];
                    cumulative_size := size; evicted_version := evicted_version c |}
  end.

Definition collect_from_cache_bounded (recent : RecentWriteCache) (read_cursor_wal_seq : Z) (key : AggregateKey) (filters : ReadFilters)
    (max_bytes : Z) (c : MetablockCollection) : option MetablockCollection :=
  collect_cached filters max_bytes (get_cached_writes_from recent key (from_aggregate_version filters) read_cursor_wal_seq) c.

(** The loop that evicts the newest batches, which are in front. *)
Fixpoint evict_newest (budget : Z) (disk_kept : list EventBatchFromLogSegmentFile) (disk_cumulative : Z) (evicted : option Z)
    : list EventBatchFromLogSegmentFile * Z * option Z :=
  match disk_kept with
  | newest :: (_ :: _) as rest =>
      if budget <? disk_cumulative
      then evict_newest budget rest (wrapping_sub 64 disk_cumulative (uncompressed_size (ebf_metablock newest)))
             (lowest evicted (get_aggregate_version (ebf_metablock newest)))
      else (disk_kept, disk_cumulative, evicted)
  | _ => (disk_kept, disk_cumulative, evicted)
  end.

(** The closure of the scan. *)
Definition disk_visitor (key : AggregateKey) (from_batch : Z) (to_batch : option Z) (filters : ReadFilters) (budget : Z)
    (log_id pos : Z) (block : bytes) : effect (list EventBatchFromLogSegmentFile * Z * option Z) DiskFormatError (option unit) := fun st =>
  match is_matches_aggregate_key block key with
  | None => (st, Panicked)
  | Some false => (st, Done None)
  | Some true =>
      match read_event_batch_aggregate_version block with
      | None => (st, Panicked)
      | Some aggregate_version =>
          if aggregate_version <? from_batch then (st, Done (Some tt))
          else if map_or false (fun to => to <? aggregate_version) to_batch then (st, Done None)
          else
            match deserialise_metablock block with
            | Err e => (st, Failed e)
            | Ok mb =>
                match is_include_batch mb filters with
                | None => (st, Panicked)
                | Some false => (st, Done None)
                | Some true =>
                    let '(disk_kept, disk_cumulative, evicted) := st in
                    (evict_newest budget (disk_kept ++ [{| ebf_log_id := log_id; ebf_metablock := mb; ebf_datablock := None |}])
                       (wrapping_add 64 disk_cumulative (uncompressed_size mb)) evicted, Done None)
                end
            end
      end
  end.

Definition disk_scanner (cfg : ReadConfig) (key : AggregateKey) (last_known : MetablockPosition) : ReverseMetablockScanner :=
  with_aggregate_chain
    (ReverseMetablockScanner_new (mp_log_id last_known)
       (Some (saturating_add 64 (mp_metablock_absolute_pos last_known) (Z.of_nat FIXED_BLOCK_SIZE_BYTES))) (rc_read_max_chunk_size cfg))
    key (chain_read_window_bytes cfg).

Definition collect_from_disk_bounded (cfg : ReadConfig) (cache : LogSegmentsCache) (key : AggregateKey) (from_batch : Z) (to_batch : option Z)
    (last_known : MetablockPosition) (filters : ReadFilters) (max_bytes : Z) (c : MetablockCollection)
    : outcome (ScanError DiskFormatError) MetablockCollection :=
  let budget_for_disk := saturating_sub max_bytes (cumulative_size c) in
  let '((disk_kept, disk_cumulative, evicted), scanned) :=
    scan (disk_visitor key from_batch to_batch filters budget_for_disk) cache (disk_scanner cfg key last_known) ([], 0, evicted_version c) in
  _ ← scanned;
  Done {| kept_metablocks := reverse disk_kept ++ kept_metablocks c; cumulative_size := wrapping_add 64 (cumulative_size c) disk_cumulative;
          evicted_version := evicted |}.

Definition collect_metablocks_bounded (cfg : ReadConfig) (cache : LogSegmentsCache) (recent : RecentWriteCache) (read_cursor_wal_seq : Z)
    (key : AggregateKey) (filters : ReadFilters) (max_bytes : Z) (last_known : MetablockPosition)
    : outcome (ScanError DiskFormatError) MetablockCollection :=
  c ← or_panic (collect_from_cache_bounded recent read_cursor_wal_seq key filters max_bytes
                  {| kept_metablocks := []; cumulative_size := 0; evicted_version := None |});
  let cache_min_batch := (fun k => get_aggregate_version (ebf_metablock k)) <$> head (kept_metablocks c) in
  let need_disk := match cache_min_batch with Some min => from_aggregate_version filters <? min | None => true end in
  if need_disk && (0 <? mp_metablock_absolute_pos last_known)
  then
    let disk_to := match cache_min_batch with Some min => Some (saturating_sub min 1) | None => to_aggregate_version filters end in
    collect_from_disk_bounded cfg cache key (from_aggregate_version filters) disk_to last_known filters max_bytes c
  else Done c.

(** One turn of the loop of [build_filtered_response]. *)
Definition filtered_batch (filters : ReadFilters) (item : EventBatchFromLogSegmentFile) : option AggregateEventBatch :=
  d ← ebf_datablock item;
  match d with
  | EventBatchItem b =>
      let b := apply_event_filters b filters in
      match events b with [] => None | _ => from_wal (ebf_metablock item) (EventBatchItem b) end
  | _ => from_wal (ebf_metablock item) d
  end.

Definition build_filtered_response (batches_with_data : list EventBatchFromLogSegmentFile) (filters : ReadFilters) : list AggregateEventBatch :=
  omap (filtered_batch filters) batches_with_data.

Context {V : Type} `{Validate V} (snapshot_cap : nat) (hash_order : list Z -> list Z).

Definition read (cfg : ReadConfig) (cache : LogSegmentsCache) (active_log_id : Z) (read_cursor : Z * Z) (recent : RecentWriteCache)
    (read_cursor_wal_seq : Z) (request : ReadRequest) : effect (MemCache V) ShardReadError ReadResponse := fun m =>
  let key := rq_aggregate_key request in
  let filters := rq_filters request in
  match aggregate_exists_and_cache snapshot_cap cache active_log_id read_cursor (rc_read_max_chunk_size cfg) key CacheRead m with
  | (m, Panicked) => (m, Panicked)
  | (m, Failed e) => (m, Failed (ReadCacheLoadError (FileScanningError e)))
  | (m, Done false) => (m, Failed ReadAggregateNotExists)
  | (m, Done true) =>
      let last_known := get_aggregate_last_metablock_pos m key CacheRead in
      (m, if from_aggregate_version filters <? mp_min_aggregate_version last_known
          then Failed (UnavailableBatchIndex (mp_min_aggregate_version last_known) (from_aggregate_version filters))
          else
            collection ← map_failed ReadMetablocksError (collect_metablocks_bounded cfg cache recent read_cursor_wal_seq key filters
                                                           (max_response_size cfg) last_known);
            kept ← map_failed ReadDatablocksError (fetch_datablocks_for_metablocks hash_order cache (rc_read_max_chunk_size cfg)
                                                     (kept_metablocks collection));
            Done {| rs_event_batches := build_filtered_response kept filters; rs_next_aggregate_version := evicted_version collection |})
  end.
End read.

(** ** read_all_iterator.rs *)

Definition with_from (filters : ReadFilters) (from : Z) : ReadFilters :=
  {| from_aggregate_version := from; to_aggregate_version := to_aggregate_version filters;
     include_event_types := include_event_types filters; exclude_client_id := exclude_client_id filters;
     include_client_id := include_client_id filters; exclude_user_id := exclude_user_id filters;
     include_user_id := include_user_id filters; min_server_timestamp := min_server_timestamp filters;
     max_server_timestamp := max_server_timestamp filters; rf_min_client_seq := rf_min_client_seq filters;
     rf_max_client_seq := rf_max_client_seq filters; rf_min_event_timestamp := rf_min_event_timestamp filters;
     rf_max_event_timestamp := rf_max_event_timestamp filters; rf_min_event_seq := rf_min_event_seq filters;
     rf_max_event_seq := rf_max_event_seq filters |}.

Record ReadAllIterator := {
  it_aggregate_key : AggregateKey;
  it_filters : ReadFilters;
  it_buffer : list AggregateEventBatch;
  it_exhausted : bool;
}.

Definition ReadAllIterator_new (key : AggregateKey) (filters : option ReadFilters) : ReadAllIterator :=
  {| it_aggregate_key := key; it_filters := default (ReadFilters_new 1) filters; it_buffer := []; it_exhausted := false |}.

Section client.
Context {E : Type} (client_read : ReadRequest -> outcome E ReadResponse).

Definition fetch_next_page (it : ReadAllIterator) : outcome E (ReadAllIterator * bool) :=
  response ← client_read {| rq_aggregate_key := it_aggregate_key it; rq_filters := it_filters it |};
  let buffer := it_buffer it ++ rs_event_batches response in
  match rs_next_aggregate_version response with
  | Some next_index => Done ({| it_aggregate_key := it_aggregate_key it; it_filters := with_from (it_filters it) next_index;
                                it_buffer := buffer; it_exhausted := it_exhausted it |}, true)
  | None => Done ({| it_aggregate_key := it_aggregate_key it; it_filters := it_filters it; it_buffer := buffer; it_exhausted := it_exhausted it |}, false)
  end.

(** [collect], with the loop of [next] in it. *)
Fixpoint collect (fuel : nat) (it : ReadAllIterator) (results : list AggregateEventBatch) : outcome E (list AggregateEventBatch) :=
  match fuel with
  | O => Panicked
  | S fuel =>
      match it_buffer it with
      | batch :: buffer =>
          collect fuel {| it_aggregate_key := it_aggregate_key it; it_filters := it_filters it; it_buffer := buffer; it_exhausted := it_exhausted it |}
            (results ++ [batch])
      | [] =>
          if it_exhausted it then Done results
          else
            '(it, more) ← fetch_next_page it;
            collect fuel {| it_aggregate_key := it_aggregate_key it; it_filters := it_filters it; it_buffer := it_buffer it; it_exhausted := negb more |} results
      end
  end.
End client.

(** ** Pages

    How many batches, from the oldest, go into a response: the first always,
    and then as long as the total stays within the budget. *)

Section pages.
Context {A : Type} (size : A -> Z).

Fixpoint page_from (budget total : Z) (l : list A) : nat :=
  match l with
  | [] => 0
  | x :: l => if budget <? total + size x then 0 else S (page_from budget (total + size x) l)
  end.

Definition page_len (budget : Z) (l : list A) : nat :=
  match l with [] => 0 | x :: l => S (page_from budget (size x) l) end.

Definition total (l : list A) : Z := sum_Z (size <$> l).

Lemma total_cons x l : total (x :: l) = size x + total l.
Proof. done. Qed.

Lemma total_app l k : total (l ++ k) = total l + total k.
Proof. unfold total. by rewrite fmap_app, sum_Z_app. Qed.

Notation sized l := (Forall (fun x => 0 <= size x) l).

Lemma total_nonneg_list l : sized l -> 0 <= total l.
Proof. intros Hl. unfold total. apply sum_Z_nonneg, Forall_fmap. exact Hl. Qed.

Lemma page_from_le budget t l : (page_from budget t l <= length l)%nat.
Proof. revert t. induction l as [|x l IH]; intros t; cbn; [done|]. case_match; [lia|]. specialize (IH (t + size x)). lia. Qed.

Lemma page_len_le budget l : (page_len budget l <= length l)%nat.
Proof. destruct l as [|x l]; cbn; [done|]. pose proof (page_from_le budget (size x) l). lia. Qed.

Lemma page_from_mono budget t t' l : t <= t' -> (page_from budget t' l <= page_from budget t l)%nat.
Proof.
  revert t t'. induction l as [|x l IH]; intros t t' Ht; cbn; [done|].
  destruct (Z.ltb_spec budget (t' + size x)); [lia|]. destruct (Z.ltb_spec budget (t + size x)); [lia|]. specialize (IH (t + size x) (t' + size x)). lia.
Qed.

Lemma page_from_take budget t n l : page_from budget t (take n l) = (n `min` page_from budget t l)%nat.
Proof.
  revert t l. induction n as [|n IH]; intros t [|x l]; cbn; [done..|]. rewrite IH. case_match; lia.
Qed.

Lemma page_from_fits budget t l : sized l -> t + total l <= budget -> page_from budget t l = length l.
Proof.
  intros Hl. revert t. induction Hl as [|x l Hx Hl IH]; intros t Ht; cbn; [done|]. rewrite total_cons in Ht. pose proof (total_nonneg_list l Hl).
  destruct (Z.ltb_spec budget (t + size x)); [lia|]. by rewrite IH by lia.
Qed.

Lemma page_from_over budget t l x : budget < t + total (l ++ [x]) -> page_from budget t (l ++ [x]) = page_from budget t l.
Proof.
  revert t. induction l as [|y l IH]; intros t Ht; cbn.
  - change (total ([] ++ [x])) with (size x + 0) in Ht. destruct (Z.ltb_spec budget (t + size x)); [done|lia].
  - cbn [app] in Ht. rewrite total_cons in Ht. case_match; [done|]. by rewrite IH by lia.
Qed.

(** Putting an older batch in front can only push newer ones out. *)
Lemma page_len_cons budget x l : 0 <= size x -> page_from budget (size x) (take (page_len budget l) l) = page_from budget (size x) l.
Proof.
  intros Hx. rewrite page_from_take. apply Nat.min_r. destruct l as [|y l]; [done|]. cbn. destruct (Z.ltb_spec budget (size x + size y)); [lia|].
  pose proof (page_from_mono budget (size y) (size x + size y) l). lia.
Qed.

Lemma page_len_fits budget l : sized l -> total l <= budget -> page_len budget l = length l.
Proof. destruct 1 as [|x l]; [done|]. rewrite total_cons. intros Ht. cbn. by rewrite page_from_fits. Qed.

Lemma page_len_pos budget l : l <> [] -> (0 < page_len budget l)%nat.
Proof. destruct l; [done|]. cbn. lia. Qed.
End pages.

Definition entry_size (k : EventBatchFromLogSegmentFile) : Z := uncompressed_size (ebf_metablock k).
Definition entry_version (k : EventBatchFromLogSegmentFile) : Z := get_aggregate_version (ebf_metablock k).

(** The continuation point: the smallest version that was evicted. *)
Definition lowest_of (existing : option Z) (evicted : list EventBatchFromLogSegmentFile) : option Z :=
  foldr (fun k e => lowest e (entry_version k)) existing evicted.

Lemma lowest_comm e a b : lowest (lowest e a) b = lowest (lowest e b) a.
Proof. unfold lowest. destruct e as [x|]; repeat (case_match; try lia || congruence || done; simplify_eq); f_equal; lia. Qed.

Lemma lowest_of_snoc e l k : lowest_of e (l ++ [k]) = lowest (lowest_of e l) (entry_version k).
Proof. unfold lowest_of. induction l as [|x l IH]; [done|]. cbn. rewrite IH. apply lowest_comm. Qed.

Lemma lowest_of_comm e l v : lowest_of (lowest e v) l = lowest (lowest_of e l) v.
Proof. unfold lowest_of. induction l as [|x l IH]; [done|]. cbn. rewrite IH. apply lowest_comm. Qed.

Lemma lowest_of_app e l k : lowest_of e (l ++ k) = lowest_of (lowest_of e k) l.
Proof. unfold lowest_of. by rewrite foldr_app. Qed.

Lemma lowest_of_ascending e k l : (forall v, e = Some v -> entry_version k < v) -> Forall (fun k' => entry_version k < entry_version k') l ->
  lowest_of e (k :: l) = Some (entry_version k).
Proof.
  intros He Hl. cbn. assert (Hall : forall v, lowest_of e l = Some v -> entry_version k < v).
  { clear -He Hl. induction Hl as [|x l Hx _ IH]; [done|]. cbn. unfold lowest at 1. destruct (lowest_of e l) as [y|] eqn:Ey; intros v.
    - fold (lowest_of e l). rewrite Ey. destruct (Z.ltb_spec (entry_version x) y); intros [= <-]; [done|by apply IH].
    - fold (lowest_of e l). rewrite Ey. by intros [= <-]. }
  fold (lowest_of e l). unfold lowest. destruct (lowest_of e l) as [y|]; [|done]. specialize (Hall y eq_refl). by rewrite (proj2 (Z.ltb_lt _ _)) by lia.
Qed.

Lemma evict_newest_step budget newest rest sum evicted : rest <> [] ->
  evict_newest budget (newest :: rest) sum evicted =
    if budget <? sum then evict_newest budget rest (wrapping_sub 64 sum (entry_size newest)) (lowest evicted (entry_version newest))
    else (newest :: rest, sum, evicted).
Proof. by destruct rest. Qed.

(** The eviction loop leaves a page. *)
Lemma evict_newest_spec budget x k evicted : Forall (fun y => 0 <= entry_size y) (x :: k) -> total entry_size (x :: k) < 2 ^ 64 ->
  evict_newest budget (reverse (x :: k)) (total entry_size (x :: k)) evicted =
    let j := page_from entry_size budget (entry_size x) k in
    (reverse (x :: take j k), total entry_size (x :: take j k), lowest_of evicted (drop j k)).
Proof.
  revert evicted. induction k as [|y k IH] using rev_ind; intros evicted Hs Ht.
  { done. }
  cbv zeta. inversion_clear Hs as [|? ? Hx Hk]. apply Forall_app in Hk as [Hk Hy]. inversion_clear Hy as [|? ? Hy' _].
  pose proof (total_nonneg_list entry_size k Hk) as Hnn. rewrite total_cons, total_app in Ht.
  change (total entry_size [y]) with (entry_size y + 0) in Ht.
  rewrite reverse_cons, reverse_app. change (reverse [y]) with [y]. rewrite <- app_assoc. cbn [app].
  rewrite evict_newest_step by (by destruct (reverse k)). rewrite total_cons, total_app. change (total entry_size [y]) with (entry_size y + 0).
  destruct (Z.ltb_spec budget (entry_size x + (total entry_size k + (entry_size y + 0)))) as [Hover|Hfit].
  - rewrite page_from_over by (rewrite total_app; change (total entry_size [y]) with (entry_size y + 0); lia).
    assert (Ew : wrapping_sub 64 (entry_size x + (total entry_size k + (entry_size y + 0))) (entry_size y) = total entry_size (x :: k)).
    { unfold wrapping_sub. rewrite total_cons. rewrite wrap_small; [lia|]. unfold fits. lia. }
    rewrite Ew. replace (reverse k ++ [x]) with (reverse (x :: k)) by apply reverse_cons. rewrite IH; [|by constructor|rewrite total_cons; lia]. cbv zeta.
    pose proof (page_from_le entry_size budget (entry_size x) k) as Hle. rewrite take_app_le, drop_app_le by done. by rewrite lowest_of_snoc, lowest_of_comm.
  - rewrite page_from_fits; [|by apply Forall_app; split; [|constructor]|rewrite total_app; change (total entry_size [y]) with (entry_size y + 0); lia].
    rewrite take_ge, drop_ge by done. rewrite reverse_cons, reverse_app. change (reverse [y]) with [y]. rewrite <- app_assoc. cbn [app lowest_of foldr].
    rewrite total_cons, total_app. done.
Qed.

(** ** What the scan collects *)

Lemma filter_none {A} (P : A -> Prop) `{!forall x, Decision (P x)} (l : list A) : (forall x, x ∈ l -> ~ P x) -> filter P l = [].
Proof. induction l as [|x l IH]; intros HP; [done|]. rewrite filter_cons_False by (apply HP; left). apply IH. intros y Hy. apply HP. by right. Qed.

Lemma filter_every {A} (P : A -> Prop) `{!forall x, Decision (P x)} (l : list A) : (forall x, x ∈ l -> P x) -> filter P l = l.
Proof. induction l as [|x l IH]; intros HP; [done|]. rewrite filter_cons_True by (apply HP; left). f_equal. apply IH. intros y Hy. apply HP. by right. Qed.

Lemma filter_same {A} (P Q : A -> Prop) `{!forall x, Decision (P x), !forall x, Decision (Q x)} (l : list A) :
  (forall x, x ∈ l -> P x <-> Q x) -> filter P l = filter Q l.
Proof.
  induction l as [|x l IH]; intros HPQ; [done|]. rewrite !filter_cons, IH by (intros y Hy; apply HPQ; by right).
  specialize (HPQ x ltac:(left)). repeat case_decide; tauto.
Qed.

Section walk.
Context `{Bincode, Crc32c, Blake3, Xxh3, DictCodec}.
Context (key : AggregateKey) (filters : ReadFilters) (to_batch : option Z) (budget : Z).

Definition included (mb : Metablock) : bool := match is_include_batch mb filters with Some b => b | None => false end.

Lemma include_total mb : wf_metablock mb -> is_include_batch mb filters = Some (included mb).
Proof.
  intros (_ & _ & _ & _ & _ & _ & _ & _ & _ & _ & _ & Hk & _). unfold included, is_include_batch.
  destruct (wal_metablock_type mb) as [b| | |]; try done. destruct (batch_rejected mb b filters), (ranges_rejected b filters); try done.
  destruct (include_event_types filters) as [[|t ts]|]; try done. destruct Hk as (_ & _ & _ & _ & _ & _ & _ & _ & _ & _ & _ & Ht).
  unfold check_event_types_match. destruct (event_types_data b) as [w|w]; [|done].
  destruct (any_option_spec (fun t => Sbbf.contains w (event_type_hash t)) (t :: ts)) as (r & -> & _); [|done].
  intros x _. apply contains_total; [|apply xxh3_64_u64]. exists 1%nat. destruct Ht as [-> _]. split_and!; lia.
Qed.

Notation version p := (get_aggregate_version (le_metablock p.2)).

Lemma included_range mb : included mb = true ->
  from_aggregate_version filters <= get_aggregate_version mb /\ map_or false (fun to => to <? get_aggregate_version mb) (to_aggregate_version filters) = false.
Proof.
  unfold included, is_include_batch, get_aggregate_version. destruct (wal_metablock_type mb) as [b| | |]; try done.
  destruct (batch_rejected mb b filters) eqn:Er; [done|]. intros _. unfold batch_rejected in Er. rewrite !orb_false_iff in Er.
  destruct Er as (((((((Hf & Ht) & _) & _) & _) & _) & _) & _). split; [lia|done].
Qed.

(** The batches of the aggregate that the filters select, up to a version. *)
Definition picked (p : Z * LogEntry) : Prop :=
  is_batch_of key p.2 = true /\ map_or false (fun to => to <? version p) to_batch = false /\ included (le_metablock p.2) = true.

#[global] Instance picked_dec p : Decision (picked p).
Proof. unfold picked. apply _. Defined.

Definition found (p : Z * LogEntry) : EventBatchFromLogSegmentFile :=
  {| ebf_log_id := p.1; ebf_metablock := le_metablock p.2; ebf_datablock := None |}.

(** The state of the scan when it has seen the batches [S], oldest first. *)
Definition page_state (e0 : option Z) (S : list EventBatchFromLogSegmentFile) : list EventBatchFromLogSegmentFile * Z * option Z :=
  let n := page_len entry_size budget S in (reverse (take n S), total entry_size (take n S), lowest_of e0 (drop n S)).

Notation sized l := (Forall (fun k => 0 <= entry_size k) l).

Lemma push_spec e0 x S : sized (x :: S) -> total entry_size (x :: S) < 2 ^ 64 ->
  let '(kept, sum, evicted) := page_state e0 S in
  evict_newest budget (kept ++ [x]) (wrapping_add 64 sum (entry_size x)) evicted = page_state e0 (x :: S).
Proof.
  intros Hs Ht. unfold page_state. set (n := page_len entry_size budget S). inversion_clear Hs as [|? ? Hx HS].
  assert (Htot : total entry_size (take n S) <= total entry_size S).
  { rewrite <- (take_drop n S) at 2. rewrite total_app. pose proof (total_nonneg_list entry_size (drop n S) (Forall_drop _ _ _ HS)). lia. }
  pose proof (total_nonneg_list entry_size _ (Forall_take _ n _ HS)) as Hnn. rewrite total_cons in Ht.
  assert (Ew : wrapping_add 64 (total entry_size (take n S)) (entry_size x) = total entry_size (x :: take n S)).
  { unfold wrapping_add. rewrite total_cons, wrap_small; [lia|]. unfold fits. lia. }
  rewrite Ew, <- reverse_cons, evict_newest_spec; [|constructor; [done|by apply Forall_take]|rewrite total_cons; lia]. cbv zeta.
  pose proof (page_from_take entry_size budget (entry_size x) n S) as Hj. unfold n in Hj |- *. rewrite page_len_cons in * by done. fold n in Hj |- *.
  set (j := page_from entry_size budget (entry_size x) S) in *. cbn [page_len take drop]. fold j.
  rewrite take_take, (Nat.min_l j n) by lia. f_equal. rewrite <- lowest_of_app. f_equal.
  rewrite <- (take_drop n S) at 3. rewrite drop_app_le; [done|]. rewrite length_take. pose proof (page_from_le entry_size budget (entry_size x) S). lia.
Qed.

(** Behind a batch below the requested range nothing is selected. *)
Definition stops_right (l : list (Z * LogEntry)) : Prop :=
  StronglySorted (fun p q => is_batch_of key p.2 = true -> version p < from_aggregate_version filters -> ~ picked q) l.

Lemma walk_page_spec l e0 S : Forall (fun p => wf_metablock (le_metablock p.2)) l -> stops_right l ->
  let S' := (found <$> reverse (filter picked l)) ++ S in
  sized S' -> total entry_size S' < 2 ^ 64 ->
  exists r, visit_entries (disk_visitor key (from_aggregate_version filters) to_batch filters budget) l (page_state e0 S) = (page_state e0 S', Done r).
Proof.
  cbv zeta. intros Hwf Hst. revert S. induction Hst as [|[id e] l Hst IH Hstop]; intros S Hs Ht; [by exists None|].
  inversion_clear Hwf as [|? ? Hw Hwf']. cbn [snd] in Hw. cbn [visit_entries]. unfold mbind, effect_bind, disk_visitor at 1.
  destruct (key_predicates _ Hw key) as (-> & _ & _). assert (Hb : is_batch_of key (id, e).2 = match wal_metablock_type (le_metablock e) with
    EventBatchMetadata b => bool_decide (eb_aggregate_key b = key) | _ => false end) by done. rewrite <- Hb.
  destruct (is_batch_of key (id, e).2) eqn:Eb.
  2: { rewrite filter_cons_False in Hs, Ht |- * by (intros (? & _); congruence). by apply IH. }
  assert (Hbt := Eb). unfold is_batch_of in Eb. cbn [snd] in Eb. destruct (wal_metablock_type (le_metablock e)) as [b| | |] eqn:Ek; try done.
  destruct (read_event_batch _ Hw b Ek) as (_ & -> & _). assert (Ev : eb_aggregate_version b = version (id, e)) by (unfold get_aggregate_version; cbn [snd]; by rewrite Ek).
  rewrite Ev.
  destruct (Z.ltb_spec (version (id, e)) (from_aggregate_version filters)) as [Hlt|Hge].
  { assert (Hnone : filter picked ((id, e) :: l) = []).
    { rewrite filter_cons_False by (intros (_ & _ & [? _]%included_range); cbn [snd] in *; lia). clear -Hstop Hbt Hlt.
      induction Hstop as [|q l Hq _ IHq]; [done|]. rewrite filter_cons_False; [done|]. by apply Hq. }
    rewrite Hnone. by eexists. }
  destruct (map_or false (fun to => to <? version (id, e)) to_batch) eqn:Eto.
  { rewrite filter_cons_False in Hs, Ht |- * by (intros (_ & ? & _); congruence). by apply IH. }
  rewrite deserialise_metablock_block, include_total by done.
  destruct (included (le_metablock e)) eqn:Ei.
  2: { rewrite filter_cons_False in Hs, Ht |- * by (intros (_ & _ & ?); cbn [snd] in *; congruence). by apply IH. }
  rewrite filter_cons_True, reverse_cons, fmap_app, <- app_assoc in Hs, Ht |- * by done. cbn [fmap list_fmap app] in Hs, Ht |- *.
  apply Forall_app in Hs as [Hs1 Hs2]. rewrite total_app in Ht. pose proof (total_nonneg_list entry_size _ Hs1) as Hnn.
  pose proof (push_spec e0 (found (id, e)) S Hs2 ltac:(lia)) as Hpush. destruct (page_state e0 S) as [[kept sum] evicted].
  change (uncompressed_size (le_metablock e)) with (entry_size (found (id, e))).
  change {| ebf_log_id := id; ebf_metablock := le_metablock e; ebf_datablock := None |} with (found (id, e)). rewrite Hpush.
  apply IH; [done|by apply Forall_app|by rewrite total_app].
Qed.
End walk.

(** ** What the cache gives *)

Definition cached_item (w : RecentWrite) : EventBatchFromLogSegmentFile :=
  {| ebf_log_id := 0; ebf_metablock := rw_metablock w; ebf_datablock := rw_datablock w |}.

Section from_cache.
Context `{Bincode, Crc32c, Xxh3, DictCodec} (filters : ReadFilters) (max_bytes : Z).

Notation tagged ws := ((fun w => (version_of w, w)) <$> ws).
Notation selected ws := (cached_item <$> filter (fun w => included filters (rw_metablock w) = true) ws).

Definition ascending (ws : list RecentWrite) : Prop := StronglySorted (fun w w' => version_of w < version_of w') ws.

Lemma past_end ws : ascending ws -> (forall w, head ws = Some w -> map_or false (fun to => to <? version_of w) (to_aggregate_version filters) = true) ->
  selected ws = [].
Proof.
  intros Hs Hhead. destruct Hs as [|w ws Hs Hlt]; [done|]. specialize (Hhead w eq_refl).
  assert (Hall : Forall (fun x => included filters (rw_metablock x) <> true) (w :: ws)).
  { assert (Hout : forall x, version_of w <= version_of x -> included filters (rw_metablock x) <> true).
    { intros x Hx Hi. apply included_range in Hi as [_ Hi]. destruct (to_aggregate_version filters) as [to|]; [|done]. cbn in *. lia. }
    constructor; [by apply Hout|]. eapply Forall_impl; [exact Hlt|]. intros x Hx. cbn beta in Hx. apply Hout. lia. }
  induction Hall as [|x l Hx _ IH]; [done|]. by rewrite filter_cons_False.
Qed.

Lemma collect_more ws kept : ascending ws -> Forall (fun w => wf_metablock (rw_metablock w)) ws -> kept <> [] ->
  Forall (fun k => 0 <= entry_size k) (kept ++ selected ws) -> total entry_size (kept ++ selected ws) < 2 ^ 64 ->
  let j := page_from entry_size max_bytes (total entry_size kept) (selected ws) in
  collect_cached filters max_bytes (tagged ws) {| kept_metablocks := kept; cumulative_size := total entry_size kept; evicted_version := None |} =
    Some {| kept_metablocks := kept ++ take j (selected ws); cumulative_size := total entry_size (kept ++ take j (selected ws));
            evicted_version := entry_version <$> head (drop j (selected ws)) |}.
Proof.
  cbv zeta. intros Hs. revert kept. induction Hs as [|w ws Hs IH Hlt]; intros kept Hwf Hne Hsz Ht.
  { cbn. by rewrite !app_nil_r. }
  inversion_clear Hwf as [|? ? Hw Hwf']. rewrite fmap_cons. cbn [collect_cached].
  destruct (map_or false (fun to => to <? version_of w) (to_aggregate_version filters)) eqn:Eto.
  { rewrite past_end by (by constructor || intros x [= <-]). cbn. by rewrite !app_nil_r. }
  rewrite include_total by done. cbn [mbind option_bind]. destruct (included filters (rw_metablock w)) eqn:Ei; cbn [negb].
  2: { rewrite filter_cons_False in Hsz, Ht |- * by congruence. by apply IH. }
  rewrite filter_cons_True, fmap_cons in Hsz, Ht |- * by done. set (x := cached_item w) in *. set (R := selected ws) in *.
  change (uncompressed_size (rw_metablock w)) with (entry_size x). apply Forall_app in Hsz as [Hk HxR]. inversion_clear HxR as [|? ? Hx HR].
  rewrite total_app, total_cons in Ht. pose proof (total_nonneg_list _ _ Hk). pose proof (total_nonneg_list _ _ HR).
  assert (Ew : wrapping_add 64 (total entry_size kept) (entry_size x) = total entry_size kept + entry_size x).
  { unfold wrapping_add. apply wrap_small. unfold fits. lia. }
  cbn [kept_metablocks cumulative_size]. rewrite Ew. cbn [page_from]. destruct (max_bytes <? total entry_size kept + entry_size x) eqn:Eo.
  - destruct kept as [|k0 kept]; [done|]. cbn [andb take drop head fmap option_fmap option_map]. by rewrite app_nil_r.
  - cbn [andb]. assert (Et : total entry_size kept + entry_size x = total entry_size (kept ++ [x])) by (rewrite total_app; unfold total; cbn; lia).
    rewrite Et. fold (cached_item w). fold x. cbn [evicted_version]. rewrite IH; [|done|by destruct kept|by rewrite <- app_assoc; apply Forall_app; split; [|constructor]|].
    + cbn [take drop]. by rewrite <- app_assoc.
    + rewrite <- app_assoc, total_app. cbn [app]. rewrite total_cons. fold R. lia.
Qed.

(** From an empty collection the cache gives a page. *)
Lemma collect_cached_spec ws : ascending ws -> Forall (fun w => wf_metablock (rw_metablock w)) ws ->
  Forall (fun k => 0 <= entry_size k) (selected ws) -> total entry_size (selected ws) < 2 ^ 64 ->
  let k := page_len entry_size max_bytes (selected ws) in
  collect_cached filters max_bytes (tagged ws) {| kept_metablocks := []; cumulative_size := 0; evicted_version := None |} =
    Some {| kept_metablocks := take k (selected ws); cumulative_size := total entry_size (take k (selected ws));
            evicted_version := entry_version <$> head (drop k (selected ws)) |}.
Proof.
  cbv zeta. intros Hs. induction Hs as [|w ws Hs IH Hlt]; intros Hwf Hsz Ht; [done|].
  inversion_clear Hwf as [|? ? Hw Hwf']. rewrite fmap_cons. cbn [collect_cached].
  destruct (map_or false (fun to => to <? version_of w) (to_aggregate_version filters)) eqn:Eto.
  { by rewrite past_end by (by constructor || intros x [= <-]). }
  rewrite include_total by done. cbn [mbind option_bind]. destruct (included filters (rw_metablock w)) eqn:Ei; cbn [negb].
  2: { rewrite filter_cons_False in Hsz, Ht |- * by congruence. by apply IH. }
  rewrite filter_cons_True, fmap_cons in Hsz, Ht |- * by done. cbn [kept_metablocks cumulative_size evicted_version]. rewrite andb_false_r.
  fold (cached_item w). set (x := cached_item w) in *. change (uncompressed_size (rw_metablock w)) with (entry_size x).
  inversion Hsz as [|? ? Hx HR]; subst. rewrite total_cons in Ht. pose proof (total_nonneg_list _ _ HR) as Hnn.
  assert (Ew : wrapping_add 64 0 (entry_size x) = total entry_size [x]).
  { unfold wrapping_add, total. cbn. rewrite wrap_small; [lia|]. unfold fits. lia. }
  rewrite Ew. cbn [app page_len]. rewrite collect_more; [|done|done|done|done|by rewrite total_app; unfold total in *; cbn in *; lia].
  replace (total entry_size [x]) with (entry_size x) by (unfold total; cbn; lia). done.
Qed.
End from_cache.

(** ** Bodies of a page *)

Section bodies_of_page.
Context `{Bincode, Crc32c, Blake3, Xxh3, DictCodec}.

Lemma plan_app n kept tl kept' fetches : Forall bodied tl -> plan_fetches n kept = Done (kept', fetches) ->
  plan_fetches n (kept ++ tl) = Done (kept' ++ tl, fetches).
Proof.
  intros Htl. revert n kept' fetches. induction kept as [|k kept IH]; intros n kept' fetches; cbn [plan_fetches app].
  { intros [= <- <-]. by apply bodied_planned. }
  unfold mbind, outcome_bind. destruct (match ebf_datablock k with Some _ => _ | None => _ end) as [[k' f]| |]; try done.
  destruct (plan_fetches (S n) kept) as [[rest fs]| |] eqn:E; try done. intros [= <- <-]. by rewrite (IH _ _ _ E).
Qed.

Lemma fill_app kept tl blobs kept' : fill_datablocks kept blobs = Done kept' -> fill_datablocks (kept ++ tl) blobs = Done (kept' ++ tl).
Proof.
  revert kept. induction blobs as [|[i b] blobs IH]; intros kept; cbn [fill_datablocks]; [by intros [= <-]|].
  unfold mbind, outcome_bind. destruct (kept !! i) as [k|] eqn:Ei; [|done]. rewrite (lookup_app_l_Some _ _ _ _ Ei). cbn [or_panic].
  destruct (deserialise_body k (Some b) false) as [d| |]; try done. intros E. rewrite insert_app_l by by eapply lookup_lt_Some. by apply IH.
Qed.

Lemma segments_app cache chunk fetches ids kept tl kept' : fetch_segments cache chunk fetches kept ids = Done kept' ->
  fetch_segments cache chunk fetches (kept ++ tl) ids = Done (kept' ++ tl).
Proof.
  revert kept. induction ids as [|id ids IH]; intros kept; cbn [fetch_segments]; [by intros [= <-]|].
  unfold mbind, outcome_bind at 1. destruct (fetch_segment cache chunk fetches kept id) as [kept1| |] eqn:E1; try done. intros E.
  assert (E1' : fetch_segment cache chunk fetches (kept ++ tl) id = Done (kept1 ++ tl)).
  { revert E1. unfold fetch_segment. destruct (lc_get cache id); [|done]. destruct (negb (lc_lock _ _)); [done|]. destruct (negb (lc_handle _ _)); [done|].
    unfold mbind, outcome_bind. destruct (map_failed _ _) as [blobs| |]; try done. destruct (negb (Nat.eqb _ _)); [done|]. apply fill_app. }
  unfold mbind, outcome_bind. rewrite E1'. by apply IH.
Qed.

(** What has its body is not touched. *)
Lemma fetch_app hash_order cache chunk kept tl kept' : Forall bodied tl ->
  fetch_datablocks_for_metablocks hash_order cache chunk kept = Done kept' ->
  fetch_datablocks_for_metablocks hash_order cache chunk (kept ++ tl) = Done (kept' ++ tl).
Proof.
  intros Htl. unfold fetch_datablocks_for_metablocks, mbind, outcome_bind. destruct (plan_fetches 0 kept) as [[k1 fs]| |] eqn:E; try done.
  rewrite (plan_app _ _ _ _ _ Htl E). apply segments_app.
Qed.
End bodies_of_page.

(** ** The log a read sees *)

Section seen.
Context `{Bincode, Crc32c, Blake3, Xxh3, DictCodec}.
Context (cfg : ReadConfig) (cache : LogSegmentsCache) (key : AggregateKey) (last_known : MetablockPosition).
Context (segs : Z -> LogSegmentFile) (logs : Z -> list LogEntry).
Notation sc := (disk_scanner cfg key last_known).

(** The entries of the aggregate up to the one the snapshot points at. *)
Definition seen (id : Z) : list LogEntry := keyed key (visible sc (segs id) (logs id) (override_of sc id)).
Definition aggregate_log : list (Z * LogEntry) := entries_of seen (reverse (scanned_segments sc)).

Record readable_log : Prop := {
  rl_chunk : Z.of_nat FIXED_BLOCK_SIZE_BYTES <= rc_read_max_chunk_size cfg /\ rc_read_max_chunk_size cfg mod Z.of_nat FIXED_BLOCK_SIZE_BYTES = 0;
  rl_alignment : 0 < lc_alignment cache /\ Z.of_nat FIXED_BLOCK_SIZE_BYTES mod lc_alignment cache = 0;
  rl_segments id : id ∈ scanned_segments sc -> segment_scannable cache sc id (segs id) (logs id);
}.
Context (Hlog : readable_log).

Lemma disk_scan {S E T} (visitor : Z -> Z -> bytes -> effect S E (option T)) s :
  scan visitor cache sc s = effect_map_err Visitor (visit_entries visitor (reverse aggregate_log)) s.
Proof.
  destruct Hlog as [Hc Ha Hs]. unfold aggregate_log. rewrite <- in_order_reverse. unfold disk_scanner in *.
  rewrite (chain_scan_spec visitor cache _ segs logs key _); [done| |done|done].
  split; [done|done| |by split]. done.
Qed.

Lemma seen_sublist id : seen id `sublist_of` logs id.
Proof.
  unfold seen, keyed. etrans; [apply sublist_filter|]. unfold visible. destruct (cursor_position sc (segs id)); [apply sublist_take|apply sublist_nil_l].
Qed.

Lemma aggregate_log_elem id e : (id, e) ∈ aggregate_log -> id ∈ scanned_segments sc /\ e ∈ logs id /\ entry_of_key key (id, e).
Proof.
  intros [Hid He]%entries_of_elem. apply elem_of_reverse in Hid. rewrite ?reverse_involutive in Hid. split; [done|].
  split; [by eapply elem_of_sublist, seen_sublist|]. by apply list_elem_of_filter in He as [He _].
Qed.

Lemma aggregate_log_wf : Forall (fun p => wf_metablock (le_metablock p.2)) aggregate_log.
Proof.
  apply Forall_forall. intros [id e] (Hid & He & _)%aggregate_log_elem. destruct (rl_segments Hlog id Hid) as [(tip0 & Hh) _ _ _].
  apply list_elem_of_lookup in He as [i Hi]. by destruct (sh_entry _ _ _ Hh i e Hi) as (_ & _ & ? & _).
Qed.

Lemma aggregate_log_readable es id : es `sublist_of` aggregate_log -> id ∈ es.*1 -> readable es cache (rc_read_max_chunk_size cfg) id.
Proof.
  intros Hsub Hid. apply list_elem_of_fmap in Hid as ([k e] & Ek & He). cbn in Ek. subst k.
  apply (elem_of_sublist _ _ _ He) in Hsub as Hw. apply entries_of_elem in Hw as [Hid _].
  destruct Hlog as [[Hc Hcm] [Ha Hm] Hs]. assert (Hid' := Hid). apply elem_of_reverse in Hid'. rewrite ?reverse_involutive in Hid'.
  destruct (Hs id Hid') as [(tip0 & Hh) Hr (Hget & Hlock & Hhandle & _) _]. split; [|done|].
  - exists (segs id), tip0, (logs id). split_and!; try done. etrans; [|apply seen_sublist].
    rewrite <- (entries_of_segment seen (reverse (scanned_segments sc)) id); [|rewrite reverse_Permutation; apply scan_ids_NoDup|done].
    clear -Hsub. unfold aggregate_log in Hsub. induction Hsub as [|p l k Hs IH|p l k Hs IH]; [done|..];
      rewrite !(filter_cons _ p); case_decide; try done; by constructor.
  - apply Z.mod_divide in Hm, Hcm; try lia; [|done]. split.
    + split; [done|]. apply Z.divide_pos_le in Hm; [lia|done].
    + apply Z.mod_divide; [lia|]. by etrans.
Qed.

Context (filters : ReadFilters).
Notation picks to := (found <$> filter (picked key filters to) aggregate_log).

(** The part of a page that comes from the log. *)
Lemma collect_disk_spec to max_bytes c : stops_right key filters to (reverse aggregate_log) ->
  Forall (fun k => 0 <= entry_size k) (picks to) -> total entry_size (picks to) < 2 ^ 64 ->
  let n := page_len entry_size (saturating_sub max_bytes (cumulative_size c)) (picks to) in
  exists sum, collect_from_disk_bounded cfg cache key (from_aggregate_version filters) to last_known filters max_bytes c =
    Done {| kept_metablocks := take n (picks to) ++ kept_metablocks c; cumulative_size := sum;
            evicted_version := lowest_of (evicted_version c) (drop n (picks to)) |}.
Proof.
  intros Hst Hs Ht n. unfold collect_from_disk_bounded. set (budget := saturating_sub max_bytes (cumulative_size c)) in *.
  destruct (walk_page_spec key filters to budget (reverse aggregate_log) (evicted_version c) []) as [r E];
    rewrite ?filter_reverse, ?reverse_involutive, ?app_nil_r; try done.
  { apply Forall_reverse, aggregate_log_wf. }
  rewrite disk_scan. unfold effect_map_err. change (page_state budget (evicted_version c) []) with (@nil EventBatchFromLogSegmentFile, 0, evicted_version c) in E.
  rewrite E, filter_reverse, reverse_involutive, app_nil_r. unfold page_state. fold n. cbv iota beta. eexists.
  unfold mbind, outcome_bind. by rewrite reverse_involutive.
Qed.

Lemma picks_sized to : Forall (fun k => 0 <= entry_size k) (picks to).
Proof.
  apply Forall_fmap, Forall_forall. intros p [_ Hp]%list_elem_of_filter. pose proof aggregate_log_wf as Hw. rewrite Forall_forall in Hw.
  destruct (Hw p Hp) as (_ & _ & _ & _ & Hu & _). unfold entry_size, found, fits in *. cbn. lia.
Qed.

Context (recent : RecentWriteCache) (visible_seq : Z) (Hrecent : recent_ok recent).

(** The visible writes in the cache from the requested version on. *)
Definition cached_from : list RecentWrite :=
  filter (fun w => from_aggregate_version filters <= version_of w /\ wal_seq (rw_metablock w) <= visible_seq) (cached recent key).
Definition cached_picks : list EventBatchFromLogSegmentFile :=
  cached_item <$> filter (fun w => included filters (rw_metablock w) = true) cached_from.

(** Up to where the log is asked. *)
Definition disk_to : option Z :=
  match head cached_picks with Some k => Some (saturating_sub (entry_version k) 1) | None => to_aggregate_version filters end.

Lemma cached_from_ascending : ascending cached_from.
Proof.
  eapply StronglySorted_sublist; [apply sublist_filter|]. unfold cached. destruct (aggregate_recent_writes recent !! key) as [a|] eqn:Ea; [|constructor].
  destruct (ro_entry _ Hrecent _ _ Ea) as (_ & Hn & _). revert Hn. generalize (first_version a) as first, (writes a) as ws. clear.
  intros first ws. revert first. induction ws as [|w ws IH]; intros first Hn; [constructor|]. assert (Hn' := Hn). apply numbered_cons in Hn as [Hv Hn].
  constructor; [by eapply IH|]. apply Forall_forall. intros x [i Hi]%list_elem_of_lookup. rewrite (Hn i x Hi). lia.
Qed.

(** The whole collection: a page of what the cache has, and in front of it a
    page of what the log has below that. *)
Lemma collect_spec max_bytes : 0 < mp_metablock_absolute_pos last_known -> stops_right key filters disk_to (reverse aggregate_log) ->
  Forall (fun w => wf_metablock (rw_metablock w)) cached_from -> Forall (fun k => 1 <= entry_version k) cached_picks ->
  total entry_size (picks disk_to) < 2 ^ 64 -> total entry_size cached_picks < 2 ^ 64 ->
  let k := page_len entry_size max_bytes cached_picks in
  let n := page_len entry_size (saturating_sub max_bytes (total entry_size (take k cached_picks))) (picks disk_to) in
  exists sum, collect_metablocks_bounded cfg cache recent visible_seq key filters max_bytes last_known =
    Done {| kept_metablocks := take n (picks disk_to) ++ take k cached_picks; cumulative_size := sum;
            evicted_version := lowest_of (entry_version <$> head (drop k cached_picks)) (drop n (picks disk_to)) |}.
Proof.
  intros Hpos Hst Hwf Hv Ht1 Ht2 k n. unfold collect_metablocks_bounded, collect_from_cache_bounded. rewrite get_cached_spec by done.
  fold cached_from. assert (Hsz : Forall (fun k => 0 <= entry_size k) cached_picks).
  { apply Forall_fmap, Forall_forall. intros w [_ Hw]%list_elem_of_filter. rewrite Forall_forall in Hwf. destruct (Hwf w Hw) as (_ & _ & _ & _ & Hu & _).
    unfold entry_size, fits in *. cbn. lia. }
  rewrite collect_cached_spec; [|apply cached_from_ascending|done|done|done]. fold cached_picks. fold k. cbn [or_panic]. unfold mbind, outcome_bind.
  cbn [kept_metablocks]. rewrite (proj2 (Z.ltb_lt 0 _) Hpos), andb_true_r. unfold disk_to in *.
  destruct cached_picks as [|x R] eqn:ER.
  - cbn [head take]. destruct (collect_disk_spec (to_aggregate_version filters) max_bytes
      {| kept_metablocks := take k []; cumulative_size := total entry_size (take k []); evicted_version := entry_version <$> head (drop k []) |}) as [sum E];
      [done|apply picks_sized|done|]. exists sum. rewrite take_nil, drop_nil in *. exact E.
  - cbn [head] in *. assert (Eh : head (take k (x :: R)) = Some x) by (unfold k; done). rewrite Eh. cbn [fmap option_fmap option_map]. fold (entry_version x).
    destruct (Z.ltb_spec (from_aggregate_version filters) (entry_version x)) as [Hlt|Hge].
    + destruct (collect_disk_spec (Some (saturating_sub (entry_version x) 1)) max_bytes
        {| kept_metablocks := take k (x :: R); cumulative_size := total entry_size (take k (x :: R)); evicted_version := entry_version <$> head (drop k (x :: R)) |})
        as [sum E]; [done|apply picks_sized|done|]. by exists sum.
    + assert (Hnone : filter (picked key filters (Some (saturating_sub (entry_version x) 1))) aggregate_log = []).
      { apply filter_none. intros p _ (_ & Hto & [Hfrom _]%included_range). inversion_clear Hv. cbn in Hto. unfold saturating_sub in Hto. lia. }
      rewrite Hnone. change (found <$> []) with (@nil EventBatchFromLogSegmentFile). rewrite take_nil, drop_nil. by eexists.
Qed.
End seen.

(** ** The response *)

Lemma page_len_fmap {A B} (size : B -> Z) (f : A -> B) budget l : page_len size budget (f <$> l) = page_len (fun x => size (f x)) budget l.
Proof.
  assert (Hf : forall t, page_from size budget t (f <$> l) = page_from (fun x => size (f x)) budget t l).
  { induction l as [|x l IH]; intros t; cbn; [done|]. by rewrite IH. }
  destruct l as [|x l]; [done|]. cbn. f_equal. clear Hf. generalize (size (f x)) as t. induction l as [|y l IH]; intros t; cbn; [done|]. by rewrite IH.
Qed.

Lemma total_fmap {A B} (size : B -> Z) (f : A -> B) l : total size (f <$> l) = total (fun x => size (f x)) l.
Proof. unfold total. by rewrite <- list_fmap_compose. Qed.

Lemma total_sublist {A} (size : A -> Z) l k : l `sublist_of` k -> Forall (fun x => 0 <= size x) k -> total size l <= total size k.
Proof.
  induction 1 as [|x l k _ IH|x l k _ IH]; intros Hs; [done|..]; inversion_clear Hs; rewrite ?total_cons; specialize (IH ltac:(done)); lia.
Qed.

Notation version p := (get_aggregate_version (le_metablock p.2)).

Definition batch_size (p : Z * LogEntry) : Z := uncompressed_size (le_metablock p.2).

Section response.
Context `{Bincode, Crc32c, Blake3, Xxh3, DictCodec}.
Context (cfg : ReadConfig) (cache : LogSegmentsCache) (key : AggregateKey) (last_known : MetablockPosition).
Context (segs : Z -> LogSegmentFile) (logs : Z -> list LogEntry) (body : LogEntry -> option DatablockKind) (filters : ReadFilters).
Context (recent : RecentWriteCache) (visible_seq : Z).

Notation log := (aggregate_log cfg key last_known segs logs).
Definition batches : list (Z * LogEntry) := filter (fun p => is_batch_of key p.2 = true) log.

(** The batches a filter selects, in the order of the log. *)
Definition select (l : list (Z * LogEntry)) : list (Z * LogEntry) := filter (fun p => included filters (le_metablock p.2) = true) l.

(** The batches in the range, those of the log only and those in the cache. *)
Definition split_at_cache (older newer : list (Z * LogEntry)) : Prop :=
  filter (fun p => from_aggregate_version filters <= version p) batches = older ++ newer /\
  Forall2 (fun p w => rw_metablock w = le_metablock p.2 /\ rw_datablock w = body p.2) newer (cached_from key filters recent visible_seq).

Record read_ok : Prop := {
  ra_log : readable_log cfg cache key last_known segs logs;
  ra_position : 0 < mp_metablock_absolute_pos last_known;
  ra_stored : Forall (fun p => stored p.2 (body p.2)) log;
  ra_versions : Forall (fun p => 1 <= version p) batches;
  ra_sizes : total batch_size batches < 2 ^ 64;
  ra_recent : recent_ok recent;
}.
Context (Hok : read_ok).

Lemma batches_sized : Forall (fun p => 0 <= batch_size p) batches.
Proof.
  apply Forall_kept. pose proof (aggregate_log_wf _ _ _ _ _ _ (ra_log Hok)) as Hw. eapply Forall_impl; [exact Hw|].
  intros p (_ & _ & _ & _ & Hu & _). unfold batch_size, fits in *. lia.
Qed.

Lemma picked_batches to : filter (picked key filters to) log =
  filter (fun p => map_or false (fun t => t <? version p) to = false /\ included filters (le_metablock p.2) = true)
    (filter (fun p => from_aggregate_version filters <= version p) batches).
Proof.
  unfold batches. rewrite !list_filter_filter. apply list_filter_iff. intros p. unfold picked. split; [|tauto].
  intros (Hb & Ht & Hi). split_and!; try done. exact (proj1 (included_range _ _ Hi)).
Qed.

Definition cached_place (p : Z * LogEntry) : EventBatchFromLogSegmentFile :=
  {| ebf_log_id := 0; ebf_metablock := le_metablock p.2; ebf_datablock := body p.2 |}.

Section split.
Context (older newer : list (Z * LogEntry)) (Hsplit : split_at_cache older newer).
Context (Hsorted : StronglySorted (fun p q => version p < version q) batches).

Lemma in_range p : p ∈ older ++ newer -> p ∈ batches /\ from_aggregate_version filters <= version p.
Proof. rewrite <- (proj1 Hsplit). intros [? ?]%list_elem_of_filter. done. Qed.

Lemma range_sorted : StronglySorted (fun p q => version p < version q) (older ++ newer).
Proof. rewrite <- (proj1 Hsplit). eapply StronglySorted_sublist; [apply sublist_filter|done]. Qed.

Lemma cached_picks_spec : cached_picks key filters recent visible_seq = cached_place <$> select newer.
Proof.
  unfold cached_picks, select. destruct Hsplit as [_ Hf]. clear Hsplit Hsorted. induction Hf as [|p w ps ws [Em Ed] _ IH]; [done|].
  rewrite !filter_cons, Em. case_decide; [|exact IH]. rewrite !fmap_cons, IH. f_equal. unfold cached_item, cached_place. by rewrite Em, Ed.
Qed.

Lemma picks_spec : filter (picked key filters (disk_to key filters recent visible_seq)) log = select older.
Proof.
  rewrite picked_batches, (proj1 Hsplit), filter_app. unfold disk_to. rewrite cached_picks_spec.
  pose proof range_sorted as Hs. rewrite <- (app_nil_r (select older)). destruct (select newer) as [|b bs] eqn:Eb.
  - cbn [fmap list_fmap head]. f_equal.
    + apply filter_same. intros p _. split; [by intros [_ ?]|]. intros Hi. split; [exact (proj2 (included_range _ _ Hi))|done].
    + apply filter_none. intros p Hp [_ Hi]. assert (Hin : p ∈ select newer) by by apply list_elem_of_filter. rewrite Eb in Hin. by apply not_elem_of_nil in Hin.
  - assert (Hb : b ∈ select newer) by (rewrite Eb; left). apply list_elem_of_filter in Hb as [_ Hb].
    rewrite fmap_cons. cbn [head]. change (entry_version (cached_place b)) with (version b).
    assert (Hv : 1 <= version b).
    { pose proof (ra_versions Hok) as Hv. rewrite Forall_forall in Hv. apply Hv. apply in_range, elem_of_app. by right. }
    f_equal.
    + apply filter_same. intros p Hp. split; [by intros [_ ?]|]. intros Hi. split; [|done]. cbn. unfold saturating_sub.
      pose proof (StronglySorted_app_1_elem_of _ _ _ _ _ Hs Hp Hb). cbn beta in *. lia.
    + apply filter_none. intros p Hp [Hto Hi]. cbn in Hto. unfold saturating_sub in Hto.
      assert (Hin : p ∈ select newer) by by apply list_elem_of_filter. rewrite Eb in Hin. apply StronglySorted_app_1_r in Hs.
      assert (Hsel : StronglySorted (fun p q => version p < version q) (select newer)) by (eapply StronglySorted_sublist; [apply sublist_filter|exact Hs]).
      rewrite Eb in Hsel. apply StronglySorted_inv in Hsel as [_ Hall]. apply elem_of_cons in Hin as [->|Hin]; [lia|].
      rewrite Forall_forall in Hall. specialize (Hall p Hin). cbn beta in Hall. lia.
Qed.

Lemma log_stops to : stops_right key filters to (reverse log).
Proof.
  unfold stops_right. change (StronglySorted (flip (fun q p => is_batch_of key p.2 = true -> version p < from_aggregate_version filters -> ~ picked key filters to q)) (reverse log)).
  apply StronglySorted_reverse. revert Hsorted. unfold batches. generalize log as l. clear. induction l as [|p l IH]; intros Hs; [constructor|]. rewrite filter_cons in Hs.
  constructor; [apply IH; case_decide; [exact (proj1 (StronglySorted_inv Hs))|done]|]. apply Forall_forall. intros q Hq Hb Hlt (Hbp & _ & [Hge _]%included_range).
  rewrite decide_True in Hs by done. apply StronglySorted_inv in Hs as [_ Hs]. rewrite Forall_forall in Hs.
  assert (Hin : q ∈ filter (fun p => is_batch_of key p.2 = true) l) by by apply list_elem_of_filter. specialize (Hs q Hin). cbn beta in Hs. lia.
Qed.

Definition render (p : Z * LogEntry) : option AggregateEventBatch := filtered_batch filters (full body p).

(** The sizes of a page: what the cache gives, and what is left for the log. *)
Definition newer_len (max_bytes : Z) : nat := page_len batch_size max_bytes (select newer).
Definition older_len (max_bytes : Z) : nat :=
  page_len batch_size (saturating_sub max_bytes (total batch_size (take (newer_len max_bytes) (select newer)))) (select older).

Definition page (max_bytes : Z) : list (Z * LogEntry) := take (older_len max_bytes) (select older) ++ take (newer_len max_bytes) (select newer).
Definition page_next (max_bytes : Z) : option Z :=
  match drop (older_len max_bytes) (select older) with
  | p :: _ => Some (version p)
  | [] => (fun p : Z * LogEntry => version p) <$> head (drop (newer_len max_bytes) (select newer))
  end.

Lemma range_sublist l : l `sublist_of` older ++ newer -> l `sublist_of` batches /\ total batch_size l < 2 ^ 64.
Proof.
  rewrite <- (proj1 Hsplit). intros Hl. assert (Hb : l `sublist_of` batches) by (etrans; [exact Hl|apply sublist_filter]).
  split; [done|]. pose proof (total_sublist batch_size _ _ Hb batches_sized). pose proof (ra_sizes Hok). lia.
Qed.

Lemma select_sublist : select older `sublist_of` older ++ newer /\ select newer `sublist_of` older ++ newer.
Proof.
  split; (etrans; [apply sublist_filter|]); [apply sublist_inserts_r|apply sublist_inserts_l]; done.
Qed.

Lemma cached_writes_wf : Forall (fun w => wf_metablock (rw_metablock w)) (cached_from key filters recent visible_seq).
Proof.
  assert (Hw : Forall (fun p => wf_metablock (le_metablock p.2)) newer).
  { apply Forall_forall. intros p Hp. pose proof (aggregate_log_wf _ _ _ _ _ _ (ra_log Hok)) as Hw. rewrite Forall_forall in Hw. apply Hw.
    destruct (in_range p) as [Hb _]; [apply elem_of_app; by right|]. by apply list_elem_of_filter in Hb as [_ ?]. }
  destruct Hsplit as [_ Hf]. clear Hsplit. revert Hw. induction Hf as [|p w ps ws [Em _] _ IH]; intros Hw; [constructor|].
  inversion_clear Hw. constructor; [by rewrite Em|by apply IH].
Qed.

Lemma next_spec max_bytes :
  lowest_of (entry_version <$> head (drop (newer_len max_bytes) (cached_place <$> select newer))) (drop (older_len max_bytes) (found <$> select older)) =
  page_next max_bytes.
Proof.
  unfold page_next. rewrite <- !fmap_drop. set (R := drop (newer_len max_bytes) (select newer)).
  assert (HR : R `sublist_of` newer) by (etrans; [apply sublist_drop|apply sublist_filter]).
  pose proof range_sorted as Hs.
  assert (HO : drop (older_len max_bytes) (select older) `sublist_of` older) by (etrans; [apply sublist_drop|apply sublist_filter]).
  destruct (drop (older_len max_bytes) (select older)) as [|p l].
  - cbn [fmap list_fmap lowest_of foldr]. by destruct R.
  - rewrite fmap_cons. change (Some (version p)) with (Some (entry_version (found p))). apply lowest_of_ascending.
    + destruct R as [|q R]; [done|]. intros v [= <-]. eapply (StronglySorted_app_1_elem_of _ _ _ _ _ Hs).
      * eapply elem_of_sublist; [|exact HO]. left.
      * eapply elem_of_sublist; [|exact HR]. left.
    + apply Forall_fmap. apply StronglySorted_app_1_l in Hs. eapply StronglySorted_sublist in Hs; [|exact HO].
      by apply StronglySorted_inv in Hs as [_ Hs].
Qed.

(** What is collected, read and filtered is the page. *)
Lemma page_spec hash_order max_bytes : (forall l : list Z, hash_order l ≡ₚ l) ->
  exists c kept, collect_metablocks_bounded cfg cache recent visible_seq key filters max_bytes last_known = Done c /\
    fetch_datablocks_for_metablocks hash_order cache (rc_read_max_chunk_size cfg) (kept_metablocks c) = Done kept /\
    build_filtered_response kept filters = omap render (page max_bytes) /\ evicted_version c = page_next max_bytes.
Proof.
  intros Hperm. destruct select_sublist as [Hso Hsn]. destruct (range_sublist _ Hso) as [Hbo Hto]. destruct (range_sublist _ Hsn) as [Hbn Htn].
  destruct (collect_spec cfg cache key last_known segs logs (ra_log Hok) filters recent visible_seq (ra_recent Hok) max_bytes) as [sum E].
  - apply Hok.
  - apply log_stops.
  - apply cached_writes_wf.
  - rewrite cached_picks_spec. apply Forall_fmap, Forall_forall. intros p Hp. pose proof (ra_versions Hok) as Hv. rewrite Forall_forall in Hv.
    apply Hv. by eapply elem_of_sublist.
  - rewrite picks_spec, total_fmap. exact Hto.
  - rewrite cached_picks_spec, total_fmap. exact Htn.
  - rewrite cached_picks_spec, picks_spec in E. rewrite <- !fmap_take, !page_len_fmap, total_fmap in E.
    change (page_len (fun x => entry_size (cached_place x)) max_bytes (select newer)) with (newer_len max_bytes) in E.
    change (page_len (fun x => entry_size (found x)) _ (select older)) with (older_len max_bytes) in E. rewrite next_spec in E.
    set (A := take (older_len max_bytes) (select older)) in *. set (B := take (newer_len max_bytes) (select newer)) in *.
    assert (HAl : A `sublist_of` log) by (etrans; [apply sublist_take|etrans; [exact Hbo|apply sublist_filter]]).
    assert (HBl : B `sublist_of` log) by (etrans; [apply sublist_take|etrans; [exact Hbn|apply sublist_filter]]).
    pose proof (ra_stored Hok) as Hst.
    assert (HstA : Forall (fun p => stored p.2 (body p.2)) A) by (apply Forall_forall; intros p Hp; rewrite Forall_forall in Hst; apply Hst; by eapply elem_of_sublist).
    assert (Hbod : Forall bodied (cached_place <$> B)).
    { apply Forall_fmap, Forall_forall. intros p Hp. rewrite Forall_forall in Hst. specialize (Hst p (elem_of_sublist _ _ _ Hp HBl)).
      pose proof (stored_cases _ _ Hst) as Hc. unfold bodied. cbn. destruct (le_data p.2).
      - destruct Hc as (crc & d & _ & -> & _). left. by eexists.
      - destruct Hc as [[? _]|(mini & d & _ & ->)]; [by right|left; by eexists]. }
    eexists _, _. split; [exact E|]. cbn [kept_metablocks evicted_version]. split; [|split; [|done]].
    + apply fetch_app; [exact Hbod|]. apply (fetch_bodies_spec body A HstA hash_order cache _ Hperm). intros id Hid.
      eapply aggregate_log_readable; [apply (ra_log Hok)|exact HAl|exact Hid].
    + unfold build_filtered_response, page. fold A B. rewrite !omap_app. f_equal; apply list_omap_ext, Forall2_fmap_l, Forall_Forall2_diag, Forall_true; intros p; done.
Qed.
End split.
End response.

(** ** Following the cursor *)

Section follow.
Context `{Xxh3}.

Lemma included_with_from filters v mb : from_aggregate_version filters <= v ->
  included (with_from filters v) mb = true <-> included filters mb = true /\ v <= get_aggregate_version mb.
Proof.
  intros Hv. unfold included, is_include_batch, get_aggregate_version. destruct (wal_metablock_type mb) as [b| | |]; [|by split; [|intros [? _]]..].
  change (ranges_rejected b (with_from filters v)) with (ranges_rejected b filters).
  change (include_event_types (with_from filters v)) with (include_event_types filters).
  unfold batch_rejected. cbn [with_from from_aggregate_version to_aggregate_version min_server_timestamp max_server_timestamp exclude_client_id include_client_id
    exclude_user_id include_user_id].
  destruct (Z.ltb_spec (eb_aggregate_version b) v) as [Hlt|Hge]; cbn [orb]; [split; [done|intros [_ ?]; lia]|].
  rewrite (proj2 (Z.ltb_ge (eb_aggregate_version b) (from_aggregate_version filters))) by lia. cbn [orb]. tauto.
Qed.

Lemma select_with_from filters v l : from_aggregate_version filters <= v ->
  select (with_from filters v) (filter (fun p => v <= version p) l) = filter (fun p => v <= version p) (select filters l).
Proof.
  intros Hv. unfold select. rewrite !list_filter_filter. apply list_filter_iff. intros p. rewrite included_with_from by done. tauto.
Qed.

Lemma filter_Forall2 {A B} (R : A -> B -> Prop) (P : A -> Prop) (Q : B -> Prop) `{!forall x, Decision (P x), !forall x, Decision (Q x)} l k :
  (forall x y, R x y -> P x <-> Q y) -> Forall2 R l k -> Forall2 R (filter P l) (filter Q k).
Proof.
  intros HPQ. induction 1 as [|x y l k Hxy _ IH]; [done|]. rewrite !filter_cons. specialize (HPQ x y Hxy). repeat case_decide; try tauto. by constructor.
Qed.

(** Of a sorted list, what is not below one of its elements starts there. *)
Lemma filter_from_here (l : list (Z * LogEntry)) p k : StronglySorted (fun p q => version p < version q) (l ++ p :: k) ->
  filter (fun q => version p <= version q) (l ++ p :: k) = p :: k.
Proof.
  intros Hs. rewrite filter_app, filter_none, app_nil_l.
  - apply StronglySorted_app_1_r, StronglySorted_inv in Hs as [_ Hall]. rewrite filter_cons_True by done. f_equal. apply filter_every.
    rewrite Forall_forall in *. intros q Hq. specialize (Hall q Hq). cbn beta in *. lia.
  - intros q Hq Hle. pose proof (StronglySorted_app_1_elem_of _ _ _ _ _ Hs Hq ltac:(left)). cbn beta in *. lia.
Qed.

Section cursor.
Context (filters : ReadFilters) (older newer : list (Z * LogEntry)) (max_bytes : Z).
Notation page := (page filters older newer max_bytes).
Notation page_next := (page_next filters older newer max_bytes).

(** The batches in front of the cached ones all fit, or there are no cached ones. *)
Definition uncut : Prop := select filters newer = [] \/ drop (older_len filters older newer max_bytes) (select filters older) = [].

(** Then a page is a beginning of what is asked for, and the cursor is the
    version of the first batch that is not in it. *)
Lemma page_prefix : uncut -> exists rest, select filters (older ++ newer) = page ++ rest /\
  page_next = (fun p : Z * LogEntry => version p) <$> head rest /\ (select filters newer = [] \/ rest `sublist_of` newer).
Proof.
  unfold uncut, ReadPath.page, ReadPath.page_next. intros Hu. unfold select. rewrite filter_app. fold (select filters older) (select filters newer).
  set (n := older_len _ _ _ _) in *. set (k := newer_len _ _ _). destruct (decide (drop n (select filters older) = [])) as [Hd|Hd].
  - exists (drop k (select filters newer)). split_and!.
    + rewrite <- app_assoc, take_drop. f_equal. rewrite <- (take_drop n (select filters older)) at 1. by rewrite Hd, app_nil_r.
    + by rewrite Hd.
    + right. etrans; [apply sublist_drop|apply sublist_filter].
  - destruct Hu as [Hn|?]; [|done]. rewrite Hn. exists (drop n (select filters older)). split_and!; [|by destruct (drop n _)|by left].
    rewrite take_nil, !app_nil_r. by rewrite take_drop.
Qed.

Lemma page_nonempty : select filters (older ++ newer) <> [] -> page <> [].
Proof.
  unfold ReadPath.page, select at 1. rewrite filter_app. fold (select filters older) (select filters newer). intros Hne [Ho Hn]%app_nil.
  destruct (select filters older) as [|x o] eqn:Eo.
  - destruct (select filters newer) eqn:En; [done|]. unfold newer_len in Hn. by rewrite En in Hn.
  - unfold older_len in Ho. by rewrite Eo in Ho.
Qed.
End cursor.
End follow.

(** ** The handler *)

Lemma scan_never_stops {A} (R : A -> A -> Prop) (l : list A) : (forall x y, x ∈ l -> R x y) -> StronglySorted R l.
Proof.
  induction l as [|x l IH]; intros HR; constructor; [apply IH; intros; apply HR; by right|]. apply Forall_forall. intros y _. apply HR. left.
Qed.

Section handler.
Context `{Bincode, Crc32c, Blake3, Xxh3, DictCodec}.
Context {V : Type} `{Validate V} (snapshot_cap : nat) (hash_order : list Z -> list Z).
Context (cfg : ReadConfig) (cache : LogSegmentsCache) (active_log_id : Z) (read_cursor : Z * Z).
Context (recent : RecentWriteCache) (visible_seq : Z) (key : AggregateKey) (m m' : MemCache V).
Context (segs : Z -> LogSegmentFile) (logs : Z -> list LogEntry) (body : LogEntry -> option DatablockKind).
Notation last_known := (get_aggregate_last_metablock_pos m' key CacheRead).
Notation batches := (batches cfg key last_known segs logs).
Notation split_at_cache filters := (split_at_cache cfg key last_known segs logs body filters recent visible_seq).
Notation ask filters := (read snapshot_cap hash_order cfg cache active_log_id read_cursor recent visible_seq
                           {| rq_aggregate_key := key; rq_filters := filters |}).

(** The aggregate is there, the log and the cache hold what was written. *)
Record read_state : Prop := {
  rst_order l : hash_order l ≡ₚ l;
  rst_exists : aggregate_exists_and_cache snapshot_cap cache active_log_id read_cursor (rc_read_max_chunk_size cfg) key CacheRead m = (m', Done true);
  rst_log : read_ok cfg cache key last_known segs logs body recent;
}.

Definition in_sequence : Prop := StronglySorted (fun p q => version p < version q) batches.

Lemma read_spec filters older newer : read_state -> in_sequence -> mp_min_aggregate_version last_known <= from_aggregate_version filters ->
  split_at_cache filters older newer ->
  ask filters m = (m', Done {| rs_event_batches := omap (render body filters) (page filters older newer (max_response_size cfg));
                               rs_next_aggregate_version := page_next filters older newer (max_response_size cfg) |}).
Proof.
  intros [Hperm Hex Hok] Hs Hmin Hsplit. unfold read. cbn [rq_aggregate_key rq_filters]. rewrite Hex.
  rewrite (proj2 (Z.ltb_ge _ _) Hmin).
  destruct (page_spec cfg cache key last_known segs logs body filters recent visible_seq Hok older newer Hsplit Hs hash_order
    (max_response_size cfg) Hperm) as (c & kept & -> & Hf & <- & <-).
  unfold mbind, outcome_bind, map_failed. by rewrite Hf.
Qed.

Lemma split_from filters v older newer : from_aggregate_version filters <= v -> split_at_cache filters older newer ->
  split_at_cache (with_from filters v) (filter (fun p => v <= version p) older) (filter (fun p => v <= version p) newer).
Proof.
  intros Hv [Hb Hf]. split.
  - rewrite <- filter_app, <- Hb, list_filter_filter. apply list_filter_iff. intros p. cbn. split; [|by intros [? _]]. intros ?. split; [done|lia].
  - replace (cached_from key (with_from filters v) recent visible_seq)
      with (filter (fun w => v <= version_of w) (cached_from key filters recent visible_seq)).
    + eapply filter_Forall2; [|exact Hf]. intros p w [-> _]. done.
    + unfold cached_from. rewrite list_filter_filter. apply list_filter_iff. intros w. cbn. split; [by intros (? & _ & ?)|]. intros [? ?]. split; [done|]. split; [lia|done].
Qed.

Lemma selected_range filters older newer p : split_at_cache filters older newer -> p ∈ select filters (older ++ newer) ->
  from_aggregate_version filters <= version p.
Proof. intros [Hb _] [_ Hp]%list_elem_of_filter. rewrite <- Hb in Hp. by apply list_elem_of_filter in Hp as [? _]. Qed.

Lemma selected_sorted filters older newer : in_sequence -> split_at_cache filters older newer ->
  StronglySorted (fun p q => version p < version q) (select filters (older ++ newer)).
Proof.
  intros Hs [Hb _]. eapply StronglySorted_sublist; [|exact Hs]. etrans; [apply sublist_filter|]. rewrite <- Hb. apply sublist_filter.
Qed.

(** The next request asks for what is left, and the log in front of the cached
    batches is not cut then either. *)
Lemma cursor_step filters older newer p rest : in_sequence -> split_at_cache filters older newer ->
  select filters (older ++ newer) = page filters older newer (max_response_size cfg) ++ p :: rest ->
  select filters newer = [] \/ p :: rest `sublist_of` newer ->
  let next := with_from filters (version p) in
  let later := filter (fun q => version p <= version q) in
  select next (later older ++ later newer) = p :: rest /\ uncut next (later older) (later newer) (max_response_size cfg).
Proof.
  intros Hs Hsplit E Hcase next later.
  assert (Hv : from_aggregate_version filters <= version p).
  { eapply selected_range; [exact Hsplit|]. rewrite E. apply elem_of_app. right. left. }
  pose proof (selected_sorted _ _ _ Hs Hsplit) as Hsel. split.
  - unfold later, next. rewrite <- filter_app, select_with_from by done. rewrite E in Hsel |- *. by apply filter_from_here.
  - unfold uncut, later, next. destruct Hcase as [Hn|Hsub]; [left; by rewrite select_with_from, Hn|right].
    rewrite (filter_none (fun q => version p <= version q) older); [apply drop_nil|].
    intros q Hq Hle. destruct Hsplit as [Hb _].
    assert (Hr : StronglySorted (fun p q => version p < version q) (older ++ newer)) by (rewrite <- Hb; eapply StronglySorted_sublist; [apply sublist_filter|exact Hs]).
    pose proof (StronglySorted_app_1_elem_of _ _ _ _ _ Hr Hq (elem_of_sublist _ _ _ ltac:(left) Hsub)). cbn beta in *. lia.
Qed.


(** *** A log that is read to its start

    Nothing is cached and no batch is below the requested version: the scan
    does not stop, whatever the order of the versions. *)
Lemma unsorted_spec filters : read_state -> cached recent key = [] -> mp_min_aggregate_version last_known <= from_aggregate_version filters ->
  Forall (fun p => from_aggregate_version filters <= version p) batches -> total batch_size (select filters batches) <= max_response_size cfg ->
  ask filters m = (m', Done {| rs_event_batches := omap (render body filters) (select filters batches); rs_next_aggregate_version := None |}).
Proof.
  intros [Hperm Hex Hok] Hc Hmin Hfrom Hfit. unfold read. cbn [rq_aggregate_key rq_filters]. rewrite Hex, (proj2 (Z.ltb_ge _ _) Hmin). clear Hex Hmin.
  assert (Hcf : cached_from key filters recent visible_seq = []) by (unfold cached_from; by rewrite Hc).
  assert (Hcp : cached_picks key filters recent visible_seq = []) by (unfold cached_picks; by rewrite Hcf).
  assert (Hto : disk_to key filters recent visible_seq = to_aggregate_version filters) by (unfold disk_to; by rewrite Hcp).
  set (chosen := select filters batches) in *.
  assert (Hpick : filter (picked key filters (to_aggregate_version filters)) (aggregate_log cfg key last_known segs logs) = chosen).
  { rewrite picked_batches, (filter_every _ batches) by (by rewrite Forall_forall in Hfrom). apply filter_same. intros p _. split; [by intros [_ ?]|].
    intros Hi. split; [exact (proj2 (included_range _ _ Hi))|done]. }
  assert (Hsub : chosen `sublist_of` batches) by apply sublist_filter.
  pose proof (batches_sized _ _ _ _ _ _ _ _ Hok) as Hsz. pose proof (total_sublist batch_size _ _ Hsub Hsz) as Ht. pose proof (ra_sizes _ _ _ _ _ _ _ _ Hok) as Hmax.
  assert (Hszc : Forall (fun p => 0 <= batch_size p) chosen) by (rewrite Forall_forall in *; intros p Hp; by apply Hsz, (elem_of_sublist _ _ _ Hp Hsub)).
  destruct (collect_spec cfg cache key last_known segs logs (ra_log _ _ _ _ _ _ _ _ Hok) filters recent visible_seq (ra_recent _ _ _ _ _ _ _ _ Hok)
    (max_response_size cfg)) as [sum E]; rewrite ?Hto, ?Hcp, ?Hcf, ?Hpick in *; [apply Hok| |done|done|rewrite total_fmap; change (total batch_size chosen < 2 ^ 64); lia|done|].
  { unfold stops_right. apply scan_never_stops. intros p q Hp Hb Hlt. apply elem_of_reverse in Hp. rewrite ?reverse_involutive in Hp.
    rewrite Forall_forall in Hfrom. specialize (Hfrom p (proj2 (list_elem_of_filter _ _ _) (conj Hb Hp))). cbn beta in Hfrom. lia. }
  pose proof (total_nonneg_list _ _ Hszc) as Hnn.
  assert (Elen : page_len entry_size (saturating_sub (max_response_size cfg) 0) (found <$> chosen) = length (found <$> chosen)).
  { rewrite page_len_fmap, length_fmap. change (page_len batch_size (saturating_sub (max_response_size cfg) 0) chosen = length chosen).
    apply page_len_fits; [done|]. unfold saturating_sub. lia. }
  change (total entry_size (take _ [])) with 0 in E. rewrite Elen, firstn_all, drop_all in E. cbn [page_len take drop head fmap option_fmap option_map] in E.
  rewrite E. unfold mbind, outcome_bind, map_failed. cbn [kept_metablocks evicted_version lowest_of foldr]. rewrite app_nil_r.
  pose proof (ra_stored _ _ _ _ _ _ _ _ Hok) as Hst.
  assert (Hsub' : chosen `sublist_of` aggregate_log cfg key last_known segs logs) by (etrans; [exact Hsub|apply sublist_filter]).
  rewrite (fetch_bodies_spec body chosen); [|by rewrite Forall_forall in Hst |- *; intros p Hp; apply Hst, (elem_of_sublist _ _ _ Hp Hsub')|done|].
  - do 3 f_equal. apply list_omap_ext, Forall2_fmap_l, Forall_Forall2_diag, Forall_true. done.
  - intros id Hid. eapply aggregate_log_readable; [apply Hok|exact Hsub'|exact Hid].
Qed.

End handler.

(** ** The iterator *)

Lemma collect_buffer {E} (client_read : ReadRequest -> outcome E ReadResponse) fuel k f buffer exhausted results :
  collect client_read (length buffer + fuel) {| it_aggregate_key := k; it_filters := f; it_buffer := buffer; it_exhausted := exhausted |} results =
  collect client_read fuel {| it_aggregate_key := k; it_filters := f; it_buffer := []; it_exhausted := exhausted |} (results ++ buffer).
Proof.
  revert results. induction buffer as [|b buffer IH]; intros results; [by rewrite app_nil_r|]. cbn [length Nat.add collect it_buffer].
  rewrite IH, <- app_assoc. done.
Qed.

Section iterate.
Context `{Bincode, Crc32c, Blake3, Xxh3, DictCodec}.
Context {V : Type} `{Validate V} (snapshot_cap : nat) (hash_order : list Z -> list Z).
Context (cfg : ReadConfig) (cache : LogSegmentsCache) (active_log_id : Z) (read_cursor : Z * Z).
Context (recent : RecentWriteCache) (visible_seq : Z) (key : AggregateKey) (m : MemCache V).
Context (segs : Z -> LogSegmentFile) (logs : Z -> list LogEntry) (body : LogEntry -> option DatablockKind).
Notation last_known := (get_aggregate_last_metablock_pos m key CacheRead).
Notation split_at_cache filters := (split_at_cache cfg key last_known segs logs body filters recent visible_seq).
Notation server := (fun request => (read snapshot_cap hash_order cfg cache active_log_id read_cursor recent visible_seq request m).2).
Notation max_bytes := (max_response_size cfg).
Context (Hstate : read_state snapshot_cap hash_order cfg cache active_log_id read_cursor recent key m m segs logs body).
Context (Hs : in_sequence cfg key m segs logs).

Lemma collect_pages n filters older newer results : mp_min_aggregate_version last_known <= from_aggregate_version filters ->
  split_at_cache filters older newer -> uncut filters older newer max_bytes -> (length (select filters (older ++ newer)) <= n)%nat ->
  exists fuel, forall extra, collect server (fuel + extra)
      {| it_aggregate_key := key; it_filters := filters; it_buffer := []; it_exhausted := false |} results =
    Done (results ++ omap (render body filters) (select filters (older ++ newer))).
Proof.
  revert filters older newer results. induction n as [n IH] using lt_wf_ind. intros filters older newer results Hmin Hsplit Hu Hn.
  destruct (page_prefix _ _ _ _ Hu) as (rest & E & Enext & Hrest).
  pose proof (read_spec snapshot_cap hash_order cfg cache active_log_id read_cursor recent visible_seq key m m segs logs body filters older newer
    Hstate Hs Hmin Hsplit) as Hread.
  set (pg := page filters older newer max_bytes) in *. set (buffer := omap (render body filters) pg) in *.
  rewrite Enext in Hread. clear Enext.
  destruct rest as [|p rest].
  - exists (S (length buffer + 1)). intros extra. cbn [collect Nat.add it_buffer it_exhausted]. unfold fetch_next_page. cbn [it_aggregate_key it_filters].
    rewrite Hread. unfold mbind, outcome_bind. cbn [snd rs_next_aggregate_version rs_event_batches head fmap option_fmap option_map it_buffer it_filters it_aggregate_key app negb].
    rewrite <- Nat.add_assoc, collect_buffer. cbn [collect Nat.add it_buffer it_exhausted]. rewrite E, app_nil_r. done.
  - destruct (cursor_step cfg recent visible_seq key m segs logs body filters older newer p rest Hs Hsplit E Hrest) as [Esel Hu'].
    assert (Hv : from_aggregate_version filters <= version p).
    { eapply selected_range; [exact Hsplit|]. rewrite E. apply elem_of_app. right. left. }
    assert (Hpg : (0 < length pg)%nat).
    { assert (Hne : pg <> []) by (apply page_nonempty; rewrite E; by destruct pg). destruct pg as [|x pg']; [done|apply Nat.lt_0_succ]. }
    rewrite E, length_app in Hn.
    destruct (IH (length (p :: rest)) ltac:(lia) (with_from filters (version p)) _ _ (results ++ buffer) (Z.le_trans _ _ _ Hmin Hv)
      (split_from cfg recent visible_seq key m segs logs body _ _ _ _ Hv Hsplit) Hu' ltac:(by rewrite Esel)) as [fuel Hfuel].
    exists (S (length buffer + fuel)). intros extra. cbn [collect Nat.add it_buffer it_exhausted]. unfold fetch_next_page. cbn [it_aggregate_key it_filters].
    rewrite Hread. unfold mbind, outcome_bind. cbn [snd rs_next_aggregate_version rs_event_batches head fmap option_fmap option_map it_buffer it_filters it_aggregate_key app negb].
    rewrite <- Nat.add_assoc, collect_buffer, Hfuel, Esel, E, omap_app, app_assoc. done.
Qed.

(** *** A page that is cut in front of cached batches *)

Lemma render_version filters p b : render body filters p = Some b -> aeb_aggregate_version b = version p.
Proof.
  unfold render, filtered_batch, full, from_wal, get_aggregate_version, mbind, option_bind. cbn [ebf_datablock ebf_metablock].
  destruct (body p.2) as [[d|d]|]; [|by destruct (wal_metablock_type _)|done].
  destruct (events (apply_event_filters d filters)); [done|]. destruct (wal_metablock_type _); try done. by intros [= <-].
Qed.

(** The oldest cached batch is in every page. *)
Lemma cached_in_page filters older newer p rest : select filters newer = p :: rest -> p ∈ page filters older newer max_bytes.
Proof. intros E. apply elem_of_app. right. unfold newer_len. rewrite E. left. Qed.

Lemma page_rereads filters older newer p rest b : mp_min_aggregate_version last_known <= from_aggregate_version filters ->
  split_at_cache filters older newer -> drop (older_len filters older newer max_bytes) (select filters older) <> [] ->
  select filters newer = p :: rest -> render body filters p = Some b ->
  exists first second v, read snapshot_cap hash_order cfg cache active_log_id read_cursor recent visible_seq {| rq_aggregate_key := key; rq_filters := filters |} m = (m, Done first) /\
    rs_next_aggregate_version first = Some v /\ b ∈ rs_event_batches first /\ v < aeb_aggregate_version b /\
    read snapshot_cap hash_order cfg cache active_log_id read_cursor recent visible_seq {| rq_aggregate_key := key; rq_filters := with_from filters v |} m = (m, Done second) /\ b ∈ rs_event_batches second.
Proof.
  intros Hmin Hsplit Hcut En Hb. destruct (drop _ (select filters older)) as [|q qs] eqn:Eq; [done|]. clear Hcut.
  assert (Hq : q ∈ older).
  { assert (Hin : q ∈ drop (older_len filters older newer max_bytes) (select filters older)) by (rewrite Eq; left).
    eapply elem_of_sublist; [exact Hin|]. etrans; [apply sublist_drop|apply sublist_filter]. }
  assert (Hp : p ∈ newer).
  { assert (Hin : p ∈ select filters newer) by (rewrite En; left). by apply list_elem_of_filter in Hin as [_ ?]. }
  assert (Hr : StronglySorted (fun p q => version p < version q) (older ++ newer)).
  { rewrite <- (proj1 Hsplit). eapply StronglySorted_sublist; [apply sublist_filter|exact Hs]. }
  assert (Hlater : forall x, x ∈ newer -> version q < version x) by (intros x Hx; exact (StronglySorted_app_1_elem_of _ _ _ _ _ Hr Hq Hx)).
  assert (Hv : from_aggregate_version filters <= version q).
  { assert (Hin : q ∈ older ++ newer) by (apply elem_of_app; by left). rewrite <- (proj1 Hsplit) in Hin. by apply list_elem_of_filter in Hin as [? _]. }
  pose proof (read_spec _ _ _ _ _ _ _ _ _ _ _ _ _ _ _ _ _ Hstate Hs Hmin Hsplit) as E1.
  pose proof (read_spec _ _ _ _ _ _ _ _ _ _ _ _ _ _ (with_from filters (version q)) _ _ Hstate Hs (Z.le_trans _ _ _ Hmin Hv)
    (split_from cfg recent visible_seq key m segs logs body _ _ _ _ Hv Hsplit)) as E2.
  eexists _, _, (version q). rewrite E1, E2. cbn [snd rs_event_batches rs_next_aggregate_version].
  split; [done|]. split; [unfold page_next; by rewrite Eq|]. split; [|split; [|split; [done|]]].
  - apply list_elem_of_omap. exists p. split; [by eapply cached_in_page|done].
  - rewrite (render_version _ _ _ Hb). by apply Hlater.
  - apply list_elem_of_omap. exists p. split; [|exact Hb]. eapply cached_in_page. rewrite select_with_from, En by done.
    rewrite filter_cons_True; [done|]. specialize (Hlater p Hp). lia.
Qed.
End iterate.

(** ** The properties *)

Section properties.
Context `{Bincode, Crc32c, Blake3, Xxh3, DictCodec}.
Context {V : Type} `{Validate V} (snapshot_cap : nat) (hash_order : list Z -> list Z).
Context (cfg : ReadConfig) (cache : LogSegmentsCache) (active_log_id : Z) (read_cursor : Z * Z).
Context (recent : RecentWriteCache) (visible_seq : Z) (key : AggregateKey).
Context (segs : Z -> LogSegmentFile) (logs : Z -> list LogEntry) (body : LogEntry -> option DatablockKind).
Notation serve := (read snapshot_cap hash_order cfg cache active_log_id read_cursor recent visible_seq).
Notation ask filters := {| rq_aggregate_key := key; rq_filters := filters |}.
Notation position m := (get_aggregate_last_metablock_pos m key CacheRead).
Notation holds m m' := (read_state snapshot_cap hash_order cfg cache active_log_id read_cursor recent key m m' segs logs body).
Notation ordered m := (in_sequence cfg key m segs logs).
Notation split_at m filters := (split_at_cache cfg key (position m) segs logs body filters recent visible_seq).



(** C23: without that proviso it does not.  When a response leaves out a batch
    of the log in front of cached ones, it still returns the first cached
    batch [b], which is newer than the cursor; the response to the request
    that follows the cursor returns [b] again. *)
Theorem cut_page_repeats_batch (m : MemCache V) filters older newer p rest b : holds m m -> ordered m ->
  mp_min_aggregate_version (position m) <= from_aggregate_version filters -> split_at m filters older newer ->
  drop (older_len filters older newer (max_response_size cfg)) (select filters older) <> [] ->
  select filters newer = p :: rest -> render body filters p = Some b ->
  exists first second v, serve (ask filters) m = (m, Done first) /\
    rs_next_aggregate_version first = Some v /\ b ∈ rs_event_batches first /\ v < aeb_aggregate_version b /\
    serve (ask (with_from filters v)) m = (m, Done second) /\ b ∈ rs_event_batches second.
Proof. intros Hst Hs. exact (page_rereads _ _ _ _ _ _ _ _ _ _ _ _ _ Hst Hs filters older newer p rest b). Qed.

(** C24: a deleted aggregate that was written again reads as if it had never
    been deleted, once the new batches have left the cache of recent writes: a
    batch [p] of the log from before the deletion [d] is in the response. *)
Theorem deleted_batches_read_again (m m' : MemCache V) filters old id e d new p b : holds m m' -> cached recent key = [] ->
  mp_min_aggregate_version (position m') <= from_aggregate_version filters ->
  aggregate_log cfg key (position m') segs logs = old ++ (id, e) :: new -> wal_metablock_type (le_metablock e) = SoftDelete d ->
  let all := batches cfg key (position m') segs logs in
  Forall (fun p => from_aggregate_version filters <= version p) all -> total batch_size (select filters all) <= max_response_size cfg ->
  p ∈ old -> is_batch_of key p.2 = true -> included filters (le_metablock p.2) = true -> render body filters p = Some b ->
  exists response, serve (ask filters) m = (m', Done response) /\ b ∈ rs_event_batches response /\ rs_next_aggregate_version response = None.
Proof.
  intros Hst Hc Hmin Hlog _ all Hall Hfit Hp Hb Hi Hr. eexists. split; [by eapply unsorted_spec|]. split; [|done].
  apply list_elem_of_omap. exists p. split; [|done]. apply list_elem_of_filter. split; [done|]. apply list_elem_of_filter. split; [done|].
  rewrite Hlog. apply elem_of_app. by left.
Qed.
End properties.

(** ** A segment with three batches, and one with a deletion *)

Module ReadRun.
#[local] Existing Instance bincode_le.
#[local] Existing Instance crc_sum.
#[local] Existing Instance codec_id.
#[local] Existing Instance blake_pad.
#[local] Existing Instance xxh_low.

Definition key : AggregateKey := eb_aggregate_key sample_event_batch.

Definition datablock_of (v : Z) : DatablockKind :=
  EventBatchItem {| aggregate_version := v; events :=
    [{| client_seq := 1; event_seq := v; event_id := None; event_timestamp := 10;
        event_type_major := 1; event_type_minor := 0; event_value := [7]; iv := None |}] |}.

Definition batch_of (v : Z) : MetablockEventBatch :=
  {| eb_aggregate_key := key; eb_aggregate_version := v; trimmed_below_version := 0;
     min_client_seq := 1; max_client_seq := 1; min_event_timestamp := 10; max_event_timestamp := 10;
     min_event_seq := v; max_event_seq := v; eb_client_id := 42; eb_user_id := None;
     event_types_data := EventTypesDirect [1; U64_MAX; U64_MAX; U64_MAX] |}.

Definition tombstone : MetablockSoftDelete :=
  {| sd_aggregate_key := key; sd_aggregate_version := 1; sd_event_seq := 1; sd_client_id := 42; sd_user_id := None;
     allow_recreate := true; allow_sequence_continuation := false |}.

(** A batch, or for [None] the deletion. *)
Definition block_of (k : option Z) : option SerialisedDatablock :=
  v ← k; match SerialisedDatablock_new (datablock_of v) (Fixed CompressionNone) with Ok s => Some s | Err _ => None end.

Definition item_of (k : option Z) : ShardLogQueueItem :=
  ShardLogQueueItem_new (datablock_of <$> k) (s ← block_of k; external_data s)
    (queued_metablock 100 1 9 (block_of k) (match k with Some v => EventBatchMetadata (batch_of v) | None => SoftDelete tombstone end)).

Definition batch (ks : list (option Z)) : SyncPositionsSnapshot := {| sps_queue := item_of <$> ks; sps_positions := ∅; sps_schemas := ∅ |}.

Definition small_version (k : option Z) : Prop := k = None \/ k = Some 1 \/ k = Some 2 \/ k = Some 3.

Lemma byte_array_checked n b : Nat.eqb (length b) n && forallb (fun x => (0 <=? x) && (x <? 256)) b = true -> wf_byte_array n b.
Proof.
  intros [El Hb]%andb_true_iff. split; [by apply Nat.eqb_eq|]. rewrite forallb_forall in Hb. apply Forall_forall. intros x Hx%list_elem_of_In.
  apply Hb, andb_true_iff in Hx. unfold fits. lia.
Qed.

Lemma fits_checked w x : (0 <=? x) && (x <? 2 ^ w) = true -> fits w x.
Proof. intros [? ?]%andb_true_iff. unfold fits. lia. Qed.

Lemma kind_wf k : small_version k -> wf_metablock_kind (wal_metablock_type (qi_metablock (item_of k))).
Proof.
  intros Hk. destruct Hk as [->|Hk].
  - unfold wf_metablock_kind, item_of, ShardLogQueueItem_new, qi_metablock, queued_metablock, wal_metablock_type.
    unfold wf_soft_delete, wf_aggregate_key, wf_option_u128, fits. cbn -[Z.pow]. split_and!; try done; lia.
  - assert (exists v, k = Some v /\ 1 <= v <= 3) as (v & -> & Hv) by (destruct Hk as [->|[->| ->]]; [exists 1|exists 2|exists 3]; (split; [reflexivity|lia])).
    unfold wf_metablock_kind, item_of, ShardLogQueueItem_new, qi_metablock, queued_metablock, wal_metablock_type.
    unfold wf_event_batch, wf_aggregate_key, wf_option_u128, wf_event_types, wf_words, fits, U64_MAX. cbn -[Z.pow].
    split_and!; try done; try lia.
    unfold U64_MAX. repeat (apply Forall_cons; split; [lia|]). apply Forall_nil_2.
Qed.

Lemma read_block_wf k : small_version k -> wf_metablock (qi_metablock (item_of k)).
Proof.
  intros Hk. pose proof (kind_wf k Hk) as Hkind.
  unfold wf_metablock. split_and!; try exact Hkind; clear Hkind.
  all: destruct Hk as [->|[->|[->| ->]]]; try (apply fits_checked; vm_compute; reflexivity); try (apply byte_array_checked; vm_compute; reflexivity).
  exact I.
Qed.

Lemma read_item_ok k : small_version k -> item_ok (item_of k).
Proof. intros Hk. split; [by apply read_block_wf|]. destruct Hk as [->|[->|[->| ->]]]; vm_compute; discriminate. Qed.

Definition body (e : LogEntry) : option DatablockKind :=
  match wal_metablock_type (le_metablock e) with EventBatchMetadata b => Some (datablock_of (eb_aggregate_version b)) | _ => None end.

Lemma data_wf v : 1 <= v <= 3 -> wf_datablock (datablock_of v).
Proof.
  intros Hv. unfold wf_datablock, datablock_of, aggregate_version, events. split; [split; lia|]. split; [|done].
  constructor; [|constructor]. unfold wf_event; cbn -[Z.pow]. unfold wf_option_u128, fits. split_and!; try done; try lia.
  constructor; [lia|constructor].
Qed.

Lemma block_new v : v = 1 \/ v = 2 \/ v = 3 -> exists s, block_of (Some v) = Some s /\ SerialisedDatablock_new (datablock_of v) (Fixed CompressionNone) = Ok s.
Proof. intros [->|[->| ->]]; eexists; (split; [|vm_compute; reflexivity]); vm_compute; reflexivity. Qed.

Lemma written_stored k x : small_version k -> stamped_from (item_of k) x -> stored (entry_of x) (body (entry_of x)).
Proof.
  intros Hk ((d & p & w & t & E) & Eb & _). unfold stored, body, entry_of. cbn [le_metablock le_data]. rewrite E, Eb. clear E Eb x.
  destruct Hk as [->|Hk]; [done|]. destruct k as [v|]; [|by destruct Hk as [|[|]]].
  assert (Hv : v = 1 \/ v = 2 \/ v = 3) by (destruct Hk as [[= ->]|[[= ->]|[= ->]]]; auto).
  destruct (block_new v Hv) as (s & Es & En). unfold item_of, ShardLogQueueItem_new, qi_metablock, datablock_bytes, queued_metablock, stamp_metablock.
  cbn [datablock wal_metablock_type]. rewrite Es. cbn [from_option mbind option_bind]. pose proof (stored_shape _ _ _ En) as Hsh.
  assert (Hst : exists d policy s', Some (datablock_of v) = Some d /\ wf_datablock d /\ SerialisedDatablock_new d policy = Ok s' /\ s' = s).
  { exists (datablock_of v), (Fixed CompressionNone), s. split_and!; try done. apply data_wf. lia. }
  destruct Hst as (d' & policy & s' & Ed & Hwf & En' & ->).
  destruct (storage_kind s) eqn:Ek; [done|..]; exists d', policy, s; (split; [exact Ed|split; [exact Hwf|split; [exact En'|split; [|done]]]]); by split.
Qed.

Lemma middle_inj {E A B C} (a a' : A) (b b' : B) (c c' : C) : Done (E := E) (a, b, c) = Done (a', b', c') -> b = b'.
Proof. by intros [= _ <- _]. Qed.

Lemma read_log ks : batch_ok SyncRun.segment (item_of <$> ks) -> exists seg queue,
  segment_holds seg GENESIS_HASH (entry_of <$> queue) /\ md_read (metadata seg) = Some (md_write (metadata seg)) /\ Forall2 stamped_from (item_of <$> ks) queue.
Proof.
  intros Hb. destruct (sync_refines_append (fun _ => zeros 1024) 512 (zeros 4096) SyncRun.segment (batch ks) FullCommit GENESIS_HASH []
    (fun _ => eq_refl) eq_refl ltac:(done) SyncRun.segment_empty Hb) as (plan & Ep & Hio).
  destruct (Hio (SyncRun.io_of plan) (SyncRun.io_of_complete plan)) as (snapshot & md & file & Es & Hh & Hf & _).
  destruct (sync_done (fun _ => zeros 1024) (fun _ => eq_refl) SyncRun.segment (batch ks) 512 (zeros 4096) FullCommit Hb ltac:(done) eq_refl
    (sh_ok _ _ _ SyncRun.segment_empty)) as (L & plan' & blooms & Y & _ & Ep' & _ & Emd & _ & _ & _ & _ & Hsync).
  rewrite Ep in Ep'. injection Ep' as <-. rewrite (Hsync _ (SyncRun.io_of_complete plan)) in Es. apply middle_inj in Es. subst md.
  exists (install_batch file (plan_metadata plan) (sps_queue snapshot)), (sps_queue snapshot). split; [exact Hh|]. split; [|exact Hf].
  unfold install_batch, metadata. rewrite Emd. reflexivity.
Qed.

Definition config (max_bytes : Z) : ReadConfig := {| max_response_size := max_bytes; rc_read_max_chunk_size := 2048; chain_read_window_bytes := 4096 |}.

(** The snapshot of the aggregate points at the third block. *)
Definition mem (v : Z) : MemCache unit :=
  set_snapshots MemCache_new CacheRead
    {[key := {| ms_status := Found; ms_log_id := 1; ms_metablock_absolute_pos := 6144; ms_event_seq := v; ms_aggregate_version := v;
                ms_min_aggregate_version := 0; ms_allow_recreate := false; ms_allow_sequence_continuation := false |}]}.

Definition place (v : Z) : MetablockPosition :=
  {| mp_log_id := 1; mp_metablock_absolute_pos := 6144; mp_event_seq := v; mp_aggregate_version := v; mp_min_aggregate_version := 0 |}.

Lemma mem_place v : get_aggregate_last_metablock_pos (mem v) key CacheRead = place v.
Proof. unfold get_aggregate_last_metablock_pos, mem, snapshots, set_snapshots. cbn [read_snapshots]. by rewrite lookup_singleton_eq. Qed.

Lemma read_exists v cache : aggregate_exists_and_cache 10 cache 1 (1, 6144) 2048 key CacheRead (mem v) = (mem v, Done true).
Proof.
  unfold aggregate_exists_and_cache, aggregate_load_status, mem, snapshots, set_snapshots. cbn [read_snapshots]. by rewrite lookup_singleton_eq.
Qed.

Lemma log_seen max_bytes v seg log : segment_holds seg GENESIS_HASH log -> md_read (metadata seg) = Some (md_write (metadata seg)) -> length log = 3%nat ->
  Forall (fun e => chain_aggregate_key (le_metablock e) = Some key) log ->
  aggregate_log (config max_bytes) key (place v) (fun _ => seg) (fun _ => log) = pair 1 <$> log.
Proof.
  intros Hh Hr Hl Hk. unfold aggregate_log. change (scanned_segments _) with [1]. change (reverse [1]) with [1]. unfold entries_of. cbn [flat_map].
  rewrite app_nil_r. f_equal. unfold seen, visible, cursor_position. cbn [use_write_cursor disk_scanner with_aggregate_chain ReverseMetablockScanner_new].
  rewrite Hr. cbn [fmap option_fmap option_map]. fold (wcur seg) (mp seg). rewrite (sh_end _ _ _ Hh), Hl. change (override_of _ 1) with (Some 7168).
  change (entries_below (upper_bound (Some 7168) _)) with 3%nat. rewrite take_ge by lia. unfold keyed. apply filter_every. by rewrite Forall_forall in Hk.
Qed.

Lemma read_scannable max_bytes v seg log : segment_holds seg GENESIS_HASH log -> md_read (metadata seg) = Some (md_write (metadata seg)) ->
  readable_log (config max_bytes) (ScanRun.cache_of seg) key (place v) (fun _ => seg) (fun _ => log).
Proof.
  intros Hh Hr. split; [by split|by split|]. intros id Hid. change (id ∈ [1]) in Hid. apply list_elem_of_singleton in Hid as ->.
  split; [by exists GENESIS_HASH|done| |].
  - split_and!; try done. unfold cursor_position. cbn [use_write_cursor disk_scanner with_aggregate_chain ReverseMetablockScanner_new].
    rewrite Hr. by intros p [= <-].
  - intros k _. done.
Qed.

(** The entry of an item, whatever was stamped on it. *)
Definition entry_for (k : option Z) (e : LogEntry) : Prop :=
  (exists d p w t, le_metablock e = stamp_metablock (qi_metablock (item_of k)) d p w t) /\ stored e (body e).

Definition size : Z := 71.

Lemma entry_facts k e : small_version k -> entry_for k e ->
  chain_aggregate_key (le_metablock e) = Some key /\ is_batch_of key e = bool_decide (is_Some k) /\
  get_aggregate_version (le_metablock e) = default 0 k /\ uncompressed_size (le_metablock e) = (if k then size else 0) /\
  included (ReadFilters_new 1) (le_metablock e) = bool_decide (is_Some k).
Proof.
  intros Hk [(d & p & w & t & E) _]. unfold is_batch_of, get_aggregate_version, chain_aggregate_key, included. rewrite E. clear E e.
  destruct Hk as [->|[->|[->| ->]]]; (split; [reflexivity|split; [reflexivity|split; [reflexivity|split; [vm_compute; reflexivity|reflexivity]]]]).
Qed.

Lemma entry_written k x : small_version k -> stamped_from (item_of k) x -> entry_for k (entry_of x).
Proof. intros Hk Hx. split; [apply Hx|by eapply written_stored]. Qed.

Lemma three_entries k1 k2 k3 : small_version k1 -> small_version k2 -> small_version k3 -> exists seg e1 e2 e3,
  segment_holds seg GENESIS_HASH [e1; e2; e3] /\ md_read (metadata seg) = Some (md_write (metadata seg)) /\
  entry_for k1 e1 /\ entry_for k2 e2 /\ entry_for k3 e3.
Proof.
  intros H1 H2 H3. assert (Hb : batch_ok SyncRun.segment (item_of <$> [k1; k2; k3])).
  { split; [discriminate|by repeat (apply Forall_cons; split; [by apply read_item_ok|]); apply Forall_nil_2| |done].
    destruct H1 as [->|[->|[->| ->]]], H2 as [->|[->|[->| ->]]], H3 as [->|[->|[->| ->]]]; vm_compute; discriminate. }
  destruct (read_log _ Hb) as (seg & queue & Hh & Hr & Hf). change (item_of <$> [k1; k2; k3]) with [item_of k1; item_of k2; item_of k3] in Hf.
  inversion Hf as [|? x1 ? l1 S1 Hf1]; subst. inversion Hf1 as [|? x2 ? l2 S2 Hf2]; subst. inversion Hf2 as [|? x3 ? l3 S3 Hf3]; subst. inversion Hf3; subst.
  exists seg, (entry_of x1), (entry_of x2), (entry_of x3). split; [exact Hh|]. split; [exact Hr|].
  split; [by apply entry_written|]. split; by apply entry_written.
Qed.

Section three.
Context (k1 k2 k3 : option Z) (H1 : small_version k1) (H2 : small_version k2) (H3 : small_version k3).
Context (seg : LogSegmentFile) (e1 e2 e3 : LogEntry) (Hh : segment_holds seg GENESIS_HASH [e1; e2; e3]).
Context (Hr : md_read (metadata seg) = Some (md_write (metadata seg))).
Context (E1 : entry_for k1 e1) (E2 : entry_for k2 e2) (E3 : entry_for k3 e3).
Context (recent : RecentWriteCache) (Hrecent : recent_ok recent) (max_bytes v : Z).
Notation logs := (fun _ : Z => [e1; e2; e3]).
Notation segs := (fun _ : Z => seg).

Lemma three_log : aggregate_log (config max_bytes) key (place v) segs logs = [(1, e1); (1, e2); (1, e3)].
Proof.
  rewrite log_seen; [done|done|done|done|].
  destruct (entry_facts _ _ H1 E1) as [? _], (entry_facts _ _ H2 E2) as [? _], (entry_facts _ _ H3 E3) as [? _]. by repeat constructor.
Qed.

Lemma three_ok : read_ok (config max_bytes) (ScanRun.cache_of seg) key (place v) segs logs body recent.
Proof.
  destruct (entry_facts _ _ H1 E1) as (_ & B1 & V1 & S1 & _), (entry_facts _ _ H2 E2) as (_ & B2 & V2 & S2 & _), (entry_facts _ _ H3 E3) as (_ & B3 & V3 & S3 & _).
  split; [by apply read_scannable|done| | | |done]; unfold batches; rewrite three_log.
  - repeat (apply Forall_cons; split; [apply E1 || apply E2 || apply E3|]). apply Forall_nil_2.
  - apply Forall_forall. intros p [Hb Hp]%list_elem_of_filter. rewrite !elem_of_cons in Hp. destruct Hp as [->|[->|[->|[]%not_elem_of_nil]]]; cbn [snd] in *;
      rewrite ?V1, ?V2, ?V3; rewrite ?B1, ?B2, ?B3 in Hb; [destruct H1 as [->|[->|[->| ->]]]|destruct H2 as [->|[->|[->| ->]]]|destruct H3 as [->|[->|[->| ->]]]]; cbn; try lia; done.
  - eapply Z.le_lt_trans; [apply total_sublist; [apply sublist_filter|]|].
    + assert (Hs : forall k : option Z, 0 <= (if k is Some _ then size else 0)) by by intros [?|].
      unfold batch_size. apply Forall_cons. split; [cbn [snd]; rewrite S1; apply Hs|]. apply Forall_cons. split; [cbn [snd]; rewrite S2; apply Hs|].
      apply Forall_cons. split; [cbn [snd]; rewrite S3; apply Hs|apply Forall_nil_2].
    + unfold total, batch_size. cbn [fmap list_fmap snd sum_Z foldr]. rewrite S1, S2, S3. unfold size. by destruct k1, k2, k3.
Qed.

Lemma three_state : read_state 10 (fun l => l) (config max_bytes) (ScanRun.cache_of seg) 1 (1, 6144) recent key (mem v) (mem v) segs logs body.
Proof. split; [done|apply read_exists|]. rewrite mem_place. apply three_ok. Qed.
End three.

Definition out (v : Z) : AggregateEventBatch :=
  {| aeb_aggregate_version := v; aeb_client_id := 42; aeb_user_id := None; aeb_server_timestamp := 100;
     aeb_events := [{| client_seq := 1; event_seq := v; event_id := None; event_timestamp := 10;
                       event_type_major := 1; event_type_minor := 0; event_value := [7]; iv := None |}] |}.

Lemma entry_render v e : entry_for (Some v) e -> render body (ReadFilters_new 1) (1, e) = Some (out v).
Proof. intros [(d & p & w & t & E) _]. unfold render, full, body, filtered_batch, from_wal. cbn [fst snd]. rewrite E. reflexivity. Qed.

Definition empty : RecentWriteCache := RecentWriteCache_new 1000.
Definition caching (e : LogEntry) : RecentWriteCache := cache_recent_write empty key 3 (le_metablock e) (body e) 100.

Lemma caching_spec e : entry_for (Some 3) e -> recent_ok (caching e) /\
  cached (caching e) key = [{| rw_metablock := le_metablock e; rw_datablock := body e; rw_size_bytes := 100 |}].
Proof.
  intros He. destruct (entry_facts (Some 3) e ltac:(unfold small_version; auto) He) as (_ & _ & Hv & _). split; [|vm_compute; reflexivity].
  apply cache_recent_write_spec; [by apply new_ok|done|by rewrite Hv|done|done|]. intros w. discriminate.
Qed.

Section ascending.
Context (e1 e2 e3 : LogEntry) (E1 : entry_for (Some 1) e1) (E2 : entry_for (Some 2) e2) (E3 : entry_for (Some 3) e3).
Context (seg : LogSegmentFile) (Hh : segment_holds seg GENESIS_HASH [e1; e2; e3]).
Context (Hr : md_read (metadata seg) = Some (md_write (metadata seg))) (max_bytes : Z).
Notation logs := (fun _ : Z => [e1; e2; e3]).
Notation segs := (fun _ : Z => seg).
Notation three := [(1, e1); (1, e2); (1, e3)].

Lemma facts : (is_batch_of key e1 = true /\ is_batch_of key e2 = true /\ is_batch_of key e3 = true) /\
  (get_aggregate_version (le_metablock e1) = 1 /\ get_aggregate_version (le_metablock e2) = 2 /\ get_aggregate_version (le_metablock e3) = 3) /\
  (uncompressed_size (le_metablock e1) = size /\ uncompressed_size (le_metablock e2) = size /\ uncompressed_size (le_metablock e3) = size) /\
  (included (ReadFilters_new 1) (le_metablock e1) = true /\ included (ReadFilters_new 1) (le_metablock e2) = true /\
   included (ReadFilters_new 1) (le_metablock e3) = true).
Proof.
  destruct (entry_facts (Some 1) e1 ltac:(unfold small_version; auto) E1) as (_ & -> & -> & -> & ->).
  destruct (entry_facts (Some 2) e2 ltac:(unfold small_version; auto) E2) as (_ & -> & -> & -> & ->).
  destruct (entry_facts (Some 3) e3 ltac:(unfold small_version; auto) E3) as (_ & -> & -> & -> & ->). done.
Qed.

Lemma three_batches : batches (config max_bytes) key (place 3) segs logs = three.
Proof.
  unfold batches. rewrite (three_log (Some 1) (Some 2) (Some 3)); unfold small_version; auto.
  destruct facts as ((B1 & B2 & B3) & _). by rewrite !filter_cons_True by done.
Qed.

Lemma three_ordered : in_sequence (config max_bytes) key (mem 3) segs logs.
Proof.
  unfold in_sequence. rewrite mem_place, three_batches. destruct facts as (_ & (V1 & V2 & V3) & _).
  repeat (constructor; [|by repeat constructor; cbn [snd]; rewrite ?V1, ?V2, ?V3]). constructor.
Qed.

Lemma three_range : filter (fun p => from_aggregate_version (ReadFilters_new 1) <= version p) three = three.
Proof. destruct facts as (_ & (V1 & V2 & V3) & _). by rewrite !filter_cons_True by (cbn [snd]; rewrite ?V1, ?V2, ?V3; done). Qed.

Lemma nothing_cached : split_at_cache (config max_bytes) key (get_aggregate_last_metablock_pos (mem 3) key CacheRead) segs logs body (ReadFilters_new 1) empty 0 three [].
Proof. split; [by rewrite mem_place, three_batches, three_range|constructor]. Qed.

Lemma newest_cached : split_at_cache (config max_bytes) key (get_aggregate_last_metablock_pos (mem 3) key CacheRead) segs logs body (ReadFilters_new 1)
  (caching e3) (wal_seq (le_metablock e3)) [(1, e1); (1, e2)] [(1, e3)].
Proof.
  split; [by rewrite mem_place, three_batches, three_range|]. unfold cached_from. rewrite (proj2 (caching_spec e3 E3)).
  destruct facts as (_ & (V1 & V2 & V3) & _). rewrite filter_cons_True by (cbn [rw_metablock]; rewrite V3; done). by constructor.
Qed.

Lemma select_all l : Forall (fun p => p = (1, e1) \/ p = (1, e2) \/ p = (1, e3)) l -> select (ReadFilters_new 1) l = l.
Proof.
  intros Hl. apply filter_every. rewrite Forall_forall in Hl. intros p Hp. destruct facts as (_ & _ & _ & I1 & I2 & I3).
  by destruct (Hl p Hp) as [->|[->| ->]].
Qed.

Lemma select_none : select (ReadFilters_new 1) [] = [].
Proof. done. Qed.

(** Two of them fit into a response. *)
Lemma page_of_two : page (ReadFilters_new 1) three [] (2 * size) = [(1, e1); (1, e2)] /\ page_next (ReadFilters_new 1) three [] (2 * size) = Some 3.
Proof.
  destruct facts as (_ & (_ & _ & V3) & (Z1 & Z2 & Z3) & _).
  assert (Hn : older_len (ReadFilters_new 1) three [] (2 * size) = 2%nat).
  { unfold older_len. rewrite (select_all three), select_none by (repeat constructor; auto). rewrite take_nil. unfold page_len, page_from, batch_size.
    cbn [snd]. rewrite Z1, Z2, Z3. reflexivity. }
  unfold page, page_next. rewrite Hn, (select_all three), select_none, take_nil by (repeat constructor; auto). cbn [take drop app snd]. by rewrite V3.
Qed.

(** With the third in the cache, a response of one batch of each cuts the log. *)
Lemma cut_in_front : drop (older_len (ReadFilters_new 1) [(1, e1); (1, e2)] [(1, e3)] size) (select (ReadFilters_new 1) [(1, e1); (1, e2)]) = [(1, e2)].
Proof.
  destruct facts as (_ & _ & (Z1 & Z2 & Z3) & _). unfold older_len, newer_len.
  rewrite (select_all [(1, e1); (1, e2)]), (select_all [(1, e3)]) by (repeat constructor; auto).
  unfold page_len, page_from, total, batch_size. cbn [take fmap list_fmap snd]. rewrite Z1, Z2, Z3. reflexivity.
Qed.
End ascending.

Definition serve (seg : LogSegmentFile) (max_bytes : Z) (recent : RecentWriteCache) (visible_seq v : Z) (request : ReadRequest) :=
  read 10 (fun l => l) (config max_bytes) (ScanRun.cache_of seg) 1 (1, 6144) recent visible_seq request (mem v).

Definition ask (filters : ReadFilters) : ReadRequest := {| rq_aggregate_key := key; rq_filters := filters |}.

Lemma small_versions : small_version (Some 1) /\ small_version (Some 2) /\ small_version (Some 3) /\ small_version None.
Proof. unfold small_version. split_and!; auto. Qed.
End ReadRun.




Lemma cut_page_repeats_batch_witness : exists seg recent visible_seq first second v,
  ReadRun.serve seg ReadRun.size recent visible_seq 3 (ReadRun.ask (ReadFilters_new 1)) = (ReadRun.mem 3, Done first) /\
  rs_next_aggregate_version first = Some v /\ ReadRun.out 3 ∈ rs_event_batches first /\ v < 3 /\
  ReadRun.serve seg ReadRun.size recent visible_seq 3 (ReadRun.ask (with_from (ReadFilters_new 1) v)) = (ReadRun.mem 3, Done second) /\
  ReadRun.out 3 ∈ rs_event_batches second.
Proof.
  destruct ReadRun.small_versions as (S1 & S2 & S3 & _).
  destruct (ReadRun.three_entries _ _ _ S1 S2 S3) as (seg & e1 & e2 & e3 & Hh & Hr & E1 & E2 & E3).
  pose proof (ReadRun.three_state _ _ _ S1 S2 S3 seg e1 e2 e3 Hh Hr E1 E2 E3 (ReadRun.caching e3) (proj1 (ReadRun.caching_spec e3 E3)) ReadRun.size 3) as Hst.
  pose proof (ReadRun.three_ordered e1 e2 e3 E1 E2 E3 seg Hh Hr ReadRun.size) as Hs.
  pose proof (ReadRun.newest_cached e1 e2 e3 E1 E2 E3 seg Hh Hr ReadRun.size) as Hsplit.
  exists seg, (ReadRun.caching e3), (wal_seq (le_metablock e3)).
  apply (cut_page_repeats_batch _ _ _ _ _ _ _ _ _ _ _ _ _ (ReadFilters_new 1) [(1, e1); (1, e2)] [(1, e3)] (1, e3) [] (ReadRun.out 3) Hst Hs).
  - by rewrite ReadRun.mem_place.
  - exact Hsplit.
  - change (max_response_size _) with ReadRun.size. rewrite (ReadRun.cut_in_front e1 e2 e3 E1 E2 E3). discriminate.
  - apply (ReadRun.select_all e1 e2 e3 E1 E2 E3). apply Forall_cons. split; [auto|apply Forall_nil_2].
  - by apply ReadRun.entry_render.
Defined.

(** The batch of version 2 was there before the deletion, version 1 is new. *)
Lemma deleted_batches_read_again_witness : exists seg response,
  ReadRun.serve seg 1000 ReadRun.empty 0 1 (ReadRun.ask (ReadFilters_new 1)) = (ReadRun.mem 1, Done response) /\
  ReadRun.out 2 ∈ rs_event_batches response /\ rs_next_aggregate_version response = None.
Proof.
  destruct ReadRun.small_versions as (S1 & S2 & _ & S0).
  destruct (ReadRun.three_entries _ _ _ S2 S0 S1) as (seg & e1 & e2 & e3 & Hh & Hr & E1 & E2 & E3). exists seg.
  pose proof (ReadRun.three_state _ _ _ S2 S0 S1 seg e1 e2 e3 Hh Hr E1 E2 E3 ReadRun.empty (new_ok 1000 ltac:(done)) 1000 1) as Hst.
  pose proof (ReadRun.three_log _ _ _ S2 S0 S1 seg e1 e2 e3 Hh Hr E1 E2 E3 1000 1) as Hlog.
  destruct (ReadRun.entry_facts _ _ S2 E1) as (_ & B1 & V1 & Z1 & I1), (ReadRun.entry_facts _ _ S0 E2) as (_ & B2 & _),
    (ReadRun.entry_facts _ _ S1 E3) as (_ & B3 & V3 & Z3 & I3).
  assert (Hb : @batches xxh_low (ReadRun.config 1000) ReadRun.key (ReadRun.place 1) (fun _ => seg) (fun _ => [e1; e2; e3]) = [(1, e1); (1, e3)]).
  { unfold batches. rewrite Hlog. rewrite filter_cons_True by done. rewrite filter_cons_False by (cbn [snd]; by rewrite B2). by rewrite filter_cons_True by done. }
  apply (deleted_batches_read_again _ _ _ _ _ _ _ 0 _ _ _ _ _ _ (ReadFilters_new 1) [(1, e1)] 1 e2 ReadRun.tombstone [(1, e3)] (1, e1) (ReadRun.out 2) Hst).
  - done.
  - by rewrite ReadRun.mem_place.
  - rewrite ReadRun.mem_place. exact Hlog.
  - destruct E2 as [(d & p & w & t & E) _]. by rewrite E.
  - rewrite ReadRun.mem_place, Hb. repeat constructor; cbn [snd]; rewrite ?V1, ?V3; done.
  - rewrite ReadRun.mem_place, Hb. unfold select. rewrite !filter_cons_True by done. unfold total, batch_size. cbn [fmap list_fmap snd].
    rewrite Z1, Z3. done.
  - left.
  - exact B1.
  - exact I1.
  - by apply ReadRun.entry_render.
Defined.
